(* ===== verification/_CoqProject ===== *)
-Q . S2P
Prelude.v
Regex.v
Names.v
Domain.v
TargetSpec.v
Kahn.v
Graph.v
Contract.v
Url.v
Utf8.v
Number.v
Json.v
Sha256.v
Tokens.v
Paths.v
Duration.v
Validate.v
Clone.v
Normalize.v
Wire.v
Documents.v
Codec.v
Sealing.v
Conformance.v
Records.v
Cursors.v
Db.v
Tx.v
Ordered.v
Constraints.v
Auth.v
Delegation.v
Monitoring.v
MonitoringLog.v
Jobs.v
HistoryImport.v
Groups.v
GraphStore.v
Executions.v
Coordinator.v
Agents.v
Targets.v
Lifecycle.v
Progress.v
LifecycleOps.v
LifecycleEvents.v
LifecycleSubmit.v
Frames.v
Announce.v
Delivery.v
EventLog.v
System.v
MonitoringHistory.v
MonitoringReader.v
Credentials.v
AgentRuns.v
CredentialHistory.v
TargetRuns.v
TargetHistory.v
Logs.v
LogDelivery.v
Events.v
Cancellation.v
Dispatch.v
Submission.v
TargetService.v
Snapshots.v
Projection.v
Admission.v
Scenario.v
MonitoringScenario.v
AgentScenario.v
TargetScenario.v
LogScenario.v
