(* ===== verification/Prelude.v ===== *)
(** * Jobman Control: a verification development

    Jobman Control is the shared-mode control plane of Jobman: a Go service that
    accepts jobs over HTTP, keeps them in PostgreSQL, offers them to agents that
    run them, and records what the agents report.  All of its decisions are taken
    inside database transactions of the repository methods under
    [src/internal/store/postgres], guarded by the validators of
    [src/internal/domain] and of the portable contract
    [src/contracts/jobman/v1alpha1].  This development models that core as
    executable functions and proves what makes it correct.

    ** How the program is modelled

    A fallible Go function is a function into [result] ([Prelude.v]).  The
    database is the record [db] of finite maps from primary keys to rows
    ([Db.v]); a repository method is a function in the monad [tx] ([Tx.v]), which
    reads the environment of its transaction ([env]: the three PostgreSQL clocks and
    [time.Now], each read once per transaction, and the rows other transactions have
    locked), threads the database and may fail.  A failing method is rolled back ([inTransaction]), so it
    changes nothing.  The class [Table] holds, per table, the constraints that an
    insert or update must satisfy and its triggers ([Constraints.v]); [INSERT]
    and [UPDATE] are defined and reasoned about once.  Statements appear in the
    order of the source, with its guards and its error values.  Identifiers come
    from a supply in the state ([d_ids]), as the source takes them from
    [crypto/rand].  Integers are [Z]; the bounds the schema puts on stored
    integers are among the constraints.

    ** The files

    - [Prelude.v], [Regex.v]: errors, results, loops, sorting, field updates; the
      regular expressions of the sources with a matcher and its correctness.
    - [Names.v], [Domain.v], [TargetSpec.v]: identifiers, names, roles and
      capabilities, and the document validators of [internal/domain].
    - [Kahn.v], [Graph.v]: dependency edges and cycle detection of
      [contracts/jobman/v1alpha1/validate.go].
    - [Contract.v], [Records.v]: the document types of [types.go] and the request
      and snapshot types of [internal/domain]; the class [Sealer] is what the
      store needs of the contract codec, [SealerLaws] what it promises.
    - [Url.v], [Utf8.v], [Number.v], [Json.v], [Sha256.v]: [net/url.Parse] on the
      URIs the contract accepts, UTF-8, number normalization and canonical JSON
      text of [codec.go] with its parser, and the digest.
    - [Paths.v], [Duration.v], [Validate.v], [Clone.v], [Normalize.v]: the
      validators of [validate.go], [cloneJSON], and [normalize.go].
    - [Wire.v], [Documents.v]: [encoding/json] on structs as a class with its
      laws, and one instance per document type, from the field tags of [types.go].
    - [Codec.v], [Sealing.v], [Conformance.v]: the Seal and Decode functions of
      [codec.go], their laws, and the fixtures of the conformance suite.
    - [Projection.v], [Admission.v]: [internal/contracts/decoder.go] and the
      submissions that [internal/httpapi/api.go] builds from its results.
    - [Db.v], [Tx.v], [Constraints.v]: tables, transactions, constraints, triggers.
    - [Auth.v], [Delegation.v]: [authorization.go], [delegation.go] and
      [monitoring_authorization.go]: namespace authorization, delegated identities and
      the assertion ledger; the registry of delegation keys.
    - [Jobs.v], [HistoryImport.v], [Groups.v], [GraphStore.v]: [jobs.go],
      [history.go], [collections.go], [graphs.go].
    - [Executions.v]: [executions.go], [reconciliation.go].
    - [Coordinator.v]: [coordinator.go].
    - [Tokens.v], [Agents.v], [Targets.v]: the tokens of [store.go], [agents.go]
      with [capabilities.go], and [targets.go].
    - [Cursors.v], [Monitoring.v]: the cursors of the monitoring feed, and
      [monitoring_publisher.go], [monitoring_feed.go] and the publication loop of
      [internal/app/monitoring.go].
    - [Ordered.v], [MonitoringLog.v]: ordered queries; the append-only log that the
      feed table implements, and what publication and pruning do to it.
    - [Lifecycle.v], [Progress.v]: the lifecycle invariant and the order in which
      rows advance, stated on the four lifecycle tables alone.
    - [LifecycleOps.v], [LifecycleEvents.v], [LifecycleSubmit.v], [Frames.v],
      [EventLog.v]: every method keeps the invariant, advances the rows, and
      leaves the other tables alone.
    - [System.v]: the committed calls as a transition system [step] with
      [reachable] states, and the theorems on histories.
    - [Announce.v], [MonitoringHistory.v], [MonitoringReader.v]: the outbox events each
      call of the lifecycle leaves; histories of lifecycle calls, publication and
      pruning, with the log as a history variable; consumers that follow cursors.
    - [Delivery.v]: the redelivery of offered assignments to agents.
    - [Credentials.v], [AgentRuns.v], [CredentialHistory.v]: the invariants of
      enrollment tokens, sessions and capability observations, what each method of
      [Agents.v] does to them, and the theorems on histories of these methods.
    - [TargetRuns.v], [TargetHistory.v], [TargetService.v]: what each method of
      [Targets.v] does to a target, the theorems on histories of these methods,
      and how the methods that submit and offer jobs use targets.
    - [Logs.v], [LogDelivery.v]: [logs.go], the abstract stream of chunks it keeps,
      and the delivery of a log in any order.
    - [Events.v], [Cancellation.v], [Dispatch.v], [Submission.v], [Snapshots.v]:
      the theorems on single methods.
    - [Scenario.v], [MonitoringScenario.v], [AgentScenario.v], [TargetScenario.v],
      [LogScenario.v]: a concrete deployment and histories on it, to which the theorems
      with hypotheses are applied.

    ** What the theorems show

    - Histories: the lifecycle invariant holds in every reachable state, rows only
      advance, one assignment authorizes one launch, cancellation before launch
      wins, the event log of an execution has no gap or duplicate.
    - Events: what a recorded event establishes, replay of a recorded event, the
      exact artifact publication rule.
    - Logs: a stream exposes its chunks without gap or overlap, the chunks of a log
      may arrive in any order and repeatedly, and an execution with a log store
      completes only after its logs.
    - Agents: an enrollment token enrolls one agent, a renewed session or rotated
      certificate never authenticates again, an authenticated agent is the one its
      credential was issued for, an issued session does authenticate, the agent row
      shows the latest observation, and what an agent is handed.
    - Targets: the versions of a target are its revisions without a gap, an update
      is never lost, a revision names one version, what was installed is read back,
      and a retired target serves nothing.
    - Monitoring: the feed implements an append-only log, every job that ends is
      announced exactly once, the publisher empties its queue in order, and a consumer
      that follows its cursors sees every event of its namespaces once.
    - Cancellation and groups: cancelled work stays cancelled, a failed member
      stops a fail-fast collection, the resolution of a graph terminates and is
      complete, collection snapshots agree with their members.
    - Dispatch: the limits hold after every offer, the claim is a least one in the
      order of the fairness cursor, a pass is bounded and counted exactly.
    - Admission: what a successful submission, authorization, placement and
      delegation assertion require, idempotency of submission, and the registry of
      delegation keys: applied as a whole or not at all, and what it revokes.
    - Documents: exact characterisations of the validators of names, identifiers,
      sets, targets, capabilities, logical paths and dependency graphs.
    - Codec: canonical text is a faithful encoding, number normalization keeps
      every number and decides equality of numbers, sealing is idempotent, an
      assignment is bound to the digest of its execution, and which sealed documents
      decode again; the codec keeps the promises the store relies on ([codec_laws]), so
      that the document of an offer names the rows of the offer.  The documents of the
      conformance suite are evaluated to their recorded outcomes and digests.
    - Requests: what decodes is projected without error and passes the validation
      of the store; a decoded graph is acyclic, which the store does not check.

    ** Bounds and fuel

    [resolve_nodes] runs the graph resolution loop with fuel one more than the
    number of waiting jobs; every iteration takes a job out of that phase, and
    [graph_resolution_complete] shows that the fuel never runs out.  The cycle
    check of [Kahn.v] has one unit of fuel per node and the same kind of theorem.
    The loops of [ReconcileAssignments] and [ReconcileStaleExecutions] are bounded
    by the limit in the source.  The JSON parser has fuel [json_fuel], twice the
    length of the text and one more; [decode_fuel] shows that more fuel never changes the result, on any text.

    ** Not modelled

    State-changing repository methods that are not modelled: the memberships and
    grants of [memberships.go], [grants.go], [principal.go] and [bootstrap.go]; the
    directory reconciliation of [directory.go]; and, in [production.go], the policy
    updates and the pruning of retained rows.  None of them writes to the lifecycle
    tables or to the monitoring feed; the theorems on histories admit them through the
    constructors for calls made elsewhere ([step_elsewhere], [feed_elsewhere]), each
    of which states what such a call leaves alone.

    Code that only moves data in or out is left out: the rest of the HTTP handlers
    ([internal/httpapi]), configuration, OIDC token verification, the certificate
    authority, LDAP, the process entry points, the migration runner and the tools
    under [devel].  Concurrency inside PostgreSQL is reduced to what the sources
    rely on: transactions take effect one after another, and [SKIP LOCKED]
    queries see an arbitrary set of locked rows.  Read-only listings and the
    summaries of the monitoring interface are not modelled.  Constraints on the
    format of single text columns are omitted where the callers validate the same
    value first.  A clock that PostgreSQL reads anew for every statement is read once
    per transaction.  Identifiers that PostgreSQL generates come from the same supply
    as those of [crypto/rand]; that an event identifier was not published before is a
    side condition of [feed_step], the step of histories of the feed.  A stored document is kept as the document and the canonical text
    it was given, not as the spelling [jsonb] would return.

    In the codec, a nil slice or map and an empty one are one value; a Go map is a
    finite map, so its iteration order plays no part; an unstable sort is a stable
    one, which differs only on elements that validation rejects as duplicates; the
    raw text of an extension is kept as it was given, and sealing canonicalises
    it.  Timestamps and the sealing of execution events are not modelled. *)
From stdpp Require Export base tactics list gmap strings option sorting.
From Stdlib Require Export ZArith Lia.
From Stdlib Require Ascii.
Export Ascii.AsciiSyntax.
#[export] Set Warnings "-overwriting-delimiting-key".
Delimit Scope char_scope with char.

Declare Scope jobman_scope.
Delimit Scope jobman_scope with jobman.
#[global] Open Scope jobman_scope.
#[global] Open Scope Z_scope.

(** ** Go errors and fallible results *)

(** The sentinel errors of [internal/domain/job.go],
    [internal/domain/diagnostic.go] and [internal/domain/monitoring_events.go], together with the two ways the sources
    build other errors: [errors.New]/[fmt.Errorf] without a wrapped error
    ([Errorf]) and [fmt.Errorf] with a [%w] verb ([Wrapf]). *)
Inductive error :=
  | ErrForbidden
  | ErrAuthorizationUnavailable
  | ErrNotFound
  | ErrIdempotencyConflict
  | ErrConflict
  | ErrInvalidPlacement
  | ErrUnauthenticated
  | ErrQuotaExceeded
  | ErrFeatureUnavailable
  | ErrEventCursorExpired
  | ErrEventRecoveryChanged
  | ErrEventScopeChanged
  | ErrEventCursorInvalid
  | Errorf (format : string) (args : list string)
  | Wrapf (format : string) (args : list string) (err : error).

#[export] Instance error_eq_dec : EqDecision error.
Proof. solve_decision. Defined.

(** [errors.Is]: walk the chain of wrapped errors. *)
Fixpoint errors_Is (err target : error) : bool :=
  bool_decide (err = target) ||
  match err with
  | Wrapf _ _ inner => errors_Is inner target
  | _ => false
  end.

(** The Go pair [(T, error)], of which exactly one half is meaningful. *)
Inductive result (A : Type) :=
  | Ok (a : A)
  | Err (e : error).
Arguments Ok {A} a.
Arguments Err {A} e.

#[export] Instance result_ret : MRet result := λ A a, Ok a.
#[export] Instance result_bind : MBind result := λ A B f m,
  match m with Ok a => f a | Err e => Err e end.
#[export] Instance result_fmap : FMap result := λ A B f m,
  match m with Ok a => Ok (f a) | Err e => Err e end.

Definition is_ok {A} (r : result A) : bool :=
  match r with Ok _ => true | Err _ => false end.

(** [if cond { return err }]: the guard clauses of the sources. *)
Definition fail_if (cond : bool) (e : error) : result unit :=
  if cond then Err e else Ok tt.

(** [if err := r; err != nil { return fmt.Errorf(format, args, err) }] *)
Definition wrap {A} (format : string) (args : list string) (r : result A) : result A :=
  match r with Ok a => Ok a | Err e => Err (Wrapf format args e) end.

(** [for _, x := range l { s, err = f(s, x); if err != nil { return err } }] *)
Fixpoint for_range {S A} (f : S → A → result S) (s : S) (l : list A) : result S :=
  match l with
  | [] => Ok s
  | x :: l => s' ← f s x; for_range f s' l
  end.

(** The same loop without an accumulator. *)
Definition for_each {A} (f : A → result unit) (l : list A) : result unit :=
  for_range (λ _, f) tt l.

(** ** Go strings, slices and integers *)

(** Go strings are byte strings; [len] counts bytes. *)
Definition len (s : string) : Z := Z.of_nat (String.length s).
Definition slice_len {A} (l : list A) : Z := Z.of_nat (length l).

(** [strings.ContainsRune(s, 0)]: a NUL byte is present. *)
Fixpoint contains_byte (c : Ascii.ascii) (s : string) : bool :=
  match s with
  | EmptyString => false
  | String d s => bool_decide (c = d) || contains_byte c s
  end.
Definition contains_nul : string → bool := contains_byte Ascii.zero.

Definition slices_Contains (l : list string) (v : string) : bool := bool_decide (v ∈ l).

(** [strings.Compare(a, b) <= 0] and [slices.IsSorted] / [slices.IsSortedFunc]
    on the key the comparison function inspects. *)
Fixpoint is_sorted_by {A} (key : A → string) (l : list A) : bool :=
  match l with
  | x :: ((y :: _) as l') => bool_decide (String.le (key x) (key y)) && is_sorted_by key l'
  | _ => true
  end.
Definition slices_IsSorted : list string → bool := is_sorted_by id.

(** [slices.Sort] / [sort.Strings]. *)
Definition sort_strings : list string → list string := merge_sort String.le.

(** [math.MaxInt64] and the [int64] range of the Go [int]/[int64] and of the
    PostgreSQL [bigint] columns. *)
Definition max_int64 : Z := 9223372036854775807.
Definition min_int64 : Z := -9223372036854775808.
Definition int64_range (z : Z) : Prop := min_int64 ≤ z ≤ max_int64.

(** Two's-complement wrap-around of [int64] arithmetic. *)
Definition wrap64 (z : Z) : Z := (z + 2 ^ 63) mod 2 ^ 64 - 2 ^ 63.

(** ** Record updates *)

(** [r <| f := v |>] is [r] with field [f] set to [v], the model's counterpart of
    a Go field assignment or of a column in an SQL [SET] clause; [f ::= g] applies
    [g] to the old value.  A record type opts in with an instance of [Settable]
    that rebuilds a value from its projections. *)
Class Settable (R : Type) := rebuild : R → R.
Class Setter {R E : Type} (proj : R → E) := set : (E → E) → R → R.
Arguments set {R E} proj {_} _ _ : simpl nomatch.

Ltac derive_setter R E proj :=
  let eta := constr:(_ : Settable R) in
  let eta := eval cbv delta [rebuild] in eta in
  let eta := lazymatch eta with
             | fun r => _ => eta
             | _ => let e := eval hnf in eta in e
             end in
  let eta := eval pattern proj in eta in
  lazymatch eta with
  | ?f proj => let t := eval cbv beta in (fun (g : E → E) (r : R) => f (fun x : R => g (proj x)) r) in exact t
  end.
#[export] Hint Extern 1 (@Setter ?R ?E ?proj) => derive_setter R E proj : typeclass_instances.

Declare Custom Entry field_update.
Notation "proj := v" := (set proj (λ _, v))
  (in custom field_update at level 1, proj constr at level 1, v constr at level 99).
Notation "proj ::= g" := (set proj g)
  (in custom field_update at level 1, proj constr at level 1, g constr at level 99).
Notation "r <| u |>" := (u r)
  (at level 1, u custom field_update at level 1, left associativity) : jobman_scope.
Notation "r <| u ; .. ; v ; w |>" := (w (v .. (u r) ..))
  (at level 1, u custom field_update at level 1, v custom field_update at level 1,
   w custom field_update at level 1, left associativity) : jobman_scope.

(** ** Lemmas on results and loops *)

Section results.
Context {A B : Type}.

Lemma bind_ok (m : result A) (f : A → result B) b :
  m ≫= f = Ok b ↔ ∃ a, m = Ok a ∧ f a = Ok b.
Proof. destruct m; cbn; naive_solver. Qed.

Lemma bind_unit_ok (m : result unit) (k : unit → result B) b :
  m ≫= k = Ok b ↔ m = Ok tt ∧ k tt = Ok b.
Proof. destruct m as [[]|]; cbn; naive_solver. Qed.

Lemma bind_discard_ok (m : result A) (k : result B) b :
  m ≫= (λ _, k) = Ok b ↔ (∃ a, m = Ok a) ∧ k = Ok b.
Proof. destruct m; cbn; naive_solver. Qed.

Lemma fail_if_ok c e (u : unit) : fail_if c e = Ok u ↔ c = false.
Proof. destruct c, u; cbn; naive_solver. Qed.

Lemma bind_fail_if c e (k : unit → result B) : c = false → fail_if c e ≫= k = k tt.
Proof. by intros ->. Qed.

Lemma wrap_ok f args (r : result A) a : wrap f args r = Ok a ↔ r = Ok a.
Proof. destruct r; cbn; naive_solver. Qed.

Lemma is_ok_spec (r : result A) : is_ok r = true ↔ ∃ a, r = Ok a.
Proof. destruct r; cbn; naive_solver. Qed.
End results.

Section loops.
Context {S A : Type} (f : S → A → result S).

Lemma for_range_app s l1 l2 :
  for_range f s (l1 ++ l2) = (s' ← for_range f s l1; for_range f s' l2).
Proof.
  revert s; induction l1 as [|x l1 IH]; intros s; cbn; [done|].
  destruct (f s x); cbn; [apply IH|done].
Qed.

(** Loop invariants: [I] relates the elements seen so far and the state. *)
Lemma for_range_invariant (I : list A → S → Prop) l s s' :
  I [] s →
  (∀ seen x rest t t', l = seen ++ x :: rest → I seen t → f t x = Ok t' → I (seen ++ [x]) t') →
  for_range f s l = Ok s' → I l s'.
Proof.
  intros H0 Hstep.
  cut (∀ seen rest t, l = seen ++ rest → I seen t → for_range f t rest = Ok s' → I l s').
  { intros Hcut. by apply (Hcut [] l s). }
  intros seen rest; revert seen; induction rest as [|x rest IH]; intros seen t -> HI Hrun; cbn in *.
  - rewrite app_nil_r. by simplify_eq.
  - destruct (f t x) as [t'|e] eqn:Hf; cbn in Hrun; [|done].
    apply (IH (seen ++ [x]) t'); [by rewrite <-app_assoc| |done].
    by eapply Hstep.
Qed.
End loops.

Lemma for_each_ok {A} (f : A → result unit) l u :
  for_each f l = Ok u ↔ Forall (λ x, f x = Ok tt) l.
Proof.
  unfold for_each. destruct u. induction l as [|x l IH]; cbn; [by split|].
  rewrite Forall_cons, <-IH. destruct (f x) as [[]|]; cbn; naive_solver.
Qed.

(** ** Lemmas on strings and sorting *)

Lemma slices_Contains_spec l v : slices_Contains l v = true ↔ v ∈ l.
Proof. apply bool_decide_eq_true. Qed.

Lemma is_sorted_by_spec {A} (key : A → string) (l : list A) :
  is_sorted_by key l = true ↔ Sorted (λ x y, String.le (key x) (key y)) l.
Proof.
  induction l as [|x [|y l] IH].
  - split; auto using Sorted_nil.
  - split; auto using Sorted_cons, Sorted_nil.
  - change (is_sorted_by key (x :: y :: l)) with
      (bool_decide (String.le (key x) (key y)) && is_sorted_by key (y :: l)).
    rewrite andb_true_iff, IH, bool_decide_eq_true. split.
    + intros [??]. constructor; [done|by constructor].
    + inversion 1 as [|?? ? Hhd]; subst. by inversion Hhd.
Qed.

Lemma sort_strings_sorted l : StronglySorted String.le (sort_strings l).
Proof. apply StronglySorted_merge_sort; apply _. Qed.

Lemma sort_strings_perm l : sort_strings l ≡ₚ l.
Proof. apply merge_sort_Permutation. Qed.

Lemma elem_of_sort_strings v l : v ∈ sort_strings l ↔ v ∈ l.
Proof. by rewrite sort_strings_perm. Qed.

(** Sorting is idempotent, and a function of the multiset only. *)
Lemma sort_strings_ext l1 l2 : l1 ≡ₚ l2 → sort_strings l1 = sort_strings l2.
Proof.
  intros Hp. apply (StronglySorted_unique String.le); [apply sort_strings_sorted..|].
  by rewrite !sort_strings_perm.
Qed.

Lemma sort_strings_sorted_id l : Sorted String.le l → sort_strings l = l.
Proof.
  intros Hs. apply (StronglySorted_unique String.le);
    [apply sort_strings_sorted| |apply sort_strings_perm].
  apply Sorted_StronglySorted; [apply _|done].
Qed.

Lemma wrap64_id z : int64_range z → wrap64 z = z.
Proof.
  unfold int64_range, min_int64, max_int64, wrap64. intros.
  rewrite Z.mod_small; lia.
Qed.

Section filters.
Context {A : Type} (P : A → Prop) `{!∀ x, Decision (P x)}.
Lemma filter_all (l : list A) : (∀ x, x ∈ l → P x) → filter P l = l.
Proof.
  induction l as [|x l IH]; intros Hl; [done|]. rewrite filter_cons_True by (apply Hl; set_solver). f_equal. apply IH. set_solver.
Qed.
Lemma filter_none (l : list A) : (∀ x, x ∈ l → ¬ P x) → filter P l = [].
Proof.
  induction l as [|x l IH]; intros Hl; [done|]. rewrite filter_cons_False by (apply Hl; set_solver). apply IH. set_solver.
Qed.

(** Elements satisfying [P] come first: filtering takes a prefix. *)
Fixpoint take_while (l : list A) : list A := match l with [] => [] | x :: l => if decide (P x) then x :: take_while l else [] end.
Lemma take_while_prefix l : take_while l = take (length (take_while l)) l.
Proof. induction l as [|x l IH]; cbn; [done|]. case_decide; cbn; [by f_equal|done]. Qed.
Lemma take_while_all l : Forall P (take_while l).
Proof. induction l as [|x l IH]; cbn; [constructor|]. case_decide; by constructor. Qed.
Lemma take_while_next l x : l !! length (take_while l) = Some x → ¬ P x.
Proof. induction l as [|y l IH]; cbn; [done|]. case_decide; cbn; [done|]. by intros [= <-]. Qed.
Lemma filter_take_while (R : A → A → Prop) l : (∀ x y, R x y → P y → P x) → StronglySorted R l → filter P l = take_while l.
Proof.
  intros HR. induction 1 as [|x l _ IH Hx]; [done|]. rewrite filter_cons. cbn. case_decide as Hd; [by f_equal|].
  apply filter_none. intros y Hy Hp. apply Hd. rewrite Forall_forall in Hx. by eapply HR; [apply Hx|].
Qed.
End filters.

(** ** Duplicate detection in loops *)

(** Strictly increasing: sorted without repetition. *)
Definition strictly_sorted : list string → Prop :=
  StronglySorted (λ x y, String.le x y ∧ x ≠ y).

Lemma strictly_sorted_NoDup l : strictly_sorted l → NoDup l.
Proof.
  induction 1 as [|x l _ IH Hx]; constructor; [|done].
  intros Hin. rewrite Forall_forall in Hx. by destruct (Hx x Hin).
Qed.

Lemma strictly_sorted_alt l :
  strictly_sorted l ↔ StronglySorted String.le l ∧ NoDup l.
Proof.
  split.
  - intros Hs. split; [|by apply strictly_sorted_NoDup].
    induction Hs as [|x l _ IH Hx]; constructor; [done|].
    eapply Forall_impl; [done|]. naive_solver.
  - intros [Hs Hn]. induction Hs as [|x l _ IH Hx]; [constructor|].
    inversion Hn; subst. constructor; [by apply IH|].
    rewrite !Forall_forall in *. intros y Hy. split; [by apply Hx|]. by intros ->.
Qed.

(** A loop that remembers the previous key and rejects an equal neighbour
    establishes, on sorted input, that all keys are distinct. *)
Section adjacent.
Context {A : Type} (key : A → string) (P : A → Prop).
Context (f : option string → A → result (option string)).
Hypothesis f_spec : ∀ prev x r,
  f prev x = Ok r ↔ P x ∧ prev ≠ Some (key x) ∧ r = Some (key x).

Lemma for_range_adjacent_from prev l :
  StronglySorted String.le (option_list prev ++ (key <$> l)) →
  (∃ r, for_range f prev l = Ok r) ↔ Forall P l ∧ strictly_sorted (option_list prev ++ (key <$> l)).
Proof using f_spec.
  revert prev; induction l as [|x l IH]; intros prev Hs; cbn.
  - rewrite app_nil_r in *. split; [|by eauto]. intros _. split; [constructor|].
    destruct prev; repeat constructor.
  - assert (StronglySorted String.le (option_list (Some (key x)) ++ (key <$> l))) as Hs'.
    { cbn. destruct prev; cbn in Hs; [by inversion Hs|done]. }
    rewrite Forall_cons. setoid_rewrite bind_ok. setoid_rewrite f_spec. split.
    + intros (r & a & (HP & Hne & ->) & Hr). destruct (IH (Some (key x)) Hs') as [IH1 _].
      destruct IH1 as [Hall Hst]; [by eauto|]. split; [done|].
      destruct prev as [q|]; cbn in *; [|done]. constructor; [done|].
      inversion Hs as [|? ? ? Hq]; subst. rewrite !Forall_forall in *.
      intros y Hy. split; [by apply Hq|]. intros ->. apply Hne. f_equal.
      apply (anti_symm String.le); [by apply Hq; left|].
      apply elem_of_cons in Hy as [->|Hy]; [done|].
      inversion Hst as [|? ? ? Hx]; subst. rewrite Forall_forall in Hx. by apply Hx.
    + intros [[HP Hall] Hst]. destruct (IH (Some (key x)) Hs') as [_ IH2].
      destruct IH2 as [r Hr]; [split; [done|]; destruct prev; cbn in *; [by inversion Hst|done]|].
      exists r, (Some (key x)). split_and!; [done| |done|done]. intros ->.
      inversion Hst as [|? ? ? Hq]; subst. rewrite Forall_forall in Hq.
      destruct (Hq (key x)) as [_ []]; [by left|done].
Qed.

Lemma for_range_adjacent l :
  StronglySorted String.le (key <$> l) →
  (∃ r, for_range f None l = Ok r) ↔ Forall P l ∧ NoDup (key <$> l).
Proof using f_spec.
  intros Hs. rewrite (for_range_adjacent_from None) by done. cbn.
  rewrite strictly_sorted_alt. naive_solver.
Qed.
End adjacent.

(** A loop that keeps the set of keys it has seen and rejects a repetition
    accepts exactly the lists whose elements pass and whose keys are distinct. *)
Section seen.
Context {A : Type} (key : A → string) (P : A → Prop).
Context (f : gset string → A → result (gset string)).
Hypothesis f_spec : ∀ seen x r,
  f seen x = Ok r ↔ P x ∧ (key x ∉ seen) ∧ r = {[key x]} ∪ seen.

Lemma for_range_seen_from seen l r :
  for_range f seen l = Ok r ↔
  Forall P l ∧ NoDup (key <$> l) ∧ (∀ k, k ∈ (key <$> l) → k ∉ seen) ∧
  r = list_to_set (key <$> l) ∪ seen.
Proof using f_spec.
  revert seen; induction l as [|x l IH]; intros seen; cbn.
  - split; [intros [= ->]; split_and!; [done|constructor|set_solver|set_solver]|].
    intros (_ & _ & _ & ->). f_equal. set_solver.
  - rewrite bind_ok. setoid_rewrite f_spec. setoid_rewrite IH. rewrite Forall_cons, NoDup_cons. split.
    + intros (a & (HP & Hx & ->) & Hall & Hnd & Hk & ->). split_and!; try done; [..|set_solver].
      * intros Hin. by apply (Hk _ Hin), elem_of_union_l, elem_of_singleton.
      * intros k [->|Hin]%elem_of_cons; [done|]. specialize (Hk k Hin). set_solver.
    + intros ([HP Hall] & [Hx Hnd] & Hk & ->). eexists; split; [split_and!; [done| |reflexivity]|].
      * apply Hk. by left.
      * split_and!; [done|done| |set_solver]. intros k Hin.
        assert (k ∉ seen) by (apply Hk; by right). set_solver.
Qed.

Lemma for_range_seen l :
  (∃ r, for_range f ∅ l = Ok r) ↔ Forall P l ∧ NoDup (key <$> l).
Proof using f_spec.
  setoid_rewrite for_range_seen_from. split; [naive_solver|].
  intros [??]. eexists. split_and!; [done|done|set_solver|done].
Qed.
End seen.

(** ** Automation *)

(** Invert a successful run of a monadic validator: every bind succeeded, every
    guard was false. *)
Ltac res_step :=
  match goal with
  | H : (?m ≫= ?f) = Ok _ |- _ => apply bind_ok in H as (? & ? & ?)
  | H : fail_if _ _ = Ok _ |- _ => apply fail_if_ok in H
  | H : wrap _ _ _ = Ok _ |- _ => apply wrap_ok in H
  | H : for_each _ _ = Ok _ |- _ => apply for_each_ok in H
  | H : Ok _ = Ok _ |- _ => injection H as H
  | H : Err _ = Ok _ |- _ => discriminate H
  | H : Ok _ = Err _ |- _ => discriminate H
  | x : unit |- _ => destruct x
  | H : (_ || _) = false |- _ => apply orb_false_iff in H as [??]
  | H : (_ && _) = true |- _ => apply andb_true_iff in H as [??]
  | H : negb _ = false |- _ => apply negb_false_iff in H
  | H : negb _ = true |- _ => apply negb_true_iff in H
  | H : bool_decide _ = true |- _ => apply bool_decide_eq_true in H
  | H : bool_decide _ = false |- _ => apply bool_decide_eq_false in H
  | H : slices_Contains _ _ = true |- _ => apply slices_Contains_spec in H
  end.
Ltac res_inv := repeat res_step.

(** Turn the success of a chain of guards into the conjunction of what they check. *)
Ltac chain_iff :=
  repeat first
    [ progress cbv beta
    | rewrite bind_unit_ok
    | rewrite bind_discard_ok
    | rewrite fail_if_ok
    | rewrite wrap_ok ].

Create HintDb jobman discriminated.
#[export] Hint Resolve sort_strings_sorted sort_strings_perm : jobman.
Create Rewrite HintDb jobman_rw.
#[export] Hint Rewrite @bind_ok @wrap_ok fail_if_ok @for_each_ok : jobman_rw.
