(* ===== verification/Regex.v ===== *)
(** * Regular expressions

    The sources compile anchored RE2 patterns with [regexp.MustCompile] and use
    them only through [MatchString].  For a pattern of the form [^...$] that is
    membership of the whole byte string in the language of the body, which is
    what this file defines: the syntax the patterns use, its denotation, and an
    executable matcher by derivatives that is proved to decide it.  All the
    character classes of the sources are ASCII, so matching bytes and matching
    runes agree: a byte above 127 is in none of them. *)
From S2P Require Import Prelude.
From stdpp Require Import list.

Abbreviation byte_string := (list Ascii.ascii).

(** [r{m,n}] is primitive; [r?] is [RRep r 0 1] and [r+] is [RSeq r (RStar r)]. *)
Inductive regex :=
  | REmpty
  | REps
  | RClass (p : Ascii.ascii → bool)
  | RSeq (r1 r2 : regex)
  | RAlt (r1 r2 : regex)
  | RStar (r : regex)
  | RRep (r : regex) (m n : nat).

(** ** Denotation *)

Inductive matches : regex → byte_string → Prop :=
  | MEps : matches REps []
  | MClass p c : p c = true → matches (RClass p) [c]
  | MSeq r1 r2 s1 s2 : matches r1 s1 → matches r2 s2 → matches (RSeq r1 r2) (s1 ++ s2)
  | MAltL r1 r2 s : matches r1 s → matches (RAlt r1 r2) s
  | MAltR r1 r2 s : matches r2 s → matches (RAlt r1 r2) s
  | MStarNil r : matches (RStar r) []
  | MStarCons r s1 s2 : matches r s1 → matches (RStar r) s2 → matches (RStar r) (s1 ++ s2)
  | MRepNil r n : matches (RRep r 0 n) []
  | MRepCons r m n s1 s2 :
      matches r s1 → matches (RRep r (pred m) n) s2 → matches (RRep r m (S n)) (s1 ++ s2).

(** ** The matcher *)

Fixpoint nullable (r : regex) : bool :=
  match r with
  | REmpty | RClass _ => false
  | REps | RStar _ => true
  | RSeq r1 r2 => nullable r1 && nullable r2
  | RAlt r1 r2 => nullable r1 || nullable r2
  | RRep r m n => bool_decide (m = 0%nat) || (nullable r && bool_decide (m ≤ n)%nat)
  end.

Fixpoint deriv (c : Ascii.ascii) (r : regex) : regex :=
  match r with
  | REmpty | REps => REmpty
  | RClass p => if p c then REps else REmpty
  | RSeq r1 r2 =>
      if nullable r1 then RAlt (RSeq (deriv c r1) r2) (deriv c r2)
      else RSeq (deriv c r1) r2
  | RAlt r1 r2 => RAlt (deriv c r1) (deriv c r2)
  | RStar r => RSeq (deriv c r) (RStar r)
  | RRep r m n =>
      match n with
      | O => REmpty
      | S n => RSeq (deriv c r) (RRep r (pred m) n)
      end
  end.

Fixpoint match_bytes (r : regex) (s : byte_string) : bool :=
  match s with
  | [] => nullable r
  | c :: s => match_bytes (deriv c r) s
  end.

(** [regexp.MustCompile("^...$").MatchString(s)] *)
Definition MatchString (r : regex) (s : string) : bool :=
  match_bytes r (String.list_ascii_of_string s).

(** ** Character classes *)

Definition in_range (lo hi c : Ascii.ascii) : bool :=
  bool_decide (Ascii.N_of_ascii lo ≤ Ascii.N_of_ascii c ≤ Ascii.N_of_ascii hi)%N.
Definition is_lower : Ascii.ascii → bool := in_range "a"%char "z"%char.
Definition is_upper : Ascii.ascii → bool := in_range "A"%char "Z"%char.
Definition is_digit : Ascii.ascii → bool := in_range "0"%char "9"%char.
Definition is_one_of (l : list Ascii.ascii) (c : Ascii.ascii) : bool := bool_decide (c ∈ l).
Definition RChar (c : Ascii.ascii) : regex := RClass (λ d, bool_decide (c = d)).
Definition ROpt (r : regex) : regex := RRep r 0 1.
Definition RPlus (r : regex) : regex := RSeq r (RStar r).
Fixpoint RLit (s : string) : regex :=
  match s with
  | EmptyString => REps
  | String c EmptyString => RChar c
  | String c s => RSeq (RChar c) (RLit s)
  end.

(** ** Correctness of the matcher *)

Lemma matches_rep_nil r m n : (m ≤ n)%nat → matches r [] → matches (RRep r m n) [].
Proof.
  intros Hmn Hr. revert m Hmn; induction n as [|n IH]; intros m Hmn.
  - replace m with 0%nat by lia. constructor.
  - change [] with ([] ++ [] : byte_string). constructor; [done|]. apply IH. lia.
Qed.

Lemma nullable_sound r : nullable r = true → matches r [].
Proof.
  induction r as [| | |r1 IH1 r2 IH2|r1 IH1 r2 IH2|r IH|r IH m n]; cbn; intros Hn; try done.
  - constructor.
  - apply andb_true_iff in Hn as [??].
    change [] with ([] ++ [] : byte_string). constructor; auto.
  - apply orb_true_iff in Hn as [?|?]; [apply MAltL|apply MAltR]; auto.
  - constructor.
  - apply orb_true_iff in Hn as [->%bool_decide_eq_true|Hn]; [constructor|].
    apply andb_true_iff in Hn as [? ?%bool_decide_eq_true]. auto using matches_rep_nil.
Qed.

Lemma nullable_complete r : matches r [] → nullable r = true.
Proof.
  intros Hm. remember [] as s eqn:Hs. induction Hm; simplify_eq/=; try done.
  - apply app_eq_nil in Hs as [-> ->]. by rewrite IHHm1, IHHm2.
  - by rewrite IHHm.
  - rewrite IHHm by done. apply orb_true_r.
  - apply app_eq_nil in Hs as [-> ->]. rewrite IHHm1 by done.
    specialize (IHHm2 eq_refl). rewrite orb_true_iff, ?andb_true_iff, ?bool_decide_eq_true in IHHm2 |- *.
    destruct IHHm2 as [?|[??]]; [|right; split; [done|lia]]. destruct m; [by left|right].
    split; [done|lia].
Qed.

Lemma nullable_spec r : nullable r = true ↔ matches r [].
Proof. split; [apply nullable_sound|apply nullable_complete]. Qed.

Lemma deriv_sound c r s : matches (deriv c r) s → matches r (c :: s).
Proof.
  revert s; induction r as [| |p|r1 IH1 r2 IH2|r1 IH1 r2 IH2|r IH|r IH m n]; cbn; intros s Hm.
  - inversion Hm.
  - inversion Hm.
  - destruct (p c) eqn:Hp; inversion Hm; subst. by constructor.
  - destruct (nullable r1) eqn:Hn.
    + inversion Hm as [| | |r1' r2' s' Hl|r1' r2' s' Hr| | | |]; subst.
      * inversion Hl; subst. rewrite app_comm_cons. constructor; auto.
      * change (c :: s) with ([] ++ c :: s). constructor; auto using nullable_sound.
    + inversion Hm; subst. rewrite app_comm_cons. constructor; auto.
  - inversion Hm; subst; [apply MAltL|apply MAltR]; auto.
  - inversion Hm; subst. rewrite app_comm_cons. constructor; auto.
  - destruct n as [|n]; inversion Hm; subst. rewrite app_comm_cons. constructor; auto.
Qed.

(** A repetition with an empty first factor is a repetition with that factor
    moved to the end, so some factor can be taken to start the word. *)
Lemma matches_rep_head c r m n s :
  matches (RRep r m n) (c :: s) →
  ∃ n' s1 s2, n = S n' ∧ s = s1 ++ s2 ∧ matches r (c :: s1) ∧ matches (RRep r (pred m) n') s2.
Proof.
  revert m; induction n as [|n IH]; intros m Hm; inversion Hm as [| | | | | | | |r' m' n' s1 s2 H1 H2 Heq]; subst.
  destruct s1 as [|d s1]; simplify_eq/=.
  - destruct (IH _ H2) as (n' & s1 & s3 & -> & -> & Hs1 & Hs3).
    exists (S n'), s1, s3. repeat split; [done|].
    change s3 with ([] ++ s3). by constructor.
  - by exists n, s1, s2.
Qed.

Lemma matches_star_head c r s :
  matches (RStar r) (c :: s) →
  ∃ s1 s2, s = s1 ++ s2 ∧ matches r (c :: s1) ∧ matches (RStar r) s2.
Proof.
  intros Hm. remember (RStar r) as t eqn:Ht. remember (c :: s) as w eqn:Hw.
  revert c s Ht Hw. induction Hm as [| | | | | |r' s1 s2 H1 _ H2 IH2| |]; intros c0 s0 Ht Hw; simplify_eq.
  destruct s1 as [|d s1]; simplify_eq/=; [by eapply IH2|by eauto].
Qed.

Lemma deriv_complete c r s : matches r (c :: s) → matches (deriv c r) s.
Proof.
  revert s; induction r as [| |p|r1 IH1 r2 IH2|r1 IH1 r2 IH2|r IH|r IH m n]; cbn; intros s Hm.
  - inversion Hm.
  - inversion Hm.
  - inversion Hm as [|? ? Hp| | | | | | |]; subst. rewrite Hp. constructor.
  - inversion Hm as [| |? ? s1 s2 H1 H2 Heq| | | | | |]; subst.
    destruct s1 as [|d s1]; simplify_eq/=.
    + rewrite (nullable_complete r1 H1). by apply MAltR, IH2.
    + apply IH1 in H1. destruct (nullable r1); [apply MAltL|]; by constructor.
  - inversion Hm; subst; [apply MAltL|apply MAltR]; auto.
  - apply matches_star_head in Hm as (s1 & s2 & -> & H1 & H2). constructor; auto.
  - apply matches_rep_head in Hm as (n' & s1 & s2 & -> & -> & H1 & H2). constructor; auto.
Qed.

Theorem match_bytes_correct r s : match_bytes r s = true ↔ matches r s.
Proof.
  revert r; induction s as [|c s IH]; intros r; cbn; [apply nullable_spec|].
  rewrite IH. split; [apply deriv_sound|apply deriv_complete].
Qed.

Lemma MatchString_correct r s :
  MatchString r s = true ↔ matches r (String.list_ascii_of_string s).
Proof. apply match_bytes_correct. Qed.

(** ** Shapes of the languages the patterns use *)

Lemma matches_class p s : matches (RClass p) s ↔ ∃ c, s = [c] ∧ p c = true.
Proof. split; [inversion 1; subst; eauto|]. intros (c & -> & ?). by constructor. Qed.

Lemma matches_seq r1 r2 s :
  matches (RSeq r1 r2) s ↔ ∃ s1 s2, s = s1 ++ s2 ∧ matches r1 s1 ∧ matches r2 s2.
Proof. split; [inversion 1; subst; eauto|]. intros (s1 & s2 & -> & ? & ?). by constructor. Qed.

Lemma matches_alt r1 r2 s : matches (RAlt r1 r2) s ↔ matches r1 s ∨ matches r2 s.
Proof. split; [inversion 1; subst; eauto|]. intros [?|?]; [by apply MAltL|by apply MAltR]. Qed.

Lemma matches_opt r s : matches (ROpt r) s ↔ s = [] ∨ matches r s.
Proof.
  unfold ROpt. split.
  - inversion 1 as [| | | | | | | |? ? ? s1 s2 H1 H2]; subst; [by left|].
    inversion H2; subst. right. by rewrite app_nil_r.
  - intros [->|?]; [constructor|]. rewrite <-(app_nil_r s). constructor; [done|constructor].
Qed.

Lemma matches_rep_class p m n s :
  matches (RRep (RClass p) m n) s ↔ (m ≤ length s ≤ n)%nat ∧ Forall (λ c, p c = true) s.
Proof.
  revert m s; induction n as [|n IH]; intros m s.
  - split; [inversion 1; subst; by split|].
    intros [[??] ?]. destruct s; cbn in *; [|lia]. replace m with 0%nat by lia. constructor.
  - split.
    + inversion 1 as [| | | | | | | |? ? ? s1 s2 H1 H2]; subst; [by cbn; split; [lia|]|].
      apply matches_class in H1 as (c & -> & Hc). apply IH in H2 as [??].
      cbn. split; [lia|by constructor].
    + intros [[??] Hall]. destruct s as [|c s]; cbn in *.
      * replace m with 0%nat by lia. constructor.
      * inversion Hall; subst. change (c :: s) with ([c] ++ s).
        constructor; [by constructor|]. apply IH. split; [lia|done].
Qed.

Lemma matches_star_class p s :
  matches (RStar (RClass p)) s ↔ Forall (λ c, p c = true) s.
Proof.
  split.
  - intros Hm. remember (RStar (RClass p)) as r eqn:Hr.
    induction Hm as [| | | | | |r' s1 s2 H1 _ H2 IH2| |]; simplify_eq; [constructor|].
    apply matches_class in H1 as (c & -> & ?). constructor; auto.
  - induction 1 as [|c s ? ? IH]; [constructor|].
    change (c :: s) with ([c] ++ s). constructor; [by constructor|done].
Qed.

Lemma matches_lit (w : string) s :
  matches (RLit w) s ↔ s = String.list_ascii_of_string w.
Proof.
  revert s; induction w as [|c w IH]; intros s; cbn.
  - split; [by inversion 1|intros ->; constructor].
  - assert (∀ t, matches (RChar c) t ↔ t = [c]) as Hc.
    { intros t. unfold RChar. rewrite matches_class. setoid_rewrite bool_decide_eq_true.
      split; [by intros (? & -> & ->)|intros ->; eauto]. }
    destruct w as [|d w]; [by rewrite Hc|].
    rewrite matches_seq. setoid_rewrite Hc. setoid_rewrite IH.
    split; [by intros (? & ? & -> & -> & ->)|intros ->; by exists [c], (String.list_ascii_of_string (String d w))].
Qed.

#[export] Hint Rewrite matches_class matches_seq matches_alt matches_opt
  matches_rep_class matches_star_class matches_lit : jobman_rw.
