(* ===== verification/Names.v ===== *)
(** * Names, identifiers and the validation patterns

    The regular expressions of [internal/domain/target.go] and
    [contracts/jobman/v1alpha1/validate.go], resource names, UUID identifiers
    ([internal/domain/id.go]) and idempotency keys
    ([internal/domain/validation.go]), with exact characterisations of what each
    accepts. *)
From S2P Require Import Prelude Regex.

Definition is_alnum_lower (c : Ascii.ascii) : bool := is_lower c || is_digit c.
Definition is_name_inner (c : Ascii.ascii) : bool :=
  is_lower c || is_digit c || is_one_of ["."%char; "_"%char; "-"%char] c.
Definition is_hex (c : Ascii.ascii) : bool := is_digit c || in_range "a"%char "f"%char c.

(** ** Patterns of [internal/domain/target.go] *)

(** [^[a-z0-9](?:[a-z0-9._-]{0,126}[a-z0-9])?$] *)
Definition portableNamePattern : regex :=
  RSeq (RClass is_alnum_lower)
    (ROpt (RSeq (RRep (RClass is_name_inner) 0 126) (RClass is_alnum_lower))).

(** [^sha256:[0-9a-f]{64}$], declared by both packages. *)
Definition digestPattern : regex :=
  RSeq (RLit "sha256:") (RRep (RClass is_hex) 64 64).

(** [^[a-z]([a-z0-9._-]{0,62}[a-z0-9])?$] *)
Definition logStorePattern : regex :=
  RSeq (RClass is_lower)
    (ROpt (RSeq (RRep (RClass is_name_inner) 0 62) (RClass is_alnum_lower))).

(** [^[a-z]{2}(?:-gov)?-[a-z0-9-]+-\d+$] *)
Definition awsRegionPattern : regex :=
  RSeq (RRep (RClass is_lower) 2 2)
    (RSeq (ROpt (RLit "-gov"))
       (RSeq (RChar "-"%char)
          (RSeq (RPlus (RClass (λ c, is_alnum_lower c || is_one_of ["-"%char] c)))
             (RSeq (RChar "-"%char) (RPlus (RClass is_digit)))))).

(** [^[A-Za-z][A-Za-z0-9-]{0,59}$] *)
Definition parallelClusterPattern : regex :=
  RSeq (RClass (λ c, is_upper c || is_lower c))
    (RRep (RClass (λ c, is_upper c || is_lower c || is_digit c || is_one_of ["-"%char] c)) 0 59).

(** [ValidName] *)
Definition ValidName (value : string) : bool := MatchString portableNamePattern value.

(** ** Patterns of [contracts/jobman/v1alpha1/validate.go] *)

(** [namePattern] is the same expression as [portableNamePattern]. *)
Definition namePattern : regex := portableNamePattern.

(** [^[A-Za-z_][A-Za-z0-9_]*$] *)
Definition environmentPattern : regex :=
  RSeq (RClass (λ c, is_upper c || is_lower c || is_one_of ["_"%char] c))
    (RStar (RClass (λ c, is_upper c || is_lower c || is_digit c || is_one_of ["_"%char] c))).

(** [^[1-9]\d*(?:B|KiB|MiB|GiB|TiB|KB|MB|GB|TB)$] *)
Definition quantityPattern : regex :=
  RSeq (RClass (in_range "1"%char "9"%char))
    (RSeq (RStar (RClass is_digit))
       (RAlt (RLit "B") (RAlt (RLit "KiB") (RAlt (RLit "MiB") (RAlt (RLit "GiB")
       (RAlt (RLit "TiB") (RAlt (RLit "KB") (RAlt (RLit "MB") (RAlt (RLit "GB") (RLit "TB")))))))))).

(** [^[0-9a-f]{8}-[0-9a-f]{4}-[1-5][0-9a-f]{3}-[89ab][0-9a-f]{3}-[0-9a-f]{12}$] *)
Definition idPattern : regex :=
  RSeq (RRep (RClass is_hex) 8 8) (RSeq (RChar "-"%char)
  (RSeq (RRep (RClass is_hex) 4 4) (RSeq (RChar "-"%char)
  (RSeq (RClass (in_range "1"%char "5"%char)) (RSeq (RRep (RClass is_hex) 3 3) (RSeq (RChar "-"%char)
  (RSeq (RClass (is_one_of ["8"%char; "9"%char; "a"%char; "b"%char]))
  (RSeq (RRep (RClass is_hex) 3 3) (RSeq (RChar "-"%char) (RRep (RClass is_hex) 12 12)))))))))).

(** ** Identifiers *)

(** One lower-case hexadecimal digit, and [hex.Encode]. *)
Definition hex_digit (n : Z) : Ascii.ascii :=
  match String.get (Z.to_nat n) "0123456789abcdef" with
  | Some c => c
  | None => Ascii.zero
  end.
Definition hex_encode (bs : list Z) : byte_string :=
  bs ≫= λ b, [hex_digit (Z.shiftr b 4); hex_digit (Z.land b 15)].

(** [NewID], given the sixteen bytes read from [crypto/rand]: version and
    variant bits are forced, then the groups 4-2-2-2-6 are hex encoded. *)
Definition set_version (b : Z) : Z := Z.lor (Z.land b 15) 64.
Definition set_variant (b : Z) : Z := Z.lor (Z.land b 63) 128.
Definition NewID (raw : list Z) : string :=
  let raw := alter set_version 6%nat raw in
  let raw := alter set_variant 8%nat raw in
  let group lo hi := hex_encode (take (hi - lo) (drop lo raw)) in
  String.string_of_list_ascii
    (group 0%nat 4%nat ++ ["-"%char] ++ group 4%nat 6%nat ++ ["-"%char] ++
     group 6%nat 8%nat ++ ["-"%char] ++ group 8%nat 10%nat ++ ["-"%char] ++ group 10%nat 16%nat).

(** [IsID].  A byte above 127 belongs to no permitted rune, so scanning bytes
    and scanning runes agree. *)
Definition dash_position (index : nat) : bool :=
  bool_decide (index ∈ [8; 13; 18; 23]%nat).
Definition IsID (value : string) : bool :=
  let bs := String.list_ascii_of_string value in
  bool_decide (length bs = 36%nat) &&
  forallb (λ i, bool_decide (bs !! i = Some "-"%char)) [8; 13; 18; 23]%nat &&
  forallb (λ ic : nat * Ascii.ascii, dash_position ic.1 || is_hex ic.2) (zip (seq 0 (length bs)) bs).

(** ** Idempotency keys *)

(** [ValidIdempotencyKey]: one to two hundred bytes of visible ASCII. *)
Definition ValidIdempotencyKey (value : string) : bool :=
  bool_decide (1 ≤ len value ≤ 200) &&
  forallb (in_range "!"%char "~"%char) (String.list_ascii_of_string value).

(** ** What the patterns accept *)

Lemma length_list_ascii s : length (String.list_ascii_of_string s) = String.length s.
Proof. induction s as [|c s IH]; cbn; [done|by f_equal]. Qed.

(** A word with a first letter in [p] and, when longer than one, a last letter
    in [q] and up to [n] inner letters in [i]: the shape of all name patterns. *)
Lemma matches_name_shape (p i q : Ascii.ascii → bool) n s :
  matches (RSeq (RClass p) (ROpt (RSeq (RRep (RClass i) 0 n) (RClass q)))) s ↔
  ∃ c rest, s = c :: rest ∧ p c = true ∧
    (rest = [] ∨ ∃ inner d, rest = inner ++ [d] ∧ (length inner ≤ n)%nat ∧
       Forall (λ c, i c = true) inner ∧ q d = true).
Proof.
  rewrite matches_seq. setoid_rewrite matches_class. setoid_rewrite matches_opt.
  setoid_rewrite matches_seq. setoid_rewrite matches_rep_class. setoid_rewrite matches_class.
  split.
  - intros (? & rest & -> & (c & -> & Hc) & [->|(inner & ? & -> & [? ?] & d & -> & Hd)]);
      exists c; eexists; (split; [done|]); (split; [done|]); [by left|right].
    exists inner, d. repeat split; [lia|done|done].
  - intros (c & rest & -> & Hc & [->|(inner & d & -> & ? & ? & ?)]); exists [c]; eexists;
      (split; [done|]); (split; [by eauto|]); [by left|right].
    exists inner, [d]. repeat split; [lia|lia|done|by eauto].
Qed.

(** The language of the portable name pattern. *)
Lemma ValidName_iff s :
  let bs := String.list_ascii_of_string s in
  ValidName s = true ↔
    (1 ≤ length bs ≤ 128)%nat ∧ Forall (λ c, is_name_inner c = true) bs ∧
    (∀ c, head bs = Some c → is_alnum_lower c = true) ∧
    (∀ c, last bs = Some c → is_alnum_lower c = true).
Proof.
  intros bs. unfold ValidName. rewrite MatchString_correct. fold bs. clearbody bs.
  unfold portableNamePattern. rewrite matches_name_shape.
  assert (∀ c, is_alnum_lower c = true → is_name_inner c = true) as Hin.
  { unfold is_alnum_lower, is_name_inner. intros c ->. done. }
  split.
  - intros (c & rest & -> & Hc & [->|(inner & d & -> & Hlen & Hall & Hd)]).
    + split_and!; cbn; [lia|lia| |naive_solver..]. by constructor; auto.
    + rewrite app_comm_cons, last_snoc. cbn. rewrite length_app. cbn.
      split_and!; [lia|lia| |naive_solver..].
      constructor; [auto|]. apply Forall_app. split; [done|]. by constructor; auto.
  - intros ([Hlo Hhi] & Hall & Hhd & Hlast). destruct bs as [|c rest]; cbn in *; [lia|].
    exists c, rest. split_and!; [done|by apply Hhd|].
    destruct rest as [|d inner _] using rev_ind; [by left|right].
    exists inner, d. rewrite length_app in Hhi. cbn in Hhi.
    inversion Hall as [|? ? ? Hall']; subst. apply Forall_app in Hall' as [? _].
    rewrite app_comm_cons, last_snoc in Hlast. split_and!; [done|lia|done|by apply Hlast].
Qed.

(** [ValidName] accepts exactly the names of 1 to 128 bytes over
    [a-z0-9._-] whose first and last bytes are alphanumeric. *)
Theorem ValidName_spec s :
  let bs := String.list_ascii_of_string s in
  ValidName s = true ↔
    (1 ≤ length bs ≤ 128)%nat ∧ Forall (λ c, is_name_inner c = true) bs ∧
    (∀ c, head bs = Some c → is_alnum_lower c = true) ∧
    (∀ c, last bs = Some c → is_alnum_lower c = true).
Proof. apply ValidName_iff. Qed.

(** ** Generated identifiers *)

Definition is_byte (b : Z) : Prop := 0 ≤ b < 256.

(** Facts about all bytes are checked by enumeration. *)
Lemma byte_enum (P : Z → bool) :
  forallb P (seqZ 0 256) = true → ∀ b, is_byte b → P b = true.
Proof.
  intros HP b Hb. rewrite forallb_forall in HP. apply HP, list_elem_of_In, elem_of_seqZ.
  unfold is_byte in Hb. lia.
Qed.

Ltac byte_enum_tac b := revert b; refine (byte_enum _ _); vm_compute; reflexivity.

Lemma hex_high b : is_byte b → is_hex (hex_digit (Z.shiftr b 4)) = true.
Proof. byte_enum_tac b. Qed.
Lemma hex_low b : is_byte b → is_hex (hex_digit (Z.land b 15)) = true.
Proof. byte_enum_tac b. Qed.
Lemma set_version_byte b : is_byte b → is_byte (set_version b).
Proof.
  intros Hb. apply (bool_decide_eq_true (0 ≤ set_version b < 256)). revert b Hb.
  refine (byte_enum _ _). by vm_compute.
Qed.
Lemma set_variant_byte b : is_byte b → is_byte (set_variant b).
Proof.
  intros Hb. apply (bool_decide_eq_true (0 ≤ set_variant b < 256)). revert b Hb.
  refine (byte_enum _ _). by vm_compute.
Qed.
Lemma version_digit b :
  is_byte b → in_range "1"%char "5"%char (hex_digit (Z.shiftr (set_version b) 4)) = true.
Proof. byte_enum_tac b. Qed.
Lemma variant_digit b :
  is_byte b → is_one_of ["8"%char; "9"%char; "a"%char; "b"%char]
    (hex_digit (Z.shiftr (set_variant b) 4)) = true.
Proof. byte_enum_tac b. Qed.
#[export] Hint Resolve hex_high hex_low set_version_byte set_variant_byte
  version_digit variant_digit : jobman.

Lemma matches_split n r1 r2 s :
  matches r1 (take n s) → matches r2 (drop n s) → matches (RSeq r1 r2) s.
Proof. intros. rewrite <-(take_drop n s). by constructor. Qed.

Lemma list_of_string_of_list (l : byte_string) :
  String.list_ascii_of_string (String.string_of_list_ascii l) = l.
Proof. induction l as [|c l IH]; cbn; congruence. Qed.

Ltac hex_chars :=
  repeat first [ apply Forall_cons; split | apply Forall_nil ]; auto with jobman.

Ltac id_split n := apply (matches_split n); cbn -[hex_digit Z.shiftr Z.land].
Ltac id_group := apply matches_rep_class; split; [cbn; lia|hex_chars].
Ltac id_one := constructor; auto with jobman; by vm_compute.

(** Every identifier [NewID] can return is accepted by [IsID] and by the
    stricter protocol pattern [idPattern], whatever bytes the random source
    yields. *)
Theorem NewID_valid raw :
  length raw = 16%nat → Forall is_byte raw →
  IsID (NewID raw) = true ∧ MatchString idPattern (NewID raw) = true.
Proof.
  intros Hlen Hb.
  do 16 (destruct raw as [|? raw]; [discriminate|]). destruct raw; [|discriminate].
  repeat match goal with H : Forall is_byte (_ :: _) |- _ => apply Forall_cons in H as [??] end.
  unfold IsID, MatchString, NewID. rewrite list_of_string_of_list.
  split; cbn -[hex_digit Z.shiftr Z.land is_hex dash_position match_bytes idPattern].
  - repeat (rewrite ?hex_high, ?hex_low by auto with jobman; cbn -[hex_digit Z.shiftr Z.land is_hex]).
    done.
  - apply match_bytes_correct. unfold idPattern.
    id_split 8%nat; [id_group|]. id_split 1%nat; [id_one|].
    id_split 4%nat; [id_group|]. id_split 1%nat; [id_one|].
    id_split 1%nat; [id_one|]. id_split 3%nat; [id_group|]. id_split 1%nat; [id_one|].
    id_split 1%nat; [id_one|]. id_split 3%nat; [id_group|]. id_split 1%nat; [id_one|]. id_group.
Qed.

Example NewID_valid_witness :
  IsID (NewID (seqZ 0 16)) = true ∧ MatchString idPattern (NewID (seqZ 0 16)) = true.
Proof. apply NewID_valid; [reflexivity|repeat constructor]; done. Defined.
