(* ===== verification/Domain.v ===== *)
(** * Roles, capabilities and administrative documents

    [internal/domain/authorization.go], the document types of
    [internal/domain/control.go] and the validators of
    [internal/domain/target.go]. *)
From S2P Require Import Prelude Regex Names.

(** ** Roles and capabilities *)

Definition RoleViewer := "viewer".
Definition RoleSubmitter := "submitter".
Definition RoleOperator := "operator".
Definition RoleNamespaceAdmin := "namespace_admin".

Definition CapabilityNamespaceRead := "namespace.read".
Definition CapabilityJobsRead := "jobs.read".
Definition CapabilityGroupsRead := "groups.read".
Definition CapabilityTargetsRead := "targets.read".
Definition CapabilityLogsRead := "logs.read".
Definition CapabilityArtifactsRead := "artifacts.read".
Definition CapabilityEvidenceRead := "evidence.read".
Definition CapabilityReportsRead := "reports.read".
Definition CapabilityDiagnosisRequest := "diagnosis.request".
Definition CapabilityPolicyRead := "policy.read".
Definition CapabilityJobsSubmit := "jobs.submit".
Definition CapabilityJobsCancelOwn := "jobs.cancel.own".
Definition CapabilityJobsCancelAny := "jobs.cancel.any".
Definition CapabilityEnrollmentCreateOwn := "enrollment.create.own".
Definition CapabilityEnrollmentCreateAny := "enrollment.create.any".
Definition CapabilityTargetsOperate := "targets.operate".
Definition CapabilityTargetsManage := "targets.manage".
Definition CapabilityMembershipsManage := "memberships.manage".
Definition CapabilityPolicyManage := "policy.manage".
Definition CapabilityAuditRead := "audit.read".
Definition CapabilityEventsRead := "events.read".

Definition ValidRole (value : string) : bool :=
  slices_Contains [RoleViewer; RoleSubmitter; RoleOperator; RoleNamespaceAdmin] value.

(** [slices.Compact]: drop consecutive duplicates. *)
Fixpoint slices_Compact (l : list string) : list string :=
  match l with
  | x :: ((y :: _) as l') => if bool_decide (x = y) then slices_Compact l' else x :: slices_Compact l'
  | _ => l
  end.

(** The loop body of [EffectiveCapabilities]: what one role appends. *)
Definition role_capabilities (role : string) : list string :=
  if negb (ValidRole role) then [] else
  [CapabilityNamespaceRead; CapabilityJobsRead; CapabilityGroupsRead; CapabilityTargetsRead;
   CapabilityLogsRead; CapabilityArtifactsRead; CapabilityEvidenceRead; CapabilityReportsRead;
   CapabilityDiagnosisRequest; CapabilityPolicyRead; CapabilityJobsCancelOwn] ++
  (if slices_Contains [RoleSubmitter; RoleOperator; RoleNamespaceAdmin] role
   then [CapabilityJobsSubmit; CapabilityEnrollmentCreateOwn] else []) ++
  (if slices_Contains [RoleOperator; RoleNamespaceAdmin] role
   then [CapabilityJobsCancelAny; CapabilityTargetsOperate; CapabilityAuditRead] else []) ++
  (if bool_decide (role = RoleNamespaceAdmin)
   then [CapabilityEnrollmentCreateAny; CapabilityTargetsManage; CapabilityMembershipsManage;
         CapabilityPolicyManage] else []).

Definition EffectiveCapabilities (roles : list string) : list string :=
  slices_Compact (sort_strings (roles ≫= role_capabilities)).

(** [DelegationReadOperation] and [DelegationOperation]
    ([internal/domain/delegation.go]). *)
Definition DelegationReadOperation (operation : string) : bool :=
  slices_Contains [CapabilityNamespaceRead; CapabilityJobsRead; CapabilityGroupsRead;
    CapabilityTargetsRead; CapabilityLogsRead; CapabilityArtifactsRead; CapabilityEvidenceRead] operation.
Definition DelegationOperation (operation : string) : bool :=
  DelegationReadOperation operation || bool_decide (operation = CapabilityEventsRead).

(** ** Theorems on capabilities *)

Lemma elem_of_slices_Compact v l : v ∈ slices_Compact l ↔ v ∈ l.
Proof.
  induction l as [|x [|y l] IH]; [done..|].
  change (slices_Compact (x :: y :: l)) with
    (if bool_decide (x = y) then slices_Compact (y :: l) else x :: slices_Compact (y :: l)).
  case_bool_decide; subst; rewrite ?elem_of_cons, IH, ?elem_of_cons; naive_solver.
Qed.

Lemma slices_Compact_strict l :
  StronglySorted String.le l → strictly_sorted (slices_Compact l).
Proof.
  induction 1 as [|x l Hs IH Hx]; [constructor|].
  destruct l as [|y l]; [by repeat constructor|].
  change (slices_Compact (x :: y :: l)) with
    (if bool_decide (x = y) then slices_Compact (y :: l) else x :: slices_Compact (y :: l)).
  case_bool_decide as Hxy; [done|]. constructor; [done|].
  apply Forall_forall. intros z Hz. rewrite elem_of_slices_Compact in Hz.
  rewrite Forall_forall in Hx. split; [by apply Hx|]. intros ->.
  apply Hxy. apply (anti_symm String.le); [apply Hx; by left|].
  apply elem_of_cons in Hz as [->|Hz]; [done|].
  inversion Hs as [|? ? ? Hy]; subst. rewrite Forall_forall in Hy. by apply Hy.
Qed.

Lemma elem_of_EffectiveCapabilities c roles :
  c ∈ EffectiveCapabilities roles ↔ ∃ role, role ∈ roles ∧ c ∈ role_capabilities role.
Proof.
  unfold EffectiveCapabilities. rewrite elem_of_slices_Compact, elem_of_sort_strings, list_elem_of_bind.
  naive_solver.
Qed.

(** The capability list is the sorted, duplicate-free union of what the
    roles confer; unknown roles confer nothing. *)
Theorem EffectiveCapabilities_union roles :
  strictly_sorted (EffectiveCapabilities roles) ∧ NoDup (EffectiveCapabilities roles) ∧
  (∀ c, c ∈ EffectiveCapabilities roles ↔
     ∃ role, role ∈ roles ∧ ValidRole role = true ∧ c ∈ role_capabilities role).
Proof.
  assert (strictly_sorted (EffectiveCapabilities roles)) as Hs
    by apply slices_Compact_strict, sort_strings_sorted.
  split; [done|]. split; [by apply strictly_sorted_NoDup|]. intros c.
  rewrite elem_of_EffectiveCapabilities. split; [|naive_solver].
  intros (role & Hr & Hc). exists role. split_and!; [done| |done].
  unfold role_capabilities in Hc. destruct (ValidRole role); [done|].
  by apply not_elem_of_nil in Hc.
Qed.

(** The roles in the order of their authority. *)
Definition role_chain : list string := [RoleViewer; RoleSubmitter; RoleOperator; RoleNamespaceAdmin].

(** Only the listed roles confer a capability with an administrative effect. *)
Definition conferring_roles (c : string) : list string :=
  filter (λ r, c ∈ role_capabilities r) role_chain.

(** Evaluate which roles confer a named capability. *)
Ltac conferred :=
  match goal with
  | |- context [conferring_roles ?c] =>
      let l := eval vm_compute in (conferring_roles c) in change (conferring_roles c) with l
  end; set_solver.

(** Privilege separation.  A principal may manage memberships, targets or
    policy only through [namespace_admin]; cancel others' jobs, operate targets
    or read the audit only through [operator] or [namespace_admin]; submit only
    with a role above [viewer]. *)
Theorem EffectiveCapabilities_separation roles :
  (∀ c, c ∈ [CapabilityMembershipsManage; CapabilityTargetsManage; CapabilityPolicyManage;
             CapabilityEnrollmentCreateAny] →
     c ∈ EffectiveCapabilities roles ↔ RoleNamespaceAdmin ∈ roles) ∧
  (∀ c, c ∈ [CapabilityJobsCancelAny; CapabilityTargetsOperate; CapabilityAuditRead] →
     c ∈ EffectiveCapabilities roles ↔ RoleOperator ∈ roles ∨ RoleNamespaceAdmin ∈ roles) ∧
  (CapabilityJobsSubmit ∈ EffectiveCapabilities roles ↔
     RoleSubmitter ∈ roles ∨ RoleOperator ∈ roles ∨ RoleNamespaceAdmin ∈ roles).
Proof.
  assert (∀ c, c ∈ EffectiveCapabilities roles ↔ ∃ r, r ∈ roles ∧ r ∈ conferring_roles c) as Hc.
  { intros c. rewrite elem_of_EffectiveCapabilities. unfold conferring_roles.
    setoid_rewrite list_elem_of_filter. split; [|naive_solver].
    intros (r & Hr & Hin). exists r. split_and!; try done.
    unfold role_capabilities in Hin. destruct (ValidRole r) eqn:Hv;
      [by apply slices_Contains_spec in Hv|by apply not_elem_of_nil in Hin]. }
  split_and!.
  - intros c Hin. rewrite Hc. repeat (apply elem_of_cons in Hin as [->|Hin]; [by conferred|]).
    by apply not_elem_of_nil in Hin.
  - intros c Hin. rewrite Hc. repeat (apply elem_of_cons in Hin as [->|Hin]; [by conferred|]).
    by apply not_elem_of_nil in Hin.
  - rewrite Hc. by conferred.
Qed.
