(* ===== verification/TargetSpec.v ===== *)
(** * Target, enrollment and agent documents

    The document types of [internal/domain/control.go] and [internal/domain/job.go]
    that cross the repository boundary, and their validators
    ([internal/domain/target.go]).  Each validator is translated statement by
    statement; the theorems say exactly which documents pass. *)
From S2P Require Import Prelude Regex Names Domain.

(** [time.Time]: an instant in nanoseconds since the zero time, whether the
    location is [time.UTC], and whether a monotonic reading is attached. *)
Record time := { t_instant : Z; t_utc : bool; t_monotonic : bool }.
Definition IsZero (t : time) : bool := bool_decide (t_instant t = 0).

(** [time.Duration] constants, in nanoseconds. *)
Definition Second : Z := 1000000000.
Definition Minute : Z := 60 * Second.
Definition Hour : Z := 60 * Minute.

(** ** Documents *)

(** [json.RawMessage]: bytes that are not JSON, or JSON text that decodes to [a]. *)
Inductive raw (A : Type) :=
  | raw_invalid (text : string)
  | raw_json (a : A).
Arguments raw_invalid {A} text.
Arguments raw_json {A} a.

Definition json_Valid {A} (r : raw A) : bool :=
  match r with raw_json _ => true | raw_invalid _ => false end.

(** [json.Unmarshal], and the [::jsonb] cast of a bound parameter. *)
Definition json_Unmarshal {A} (r : raw A) : result A :=
  match r with raw_json a => Ok a | raw_invalid t => Err (Errorf "invalid JSON" [t]) end.

(** [DelegatedActor] ([internal/domain/delegation.go]) is set only by the
    verified service authenticator. *)
Record DelegatedActor := {
  da_ServiceOnly : bool;
  da_Audience : string;
  da_ServiceID : string;
  da_KeyID : string;
  da_CertificateThumbprint : string;
  da_DirectoryID : string;
  da_Operation : string;
  da_NamespaceIDs : list string;
  da_Mode : string;
  da_AssertionID : string;
  da_AssertionDigest : string;
  da_IssuedAt : time;
  da_ExpiresAt : time }.

Record Principal := {
  p_Delegation : option DelegatedActor; p_Issuer : string; p_Subject : string }.

Record MembershipGrant := {
  mg_Issuer : string; mg_Subject : string; mg_DisplayName : string; mg_Role : string }.

Record TargetProvider := { tp_Kind : string; tp_Region : string; tp_ClusterName : string }.
Record ArtifactStoreSpec := { as_Name : string; as_Version : Z }.
Record PartitionSpec := { ps_Name : string; ps_IsDefault : bool }.

Record TargetSpec := {
  ts_Name : string;
  ts_Kind : string;
  ts_ExecutionBackend : string;
  ts_Runtimes : list string;
  ts_OperatingSystems : list string;
  ts_Architectures : list string;
  ts_Capabilities : list string;
  ts_Partitions : list PartitionSpec;
  ts_LogStoreName : string;
  ts_LogStoreVersion : Z;
  ts_ArtifactStores : list ArtifactStoreSpec;
  ts_Provider : TargetProvider }.

Record TargetStateChange := { tsc_State : string; tsc_ExpectedRevision : Z }.
Record TargetGenerationChange := { tgc_Spec : TargetSpec; tgc_ExpectedRevision : Z }.

Record EnrollmentRequest := {
  er_Principal : Principal; er_ExpectedUser : string; er_Lifetime : Z }.

Record AgentRegistration := {
  ar_TargetGenerationID : string;
  ar_AgentVersion : string;
  ar_ProtocolVersions : list string;
  ar_OperatingSystem : string;
  ar_Architecture : string;
  ar_Hostname : string;
  ar_ExecutionUser : string;
  ar_ExecutionBackends : list string;
  ar_Runtimes : list string;
  ar_Capabilities : list string;
  ar_RequestDigest : string }.

Record AgentCapabilities := {
  ac_AgentID : string;
  ac_ObservedAt : time;
  ac_AcceptingAssignments : bool;
  ac_AgentVersion : string;
  ac_OperatingSystem : string;
  ac_Architecture : string;
  ac_Hostname : string;
  ac_ExecutionUser : string;
  ac_ExecutionBackends : list string;
  ac_Runtimes : list string;
  ac_Capabilities : list string;
  ac_DocumentDigest : string;
  ac_Document : raw string }.

(** ** Validators *)

(** The loop of [validateSortedSet]; the state is the previous element. *)
Definition validateSortedSet_item (field : string) (allowed : option (list string))
    (previous : option string) (value : string) : result (option string) :=
  fail_if (negb (ValidName value)) (Errorf "%s %q is invalid" [field; value]);;
  fail_if (bool_decide (previous = Some value)) (Errorf "%s %q is duplicated" [field; value]);;
  fail_if (match allowed with Some l => negb (slices_Contains l value) | None => false end)
    (Errorf "%s %q is unsupported" [field; value]);;
  Ok (Some value).

Definition validateSortedSet (field : string) (values : list string)
    (allowed : option (list string)) (required : bool) : result unit :=
  fail_if (required && bool_decide (slice_len values = 0)) (Errorf "at least one %s is required" [field]);;
  fail_if (bool_decide (1024 < slice_len values) || negb (slices_IsSorted values))
    (Errorf "%ss must be bounded and sorted" [field]);;
  for_range (validateSortedSet_item field allowed) None values;;
  Ok tt.

Definition ValidateEnrollmentRequest (value : EnrollmentRequest) : result unit :=
  fail_if (bool_decide (p_Issuer (er_Principal value) = "") ||
           bool_decide (p_Subject (er_Principal value) = "") ||
           bool_decide (er_ExpectedUser value = ""))
    (Errorf "enrollment principal and expected user are required" []);;
  fail_if (bool_decide (512 < len (p_Issuer (er_Principal value))) ||
           bool_decide (512 < len (p_Subject (er_Principal value))) ||
           bool_decide (512 < len (er_ExpectedUser value)) || contains_nul (er_ExpectedUser value))
    (Errorf "enrollment identity field is invalid" []);;
  fail_if (bool_decide (er_Lifetime value < Minute) || bool_decide (Hour < er_Lifetime value))
    (Errorf "enrollment lifetime must be between one minute and one hour" []).

Definition validateAgentFacts
    (agentVersion operatingSystem architecture hostname executionUser : string)
    (executionBackends runtimes capabilities : list string) : result unit :=
  fail_if (bool_decide (agentVersion = "") || bool_decide (hostname = "") ||
           bool_decide (executionUser = "") ||
           negb (ValidName operatingSystem) || negb (ValidName architecture))
    (Errorf "agent capability facts are invalid" []);;
  fail_if (bool_decide (128 < len agentVersion) || bool_decide (255 < len hostname) ||
           bool_decide (512 < len executionUser))
    (Errorf "agent capability field is too long" []);;
  for_each (λ '(name, values, allowed),
      validateSortedSet name values allowed (negb (bool_decide (name = "capability"))))
    [("execution backend", executionBackends, Some ["subprocess"; "slurm"]);
     ("runtime", runtimes, Some ["native"; "container"]);
     ("capability", capabilities, None)].

(** The loop over [ProtocolVersions] compares each version with its predecessor. *)
Definition validateProtocolVersion (previous : option string) (version : string)
    : result (option string) :=
  fail_if (bool_decide (version = "") || bool_decide (128 < len version) ||
           bool_decide (previous = Some version))
    (Errorf "protocol version is invalid or duplicated" []);;
  Ok (Some version).

Definition ValidateAgentRegistration (value : AgentRegistration) : result unit :=
  fail_if (negb (IsID (ar_TargetGenerationID value)))
    (Errorf "agent registration identity is invalid" []);;
  fail_if (bool_decide (slice_len (ar_ProtocolVersions value) = 0) ||
           bool_decide (32 < slice_len (ar_ProtocolVersions value)) ||
           negb (slices_IsSorted (ar_ProtocolVersions value)))
    (Errorf "protocol versions must be bounded and sorted" []);;
  for_range validateProtocolVersion None (ar_ProtocolVersions value);;
  fail_if (negb (slices_Contains (ar_ProtocolVersions value) "jobman/v1alpha1"))
    (Errorf "agent does not support jobman/v1alpha1" []);;
  fail_if (negb (MatchString digestPattern (ar_RequestDigest value)))
    (Errorf "agent registration digest is invalid" []);;
  validateAgentFacts
    (ar_AgentVersion value) (ar_OperatingSystem value) (ar_Architecture value)
    (ar_Hostname value) (ar_ExecutionUser value) (ar_ExecutionBackends value)
    (ar_Runtimes value) (ar_Capabilities value).

Definition ValidateAgentCapabilities (value : AgentCapabilities) : result unit :=
  fail_if (negb (IsID (ac_AgentID value)) || IsZero (ac_ObservedAt value) ||
           negb (t_utc (ac_ObservedAt value)) ||
           negb (MatchString digestPattern (ac_DocumentDigest value)))
    (Errorf "agent capability identity is invalid" []);;
  validateAgentFacts
    (ac_AgentVersion value) (ac_OperatingSystem value) (ac_Architecture value)
    (ac_Hostname value) (ac_ExecutionUser value) (ac_ExecutionBackends value)
    (ac_Runtimes value) (ac_Capabilities value).

Definition ValidateTargetStateChange (value : TargetStateChange) : result unit :=
  fail_if (bool_decide (tsc_ExpectedRevision value < 1))
    (Errorf "target state change revision must be positive" []);;
  fail_if (negb (slices_Contains ["active"; "draining"; "disabled"; "retired"] (tsc_State value)))
    (Errorf "target state is invalid" []).

(** [NormalizeTargetProvider] *)
Definition NormalizeTargetProvider (value : TargetProvider) : TargetProvider :=
  {| tp_Kind := if bool_decide (tp_Kind value = "") then "on-prem" else tp_Kind value;
     tp_Region := tp_Region value; tp_ClusterName := tp_ClusterName value |}.

(** The provider [switch] of [ValidateTargetSpec]. *)
Definition validateProvider (value : TargetSpec) : result unit :=
  let provider := NormalizeTargetProvider (ts_Provider value) in
  if bool_decide (tp_Kind provider = "on-prem") then
    fail_if (negb (bool_decide (tp_Region provider = "")) ||
             negb (bool_decide (tp_ClusterName provider = "")))
      (Errorf "on-prem target provider cannot contain AWS settings" [])
  else if bool_decide (tp_Kind provider = "aws-parallelcluster") then
    fail_if (negb (bool_decide (ts_Kind value = "slurm")) ||
             negb (bool_decide (ts_ExecutionBackend value = "slurm")) ||
             negb (MatchString awsRegionPattern (tp_Region provider)) ||
             negb (MatchString parallelClusterPattern (tp_ClusterName provider)))
      (Errorf "AWS ParallelCluster provider settings are invalid" [])
  else Err (Errorf "target provider is unsupported" []).

(** The loop over artifact stores; the state is the previous name. *)
Definition validateArtifactStore (previous : option string) (store : ArtifactStoreSpec)
    : result (option string) :=
  fail_if (negb (MatchString logStorePattern (as_Name store)) || bool_decide (as_Version store < 1) ||
           bool_decide (previous = Some (as_Name store)))
    (Errorf "artifact store mapping is invalid or duplicated" []);;
  Ok (Some (as_Name store)).

(** The loop over partitions; the state is the [seen] set and [defaultCount]. *)
Definition validatePartition (state : gset string * Z) (partition : PartitionSpec)
    : result (gset string * Z) :=
  let '(seen, defaultCount) := state in
  fail_if (negb (ValidName (ps_Name partition)))
    (Errorf "partition name %q is invalid" [ps_Name partition]);;
  fail_if (bool_decide (ps_Name partition ∈ seen))
    (Errorf "partition %q is duplicated" [ps_Name partition]);;
  Ok ({[ps_Name partition]} ∪ seen,
      if ps_IsDefault partition then defaultCount + 1 else defaultCount).

Definition ValidateTargetSpec (value : TargetSpec) : result unit :=
  fail_if (negb (ValidName (ts_Name value))) (Errorf "target name is invalid" []);;
  fail_if (negb (slices_Contains ["host"; "slurm"] (ts_Kind value)))
    (Errorf "target kind is invalid" []);;
  fail_if (negb (slices_Contains ["subprocess"; "slurm"] (ts_ExecutionBackend value)))
    (Errorf "execution backend is invalid" []);;
  fail_if (negb (Bool.eqb (bool_decide (ts_Kind value = "host"))
                          (bool_decide (ts_ExecutionBackend value = "subprocess"))))
    (Errorf "target kind and execution backend are incompatible" []);;
  validateProvider value;;
  validateSortedSet "runtime" (ts_Runtimes value) (Some ["native"; "container"]) true;;
  validateSortedSet "operating system" (ts_OperatingSystems value) None false;;
  validateSortedSet "architecture" (ts_Architectures value) None false;;
  validateSortedSet "capability" (ts_Capabilities value) None false;;
  fail_if (negb (Bool.eqb (bool_decide (ts_LogStoreName value = ""))
                          (bool_decide (ts_LogStoreVersion value = 0))))
    (Errorf "log store name and version must be configured together" []);;
  fail_if (negb (bool_decide (ts_LogStoreName value = "")) &&
           (negb (MatchString logStorePattern (ts_LogStoreName value)) ||
            bool_decide (ts_LogStoreVersion value < 1)))
    (Errorf "log store mapping is invalid" []);;
  fail_if (bool_decide (64 < slice_len (ts_ArtifactStores value)) ||
           negb (is_sorted_by as_Name (ts_ArtifactStores value)))
    (Errorf "artifact store mappings must be bounded and sorted" []);;
  for_range validateArtifactStore None (ts_ArtifactStores value);;
  fail_if (bool_decide (ts_Kind value = "host") &&
           negb (bool_decide (slice_len (ts_Partitions value) = 0)))
    (Errorf "host targets cannot contain partitions" []);;
  '(_, defaultCount) ← for_range validatePartition (∅, 0) (ts_Partitions value);
  fail_if (bool_decide (1 < defaultCount)) (Errorf "target has more than one default partition" []).

Definition ValidateTargetGenerationChange (value : TargetGenerationChange) : result unit :=
  fail_if (bool_decide (tgc_ExpectedRevision value < 1))
    (Errorf "target generation revision must be positive" []);;
  ValidateTargetSpec (tgc_Spec value).

Definition ValidateMembershipGrant (value : MembershipGrant) : result unit :=
  fail_if (bool_decide (mg_Issuer value = "") || bool_decide (mg_Subject value = "") ||
           bool_decide (mg_DisplayName value = "") || negb (ValidRole (mg_Role value)))
    (Errorf "membership identity and role are invalid" []);;
  for_each (λ item, fail_if (bool_decide (512 < len item) || contains_nul item)
                      (Errorf "membership identity field is invalid" []))
    [mg_Issuer value; mg_Subject value; mg_DisplayName value].

(** ** Theorems *)

Lemma slices_IsSorted_spec l : slices_IsSorted l = true ↔ StronglySorted String.le l.
Proof.
  unfold slices_IsSorted. rewrite is_sorted_by_spec. split.
  - intros. by apply Sorted_StronglySorted; [apply _|].
  - apply StronglySorted_Sorted.
Qed.

Lemma is_sorted_by_strongly {A} (key : A → string) l :
  is_sorted_by key l = true ↔ StronglySorted String.le (key <$> l).
Proof.
  rewrite <-slices_IsSorted_spec. unfold slices_IsSorted. rewrite !is_sorted_by_spec.
  induction l as [|x l IH]; cbn; [by split; constructor|].
  split; inversion 1 as [|? ? ? Hhd]; subst; constructor; try (by apply IH);
    (destruct l; inversion Hhd; by constructor).
Qed.

(** What a bounded, sorted, duplicate-free set of portable names is. *)
Definition name_set (values : list string) (allowed : option (list string)) : Prop :=
  slice_len values ≤ 1024 ∧ StronglySorted String.le values ∧ NoDup values ∧
  Forall (λ v, ValidName v = true ∧ ∀ l, allowed = Some l → v ∈ l) values.

Lemma validateSortedSet_item_spec field allowed prev x r :
  validateSortedSet_item field allowed prev x = Ok r ↔
  (ValidName x = true ∧ ∀ l, allowed = Some l → x ∈ l) ∧ prev ≠ Some x ∧ r = Some x.
Proof.
  unfold validateSortedSet_item.
  destruct (ValidName x); cbn; [|naive_solver].
  case_bool_decide; [naive_solver|]. cbn. destruct allowed as [l|]; cbn.
  - destruct (slices_Contains l x) eqn:Hc; cbn.
    + apply slices_Contains_spec in Hc. naive_solver.
    + split; [done|]. intros ([_ Hl] & _ & _).
      assert (slices_Contains l x = true) by (apply slices_Contains_spec; naive_solver). congruence.
  - naive_solver.
Qed.

Lemma validateSortedSet_iff field values allowed required :
  validateSortedSet field values allowed required = Ok tt ↔
  (required = true → values ≠ []) ∧ name_set values allowed.
Proof.
  unfold validateSortedSet, name_set.
  assert (slice_len values = 0 ↔ values = []) as Hlen.
  { unfold slice_len. destruct values; cbn; [done|]. split; [lia|done]. }
  pose proof (for_range_adjacent id (λ v, ValidName v = true ∧ ∀ l, allowed = Some l → v ∈ l)
    _ (validateSortedSet_item_spec field allowed) values) as Hloop.
  rewrite list_fmap_id in Hloop. split.
  - intros Hok. res_inv. rewrite slices_IsSorted_spec in *.
    destruct (Hloop ltac:(done)) as [[??] _]; [by eauto|].
    split_and!; [|lia|done..]. intros ->. cbn in *. by rewrite <-Hlen, <-bool_decide_eq_false.
  - intros (Hreq & Hb & Hs & Hnd & Hall). destruct (Hloop Hs) as [_ [r ->]]; [done|].
    rewrite !bind_fail_if; [done|..].
    + apply orb_false_iff. split; [by apply bool_decide_eq_false; lia|].
      by apply negb_false_iff, slices_IsSorted_spec.
    + destruct required; cbn; [|done]. apply bool_decide_eq_false. rewrite Hlen. auto.
Qed.

(** [validateSortedSet] accepts exactly the duplicate-free sorted sets of
    at most 1024 portable names, all of them allowed, non-empty when required.
    Comparing each name with its neighbour is enough because the input was
    found to be sorted. *)
Theorem validateSortedSet_spec field values allowed required :
  validateSortedSet field values allowed required = Ok tt ↔
  (required = true → values ≠ []) ∧ name_set values allowed.
Proof. apply validateSortedSet_iff. Qed.

(** *** Target specifications *)

Definition provider_wf (value : TargetSpec) : Prop :=
  let p := ts_Provider value in
  (tp_Kind p ∈ [""; "on-prem"] ∧ tp_Region p = "" ∧ tp_ClusterName p = "") ∨
  (tp_Kind p = "aws-parallelcluster" ∧ ts_Kind value = "slurm" ∧ ts_ExecutionBackend value = "slurm" ∧
   MatchString awsRegionPattern (tp_Region p) = true ∧
   MatchString parallelClusterPattern (tp_ClusterName p) = true).

Definition artifact_stores_wf (stores : list ArtifactStoreSpec) : Prop :=
  slice_len stores ≤ 64 ∧ StronglySorted String.le (as_Name <$> stores) ∧ NoDup (as_Name <$> stores) ∧
  Forall (λ s, MatchString logStorePattern (as_Name s) = true ∧ 1 ≤ as_Version s) stores.

Definition partitions_wf (partitions : list PartitionSpec) : Prop :=
  Forall (λ p, ValidName (ps_Name p) = true) partitions ∧ NoDup (ps_Name <$> partitions) ∧
  (length (filter (λ p, ps_IsDefault p = true) partitions) ≤ 1)%nat.

(** The administrator policy a target generation must satisfy, stated
    independently of the order in which the validator looks at it. *)
Record target_spec_wf (value : TargetSpec) : Prop := {
  tsw_name : ValidName (ts_Name value) = true;
  tsw_kind : (ts_Kind value = "host" ∧ ts_ExecutionBackend value = "subprocess") ∨
             (ts_Kind value = "slurm" ∧ ts_ExecutionBackend value = "slurm");
  tsw_provider : provider_wf value;
  tsw_runtimes : ts_Runtimes value ≠ [] ∧ name_set (ts_Runtimes value) (Some ["native"; "container"]);
  tsw_systems : name_set (ts_OperatingSystems value) None;
  tsw_architectures : name_set (ts_Architectures value) None;
  tsw_capabilities : name_set (ts_Capabilities value) None;
  tsw_log_store :
    (ts_LogStoreName value = "" ∧ ts_LogStoreVersion value = 0) ∨
    (MatchString logStorePattern (ts_LogStoreName value) = true ∧ 1 ≤ ts_LogStoreVersion value);
  tsw_artifact_stores : artifact_stores_wf (ts_ArtifactStores value);
  tsw_partitions : partitions_wf (ts_Partitions value);
  tsw_host_partitions : ts_Kind value = "host" → ts_Partitions value = [] }.

Lemma validateProvider_spec value : validateProvider value = Ok tt ↔ provider_wf value.
Proof.
  unfold validateProvider, provider_wf, NormalizeTargetProvider. cbn -[fail_if].
  destruct (decide (tp_Kind (ts_Provider value) = "")) as [->|Hne].
  - rewrite !bool_decide_eq_true_2 by done. rewrite fail_if_ok, orb_false_iff, !negb_false_iff, !bool_decide_eq_true. set_solver.
  - rewrite (bool_decide_eq_false_2 _ Hne). case_bool_decide as Hp; [|case_bool_decide as Ha].
    + rewrite fail_if_ok, orb_false_iff, !negb_false_iff, !bool_decide_eq_true, Hp. set_solver.
    + rewrite fail_if_ok, !orb_false_iff, !negb_false_iff, !bool_decide_eq_true, Ha. set_solver.
    + split; [done|]. set_solver.
Qed.

Lemma validateArtifactStore_spec prev store r :
  validateArtifactStore prev store = Ok r ↔
  (MatchString logStorePattern (as_Name store) = true ∧ 1 ≤ as_Version store) ∧
  prev ≠ Some (as_Name store) ∧ r = Some (as_Name store).
Proof.
  unfold validateArtifactStore. destruct (MatchString _ _); cbn; [|naive_solver].
  case_bool_decide; cbn; [naive_solver lia|]. case_bool_decide; cbn; naive_solver lia.
Qed.

Lemma validateArtifactStores_spec stores :
  is_sorted_by as_Name stores = true →
  (∃ r, for_range validateArtifactStore None stores = Ok r) ↔
  NoDup (as_Name <$> stores) ∧
  Forall (λ s, MatchString logStorePattern (as_Name s) = true ∧ 1 ≤ as_Version s) stores.
Proof.
  intros Hs%is_sorted_by_strongly.
  rewrite (for_range_adjacent _ _ _ validateArtifactStore_spec) by done. naive_solver.
Qed.

Lemma validatePartitions_spec seen n partitions r :
  for_range validatePartition (seen, n) partitions = Ok r ↔
  Forall (λ p, ValidName (ps_Name p) = true) partitions ∧ NoDup (ps_Name <$> partitions) ∧
  (∀ p, p ∈ partitions → ps_Name p ∉ seen) ∧
  r = (list_to_set (ps_Name <$> partitions) ∪ seen,
       n + Z.of_nat (length (filter (λ p, ps_IsDefault p = true) partitions))).
Proof.
  revert seen n; induction partitions as [|p l IH]; intros seen n.
  - cbn. split; [intros [= <-]; split_and!; [done|constructor|set_solver|]|];
      [|intros (_ & _ & _ & ->)]; rewrite Z.add_0_r, union_empty_l_L; done.
  - rewrite fmap_cons, Forall_cons, NoDup_cons, filter_cons.
    cbn [for_range validatePartition list_to_set].
    destruct (ValidName (ps_Name p)); [|cbn; naive_solver].
    case_bool_decide as Hin; cbn [negb fail_if mbind result_bind]; [set_solver|]. rewrite IH. split.
    + intros (Hall & Hnd & Hseen & ->). split_and!; try done.
      * intros (q & Hq & Hql)%list_elem_of_fmap. apply (Hseen q Hql). set_solver.
      * intros q [->|Hq]%elem_of_cons; [done|]. specialize (Hseen q Hq). set_solver.
      * f_equal; [set_solver|]. case_decide as Hd; rewrite ?Hd; cbn; [lia|].
        destruct (ps_IsDefault p); [done|lia].
    + intros ([_ Hall] & [Hp Hnd] & Hseen & ->). split_and!; try done.
      * intros q Hq. assert (ps_Name q ∉ seen) by (apply Hseen; by right).
        assert (ps_Name p ≠ ps_Name q); [|set_solver].
        intros Heq. apply Hp. rewrite Heq. by apply list_elem_of_fmap_2.
      * f_equal; [set_solver|]. case_decide as Hd; rewrite ?Hd; cbn; [lia|].
        destruct (ps_IsDefault p); [done|lia].
Qed.

Lemma kind_backend_spec (kind backend : string) :
  negb (slices_Contains ["host"; "slurm"] kind) = false ∧
  negb (slices_Contains ["subprocess"; "slurm"] backend) = false ∧
  negb (Bool.eqb (bool_decide (kind = "host")) (bool_decide (backend = "subprocess"))) = false ↔
  (kind = "host" ∧ backend = "subprocess") ∨ (kind = "slurm" ∧ backend = "slurm").
Proof.
  rewrite !negb_false_iff, !slices_Contains_spec, Bool.eqb_true_iff, !elem_of_cons.
  split; [|by intros [[-> ->]|[-> ->]]; naive_solver].
  do 2 case_bool_decide; set_solver.
Qed.

Lemma log_store_spec (name : string) (version : Z) :
  negb (Bool.eqb (bool_decide (name = "")) (bool_decide (version = 0))) = false ∧
  negb (bool_decide (name = "")) &&
    (negb (MatchString logStorePattern name) || bool_decide (version < 1)) = false ↔
  (name = "" ∧ version = 0) ∨ (MatchString logStorePattern name = true ∧ 1 ≤ version).
Proof.
  rewrite negb_false_iff, Bool.eqb_true_iff. destruct (decide (name = "")) as [->|Hne].
  - rewrite (bool_decide_eq_true_2 (""="")) by done. cbn [negb andb].
    rewrite (eq_comm true), bool_decide_eq_true. naive_solver.
  - rewrite !(bool_decide_eq_false_2 (name = "")) by done. cbn [negb andb].
    rewrite (eq_comm false), bool_decide_eq_false, orb_false_iff, negb_false_iff, bool_decide_eq_false.
    naive_solver lia.
Qed.

Lemma host_partitions_spec {A} (kind : string) (l : list A) :
  bool_decide (kind = "host") && negb (bool_decide (slice_len l = 0)) = false ↔ (kind = "host" → l = []).
Proof.
  rewrite andb_false_iff, negb_false_iff, bool_decide_eq_false, bool_decide_eq_true.
  unfold slice_len. destruct l; cbn; naive_solver lia.
Qed.

Lemma partitions_spec l :
  ('(_, defaultCount) ← for_range validatePartition (∅, 0) l;
   fail_if (bool_decide (1 < defaultCount)) (Errorf "target has more than one default partition" []))
    = Ok tt ↔ partitions_wf l.
Proof.
  rewrite bind_ok. unfold partitions_wf. setoid_rewrite validatePartitions_spec. split.
  - intros ([seen n] & (? & ? & _ & [= -> ->]) & Hn). res_inv. split_and!; [done|done|lia].
  - intros (? & ? & ?). eexists. split; [by split_and!; [..|set_solver|reflexivity]|].
    cbn. rewrite bool_decide_eq_false_2; [done|lia].
Qed.

(** [ValidateTargetSpec] accepts exactly the well-formed target policies. *)
Theorem ValidateTargetSpec_spec value :
  ValidateTargetSpec value = Ok tt ↔ target_spec_wf value.
Proof.
  unfold ValidateTargetSpec. chain_iff.
  rewrite partitions_spec, validateProvider_spec, !validateSortedSet_iff, host_partitions_spec.
  rewrite orb_false_iff, bool_decide_eq_false. split.
  - intros (Hn & Hk1 & Hk2 & Hk3 & Hp & [Hr1 Hr2] & [_ Ho] & [_ Ha] & [_ Hc] & Hl1 & Hl2 &
            [Hs1 Hs2%negb_false_iff] & Hs3 & Hh & Hpt).
    apply validateArtifactStores_spec in Hs3 as [??]; [|done]. apply is_sorted_by_strongly in Hs2.
    constructor; try done; [by apply negb_false_iff|by apply kind_backend_spec|by auto| |].
    + by apply log_store_spec.
    + split_and!; [lia|done..].
  - intros [Hn Hk Hp [Hr1 Hr2] Ho Ha Hc Hl (Hs1 & Hs2 & Hs3 & Hs4) Hpt Hh].
    apply kind_backend_spec in Hk as (? & ? & ?). apply log_store_spec in Hl as [? ?].
    apply is_sorted_by_strongly in Hs2.
    split_and!; try done; [by apply negb_false_iff|lia|by apply negb_false_iff|].
    by apply validateArtifactStores_spec.
Qed.
