(* ===== verification/Kahn.v ===== *)
(** * The dependency-cycle check

    [graphContainsCycle] of [contracts/jobman/v1alpha1/validate.go] is Kahn's
    algorithm on adjacency lists with a stack of ready nodes.  The model keeps
    the source's arrays, stack and counter; the theorem is that, on the arrays
    [validateGraphEdges] builds, it reports a cycle exactly when one exists, and
    that its loop always stops. *)
From stdpp Require Import relations.
From S2P Require Import Prelude.

(** ** The algorithm *)

(** The stack [ready] is kept with its top first. *)
Record kahn_state := { k_indegree : list Z; k_ready : list nat; k_visited : nat }.

(** [for index, degree := range indegree { if degree == 0 { ready = append(ready, index) } }] *)
Definition initial_ready (indegree : list Z) : list nat :=
  reverse (filter (λ i, indegree !! i = Some 0) (seq 0 (length indegree))).

(** [indegree[downstream]--; if indegree[downstream] == 0 { ready = append(ready, downstream) }] *)
Definition relax (st : list Z * list nat) (downstream : nat) : list Z * list nat :=
  let '(indegree, ready) := st in
  let degree := default 0 (indegree !! downstream) - 1 in
  (<[downstream := degree]> indegree,
   if bool_decide (degree = 0) then downstream :: ready else ready).

(** One iteration of [for len(ready) > 0]. *)
Definition kahn_step (adjacency : list (list nat)) (st : kahn_state) : option kahn_state :=
  match k_ready st with
  | [] => None
  | current :: rest =>
      let '(indegree, ready) :=
        foldl relax (k_indegree st, rest) (default [] (adjacency !! current)) in
      Some {| k_indegree := indegree; k_ready := ready; k_visited := S (k_visited st) |}
  end.

(** The loop; [None] would mean that the fuel ran out. *)
Fixpoint kahn_loop (fuel : nat) (adjacency : list (list nat)) (st : kahn_state) : option nat :=
  match kahn_step adjacency st with
  | None => Some (k_visited st)
  | Some st' =>
      match fuel with
      | O => None
      | S fuel => kahn_loop fuel adjacency st'
      end
  end.

(** [graphContainsCycle]; every node is pushed at most once, so as many
    iterations as there are nodes are always enough. *)
Definition graphContainsCycle (adjacency : list (list nat)) (indegree : list Z) : option bool :=
  visited ← kahn_loop (length indegree) adjacency
    {| k_indegree := indegree; k_ready := initial_ready indegree; k_visited := 0 |};
  Some (negb (bool_decide (visited = length indegree))).

(** ** The graph and its in-degrees *)

Section graph.
Context (adjacency : list (list nat)).
Let n := length adjacency.
Let adj (u : nat) : list nat := default [] (adjacency !! u).

Definition edge (u v : nat) : Prop := ∃ vs, adjacency !! u = Some vs ∧ v ∈ vs.
Definition acyclic : Prop := ∀ v, ¬ tc edge v v.
Definition targets_ok : Prop := ∀ u v, edge u v → (v < length adjacency)%nat.

Definition occ (v : nat) (l : list nat) : nat := length (filter (eq v) l).

(** The number of edges into [v] whose source is not in [V]. *)
Definition indeg (V : gset nat) (v : nat) : nat :=
  sum_list_with (λ u, if decide (u ∈ V) then 0%nat else occ v (adj u)) (seq 0 n).

Definition indegree_ok (indegree : list Z) : Prop :=
  length indegree = length adjacency ∧
  ∀ v, (v < length adjacency)%nat → indegree !! v = Some (Z.of_nat (indeg ∅ v)).

Lemma occ_cons v w l : occ v (w :: l) = ((if decide (v = w) then 1 else 0) + occ v l)%nat.
Proof. unfold occ. rewrite filter_cons. by case_decide. Qed.

Lemma occ_pos v l : (0 < occ v l)%nat ↔ v ∈ l.
Proof.
  induction l as [|w l IH]; [split; [cbn; lia|set_solver]|].
  rewrite occ_cons, elem_of_cons. case_decide; naive_solver lia.
Qed.

Lemma edge_adj u v : edge u v ↔ v ∈ adj u.
Proof.
  unfold edge, adj. destruct (adjacency !! u) as [vs|]; cbn; [naive_solver|].
  split; [naive_solver|set_solver].
Qed.

Lemma edge_source u v : edge u v → (u < n)%nat.
Proof. intros (vs & Hu & _). by apply lookup_lt_Some in Hu. Qed.

Lemma sum_list_with_zero {A} (f : A → nat) l :
  sum_list_with f l = 0%nat ↔ ∀ x, x ∈ l → f x = 0%nat.
Proof.
  induction l as [|x l IH]; cbn; [set_solver|]. rewrite Nat.eq_add_0, IH. set_solver.
Qed.

Lemma indeg_zero V v : indeg V v = 0%nat ↔ ∀ u, edge u v → u ∈ V.
Proof.
  unfold indeg. rewrite sum_list_with_zero. split.
  - intros Hz u He. specialize (Hz u). rewrite elem_of_seq in Hz.
    destruct (decide (u ∈ V)) as [|Hu]; [done|].
    pose proof (edge_source _ _ He). rewrite edge_adj, <-occ_pos in He.
    assert (occ v (adj u) = 0%nat) by (apply Hz; lia). lia.
  - intros Hall u Hu. case_decide as HV; [done|].
    destruct (occ v (adj u)) eqn:Ho; [done|]. destruct HV. apply Hall, edge_adj, occ_pos. lia.
Qed.

Lemma sum_list_with_change {A} `{EqDecision A} (f g : A → nat) x l :
  NoDup l → x ∈ l → (∀ y, y ≠ x → f y = g y) → g x = 0%nat →
  sum_list_with f l = (f x + sum_list_with g l)%nat.
Proof.
  intros Hnd Hx Hfg Hg. induction Hnd as [|y l Hy Hnd IH]; [set_solver|]. cbn.
  apply elem_of_cons in Hx as [->|Hx].
  - rewrite Hg. cbn. f_equal. clear IH Hnd. induction l as [|z l IH]; cbn; [done|].
    rewrite Hfg, IH; set_solver.
  - assert (y ≠ x) by set_solver. rewrite IH, Hfg by done. lia.
Qed.

Lemma indeg_visit V u v :
  u ∉ V → (u < n)%nat → indeg V v = (occ v (adj u) + indeg ({[u]} ∪ V) v)%nat.
Proof.
  intros HuV Hu. unfold indeg.
  rewrite (sum_list_with_change _ (λ u', if decide (u' ∈ {[u]} ∪ V) then 0%nat else occ v (adj u')) u).
  - by rewrite decide_False.
  - apply NoDup_seq.
  - apply elem_of_seq. lia.
  - intros y Hy. do 2 case_decide; set_solver.
  - rewrite decide_True; set_solver.
Qed.

(** ** The loop invariant *)

(** [order] lists the visited nodes, oldest first. *)
Record kahn_inv (order : list nat) (st : kahn_state) : Prop := {
  ki_nodup : NoDup (order ++ k_ready st);
  ki_visited : k_visited st = length order;
  ki_length : length (k_indegree st) = n;
  ki_indegree : ∀ v, (v < n)%nat → k_indegree st !! v = Some (Z.of_nat (indeg (list_to_set order) v));
  ki_ready : ∀ v, v ∈ order ++ k_ready st ↔ (v < n)%nat ∧ indeg (list_to_set order) v = 0%nat;
  ki_topological : ∀ pre v post u, order = pre ++ v :: post → edge u v → u ∈ pre }.

(** Decrementing along the remaining edges [l] of the current node. *)
Lemma relax_fold (done_ : list nat) (base : nat → nat) l indegree ready :
  Forall (λ w, (w < n)%nat) l →
  length indegree = n →
  (∀ v, (v < n)%nat → indegree !! v = Some (Z.of_nat (base v + occ v l))) →
  NoDup (done_ ++ ready) →
  (∀ v, v ∈ done_ ++ ready ↔ (v < n)%nat ∧ (base v + occ v l)%nat = 0%nat) →
  let '(indegree', ready') := foldl relax (indegree, ready) l in
  length indegree' = n ∧
  (∀ v, (v < n)%nat → indegree' !! v = Some (Z.of_nat (base v))) ∧
  NoDup (done_ ++ ready') ∧
  (∀ v, v ∈ done_ ++ ready' ↔ (v < n)%nat ∧ base v = 0%nat).
Proof.
  revert indegree ready; induction l as [|w l IH]; intros indegree ready Hl Hlen Hdeg Hnd Hrd.
  { cbn in *. setoid_rewrite Nat.add_0_r in Hdeg. setoid_rewrite Nat.add_0_r in Hrd. done. }
  apply Forall_cons in Hl as [Hw Hl].
  assert (default 0 (indegree !! w) - 1 = Z.of_nat (base w + occ w l)) as Hd.
  { rewrite Hdeg, occ_cons, decide_True by done. cbn. lia. }
  cbn [foldl relax]. rewrite Hd. apply IH; [done|by rewrite length_insert| | |]; clear IH.
  - intros v Hv. destruct (decide (v = w)) as [->|Hne].
    + rewrite list_lookup_insert_eq by lia. done.
    + rewrite list_lookup_insert_ne, Hdeg, occ_cons, decide_False by done. done.
  - case_bool_decide as Hz; [|done]. rewrite <-Permutation_middle. apply NoDup_cons.
    split; [|done]. rewrite Hrd, occ_cons, decide_True by done. lia.
  - intros v. trans (v = w ∧ (base w + occ w l)%nat = 0%nat ∨ v ∈ done_ ++ ready).
    { case_bool_decide; [rewrite <-Permutation_middle, elem_of_cons|]; naive_solver lia. }
    rewrite Hrd, occ_cons. case_decide; naive_solver lia.
Qed.

Lemma kahn_inv_init indegree :
  indegree_ok indegree →
  kahn_inv [] {| k_indegree := indegree; k_ready := initial_ready indegree; k_visited := 0 |}.
Proof.
  intros [Hlen Hdeg]. constructor; cbn; [|done|done|done| |].
  - unfold initial_ready. rewrite reverse_Permutation. apply NoDup_filter, NoDup_seq.
  - intros v. unfold initial_ready. rewrite elem_of_reverse, list_elem_of_filter, elem_of_seq, Hlen.
    split.
    + intros [Hv ?]. split; [lia|]. rewrite Hdeg in Hv by lia. injection Hv. lia.
    + intros [Hv Hz]. split; [|lia]. rewrite Hdeg by lia. by rewrite Hz.
  - intros [|??]; done.
Qed.

Lemma kahn_inv_step order st st' :
  targets_ok → kahn_inv order st → kahn_step adjacency st = Some st' →
  ∃ current, kahn_inv (order ++ [current]) st'.
Proof.
  intros Hok [Hnd Hvis Hlen Hdeg Hrd Htop]. unfold kahn_step.
  destruct (k_ready st) as [|current rest] eqn:Hready; [done|]. intros Hst.
  assert (current < n ∧ indeg (list_to_set order) current = 0)%nat as [Hcn Hc0].
  { apply Hrd. set_solver. }
  assert (current ∉ order) as Hco.
  { apply NoDup_app in Hnd as (_ & Hd & _). intros Hin. apply (Hd _ Hin). by left. }
  set (V' := ({[current]} ∪ list_to_set order : gset nat)).
  assert (list_to_set (order ++ [current]) = V') as HV' by (unfold V'; set_solver).
  assert (∀ v, indeg (list_to_set order) v = (indeg V' v + occ v (adj current))%nat) as Hvisit.
  { intros v. rewrite (indeg_visit _ current); [unfold V'; lia| |done]. by rewrite elem_of_list_to_set. }
  pose proof (relax_fold (order ++ [current]) (indeg V') (adj current) (k_indegree st) rest) as Hfold.
  unfold adj in Hfold at 4. fold n in Hfold.
  destruct (foldl relax (k_indegree st, rest) (default [] (adjacency !! current)))
    as [indegree' ready'] eqn:Hf. simplify_eq.
  destruct Hfold as (Hl' & Hd' & Hn' & Hr').
  - apply Forall_forall. intros w Hw. apply (Hok current), edge_adj, Hw.
  - done.
  - intros v Hv. by rewrite Hdeg, Hvisit.
  - by rewrite <-app_assoc.
  - intros v. rewrite <-app_assoc. cbn. by rewrite Hrd, Hvisit.
  - exists current. constructor; cbn; rewrite ?HV'; try done.
    + rewrite length_app. cbn. lia.
    + intros pre v post u Heq He.
      destruct post as [|p post _] using rev_ind.
      * apply app_inj_tail in Heq as [-> ->].
        by apply (elem_of_list_to_set (C := gset nat)), (proj1 (indeg_zero _ _) Hc0).
      * rewrite app_comm_cons, app_assoc in Heq. apply app_inj_tail in Heq as [Heq _].
        by eapply Htop.
Qed.

Lemma kahn_inv_bound order st : kahn_inv order st → (length (order ++ k_ready st) ≤ n)%nat.
Proof.
  intros [Hnd _ _ _ Hrd _]. rewrite <-(length_seq n 0).
  apply submseteq_length, NoDup_submseteq; [done|]. intros v Hv. apply elem_of_seq.
  apply Hrd in Hv. lia.
Qed.

Lemma kahn_loop_inv fuel order st :
  targets_ok → kahn_inv order st → (n ≤ length order + fuel)%nat →
  ∃ order' st', kahn_inv order' st' ∧ k_ready st' = [] ∧
    kahn_loop fuel adjacency st = Some (length order').
Proof.
  intros Hok. revert order st; induction fuel as [|fuel IH]; intros order st Hinv Hfuel; cbn;
    destruct (kahn_step adjacency st) as [st'|] eqn:Hstep.
  - exfalso. pose proof (kahn_inv_bound _ _ Hinv) as Hb. unfold kahn_step in Hstep.
    destruct (k_ready st); [done|]. rewrite length_app in Hb. cbn in Hb. lia.
  - exists order, st. unfold kahn_step in Hstep.
    rewrite (ki_visited _ _ Hinv). by destruct (k_ready st); [|case_match].
  - destruct (kahn_inv_step _ _ _ Hok Hinv Hstep) as [current Hinv'].
    apply (IH _ _ Hinv'). rewrite length_app. cbn. lia.
  - exists order, st. unfold kahn_step in Hstep.
    rewrite (ki_visited _ _ Hinv). by destruct (k_ready st); [|case_match].
Qed.

(** ** Correctness *)

Lemma topological_before order :
  (∀ pre v post u, order = pre ++ v :: post → edge u v → u ∈ pre) →
  ∀ u v, tc edge u v → ∀ pre post, order = pre ++ v :: post → u ∈ pre.
Proof.
  intros Htop u v Htc. induction Htc as [u v He|u w v He Htc IH]; intros pre post Heq.
  - by eapply Htop.
  - destruct (list_elem_of_split _ _ (IH _ _ Heq)) as (p1 & p2 & ->).
    apply elem_of_app. left. eapply (Htop p1 w (p2 ++ v :: post)); [|done].
    by rewrite Heq, <-app_assoc.
Qed.

Lemma all_visited_acyclic order :
  targets_ok → NoDup order →
  (∀ pre v post u, order = pre ++ v :: post → edge u v → u ∈ pre) →
  (∀ v, (v < n)%nat → v ∈ order) → acyclic.
Proof.
  intros Hok Hnd Htop Hall v Hcyc.
  assert (v < n)%nat as Hv by (inversion Hcyc; subst; by eapply edge_source).
  destruct (list_elem_of_split _ _ (Hall v Hv)) as (pre & post & Heq).
  pose proof (topological_before _ Htop v v Hcyc pre post Heq) as Hin.
  subst order. apply NoDup_app in Hnd as (_ & Hd & _). apply (Hd _ Hin). by left.
Qed.

Lemma tc_edge_flip u v : tc (flip edge) u v → tc edge v u.
Proof. induction 1 as [|u w v He _ IH]; [by apply tc_once|by eapply tc_r]. Qed.

Lemma acyclic_sn v : acyclic → sn (flip edge) v.
Proof.
  intros Hac. apply tc_finite_sn.
  - intros u Hu. apply (Hac u). by apply tc_edge_flip.
  - exists (seq 0 n). intros u Hu. apply elem_of_seq.
    cut (u < n)%nat; [lia|]. clear Hac. induction Hu as [? ? He|]; [|done].
    by eapply edge_source.
Qed.

Lemma acyclic_all_visited order :
  acyclic → (∀ v, v ∈ order ↔ (v < n)%nat ∧ indeg (list_to_set order) v = 0%nat) →
  ∀ v, (v < n)%nat → v ∈ order.
Proof.
  intros Hac Hord v. induction (acyclic_sn v Hac) as [v _ IH]. intros Hv.
  apply Hord. split; [done|]. apply indeg_zero. intros u He.
  apply elem_of_list_to_set. apply IH; [done|by eapply edge_source].
Qed.

Lemma order_complete order :
  NoDup order → (∀ v, v ∈ order → (v < n)%nat) →
  length order = n ↔ ∀ v, (v < n)%nat → v ∈ order.
Proof.
  intros Hnd Hlt.
  assert (order ⊆+ seq 0 n) as Hsub.
  { apply NoDup_submseteq; [done|]. intros v Hv. apply elem_of_seq. specialize (Hlt v Hv). lia. }
  split.
  - intros Hlen v Hv. apply (submseteq_length_Permutation order (seq 0 n)) in Hsub;
      [|by rewrite length_seq, Hlen]. rewrite Hsub. apply elem_of_seq. lia.
  - intros Hall. apply submseteq_length in Hsub as Hle. rewrite length_seq in Hle.
    assert (seq 0 n ⊆+ order) as Hge%submseteq_length; [|rewrite length_seq in Hge; lia].
    apply NoDup_submseteq; [apply NoDup_seq|]. intros v Hv%elem_of_seq. apply Hall. lia.
Qed.
End graph.

Lemma graphContainsCycle_iff adjacency indegree :
  targets_ok adjacency → indegree_ok adjacency indegree →
  ∃ b, graphContainsCycle adjacency indegree = Some b ∧ (b = false ↔ acyclic adjacency).
Proof.
  intros Hok Hdeg.
  destruct (kahn_loop_inv adjacency (length indegree) [] _ Hok (kahn_inv_init _ _ Hdeg))
    as (order & st & [Hnd _ _ _ Hrd Htop] & Hready & Hloop).
  { cbn. by rewrite (proj1 Hdeg). }
  unfold graphContainsCycle. rewrite Hloop. cbn. eexists. split; [done|].
  rewrite Hready, app_nil_r in Hnd. setoid_rewrite Hready in Hrd. setoid_rewrite app_nil_r in Hrd.
  rewrite negb_false_iff, bool_decide_eq_true, (proj1 Hdeg).
  rewrite (order_complete adjacency order) by (try done; intros v Hv; by apply Hrd).
  split; [by apply all_visited_acyclic|by intros Hac; apply acyclic_all_visited].
Qed.

(** On consistent arrays the check terminates and reports a cycle exactly
    when the dependency graph has one. *)
Theorem graphContainsCycle_correct adjacency indegree :
  targets_ok adjacency → indegree_ok adjacency indegree →
  ∃ b, graphContainsCycle adjacency indegree = Some b ∧ (b = false ↔ acyclic adjacency).
Proof. apply graphContainsCycle_iff. Qed.

Lemma targets_ok_alt adjacency :
  targets_ok adjacency ↔ Forall (Forall (λ v, (v < length adjacency)%nat)) adjacency.
Proof.
  unfold targets_ok, edge. rewrite Forall_lookup. setoid_rewrite Forall_forall. naive_solver.
Qed.

Lemma graphContainsCycle_correct_witness :
  ∃ b, graphContainsCycle [[1]; [2]; []]%nat [0; 1; 1] = Some b ∧
       (b = false ↔ acyclic [[1]; [2]; []]%nat).
Proof.
  apply graphContainsCycle_correct.
  - apply targets_ok_alt. repeat constructor.
  - split; [done|]. intros v Hv. do 3 (destruct v as [|v]; [done|]). cbn in Hv. lia.
Defined.
