(* ===== verification/Graph.v ===== *)
(** * Dependency graph requests

    The edge validation of [contracts/jobman/v1alpha1/validate.go]
    ([validateGraphEdges], [validateGraphEdge], [validateGraphEdgeOutcomes]) and
    its composition with the cycle check.  The node map, the adjacency and
    in-degree arrays and the [seen] set are those of the source. *)
From stdpp Require Import relations.
From S2P Require Import Prelude Regex Names Kahn.

(** ** Data *)

Definition processOutcomeCancelled := "cancelled".
Definition processOutcomeFailure := "failure".
Definition processOutcomeLost := "lost".
Definition processOutcomeSuccess := "success".
Definition processOutcomeTimedOut := "timed_out".
Definition graphPredicateOutcomes := "outcomes".

Record GraphEdge := {
  ge_From : string; ge_To : string; ge_Predicate : string; ge_Outcomes : list string }.

Definition validGraphPredicate (predicate : string) : bool :=
  slices_Contains [processOutcomeSuccess; processOutcomeFailure; "any-terminal"; graphPredicateOutcomes]
    predicate.

Definition validGraphOutcome (outcome : string) : bool :=
  slices_Contains [processOutcomeSuccess; processOutcomeFailure; processOutcomeCancelled;
    processOutcomeTimedOut; "aborted"; processOutcomeLost] outcome.

(** The loop over [edge.Outcomes] compares each outcome with its predecessor. *)
Definition validateSelectedOutcome (previous : option string) (outcome : string) : result (option string) :=
  fail_if (negb (validGraphOutcome outcome) || bool_decide (previous = Some outcome))
    (Errorf "validate graph request: selected outcomes are invalid" []);;
  Ok (Some outcome).

Definition validateGraphEdgeOutcomes (edge : GraphEdge) : result unit :=
  fail_if (negb (bool_decide (ge_Predicate edge = graphPredicateOutcomes)) &&
           negb (bool_decide (slice_len (ge_Outcomes edge) = 0)))
    (Errorf "validate graph request: outcomes require the outcomes predicate" []);;
  fail_if (bool_decide (ge_Predicate edge = graphPredicateOutcomes) &&
           (bool_decide (slice_len (ge_Outcomes edge) = 0) ||
            bool_decide (6 < slice_len (ge_Outcomes edge))))
    (Errorf "validate graph request: selected outcomes are invalid" []);;
  for_range validateSelectedOutcome None (ge_Outcomes edge);;
  Ok tt.

(** [edge.From + "\x00" + edge.To] *)
Definition edge_key (edge : GraphEdge) : string :=
  ge_From edge +:+ String Ascii.zero (ge_To edge).

(** [validateGraphEdge]; the returned set is [seen] after its update. *)
Definition validateGraphEdge (edge : GraphEdge) (nodes : gmap string nat) (seen : gset string)
    : result (nat * nat * gset string) :=
  match nodes !! ge_From edge, nodes !! ge_To edge with
  | Some from, Some to =>
      fail_if (bool_decide (from = to))
        (Errorf "validate graph request: edge contains an invalid node reference" []);;
      fail_if (bool_decide (edge_key edge ∈ seen))
        (Errorf "validate graph request: duplicate edge" []);;
      fail_if (negb (validGraphPredicate (ge_Predicate edge)))
        (Errorf "validate graph request: edge predicate is unsupported" []);;
      validateGraphEdgeOutcomes edge;;
      Ok (from, to, {[edge_key edge]} ∪ seen)
  | _, _ => Err (Errorf "validate graph request: edge contains an invalid node reference" [])
  end.

Record edge_arrays := { ea_adjacency : list (list nat); ea_indegree : list Z; ea_seen : gset string }.

(** The body of the loop of [validateGraphEdges]. *)
Definition addGraphEdge (nodes : gmap string nat) (st : edge_arrays) (edge : GraphEdge)
    : result edge_arrays :=
  '(from, to, seen) ← validateGraphEdge edge nodes (ea_seen st);
  Ok {| ea_adjacency := alter (λ targets, targets ++ [to]) from (ea_adjacency st);
        ea_indegree := alter (λ degree, degree + 1) to (ea_indegree st);
        ea_seen := seen |}.

Definition validateGraphEdges (edges : list GraphEdge) (nodes : gmap string nat) (nodeCount : nat)
    : result (list (list nat) * list Z) :=
  st ← for_range (addGraphEdge nodes)
    {| ea_adjacency := replicate nodeCount []; ea_indegree := replicate nodeCount 0; ea_seen := ∅ |} edges;
  Ok (ea_adjacency st, ea_indegree st).

(** The last two steps of [ValidateGraphRequest]: build the arrays, reject cycles. *)
Definition checkGraphEdges (edges : list GraphEdge) (nodes : gmap string nat) (nodeCount : nat)
    : result unit :=
  '(adjacency, indegree) ← validateGraphEdges edges nodes nodeCount;
  match graphContainsCycle adjacency indegree with
  | Some false => Ok tt
  | Some true => Err (Errorf "validate graph request: dependency cycle detected" [])
  | None => Err (Errorf "out of fuel" [])
  end.

(** ** Edge keys identify edges *)

Definition nul_free (s : string) : Prop := contains_nul s = false.

Lemma nul_free_cons c s : nul_free (String c s) ↔ c ≠ Ascii.zero ∧ nul_free s.
Proof.
  unfold nul_free, contains_nul. cbn [contains_byte]. rewrite orb_false_iff, bool_decide_eq_false.
  naive_solver.
Qed.

Lemma append_nul_inj (a b c d : string) :
  nul_free a → nul_free c →
  a +:+ String Ascii.zero b = c +:+ String Ascii.zero d → a = c ∧ b = d.
Proof.
  revert c; induction a as [|x a IH]; intros [|y c] Ha Hc Heq; cbn in *; simplify_eq.
  - done.
  - by apply nul_free_cons in Hc as [].
  - by apply nul_free_cons in Ha as [].
  - apply nul_free_cons in Ha as [_ ?]. apply nul_free_cons in Hc as [_ ?].
    by destruct (IH c) as [-> ->].
Qed.

Lemma ValidName_nul_free s : ValidName s = true → nul_free s.
Proof.
  rewrite ValidName_iff. intros (_ & Hall & _). revert Hall.
  induction s as [|c s IH]; cbn; [done|]. intros [Hc Hall]%Forall_cons.
  apply nul_free_cons. split; [|by apply IH]. intros ->. by vm_compute in Hc.
Qed.

(** ** The arrays describe the edges *)

Lemma sum_list_with_incr {A} (f g : A → nat) x d l :
  NoDup l → x ∈ l → (∀ y, y ≠ x → f y = g y) → f x = (g x + d)%nat →
  sum_list_with f l = (sum_list_with g l + d)%nat.
Proof.
  intros Hnd Hx Hfg Hd. induction Hnd as [|y l Hy Hnd IH]; [set_solver|]. cbn.
  apply elem_of_cons in Hx as [->|Hx].
  - rewrite Hd. assert (sum_list_with f l = sum_list_with g l) as ->; [|lia].
    clear IH Hnd. induction l as [|z l IH]; cbn; [done|]. rewrite Hfg, IH; set_solver.
  - assert (y ≠ x) by set_solver. rewrite IH, Hfg by done. lia.
Qed.

Lemma occ_snoc v w l : occ v (l ++ [w]) = (occ v l + if decide (v = w) then 1 else 0)%nat.
Proof. unfold occ. rewrite filter_app, length_app, filter_cons. by case_decide. Qed.

Lemma indeg_add_edge adjacency from to v :
  (from < length adjacency)%nat →
  indeg (alter (λ targets, targets ++ [to]) from adjacency) ∅ v =
  (indeg adjacency ∅ v + if decide (v = to) then 1 else 0)%nat.
Proof.
  intros Hfrom. unfold indeg. rewrite length_alter.
  destruct (lookup_lt_is_Some_2 _ _ Hfrom) as [vs Hvs].
  apply (sum_list_with_incr _ _ from); [apply NoDup_seq|apply elem_of_seq; lia| |].
  - intros y Hy. rewrite list_lookup_alter_ne by done. done.
  - rewrite !decide_False by set_solver. rewrite list_lookup_alter_eq, Hvs. apply occ_snoc.
Qed.

Lemma edge_add_edge adjacency from to u v :
  (from < length adjacency)%nat →
  edge (alter (λ targets, targets ++ [to]) from adjacency) u v ↔
  edge adjacency u v ∨ (u = from ∧ v = to).
Proof.
  intros Hfrom. destruct (lookup_lt_is_Some_2 _ _ Hfrom) as [vs Hvs]. unfold edge.
  destruct (decide (u = from)) as [->|Hne].
  - rewrite list_lookup_alter_eq, Hvs. cbn. split.
    + intros (? & [= <-] & Hin). set_solver.
    + intros [(? & [= <-] & ?)|[_ ->]]; eexists; (split; [done|]); set_solver.
  - rewrite list_lookup_alter_ne by done. naive_solver.
Qed.

(** The relation between node indices that a list of edges denotes. *)
Definition denotes (nodes : gmap string nat) (edges : list GraphEdge) (u v : nat) : Prop :=
  ∃ e, e ∈ edges ∧ nodes !! ge_From e = Some u ∧ nodes !! ge_To e = Some v.

Record arrays_ok (nodes : gmap string nat) (n : nat) (edges : list GraphEdge) (st : edge_arrays) : Prop := {
  ao_length : length (ea_adjacency st) = n;
  ao_targets : targets_ok (ea_adjacency st);
  ao_indegree : indegree_ok (ea_adjacency st) (ea_indegree st);
  ao_edges : ∀ u v, edge (ea_adjacency st) u v ↔ denotes nodes edges u v }.

Lemma arrays_ok_init nodes n :
  arrays_ok nodes n [] {| ea_adjacency := replicate n []; ea_indegree := replicate n 0; ea_seen := ∅ |}.
Proof.
  assert (∀ u v, ¬ edge (replicate n []) u v) as Hno.
  { intros u v (vs & [-> _]%lookup_replicate & Hin). set_solver. }
  constructor; cbn.
  - apply length_replicate.
  - intros u v He. by destruct (Hno u v).
  - split; [by rewrite !length_replicate|]. rewrite length_replicate. intros v Hv.
    rewrite lookup_replicate_2 by done. f_equal.
    destruct (indeg (replicate n []) ∅ v) eqn:E; [done|].
    assert (indeg (replicate n []) ∅ v = 0%nat) by (apply indeg_zero; intros u He; by destruct (Hno u v)).
    lia.
  - intros u v. split; [intros He; by destruct (Hno u v)|]. intros (e & He & _). set_solver.
Qed.

Lemma arrays_ok_add nodes n edges st e st' :
  (∀ name i, nodes !! name = Some i → (i < n)%nat) →
  arrays_ok nodes n edges st → addGraphEdge nodes st e = Ok st' →
  arrays_ok nodes n (edges ++ [e]) st'.
Proof.
  intros Hn [Hlen Ht [Hi1 Hi2] He] Hadd. unfold addGraphEdge, validateGraphEdge in Hadd.
  destruct (nodes !! ge_From e) as [from|] eqn:Hf; [|done].
  destruct (nodes !! ge_To e) as [to|] eqn:Hto; [|done]. res_inv. simplify_eq/=.
  pose proof (Hn _ _ Hf). pose proof (Hn _ _ Hto).
  constructor; cbn.
  - by rewrite length_alter.
  - intros u v. rewrite length_alter, edge_add_edge by lia. intros [?|[-> ->]]; [by eapply Ht|lia].
  - split; [by rewrite !length_alter|]. rewrite length_alter. intros v Hv.
    rewrite indeg_add_edge by lia. destruct (decide (v = to)) as [->|Hne].
    + rewrite list_lookup_alter_eq, Hi2 by done. cbn. f_equal. lia.
    + rewrite list_lookup_alter_ne, Hi2 by done. f_equal. lia.
  - intros u v. rewrite edge_add_edge, He by lia. unfold denotes.
    setoid_rewrite elem_of_app. setoid_rewrite list_elem_of_singleton. naive_solver.
Qed.

Lemma validateGraphEdges_arrays nodes n edges adjacency indegree :
  (∀ name i, nodes !! name = Some i → (i < n)%nat) →
  validateGraphEdges edges nodes n = Ok (adjacency, indegree) →
  targets_ok adjacency ∧ indegree_ok adjacency indegree ∧
  (∀ u v, edge adjacency u v ↔ denotes nodes edges u v).
Proof.
  intros Hn Hok. unfold validateGraphEdges in Hok. res_inv. simplify_eq.
  eapply (for_range_invariant _ (arrays_ok nodes n)) in H as [_ ? ? ?]; [done|apply arrays_ok_init|].
  intros. by eapply arrays_ok_add.
Qed.

(** ** What edge validation accepts *)

Definition edge_wf (nodes : gmap string nat) (e : GraphEdge) : Prop :=
  is_Some (nodes !! ge_From e) ∧ is_Some (nodes !! ge_To e) ∧ ge_From e ≠ ge_To e ∧
  validGraphPredicate (ge_Predicate e) = true ∧ validateGraphEdgeOutcomes e = Ok tt.

(** The dependency relation between node names. *)
Definition depends (edges : list GraphEdge) (a b : string) : Prop :=
  ∃ e, e ∈ edges ∧ ge_From e = a ∧ ge_To e = b.

Lemma NoDup_fmap_same_kernel {A B C} (f : A → B) (g : A → C) l :
  (∀ x y, x ∈ l → y ∈ l → f x = f y ↔ g x = g y) → NoDup (f <$> l) ↔ NoDup (g <$> l).
Proof.
  induction l as [|x l IH]; intros Hk; cbn; [by split; constructor|].
  rewrite !NoDup_cons, IH by (intros; apply Hk; by right).
  rewrite !list_elem_of_fmap. split; intros [Hx ?]; (split; [|done]); intros (y & Hy & Hin);
    apply Hx; exists y; (split; [|done]); apply Hk; set_solver.
Qed.

Section nodes.
(** The map [validateGraphNodes] returns: distinct valid names numbered below [n]. *)
Context (nodes : gmap string nat) (n : nat).
Hypothesis nodes_bound : ∀ name i, nodes !! name = Some i → (i < n)%nat.
Hypothesis nodes_inj : ∀ a b i, nodes !! a = Some i → nodes !! b = Some i → a = b.
Hypothesis nodes_names : ∀ name i, nodes !! name = Some i → ValidName name = true.

Lemma validateGraphEdge_spec e seen r :
  (x ← validateGraphEdge e nodes seen; Ok x.2) = Ok r ↔
  edge_wf nodes e ∧ (edge_key e ∉ seen) ∧ r = {[edge_key e]} ∪ seen.
Proof using nodes_inj.
  unfold validateGraphEdge, edge_wf.
  destruct (nodes !! ge_From e) as [from|] eqn:Hf; [|by split; [|intros ((? & ?) & _); destruct_or?; naive_solver]].
  destruct (nodes !! ge_To e) as [to|] eqn:Ht; [|split; [done|intros ((_ & [? ?] & _) & _); done]].
  assert (from = to ↔ ge_From e = ge_To e) as Heq.
  { split; [intros ->; by eapply nodes_inj|]. intros Heq. rewrite Heq in Hf. congruence. }
  repeat case_bool_decide; cbn; [naive_solver..|].
  destruct (validGraphPredicate (ge_Predicate e)); cbn; [|naive_solver].
  destruct (validateGraphEdgeOutcomes e) as [[]|]; cbn; [|naive_solver].
  split; [intros [= <-]|intros (_ & _ & ->); done]. naive_solver.
Qed.

Lemma validateGraphEdges_seen edges st :
  (∃ st', for_range (addGraphEdge nodes) st edges = Ok st') ↔
  (∃ r, for_range (λ seen e, x ← validateGraphEdge e nodes seen; Ok x.2) (ea_seen st) edges = Ok r).
Proof.
  revert st; induction edges as [|e edges IH]; intros st; cbn; [naive_solver|].
  assert (addGraphEdge nodes st e = '(from, to, seen) ← validateGraphEdge e nodes (ea_seen st);
    Ok {| ea_adjacency := alter (λ targets, targets ++ [to]) from (ea_adjacency st);
          ea_indegree := alter (λ degree, degree + 1) to (ea_indegree st); ea_seen := seen |}) as -> by done.
  destruct (validateGraphEdge e nodes (ea_seen st)) as [[[from to] seen]|]; [|by split; intros [? ?]].
  exact (IH {| ea_adjacency := alter (λ targets, targets ++ [to]) from (ea_adjacency st);
               ea_indegree := alter (λ degree, degree + 1) to (ea_indegree st); ea_seen := seen |}).
Qed.

Lemma validateGraphEdges_ok edges :
  (∃ r, validateGraphEdges edges nodes n = Ok r) ↔
  Forall (edge_wf nodes) edges ∧ NoDup ((λ e, (ge_From e, ge_To e)) <$> edges).
Proof using nodes_inj nodes_names.
  unfold validateGraphEdges. setoid_rewrite bind_ok.
  trans (∃ st', for_range (addGraphEdge nodes) {| ea_adjacency := replicate n [];
    ea_indegree := replicate n 0; ea_seen := ∅ |} edges = Ok st'); [naive_solver|].
  rewrite validateGraphEdges_seen. cbn.
  rewrite (for_range_seen edge_key _ _ (λ seen x, validateGraphEdge_spec x seen)).
  split; intros [Hall Hnd]; (split; [done|]); revert Hnd; apply NoDup_fmap_same_kernel;
    intros x y Hx Hy; rewrite Forall_forall in Hall;
    destruct (Hall x Hx) as ([? Hx1] & _ & _), (Hall y Hy) as ([? Hy1] & _ & _);
    apply nodes_names, ValidName_nul_free in Hx1, Hy1.
  all: unfold edge_key; split; intros Hk;
    first [ destruct (append_nul_inj _ _ _ _ Hx1 Hy1 Hk) as [-> ->]; done
          | injection Hk as -> ->; done ].
Qed.

Lemma acyclic_names edges adjacency :
  Forall (edge_wf nodes) edges →
  (∀ u v, edge adjacency u v ↔ denotes nodes edges u v) →
  acyclic adjacency ↔ ∀ name, ¬ tc (depends edges) name name.
Proof using nodes_inj.
  intros Hall Hedge. rewrite Forall_forall in Hall. split.
  - intros Hac name Hcyc.
    cut (∀ a b, tc (depends edges) a b →
           ∃ u v, nodes !! a = Some u ∧ nodes !! b = Some v ∧ tc (edge adjacency) u v).
    { intros Hcut. destruct (Hcut _ _ Hcyc) as (u & v & Hu & Hv & Htc). simplify_eq. by eapply Hac. }
    clear name Hcyc. induction 1 as [a b (e & He & <- & <-)|a b c (e & He & <- & <-) _ (u & v & Hu & Hv & IH)];
      destruct (Hall e He) as ([i Hi] & [j Hj] & _).
    + exists i, j. split_and!; [done..|]. apply tc_once, Hedge. by exists e.
    + exists i, v. split_and!; [done..|]. simplify_eq. apply tc_l with u; [|done]. apply Hedge. by exists e.
  - intros Hac u Hcyc.
    cut (∀ u v, tc (edge adjacency) u v →
           ∃ a b, nodes !! a = Some u ∧ nodes !! b = Some v ∧ tc (depends edges) a b).
    { intros Hcut. destruct (Hcut _ _ Hcyc) as (a & b & Ha & Hb & Htc).
      rewrite (nodes_inj _ _ _ Ha Hb) in Htc. by eapply Hac. }
    clear u Hcyc. induction 1 as [u v (e & He & Hf & Ht)%Hedge
      |u v w (e & He & Hf & Ht)%Hedge _ (a & b & Ha & Hb & IH)].
    + exists (ge_From e), (ge_To e). split_and!; [done..|]. apply tc_once. by exists e.
    + exists (ge_From e), b. split_and!; [done..|]. rewrite (nodes_inj _ _ _ Ha Ht) in IH.
      apply tc_l with (ge_To e); [by exists e|done].
Qed.

Lemma checkGraphEdges_iff edges :
  checkGraphEdges edges nodes n = Ok tt ↔
  Forall (edge_wf nodes) edges ∧ NoDup ((λ e, (ge_From e, ge_To e)) <$> edges) ∧
  (∀ name, ¬ tc (depends edges) name name).
Proof using nodes_bound nodes_inj nodes_names.
  unfold checkGraphEdges. rewrite (assoc (∧)), <-validateGraphEdges_ok.
  destruct (validateGraphEdges edges nodes n) as [[adjacency indegree]|] eqn:Hv; cbn; [|naive_solver].
  destruct (validateGraphEdges_arrays _ _ _ _ _ nodes_bound Hv) as (Ht & Hi & He).
  assert (Forall (edge_wf nodes) edges) as Hall by (apply validateGraphEdges_ok; eauto).
  destruct (graphContainsCycle_iff _ _ Ht Hi) as (b & -> & Hb).
  rewrite <-(acyclic_names edges adjacency Hall He), <-Hb. destruct b; naive_solver.
Qed.
End nodes.

(** Edge validation accepts exactly the acyclic dependency relations between
    known nodes without self-loops or repeated edges, with supported predicates.
    In particular the [\x00]-separated key never confuses two edges, and the
    cycle check never fails to return. *)
Theorem checkGraphEdges_correct edges nodes n :
  (∀ name i, nodes !! name = Some i → (i < n)%nat) →
  (∀ a b i, nodes !! a = Some i → nodes !! b = Some i → a = b) →
  (∀ name i, nodes !! name = Some i → ValidName name = true) →
  checkGraphEdges edges nodes n = Ok tt ↔
  Forall (edge_wf nodes) edges ∧ NoDup ((λ e, (ge_From e, ge_To e)) <$> edges) ∧
  (∀ name, ¬ tc (depends edges) name name).
Proof. intros. by apply checkGraphEdges_iff. Qed.

(** A three-node chain. *)
Definition demo_edges : list GraphEdge :=
  [{| ge_From := "build"; ge_To := "test"; ge_Predicate := "success"; ge_Outcomes := [] |};
   {| ge_From := "test"; ge_To := "report"; ge_Predicate := "outcomes";
      ge_Outcomes := ["failure"; "success"] |}].
Definition demo_nodes : gmap string nat := list_to_map [("build", 0%nat); ("test", 1%nat); ("report", 2%nat)].

Lemma demo_nodes_lookup name i :
  demo_nodes !! name = Some i → (name, i) ∈ [("build", 0%nat); ("test", 1%nat); ("report", 2%nat)].
Proof. apply elem_of_list_to_map_2. Qed.

Lemma checkGraphEdges_correct_witness :
  checkGraphEdges demo_edges demo_nodes 3 = Ok tt ∧
  Forall (edge_wf demo_nodes) demo_edges ∧
  NoDup ((λ e, (ge_From e, ge_To e)) <$> demo_edges) ∧
  (∀ name, ¬ tc (depends demo_edges) name name).
Proof.
  assert (checkGraphEdges demo_edges demo_nodes 3 = Ok tt) as Hok by (vm_compute; reflexivity).
  split; [exact Hok|]. revert Hok. apply (checkGraphEdges_correct demo_edges demo_nodes 3).
  - intros name i Hi%demo_nodes_lookup. set_unfold. naive_solver lia.
  - intros a b i Ha%demo_nodes_lookup Hb%demo_nodes_lookup. set_unfold. naive_solver.
  - intros name i Hi%demo_nodes_lookup. set_unfold.
    destruct Hi as [[= -> ->]|[[= -> ->]|[[= -> ->]|[]]]]; vm_compute; reflexivity.
Defined.
