(* ===== verification/Contract.v ===== *)
(** * The portable contract documents

    The document types of [contracts/jobman/v1alpha1/types.go].  A Go pointer is
    an [option], a Go map is a [gmap], [int] and [int64] are [Z]; a nil and an
    empty slice are the same list.  The database stores these documents as JSON
    and the sources read them back with [json.Unmarshal] into the same types, so
    a document column of the model holds the value itself. *)
From S2P Require Import Prelude Regex Names Domain TargetSpec Kahn Graph.

(** ** Contract version and kinds *)

Definition V1Alpha1 := "jobman/v1alpha1".
Definition WorkloadKind := "Workload".
Definition JobRequestKind := "JobRequest".
Definition CollectionRequestKind := "CollectionRequest".
Definition GraphRequestKind := "GraphRequest".
Definition EffectiveExecutionKind := "EffectiveExecution".
Definition AgentAssignmentKind := "AgentAssignment".
Definition AgentAcceptanceKind := "AgentAcceptance".
Definition LaunchAuthorizationKind := "LaunchAuthorization".
Definition ExecutionEventKind := "ExecutionEvent".
Definition DesiredActionKind := "DesiredAction".
Definition ActionAcknowledgementKind := "ActionAcknowledgement".

(** ** Workloads *)

Record WorkloadMetadata := {
  wm_Name : string; wm_Description : string;
  wm_Labels : gmap string string; wm_Annotations : gmap string string }.

Record ShellCommand := { sc_Capability : string; sc_Script : string }.
Record Command := { c_Executable : string; c_Args : list string; c_Shell : option ShellCommand }.

Record SecretExposure := { se_Environment : string; se_File : string }.
Record SecretBinding := { sb_Name : string; sb_Source : string; sb_ExposeAs : SecretExposure }.
Record Environment := {
  env_Profile : string; env_Values : gmap string string; env_Secrets : list SecretBinding }.

Record Resources := {
  res_CPU : Z; res_Memory : string; res_GPU : Z; res_Nodes : Z; res_Tasks : Z;
  res_TemporaryStorage : string; res_WallTime : string }.

Record ContainerRuntime := { cr_Image : string; cr_PullPolicy : string; cr_Network : string }.
Record Runtime := { rt_Kind : string; rt_Container : option ContainerRuntime }.

Record InputArtifact := {
  ia_Name : string; ia_Source : string; ia_Target : string; ia_Checksum : string }.
Record OutputArtifact := {
  oa_Name : string; oa_Source : string; oa_Destination : string; oa_Required : bool }.
Record Artifacts := { art_Inputs : list InputArtifact; art_Outputs : list OutputArtifact }.

Record RetryPolicy := { rp_MaxRuns : Z; rp_Backoff : string }.
Record ExecutionPolicy := {
  ep_RunTimeout : string; ep_Retry : RetryPolicy; ep_DuplicateRisk : string }.

Record Requirements := {
  req_OperatingSystems : list string; req_Architectures : list string;
  req_Capabilities : list string }.

(** [Extensions] maps names to raw JSON, kept as its text. *)
Record WorkloadSpec := {
  ws_Command : Command;
  ws_WorkingDirectory : string;
  ws_Environment : option Environment;
  ws_Resources : option Resources;
  ws_Runtime : Runtime;
  ws_Artifacts : option Artifacts;
  ws_Policy : ExecutionPolicy;
  ws_Requirements : option Requirements;
  ws_Extensions : gmap string string }.

Record Workload := {
  w_APIVersion : string; w_Kind : string; w_Metadata : WorkloadMetadata; w_Spec : WorkloadSpec }.

Record WorkloadBinding := { wb_Digest : string; wb_Document : Workload }.
Record Placement := { pl_Target : string; pl_Partition : string }.

(** ** Effective executions and assignments *)

Record SlurmArrayBinding := {
  sab_CollectionID : string; sab_TaskIndex : Z; sab_TaskCount : Z; sab_MaxParallel : Z }.
Record EffectiveExecutionMetadata := {
  eem_ExecutionID : string; eem_RunID : string; eem_JobID : string; eem_Namespace : string;
  eem_SlurmArray : option SlurmArrayBinding }.
Record ArtifactStoreBinding := { asb_Name : string; asb_Version : Z }.
Record EffectivePlacement := {
  epl_TargetID : string; epl_TargetGenerationID : string; epl_Target : string;
  epl_Partition : string; epl_ExecutionBackend : string }.
Record EffectiveExecutionSpec := {
  ees_Workload : WorkloadBinding; ees_Placement : EffectivePlacement;
  ees_ArtifactStores : list ArtifactStoreBinding }.
Record EffectiveExecution := {
  ee_APIVersion : string; ee_Kind : string;
  ee_Metadata : EffectiveExecutionMetadata; ee_Spec : EffectiveExecutionSpec }.

Record AgentAssignmentMetadata := { aam_DeliveryID : string; aam_AgentID : string }.
Record AgentAssignmentSpec := {
  aas_EffectiveExecutionDigest : string; aas_EffectiveExecution : EffectiveExecution }.
Record AgentAssignment := {
  aa_APIVersion : string; aa_Kind : string;
  aa_Metadata : AgentAssignmentMetadata; aa_Spec : AgentAssignmentSpec }.

Record AgentAcceptanceMetadata := {
  acm_DeliveryID : string; acm_ExecutionID : string; acm_AgentID : string }.
Record AgentAcceptanceSpec := {
  acs_TargetGenerationID : string; acs_EffectiveExecutionDigest : string }.
Record AgentAcceptance := {
  ac_APIVersion : string; ac_Kind : string;
  ac_Metadata : AgentAcceptanceMetadata; ac_Spec : AgentAcceptanceSpec }.

(** ** Execution events and desired actions *)

Record ExecutionEventMetadata := {
  evm_EventID : string; evm_ExecutionID : string; evm_AgentID : string;
  evm_Sequence : Z; evm_ObservedAt : time }.
Record PublishedArtifact := {
  pa_Name : string; pa_StoreName : string; pa_StoreVersion : Z;
  pa_ObjectKey : string; pa_ByteLength : Z; pa_Checksum : string }.
Record SchedulerObservation := {
  so_Backend : string; so_State : string; so_Reason : string; so_Cluster : string }.
Record ProcessResult := {
  pr_Outcome : string; pr_ExitCode : option Z; pr_Signal : string; pr_FailureCode : string }.
Record ExecutionEventSpec := {
  evs_Type : string; evs_NativeID : string; evs_Scheduler : option SchedulerObservation;
  evs_Result : option ProcessResult; evs_Artifacts : list PublishedArtifact }.
Record ExecutionEvent := {
  ev_APIVersion : string; ev_Kind : string;
  ev_Metadata : ExecutionEventMetadata; ev_Spec : ExecutionEventSpec }.

Record DesiredActionMetadata := {
  dam_ActionID : string; dam_ExecutionID : string; dam_AgentID : string;
  dam_Revision : Z; dam_RequestedAt : time }.
Record DesiredActionSpec := { das_Type : string }.
Record DesiredAction := {
  dact_APIVersion : string; dact_Kind : string;
  dact_Metadata : DesiredActionMetadata; dact_Spec : DesiredActionSpec }.

Record ActionAcknowledgementMetadata := {
  akm_ActionID : string; akm_ExecutionID : string; akm_AgentID : string;
  akm_Revision : Z; akm_ObservedAt : time }.
Record ActionAcknowledgement := {
  ak_APIVersion : string; ak_Kind : string; ak_Metadata : ActionAcknowledgementMetadata }.

Record LaunchAuthorizationMetadata := {
  lam_AuthorizationID : string; lam_ExecutionID : string; lam_AgentID : string;
  lam_Revision : Z; lam_AcceptedAt : time }.
Record LaunchAuthorizationSpec := {
  las_TargetGenerationID : string; las_EffectiveExecutionDigest : string }.
Record LaunchAuthorization := {
  la_APIVersion : string; la_Kind : string;
  la_Metadata : LaunchAuthorizationMetadata; la_Spec : LaunchAuthorizationSpec }.

(** ** Submissions *)

Record JobRequestMetadata := {
  jrm_Namespace : string; jrm_Name : string; jrm_Labels : gmap string string }.
Record JobRequestSpec := { jrs_Workload : WorkloadBinding; jrs_Placement : Placement }.
Record JobRequest := {
  jr_APIVersion : string; jr_Kind : string;
  jr_Metadata : JobRequestMetadata; jr_Spec : JobRequestSpec }.

Record CollectionItem := {
  ci_Name : string; ci_Workload : WorkloadBinding; ci_Placement : Placement }.
Record CollectionRequestMetadata := {
  crm_Namespace : string; crm_Name : string; crm_Labels : gmap string string }.
Record CollectionRequestSpec := {
  crs_Items : list CollectionItem; crs_MaxActive : Z;
  crs_FailurePolicy : string; crs_ArrayPolicy : string }.
Record CollectionRequest := {
  cq_APIVersion : string; cq_Kind : string;
  cq_Metadata : CollectionRequestMetadata; cq_Spec : CollectionRequestSpec }.

Record GraphNode := {
  gn_Name : string; gn_Workload : WorkloadBinding; gn_Placement : Placement }.
Record GraphRequestMetadata := {
  grm_Namespace : string; grm_Name : string; grm_Labels : gmap string string }.
Record GraphRequestSpec := {
  grs_Nodes : list GraphNode; grs_Edges : list GraphEdge;
  grs_MaxActive : Z; grs_UnsatisfiedPolicy : string }.
Record GraphRequest := {
  gr_APIVersion : string; gr_Kind : string;
  gr_Metadata : GraphRequestMetadata; gr_Spec : GraphRequestSpec }.

(** ** Sealing *)

(** What the store needs of the contract codec: [SealEffectiveExecution] and
    [SealAgentAssignment] normalize and validate a document and return it with its
    semantic digest; they never change the identities the document binds, and an
    assignment keeps the digest it was given. *)
Record SealedEffectiveExecution := {
  see_Document : EffectiveExecution; see_CanonicalJSON : list Ascii.ascii; see_Digest : string }.
Record SealedAgentAssignment := {
  saa_Document : AgentAssignment; saa_CanonicalJSON : list Ascii.ascii; saa_EffectiveExecutionDigest : string }.

Class Sealer := {
  SealEffectiveExecution : EffectiveExecution → result SealedEffectiveExecution;
  SealAgentAssignment : AgentAssignment → result SealedAgentAssignment }.

Class SealerLaws `{Sealer} := {
  seal_effective_metadata : ∀ v s, SealEffectiveExecution v = Ok s →
    ee_Metadata (see_Document s) = ee_Metadata v ∧
    ees_Placement (ee_Spec (see_Document s)) = ees_Placement (ee_Spec v) ∧
    see_Digest s ≠ "";
  seal_assignment_metadata : ∀ v s, SealAgentAssignment v = Ok s →
    aa_Metadata (saa_Document s) = aa_Metadata v ∧
    aas_EffectiveExecutionDigest (aa_Spec (saa_Document s)) = saa_EffectiveExecutionDigest s ∧
    (aas_EffectiveExecutionDigest (aa_Spec v) ≠ "" →
     saa_EffectiveExecutionDigest s = aas_EffectiveExecutionDigest (aa_Spec v)) ∧
    ee_Metadata (aas_EffectiveExecution (aa_Spec (saa_Document s))) = ee_Metadata (aas_EffectiveExecution (aa_Spec v)) ∧
    ees_Placement (ee_Spec (aas_EffectiveExecution (aa_Spec (saa_Document s)))) =
      ees_Placement (ee_Spec (aas_EffectiveExecution (aa_Spec v))) }.

(** ** Decidable equality *)

#[export] Instance Resources_eq_dec : EqDecision Resources.
Proof. solve_decision. Defined.
#[export] Instance PublishedArtifact_eq_dec : EqDecision PublishedArtifact.
Proof. solve_decision. Defined.
#[export] Instance ProcessResult_eq_dec : EqDecision ProcessResult.
Proof. solve_decision. Defined.
#[export] Instance SchedulerObservation_eq_dec : EqDecision SchedulerObservation.
Proof. solve_decision. Defined.
#[export] Instance SecretExposure_eq_dec : EqDecision SecretExposure.
Proof. solve_decision. Defined.
#[export] Instance SecretBinding_eq_dec : EqDecision SecretBinding.
Proof. solve_decision. Defined.
#[export] Instance Environment_eq_dec : EqDecision Environment.
Proof. solve_decision. Defined.
#[export] Instance ShellCommand_eq_dec : EqDecision ShellCommand.
Proof. solve_decision. Defined.
#[export] Instance Command_eq_dec : EqDecision Command.
Proof. solve_decision. Defined.
#[export] Instance ContainerRuntime_eq_dec : EqDecision ContainerRuntime.
Proof. solve_decision. Defined.
#[export] Instance Runtime_eq_dec : EqDecision Runtime.
Proof. solve_decision. Defined.
#[export] Instance InputArtifact_eq_dec : EqDecision InputArtifact.
Proof. solve_decision. Defined.
#[export] Instance OutputArtifact_eq_dec : EqDecision OutputArtifact.
Proof. solve_decision. Defined.
#[export] Instance Artifacts_eq_dec : EqDecision Artifacts.
Proof. solve_decision. Defined.
#[export] Instance RetryPolicy_eq_dec : EqDecision RetryPolicy.
Proof. solve_decision. Defined.
#[export] Instance ExecutionPolicy_eq_dec : EqDecision ExecutionPolicy.
Proof. solve_decision. Defined.
#[export] Instance Requirements_eq_dec : EqDecision Requirements.
Proof. solve_decision. Defined.
#[export] Instance WorkloadMetadata_eq_dec : EqDecision WorkloadMetadata.
Proof. solve_decision. Defined.
#[export] Instance WorkloadSpec_eq_dec : EqDecision WorkloadSpec.
Proof. solve_decision. Defined.
#[export] Instance Workload_eq_dec : EqDecision Workload.
Proof. solve_decision. Defined.
#[export] Instance WorkloadBinding_eq_dec : EqDecision WorkloadBinding.
Proof. solve_decision. Defined.
#[export] Instance SlurmArrayBinding_eq_dec : EqDecision SlurmArrayBinding.
Proof. solve_decision. Defined.
#[export] Instance EffectiveExecutionMetadata_eq_dec : EqDecision EffectiveExecutionMetadata.
Proof. solve_decision. Defined.
#[export] Instance ArtifactStoreBinding_eq_dec : EqDecision ArtifactStoreBinding.
Proof. solve_decision. Defined.
#[export] Instance EffectivePlacement_eq_dec : EqDecision EffectivePlacement.
Proof. solve_decision. Defined.
#[export] Instance EffectiveExecutionSpec_eq_dec : EqDecision EffectiveExecutionSpec.
Proof. solve_decision. Defined.
#[export] Instance EffectiveExecution_eq_dec : EqDecision EffectiveExecution.
Proof. solve_decision. Defined.
