(* ===== verification/Url.v ===== *)
(** * URL parsing

    What the sources use of Go's [net/url]: [url.Parse] and the fields [Scheme],
    [Host], [Path], [User], [RawQuery] and [Fragment].  A bracketed (IPv6) host is
    kept verbatim; its zone is not unescaped, which no caller can observe because a
    bracketed host is never a valid store name. *)
From S2P Require Import Prelude Regex Names.

Record URL := {
  u_Scheme : string; u_Opaque : string; u_User : bool; u_Host : string;
  u_Path : string; u_RawQuery : string; u_Fragment : string }.

Abbreviation bytes := (list Ascii.ascii).
Definition code (c : Ascii.ascii) : Z := Z.of_N (Ascii.N_of_ascii c).

(** [strings.Cut] on one byte: before, after, found. *)
Fixpoint cut (c : Ascii.ascii) (s : bytes) : bytes * bytes * bool :=
  match s with
  | [] => ([], [], false)
  | x :: s => if bool_decide (x = c) then ([], s, true)
              else let '(b, a, f) := cut c s in (x :: b, a, f)
  end.

(** [strings.LastIndex] based cut: what precedes and follows the last [c]. *)
Definition cut_last (c : Ascii.ascii) (s : bytes) : option (bytes * bytes) :=
  let '(after_rev, before_rev, found) := cut c (rev s) in
  if found : bool then Some (rev before_rev, rev after_rev) else None.

Definition has_prefix (p s : bytes) : bool := bool_decide (take (length p) s = p).
Definition slash : Ascii.ascii := "/"%char.

(** [getScheme]: the scheme and the rest, or an error. *)
Fixpoint getScheme (i : nat) (acc s : bytes) : option (bytes * bytes) :=
  match s with
  | [] => Some ([], rev acc)
  | c :: rest =>
      if is_lower c || is_upper c then getScheme (S i) (c :: acc) rest
      else if is_digit c || is_one_of ["+"%char; "-"%char; "."%char] c then
        match i with O => Some ([], rev acc ++ s) | S _ => getScheme (S i) (c :: acc) rest end
      else if bool_decide (c = ":"%char) then
        match i with O => None | S _ => Some (rev acc, rest) end
      else Some ([], rev acc ++ s)
  end.

Definition to_lower (c : Ascii.ascii) : Ascii.ascii :=
  if is_upper c then Ascii.ascii_of_N (Z.to_N (code c + 32)) else c.

Definition unhex (c : Ascii.ascii) : option Z :=
  if is_digit c then Some (code c - 48)
  else if in_range "a"%char "f"%char c then Some (code c - 87)
  else if in_range "A"%char "F"%char c then Some (code c - 55)
  else None.

(** Bytes below 128 that [shouldEscape] leaves alone in host mode. *)
Definition host_byte (c : Ascii.ascii) : bool :=
  is_lower c || is_upper c || is_digit c || bool_decide (128 ≤ code c) ||
  is_one_of ["!"%char; "$"%char; "&"%char; "'"%char; "("%char; ")"%char; "*"%char; "+"%char; ","%char;
             ";"%char; "="%char; ":"%char; "["%char; "]"%char; "<"%char; ">"%char;
             Ascii.ascii_of_nat 34; "-"%char; "_"%char; "."%char; "~"%char] c.

(** [unescape] in path mode and in host mode. *)
Fixpoint unescape (host : bool) (s : bytes) : option bytes :=
  match s with
  | [] => Some []
  | "%"%char :: h :: l :: rest =>
      hi ← unhex h; lo ← unhex l;
      if host && bool_decide (hi < 8) && negb (bool_decide ((h, l) = ("2"%char, "5"%char))) then None
      else r ← unescape host rest; Some (Ascii.ascii_of_N (Z.to_N (16 * hi + lo)) :: r)
  | "%"%char :: _ => None
  | c :: rest => if host && negb (host_byte c) then None
                 else r ← unescape host rest; Some (c :: r)
  end.

(** [validOptionalPort] on what follows the colon. *)
Definition valid_port (s : bytes) : bool := forallb is_digit s.

(** [parseHost] *)
Definition parseHost (host : bytes) : option bytes :=
  match host with
  | "["%char :: _ =>
      '(inside, port) ← cut_last "]"%char host;
      match port with
      | [] => Some host
      | ":"%char :: port => if valid_port port then Some host else None
      | _ => None
      end
  | _ =>
      match cut_last ":"%char host with
      | Some (_, port) => if valid_port port then unescape true host else None
      | None => unescape true host
      end
  end.

(** Bytes of a valid userinfo ([validUserinfo]). *)
Definition userinfo_byte (c : Ascii.ascii) : bool :=
  is_lower c || is_upper c || is_digit c ||
  is_one_of ["-"%char; "."%char; "_"%char; ":"%char; "~"%char; "!"%char; "$"%char; "&"%char; "'"%char;
             "("%char; ")"%char; "*"%char; "+"%char; ","%char; ";"%char; "="%char; "%"%char; "@"%char] c.

(** [parseAuthority]: whether there is a user, and the host. *)
Definition parseAuthority (authority : bytes) : option (bool * bytes) :=
  match cut_last "@"%char authority with
  | None => h ← parseHost authority; Some (false, h)
  | Some (userinfo, host) =>
      h ← parseHost host;
      if forallb userinfo_byte userinfo then unescape false userinfo ≫= λ _, Some (true, h) else None
  end.

Definition is_ctl (c : Ascii.ascii) : bool := bool_decide (code c < 32) || bool_decide (code c = 127).
Definition str (s : bytes) : string := String.string_of_list_ascii s.

(** [url.Parse] *)
Definition url_Parse (raw : string) : option URL :=
  let '(u, frag, _) := cut "#"%char (String.list_ascii_of_string raw) in
  fragment ← unescape false frag;
  if existsb is_ctl u then None
  else if bool_decide (u = ["*"%char]) then
    Some {| u_Scheme := ""; u_Opaque := ""; u_User := false; u_Host := ""; u_Path := "*";
            u_RawQuery := ""; u_Fragment := str fragment |}
  else
    '(scheme, rest) ← getScheme 0 [] u;
    let '(rest, query, _) := cut "?"%char rest in
    let mk (opaque : bytes) user host path :=
      Some {| u_Scheme := str (to_lower <$> scheme); u_Opaque := str opaque; u_User := user;
              u_Host := str host; u_Path := str path; u_RawQuery := str query;
              u_Fragment := str fragment |} in
    if negb (has_prefix [slash] rest) && negb (bool_decide (scheme = [])) then mk rest false [] []
    else if negb (has_prefix [slash] rest) && bool_decide (":"%char ∈ (cut slash rest).1.1) then None
    else if (negb (bool_decide (scheme = [])) || negb (has_prefix [slash; slash; slash] rest)) &&
            has_prefix [slash; slash] rest then
      let '(authority, path, found) := cut slash (drop 2 rest) in
      '(user, host) ← parseAuthority authority;
      path ← unescape false (if found : bool then slash :: path else []);
      mk [] user host path
    else path ← unescape false rest; mk [] false [] path.

(** [strings.TrimPrefix(s, "/")] *)
Definition trim_slash (s : string) : string :=
  match s with String c rest => if bool_decide (c = slash) then rest else s | EmptyString => s end.

Example url_Parse_artifact :
  (λ u, (u_Scheme u, u_Host u, u_Path u)) <$> url_Parse "artifact://results/run%20a/out.bin" =
  Some ("artifact", "results", "/run a/out.bin").
Proof. vm_compute. reflexivity. Qed.
