(* ===== verification/Utf8.v ===== *)
(** * UTF-8 and JSON strings

    What the contract codec uses of Go's [unicode/utf8] and of the string syntax of
    [encoding/json]: validity of UTF-8, the quoting of [json.Marshal] (which escapes
    HTML characters and the two JavaScript line separators, and replaces invalid
    bytes) and the unquoting of the decoder, which is its inverse. *)
From S2P Require Import Prelude Regex Names Url.

(** ** Runes *)

Definition byte (n : Z) : Ascii.ascii := Ascii.ascii_of_N (Z.to_N n).
Definition between (lo hi n : Z) : bool := (lo <=? n) && (n <=? hi).
Definition continuation (b : Ascii.ascii) : bool := between 128 191 (code b).

(** The byte sequences of one rune, by length. *)
Definition rune1 (a : Ascii.ascii) : bool := code a <? 128.
Definition rune2 (a b : Ascii.ascii) : bool := between 194 223 (code a) && continuation b.
Definition rune3 (a b c : Ascii.ascii) : bool :=
  let a := code a in
  let b := code b in
  (((a =? 224) && between 160 191 b) || (between 225 236 a && between 128 191 b) ||
   ((a =? 237) && between 128 159 b) || (between 238 239 a && between 128 191 b)) && continuation c.
Definition rune4 (a b c d : Ascii.ascii) : bool :=
  let a := code a in
  let b := code b in
  (((a =? 240) && between 144 191 b) || (between 241 243 a && between 128 191 b) ||
   ((a =? 244) && between 128 143 b)) && continuation c && continuation d.

Definition rune (r : bytes) : bool :=
  match r with
  | [a] => rune1 a
  | [a; b] => rune2 a b
  | [a; b; c] => rune3 a b c
  | [a; b; c; d] => rune4 a b c d
  | _ => false
  end.

(** Repeated [utf8.DecodeRune]: a rune, or one invalid byte. *)
Inductive chunk := Rune (r : bytes) | Bad (b : Ascii.ascii).

Fixpoint runes (s : bytes) : list chunk :=
  match s with
  | [] => []
  | a :: s1 =>
      if rune1 a then Rune [a] :: runes s1
      else match s1 with
           | [] => [Bad a]
           | b :: s2 =>
               if rune2 a b then Rune [a; b] :: runes s2
               else match s2 with
                    | [] => Bad a :: runes s1
                    | c :: s3 =>
                        if rune3 a b c then Rune [a; b; c] :: runes s3
                        else match s3 with
                             | [] => Bad a :: runes s1
                             | d :: s4 =>
                                 if rune4 a b c d then Rune [a; b; c; d] :: runes s4
                                 else Bad a :: runes s1
                             end
                    end
           end
  end.

(** [utf8.Valid] *)
Definition utf8_Valid (s : bytes) : bool :=
  forallb (λ c, match c with Rune _ => true | Bad _ => false end) (runes s).

(** [utf8.AppendRune] for a code point that is not a surrogate. *)
Definition encode_rune (n : Z) : bytes :=
  if n <? 128 then [byte n]
  else if n <? 2048 then [byte (192 + n / 64); byte (128 + n mod 64)]
  else if n <? 65536 then [byte (224 + n / 4096); byte (128 + n / 64 mod 64); byte (128 + n mod 64)]
  else [byte (240 + n / 262144); byte (128 + n / 4096 mod 64); byte (128 + n / 64 mod 64); byte (128 + n mod 64)].

(** ** Quoting *)

(** [htmlSafeSet], and the escape of one ASCII byte. *)
Definition html_safe (a : Ascii.ascii) : bool :=
  between 32 127 (code a) && negb (is_one_of ["034"%char; "&"%char; "<"%char; ">"%char; "\"%char] a).
Definition escape_ascii (a : Ascii.ascii) : bytes :=
  if html_safe a then [a]
  else if is_one_of ["034"%char; "\"%char] a then ["\"%char; a]
  else if code a =? 8 then ["\"%char; "b"%char]
  else if code a =? 12 then ["\"%char; "f"%char]
  else if code a =? 10 then ["\"%char; "n"%char]
  else if code a =? 13 then ["\"%char; "r"%char]
  else if code a =? 9 then ["\"%char; "t"%char]
  else ["\"%char; "u"%char; "0"%char; "0"%char; hex_digit (code a / 16); hex_digit (code a mod 16)].

(** The escapes of the runes U+2028 and U+2029, and of an invalid byte. *)
Definition separator (last : Ascii.ascii) : bytes := ["226"%char; "128"%char; last].
Definition unicode_escape (s : string) : bytes := "\"%char :: "u"%char :: String.list_ascii_of_string s.
Definition escape_chunk (c : chunk) : bytes :=
  match c with
  | Bad _ => unicode_escape "fffd"
  | Rune [a] => escape_ascii a
  | Rune r => if bool_decide (r = separator "168"%char) then unicode_escape "2028"
              else if bool_decide (r = separator "169"%char) then unicode_escape "2029"
              else r
  end.
Definition escape (s : bytes) : bytes := runes s ≫= escape_chunk.
Definition quote (s : bytes) : bytes := "034"%char :: escape s ++ ["034"%char].

(** ** Unquoting *)

Definition hex4 (a b c d : Ascii.ascii) : option Z :=
  a ← unhex a; b ← unhex b; c ← unhex c; d ← unhex d;
  Some (4096 * a + 256 * b + 16 * c + d).
Definition simple_escape (c : Ascii.ascii) : option Ascii.ascii :=
  if is_one_of ["034"%char; "\"%char; "/"%char] c then Some c
  else if bool_decide (c = "b"%char) then Some "008"%char
  else if bool_decide (c = "f"%char) then Some "012"%char
  else if bool_decide (c = "n"%char) then Some "010"%char
  else if bool_decide (c = "r"%char) then Some "013"%char
  else if bool_decide (c = "t"%char) then Some "009"%char
  else None.
Definition surrogate (n : Z) : bool := between 55296 57343 n.
Definition replacement : bytes := encode_rune 65533.

(** [utf16.DecodeRune] on a high and a low surrogate. *)
Definition surrogate_pair (hi lo : Z) : option Z :=
  if between 55296 56319 hi && between 56320 57343 lo
  then Some ((hi - 55296) * 1024 + (lo - 56320) + 65536) else None.

(** What follows a [\u] escape that is a surrogate: the escape that completes it. *)
Definition low_escape (s : bytes) : option (Z * bytes) :=
  match s with
  | x :: y :: e :: f :: g :: h :: rest =>
      if bool_decide (x = "\"%char) && bool_decide (y = "u"%char)
      then n ← hex4 e f g h; Some (n, rest) else None
  | _ => None
  end.

Definition push (r : bytes) (o : option (bytes * bytes)) : option (bytes * bytes) :=
  '(s, rest) ← o; Some (r ++ s, rest).

(** The string after its opening quote, and what follows its closing quote. *)
Fixpoint unquote (l : bytes) : option (bytes * bytes) :=
  match l with
  | [] => None
  | c :: l1 =>
      if bool_decide (c = "034"%char) then Some ([], l1)
      else if bool_decide (c = "\"%char) then
        match l1 with
        | [] => None
        | e :: l2 =>
            if bool_decide (e = "u"%char) then
              match l2 with
              | h1 :: h2 :: h3 :: h4 :: l3 =>
                  n ← hex4 h1 h2 h3 h4;
                  if surrogate n then
                    match l3 with
                    | x :: y :: e1 :: e2 :: e3 :: e4 :: l4 =>
                        match '(lo, _) ← low_escape l3; surrogate_pair n lo with
                        | Some r => push (encode_rune r) (unquote l4)
                        | None => push replacement (unquote l3)
                        end
                    | _ => push replacement (unquote l3)
                    end
                  else push (encode_rune n) (unquote l3)
              | _ => None
              end
            else r ← simple_escape e; push [r] (unquote l2)
        end
      else if code c <? 32 then None
      else push [c] (unquote l1)
  end.

(** ** Valid UTF-8 *)

Inductive utf8 : bytes → Prop :=
  | utf8_nil : utf8 []
  | utf8_rune r s : rune r = true → utf8 s → utf8 (r ++ s).

Lemma code_range a : 0 ≤ code a < 256.
Proof. unfold code. pose proof (Ascii.N_ascii_bounded a). lia. Qed.
Lemma code_byte n : 0 ≤ n < 256 → code (byte n) = n.
Proof. intros Hn. unfold code, byte. rewrite Ascii.N_ascii_embedding; lia. Qed.
Lemma byte_code a : byte (code a) = a.
Proof. unfold code, byte. by rewrite N2Z.id, Ascii.ascii_N_embedding. Qed.

Lemma between_true lo hi n : between lo hi n = true ↔ lo ≤ n ≤ hi.
Proof. unfold between. lia. Qed.

(** Arithmetic facts behind the boolean byte classes. *)
Ltac rune_arith :=
  unfold rune1, rune2, rune3, rune4, continuation, between in *;
  repeat match goal with
  | a : Ascii.ascii |- _ => lazymatch goal with H : 0 ≤ code a < 256 |- _ => fail | _ => pose proof (code_range a) end
  end; lia.

Lemma rune_cases r :
  rune r = true →
  (∃ a, r = [a] ∧ rune1 a = true) ∨
  (∃ a t, r = a :: t ∧ t ≠ [] ∧ rune1 a = false ∧ Forall (λ c, 128 ≤ code c) (a :: t)).
Proof.
  destruct r as [|a [|b [|c [|d [|]]]]]; cbn; intros Hr; try done; [left; eauto| | |]; right; eexists _, _;
    (split; [reflexivity|]); (split; [done|]); (split; [rune_arith|]); repeat constructor; rune_arith.
Qed.

Lemma runes_rune r s : rune r = true → runes (r ++ s) = Rune r :: runes s.
Proof.
  destruct r as [|a [|b [|c [|d [|]]]]]; intros Hr; try done; cbn in Hr; cbn [runes app].
  - by rewrite Hr.
  - assert (rune1 a = false) as -> by rune_arith. by rewrite Hr.
  - assert (rune1 a = false) as -> by rune_arith. assert (rune2 a b = false) as -> by rune_arith. by rewrite Hr.
  - assert (rune1 a = false) as -> by rune_arith. assert (rune2 a b = false) as -> by rune_arith.
    assert (rune3 a b c = false) as -> by rune_arith. by rewrite Hr.
Qed.

(** The decoder splits a string into runes and invalid bytes. *)
Lemma runes_step s :
  s = [] ∨ (∃ r t, s = r ++ t ∧ rune r = true ∧ runes s = Rune r :: runes t) ∨
  (∃ a t, s = a :: t ∧ rune1 a = false ∧ runes s = Bad a :: runes t).
Proof.
  destruct s as [|a s1]; [by left|right]. cbn [runes].
  destruct (rune1 a) eqn:H1; [left; by exists [a], s1|].
  destruct s1 as [|b s2]; [right; by exists a, []|].
  destruct (rune2 a b) eqn:H2; [left; by exists [a; b], s2|].
  destruct s2 as [|c s3]; [right; by exists a, [b]|].
  destruct (rune3 a b c) eqn:H3; [left; by exists [a; b; c], s3|].
  destruct s3 as [|d s4]; [right; by exists a, [b; c]|].
  destruct (rune4 a b c d) eqn:H4; [left; by exists [a; b; c; d], s4|right; by exists a, (b :: c :: d :: s4)].
Qed.

Lemma rune_nonempty r : rune r = true → r ≠ [].
Proof. by destruct r. Qed.

(** Induction over the decoder's steps. *)
Lemma runes_ind (P : bytes → Prop) :
  P [] → (∀ r t, rune r = true → P t → P (r ++ t)) → (∀ a t, rune1 a = false → P t → P (a :: t)) → ∀ s, P s.
Proof.
  intros H0 Hr Hb s. induction s as [s IH] using (induction_ltof1 _ length). unfold ltof in IH.
  destruct (runes_step s) as [->|[(r & t & -> & Hrune & _)|(a & t & -> & Ha & _)]]; [done| |].
  - apply Hr; [done|]. apply IH. apply rune_nonempty in Hrune. rewrite length_app. destruct r; cbn; [done|lia].
  - apply Hb; [done|]. apply IH. cbn. lia.
Qed.

Lemma utf8_Valid_spec s : utf8_Valid s = true ↔ utf8 s.
Proof.
  unfold utf8_Valid. split.
  - induction s as [s IH] using (induction_ltof1 _ length). unfold ltof in IH.
    destruct (runes_step s) as [->|[(r & t & -> & Hr & ->)|(a & t & -> & _ & ->)]]; [constructor| |done].
    intros Hall. constructor; [done|]. apply IH; [|done].
    apply rune_nonempty in Hr. rewrite length_app. destruct r; cbn; [done|lia].
  - induction 1 as [|r s Hr _ IH]; [done|]. by rewrite runes_rune.
Qed.

Lemma utf8_app s t : utf8 s → utf8 t → utf8 (s ++ t).
Proof. induction 1; intros ?; [done|]. rewrite <-app_assoc. constructor; auto. Qed.
Lemma utf8_one r : rune r = true → utf8 r.
Proof. intros Hr. rewrite <-(app_nil_r r). by repeat constructor. Qed.
Lemma utf8_ascii s : Forall (λ c, rune1 c = true) s → utf8 s.
Proof. induction 1 as [|c s Hc _ IH]; [constructor|]. by apply (utf8_rune [c]). Qed.

(** A valid string that starts with an ASCII byte continues validly. *)
Lemma utf8_tail c s : rune1 c = true → utf8 (c :: s) → utf8 s.
Proof.
  intros Hc Hs. inversion Hs as [|r t Hr Ht Heq]; subst.
  destruct (rune_cases r Hr) as [(a & -> & _)|(a & t' & -> & _ & Ha & _)]; cbn in Heq; simplify_eq; [done|congruence].
Qed.

Lemma encode_rune_valid n : 0 ≤ n < 1114112 → surrogate n = false → rune (encode_rune n) = true.
Proof.
  unfold surrogate, encode_rune. intros Hn Hs.
  destruct (n <? 128) eqn:H1; [|destruct (n <? 2048) eqn:H2; [|destruct (n <? 65536) eqn:H3]];
    unfold rune, rune1, rune2, rune3, rune4, continuation, between in *; rewrite !code_byte;
    Z.to_euclidean_division_equations; lia.
Qed.

Lemma unhex_range c n : unhex c = Some n → 0 ≤ n < 16.
Proof.
  unfold unhex, is_digit, in_range. pose proof (code_range c).
  repeat case_match; intros; simplify_eq; unfold code in *;
    repeat match goal with H : _ && _ = true |- _ => apply andb_true_iff in H as [? ?] end;
    repeat match goal with H : bool_decide _ = true |- _ => apply bool_decide_eq_true in H end; cbn in *; try lia.
Qed.

(** ** Quoting and unquoting *)

Lemma escape_rune r s : rune r = true → escape (r ++ s) = escape_chunk (Rune r) ++ escape s.
Proof. intros Hr. unfold escape. by rewrite runes_rune. Qed.

(** Escaping yields valid UTF-8 whatever the input. *)
Lemma escape_ascii_valid a : rune1 a = true → utf8 (escape_ascii a).
Proof.
  intros _. apply utf8_ascii. assert (forallb rune1 (escape_ascii a) = true) as Hall
    by (destruct a as [[] [] [] [] [] [] [] []]; reflexivity).
  apply List.Forall_forall. by apply forallb_forall.
Qed.
Lemma escape_valid s : utf8 (escape s).
Proof.
  induction s as [s IH] using (induction_ltof1 _ length). unfold ltof in IH. unfold escape.
  destruct (runes_step s) as [->|[(r & t & -> & Hr & ->)|(a & t & -> & _ & ->)]]; cbn [mbind list_bind]; [constructor| |].
  - apply utf8_app; [|apply IH; apply rune_nonempty in Hr; rewrite length_app; destruct r; cbn; [done|lia]].
    destruct (rune_cases r Hr) as [(a & -> & Ha)|(a & t' & -> & Hne & _)]; [by apply escape_ascii_valid|].
    destruct t' as [|b t']; [done|]. cbn [escape_chunk].
    repeat case_bool_decide; [apply utf8_ascii; vm_compute; by repeat constructor..|by apply utf8_one].
  - apply utf8_app; [apply utf8_ascii; vm_compute; by repeat constructor|apply IH; cbn; lia].
Qed.
Lemma quote_valid s : utf8 (quote s).
Proof.
  apply (utf8_app ["034"%char]); [apply utf8_ascii; by repeat constructor|].
  apply utf8_app; [apply escape_valid|apply utf8_ascii; by repeat constructor].
Qed.

Lemma push_app r1 r2 o : push r1 (push r2 o) = push (r1 ++ r2) o.
Proof. destruct o as [[s t]|]; cbn; [|done]. by rewrite app_assoc. Qed.

(** One escaped ASCII byte is read back. *)
Lemma unquote_escape_ascii a t : rune1 a = true → unquote (escape_ascii a ++ t) = push [a] (unquote t).
Proof. destruct a as [[] [] [] [] [] [] [] []]; try (intros; discriminate); intros _; reflexivity. Qed.

(** Bytes above 127 are copied. *)
Lemma unquote_high r t : Forall (λ c, 128 ≤ code c) r → r ≠ [] → unquote (r ++ t) = push r (unquote t).
Proof.
  induction 1 as [|c r Hc Hr IH]; intros Hne; [done|]. cbn [app unquote].
  rewrite bool_decide_false by (intros ->; vm_compute in Hc; done).
  rewrite bool_decide_false by (intros ->; vm_compute in Hc; done).
  rewrite (proj2 (Z.ltb_ge _ _)) by lia. destruct r as [|d r]; [done|]. by rewrite IH, push_app.
Qed.

Lemma unquote_chunk r t : rune r = true → unquote (escape_chunk (Rune r) ++ t) = push r (unquote t).
Proof.
  intros Hr. destruct (rune_cases r Hr) as [(a & -> & Ha)|(a & t' & -> & Hne & _ & Hall)].
  - by apply unquote_escape_ascii.
  - destruct t' as [|b t']; [done|]. cbn [escape_chunk].
    case_bool_decide as H1; [rewrite H1; reflexivity|]. case_bool_decide as H2; [rewrite H2; reflexivity|].
    by apply unquote_high.
Qed.

(** The decoder reads back what [quote] writes. *)
Lemma unquote_quote s rest : utf8 s → unquote (escape s ++ "034"%char :: rest) = Some (s, rest).
Proof.
  induction 1 as [|r s Hr _ IH]; [reflexivity|].
  rewrite escape_rune, <-app_assoc, unquote_chunk, IH by done. reflexivity.
Qed.

Lemma simple_escape_ascii c d : simple_escape c = Some d → rune1 d = true.
Proof. destruct c as [[] [] [] [] [] [] [] []]; intros [=]; by subst. Qed.
Lemma simple_escape_arg c d : simple_escape c = Some d → rune1 c = true.
Proof. destruct c as [[] [] [] [] [] [] [] []]; intros [=]; by subst. Qed.

Lemma unhex_ascii c n : unhex c = Some n → rune1 c = true.
Proof. destruct c as [[] [] [] [] [] [] [] []]; intros; try discriminate; reflexivity. Qed.

Lemma hex4_range a b c d n : hex4 a b c d = Some n → 0 ≤ n < 65536.
Proof.
  unfold hex4. intros Hn. repeat (apply bind_Some in Hn as (? & ?%unhex_range & Hn)). simplify_eq. lia.
Qed.
Lemma hex4_tail a b c d n s : hex4 a b c d = Some n → utf8 (a :: b :: c :: d :: s) → utf8 s.
Proof.
  unfold hex4. intros Hn. repeat (apply bind_Some in Hn as (? & ?%unhex_ascii & Hn)).
  intros Hs. do 4 (apply utf8_tail in Hs; [|done]). done.
Qed.

Lemma surrogate_pair_valid hi lo n : surrogate_pair hi lo = Some n → rune (encode_rune n) = true.
Proof.
  unfold surrogate_pair, between. case_match eqn:Hb; [|done]. intros [= <-].
  apply encode_rune_valid; unfold surrogate, between in *; lia.
Qed.
Lemma low_escape_tail s lo t : low_escape s = Some (lo, t) → utf8 s → utf8 t ∧ t = drop 6 s.
Proof.
  unfold low_escape. destruct s as [|x [|y [|e [|f [|g [|h rest]]]]]]; try done.
  destruct (bool_decide (x = _) && bool_decide (y = _)) eqn:Hb; [|done].
  apply andb_true_iff in Hb as [->%bool_decide_eq_true ->%bool_decide_eq_true].
  intros (n & Hn & [= <- <-])%bind_Some Hs. split; [|done].
  do 2 (apply utf8_tail in Hs; [|done]). by eapply hex4_tail.
Qed.

Lemma push_utf8 r o s t :
  rune r = true → (∀ s' t', o = Some (s', t') → utf8 s' ∧ utf8 t') → push r o = Some (s, t) → utf8 s ∧ utf8 t.
Proof.
  intros Hr Ho. unfold push. intros ([s' t'] & Heq & [= <- <-])%bind_Some. destruct (Ho _ _ Heq).
  split; [by constructor|done].
Qed.

Lemma push_Some r o s t : push r o = Some (s, t) ↔ ∃ s', o = Some (s', t) ∧ s = r ++ s'.
Proof. unfold push. destruct o as [[s' t']|]; cbn; naive_solver. Qed.

(** A string literal of a valid text denotes a valid string. *)
Lemma unquote_utf8 l s t : utf8 l → unquote l = Some (s, t) → utf8 s ∧ utf8 t ∧ (length t < length l)%nat.
Proof.
  revert s t. induction l as [l IH] using (induction_ltof1 _ length). unfold ltof in IH. intros s t Hl.
  assert (∀ r l', utf8 l' → rune r = true → (length l' < length l)%nat → push r (unquote l') = Some (s, t) →
    utf8 s ∧ utf8 t ∧ (length t < length l)%nat) as Hpush.
  { intros r l' Hl' Hr Hlen (s' & Heq & ->)%push_Some. destruct (IH l' Hlen _ _ Hl' Heq) as (? & ? & ?).
    split_and!; [by constructor|done|lia]. }
  inversion Hl as [|r l' Hr Hl' Heq]; subst; [done|].
  destruct (rune_cases r Hr) as [(c & -> & Hc)|(c & t' & -> & Hne & _ & Hall)].
  2:{ rewrite unquote_high by done. apply Hpush; [done|done|]. rewrite length_app. cbn. lia. }
  cbn [app unquote]. case_bool_decide as Hq; [intros [= <- <-]; split_and!; [constructor|done|cbn; lia]|].
  case_bool_decide as Hb; [|case_match; [done|apply (Hpush [c]); [done|done|cbn; lia]]].
  destruct l' as [|e l2]; [done|]. case_bool_decide as Hu.
  - subst. apply utf8_tail in Hl'; [|done]. destruct l2 as [|h1 [|h2 [|h3 [|h4 l3]]]]; try done.
    intros (n & Hn & Hrest)%bind_Some. pose proof (hex4_tail _ _ _ _ _ _ Hn Hl') as Hl3.
    apply hex4_range in Hn. destruct (surrogate n) eqn:Hsur.
    2:{ revert Hrest. apply Hpush; [done| |cbn; lia]. apply encode_rune_valid; [lia|done]. }
    assert (push replacement (unquote l3) = Some (s, t) → utf8 s ∧ utf8 t ∧
      (length t < length (["\"%char] ++ "u"%char :: h1 :: h2 :: h3 :: h4 :: l3))%nat) as Hrep
      by (apply Hpush; [done|done|cbn; lia]).
    destruct l3 as [|x [|y [|e1 [|e2 [|e3 [|e4 l4]]]]]]; try exact (Hrep Hrest).
    destruct (low_escape _) as [[lo l5]|] eqn:Hlow; cbn in Hrest; [|exact (Hrep Hrest)].
    destruct (surrogate_pair n lo) as [m|] eqn:Hp; [|exact (Hrep Hrest)].
    apply low_escape_tail in Hlow as [Hl5 ->]; [|done]. cbn in Hl5.
    revert Hrest. apply Hpush; [done|by eapply surrogate_pair_valid|cbn; lia].
  - intros (d & Hd & Hrest)%bind_Some. revert Hrest. apply (Hpush [d]); [|by eapply simple_escape_ascii|cbn; lia].
    apply simple_escape_arg in Hd.
    by apply utf8_tail in Hl'.
Qed.
