(* ===== verification/Number.v ===== *)
(** * JSON numbers

    The number syntax of JSON as [encoding/json] scans it, decimal printing and
    parsing ([strconv.ParseInt], [big.Int]), and [normalizeJSONNumber] of
    [contracts/jobman/v1alpha1/codec.go], the canonical spelling of a number.
    [normalize_complete] shows that two literals get the same spelling exactly when they denote
    the same number. *)
From S2P Require Import Prelude Regex Names Url.

(** ** Decimal digits *)

Definition zero_digit (c : Ascii.ascii) : bool := bool_decide (c = "0"%char).
Definition digit (n : Z) : Ascii.ascii := Ascii.ascii_of_N (Z.to_N (48 + n)).
Definition digit_value (c : Ascii.ascii) : Z := code c - 48.
Definition digits_value (ds : bytes) : Z := foldl (λ acc c, 10 * acc + digit_value c) 0 ds.

Fixpoint decimal_loop (fuel : nat) (n : Z) (acc : bytes) : bytes :=
  match fuel with
  | O => acc
  | S fuel => let acc := digit (n mod 10) :: acc in
              if n <? 10 then acc else decimal_loop fuel (n / 10) acc
  end.
Definition decimal (n : Z) : bytes := decimal_loop (S (Z.to_nat (Z.log2 n))) n [].

(** [strconv.FormatInt] and [big.Int.String] in base 10. *)
Definition FormatInt (z : Z) : bytes := if z <? 0 then "-"%char :: decimal (- z) else decimal z.

(** [big.Int.SetString] in base 10: an optional sign and at least one digit. *)
Definition SetString (s : bytes) : option Z :=
  let '(sign, ds) := match s with
                     | c :: ds => if bool_decide (c = "-"%char) then (-1, ds)
                                  else if bool_decide (c = "+"%char) then (1, ds) else (1, s)
                     | [] => (1, s)
                     end in
  if bool_decide (ds = []) || negb (forallb is_digit ds) then None else Some (sign * digits_value ds).

(** [strconv.ParseInt] in base 10 with 64 bits. *)
Definition ParseInt (s : bytes) : option Z :=
  z ← SetString s; if (min_int64 <=? z) && (z <=? max_int64) then Some z else None.

(** ** Scanning a literal *)

(** The longest prefix of bytes satisfying [p], and the rest. *)
Fixpoint span (p : Ascii.ascii → bool) (l : bytes) : bytes * bytes :=
  match l with
  | [] => ([], [])
  | c :: l' => if p c then let '(a, b) := span p l' in (c :: a, b) else ([], l)
  end.

Definition scan_sign (signs : list Ascii.ascii) (l : bytes) : bytes * bytes :=
  match l with
  | c :: l' => if is_one_of signs c then ([c], l') else ([], l)
  | [] => ([], l)
  end.
Definition scan_integer (l : bytes) : option (bytes * bytes) :=
  match l with
  | c :: l' => if zero_digit c then Some ([c], l') else if is_digit c then Some (span is_digit l) else None
  | [] => None
  end.
Definition scan_digits (l : bytes) : option (bytes * bytes) :=
  let '(ds, rest) := span is_digit l in if bool_decide (ds = []) then None else Some (ds, rest).
Definition scan_fraction (l : bytes) : option (bytes * bytes) :=
  match l with
  | c :: l' => if bool_decide (c = "."%char) then '(ds, rest) ← scan_digits l'; Some (c :: ds, rest)
               else Some ([], l)
  | [] => Some ([], [])
  end.
Definition is_exponent (c : Ascii.ascii) : bool := is_one_of ["e"%char; "E"%char] c.
Definition scan_exponent (l : bytes) : option (bytes * bytes) :=
  match l with
  | c :: l' => if is_exponent c
               then let '(sign, l2) := scan_sign ["+"%char; "-"%char] l' in
                    '(ds, rest) ← scan_digits l2; Some (c :: sign ++ ds, rest)
               else Some ([], l)
  | [] => Some ([], [])
  end.

(** A number literal at the head of the input, and what follows it. *)
Definition scan_number (l : bytes) : option (bytes * bytes) :=
  let '(sign, l1) := scan_sign ["-"%char] l in
  '(i, l2) ← scan_integer l1;
  '(f, l3) ← scan_fraction l2;
  '(e, rest) ← scan_exponent l3;
  Some (sign ++ i ++ f ++ e, rest).

Definition number_literal (l : bytes) : Prop := scan_number l = Some (l, []).

(** ** [normalizeJSONNumber] *)

Record parts := { p_negative : bool; p_integer : bytes; p_fraction : bytes; p_exponent : Z }.

(** [exponent.SetString(strings.TrimPrefix(text, "+"), 10)] *)
Definition parse_exponent (text : bytes) : option Z :=
  SetString (match text with
             | c :: t => if bool_decide (c = "+"%char) then t else text
             | [] => text
             end).

(** The first half of the function: sign, integer, fraction and exponent. *)
Definition number_parts (value : bytes) : option parts :=
  let '(sign, value) := scan_sign ["-"%char] value in
  let '(mantissa, after) := span (λ c, negb (is_exponent c)) value in
  exponent ← match after with [] => Some 0 | _ :: text => parse_exponent text end;
  let '(integer, point) := span (λ c, negb (bool_decide (c = "."%char))) mantissa in
  Some {| p_negative := negb (bool_decide (sign = [])); p_integer := integer;
          p_fraction := drop 1 point; p_exponent := exponent |}.

(** [strings.TrimRight(s, "0")] *)
Definition trim_zeros (s : bytes) : bytes := rev (snd (span zero_digit (rev s))).

(** The second half: the canonical spelling. *)
Definition render (negative : bool) (significant : bytes) (exponent : Z) : bytes :=
  (if negative then ["-"%char] else []) ++ take 1 significant ++
  (if 1 <? slice_len significant then "."%char :: drop 1 significant else []) ++
  (if exponent =? 0 then [] else "e"%char :: FormatInt exponent).

Definition normalizeJSONNumber (value : bytes) : result bytes :=
  match number_parts value with
  | None => Err (Errorf "invalid JSON number exponent" [])
  | Some p =>
      let '(zeros, digits) := span zero_digit (p_integer p ++ p_fraction p) in
      if bool_decide (digits = []) then Ok ["0"%char]
      else
        let adjustment := slice_len (p_integer p) - slice_len zeros - 1 in
        Ok (render (p_negative p) (trim_zeros digits) (p_exponent p + adjustment))
  end.

(** ** The value of a literal *)

(** A pair [(c, e)] denotes [c * 10 ^ e]. *)
Definition number_value (value : bytes) : option (Z * Z) :=
  p ← number_parts value;
  Some ((if p_negative p then -1 else 1) * digits_value (p_integer p ++ p_fraction p),
        p_exponent p - slice_len (p_fraction p)).

Definition same_number (x y : Z * Z) : Prop :=
  let m := Z.min (snd x) (snd y) in fst x * 10 ^ (snd x - m) = fst y * 10 ^ (snd y - m).

(** ** Digits *)

Definition digits (ds : bytes) : Prop := Forall (λ c, is_digit c = true) ds.
Definition all_zero (ds : bytes) : Prop := Forall (λ c, zero_digit c = true) ds.

Lemma digit_value_range c : is_digit c = true → 0 ≤ digit_value c < 10.
Proof. destruct c as [[] [] [] [] [] [] [] []]; intros H; try discriminate H; vm_compute; split; congruence. Qed.
Lemma digit_digit n : 0 ≤ n < 10 → is_digit (digit n) = true ∧ digit_value (digit n) = n.
Proof.
  intros Hn. assert (n = 0 ∨ n = 1 ∨ n = 2 ∨ n = 3 ∨ n = 4 ∨ n = 5 ∨ n = 6 ∨ n = 7 ∨ n = 8 ∨ n = 9) as Hc by lia.
  by repeat destruct Hc as [->|Hc]; [by vm_compute..|rewrite Hc; vm_compute].
Qed.
Lemma digit_value_inj c d : is_digit c = true → is_digit d = true → digit_value c = digit_value d → c = d.
Proof.
  intros _ _ H. unfold digit_value, code in H. apply Z.sub_cancel_r, N2Z.inj in H.
  rewrite <-(Ascii.ascii_N_embedding c), <-(Ascii.ascii_N_embedding d). by rewrite H.
Qed.
Lemma zero_digit_value c : is_digit c = true → zero_digit c = true ↔ digit_value c = 0.
Proof.
  intros Hc. unfold zero_digit. rewrite bool_decide_eq_true. split; [by intros ->|].
  intros H0. by apply digit_value_inj.
Qed.

Lemma digits_value_from acc ds :
  foldl (λ acc c, 10 * acc + digit_value c) acc ds = acc * 10 ^ slice_len ds + digits_value ds.
Proof.
  unfold digits_value, slice_len. revert acc. induction ds as [|c ds IH]; intros acc; cbn [foldl length]; [lia|].
  rewrite IH, (IH (10 * 0 + _)), Nat2Z.inj_succ, Z.pow_succ_r by lia. lia.
Qed.
Lemma digits_value_app a b : digits_value (a ++ b) = digits_value a * 10 ^ slice_len b + digits_value b.
Proof. unfold digits_value at 1. by rewrite foldl_app, digits_value_from. Qed.
Lemma digits_value_cons c ds : digits_value (c :: ds) = digit_value c * 10 ^ slice_len ds + digits_value ds.
Proof. unfold digits_value at 1. cbn [foldl]. rewrite digits_value_from. lia. Qed.
Lemma digits_value_zeros ds : all_zero ds → digits_value ds = 0.
Proof.
  induction 1 as [|c ds Hc _ IH]; [done|]. rewrite digits_value_cons, IH.
  unfold zero_digit in Hc. apply bool_decide_eq_true in Hc as ->. by cbn.
Qed.

Lemma slice_len_nonneg {A} (l : list A) : 0 ≤ slice_len l.
Proof. unfold slice_len. lia. Qed.
Lemma slice_len_cons {A} (x : A) l : slice_len (x :: l) = slice_len l + 1.
Proof. unfold slice_len. cbn. lia. Qed.
Lemma slice_len_app {A} (l k : list A) : slice_len (l ++ k) = slice_len l + slice_len k.
Proof. unfold slice_len. rewrite length_app. lia. Qed.
Lemma pow10_pos n : 0 ≤ n → 0 < 10 ^ n.
Proof. intros. by apply Z.pow_pos_nonneg. Qed.

Lemma digits_value_range ds : digits ds → 0 ≤ digits_value ds < 10 ^ slice_len ds.
Proof.
  induction 1 as [|c ds Hc _ IH]; [by cbn|]. rewrite digits_value_cons, slice_len_cons.
  apply digit_value_range in Hc. rewrite Z.pow_add_r by (apply slice_len_nonneg || lia). nia.
Qed.
Lemma digits_value_low c ds : is_digit c = true → zero_digit c = false → digits ds →
  10 ^ slice_len ds ≤ digits_value (c :: ds).
Proof.
  intros Hc Hz Hds%digits_value_range. rewrite digits_value_cons.
  pose proof (digit_value_range c Hc). assert (digit_value c ≠ 0) by (rewrite <-zero_digit_value by done; congruence).
  pose proof (pow10_pos (slice_len ds) (slice_len_nonneg _)). nia.
Qed.
(** Digit strings of one length are determined by their value. *)
Lemma digits_value_inj a b : digits a → digits b → length a = length b → digits_value a = digits_value b → a = b.
Proof.
  intros Ha. revert b. induction Ha as [|c a Hc Ha IH]; intros [|d b] Hb Hlen; try done.
  inversion Hb as [|? ? Hd Hb']; subst. injection Hlen as Hlen. rewrite !digits_value_cons.
  assert (slice_len a = slice_len b) as -> by (unfold slice_len; lia). intros Heq.
  pose proof (digits_value_range a Ha) as Hra. pose proof (digits_value_range b Hb') as Hrb.
  assert (slice_len a = slice_len b) as Hl by (unfold slice_len; lia). rewrite Hl in Hra.
  assert (digit_value c = digit_value d) as Hcd by nia.
  f_equal; [by apply digit_value_inj|]. apply IH; [done|done|]. rewrite Hcd in Heq. lia.
Qed.

Definition no_leading_zero (ds : bytes) : Prop := match ds with [] => False | c :: _ => zero_digit c = false end.

(** ... and without leading zeros, whatever the length. *)
Lemma digits_value_inj_leading a b :
  digits a → digits b → no_leading_zero a → no_leading_zero b → digits_value a = digits_value b → a = b.
Proof.
  intros Ha Hb Hla Hlb Heq. apply digits_value_inj; try done.
  destruct a as [|c a], b as [|d b]; try done. cbn in Hla, Hlb.
  inversion Ha as [|? ? Hc Ha']; inversion Hb as [|? ? Hd Hb']; subst.
  pose proof (digits_value_low c a Hc Hla Ha') as Hla'. pose proof (digits_value_low d b Hd Hlb Hb') as Hlb'.
  pose proof (digits_value_range _ Ha) as Hra. pose proof (digits_value_range _ Hb) as Hrb.
  rewrite slice_len_cons in Hra, Hrb. cbn. f_equal.
  assert (slice_len a < slice_len b + 1) by (apply (Z.pow_lt_mono_r_iff 10); [lia|pose proof (slice_len_nonneg b); lia|lia]).
  assert (slice_len b < slice_len a + 1) by (apply (Z.pow_lt_mono_r_iff 10); [lia|pose proof (slice_len_nonneg a); lia|lia]).
  unfold slice_len in *. lia.
Qed.

(** ** Decimal printing and parsing *)

Lemma digits_one c : is_digit c = true → digits [c].
Proof. intros Hc. by apply Forall_singleton. Qed.
Lemma digit_nonzero n : 0 < n < 10 → zero_digit (digit n) = false.
Proof.
  intros Hn. destruct (digit_digit n) as [Hd Hv]; [lia|].
  destruct (zero_digit (digit n)) eqn:Hz; [|done]. apply zero_digit_value in Hz; [lia|done].
Qed.

Lemma decimal_loop_spec fuel n acc :
  0 ≤ n < 2 ^ Z.of_nat fuel → digits acc →
  ∃ ds, decimal_loop fuel n acc = ds ++ acc ∧ digits ds ∧ digits_value ds = n ∧ (0 < n → no_leading_zero ds) ∧
    (n = 0 → (0 < fuel)%nat → ds = ["0"%char]).
Proof.
  revert n acc. induction fuel as [|fuel IH]; intros n acc Hn Hacc.
  - change (2 ^ Z.of_nat 0) with 1 in Hn. assert (n = 0) as -> by lia. exists [].
    split_and!; [done|constructor|done|lia|lia].
  - cbn [decimal_loop]. pose proof (Z.mod_pos_bound n 10 ltac:(lia)) as Hm.
    destruct (digit_digit (n mod 10) Hm) as [Hd Hv].
    destruct (n <? 10) eqn:Hlt; [apply Z.ltb_lt in Hlt|apply Z.ltb_ge in Hlt].
    + rewrite Z.mod_small in * by lia. exists [digit n].
      split_and!; [done|by apply digits_one|rewrite digits_value_cons, Hv; change (n * 1 + 0 = n); lia| |by intros ->].
      intros. apply digit_nonzero. lia.
    + destruct (IH (n / 10) (digit (n mod 10) :: acc)) as (ds & -> & Hds & Hval & Hlead & _).
      { rewrite Nat2Z.inj_succ, Z.pow_succ_r in Hn by lia. split; [apply Z.div_pos; lia|].
        apply Z.div_lt_upper_bound; lia. }
      { by constructor. }
      exists (ds ++ [digit (n mod 10)]). rewrite <-app_assoc. split_and!; [done| | | |lia].
      * by apply Forall_app_2; [|apply digits_one].
      * rewrite digits_value_app, Hval, digits_value_cons, Hv.
        change (n / 10 * 10 + (n mod 10 * 1 + 0) = n). pose proof (Z.div_mod n 10). lia.
      * intros _. assert (0 < n / 10) as Hpos by (apply Z.div_str_pos; lia). specialize (Hlead Hpos).
        by destruct ds.
Qed.

Lemma decimal_spec n : 0 ≤ n →
  digits (decimal n) ∧ digits_value (decimal n) = n ∧ (0 < n → no_leading_zero (decimal n)) ∧
  (n = 0 → decimal n = ["0"%char]).
Proof.
  intros Hn. destruct (decimal_loop_spec (S (Z.to_nat (Z.log2 n))) n []) as (ds & Heq & ? & ? & ? & H0); [|constructor|].
  - split; [done|]. rewrite Nat2Z.inj_succ, Z2Nat.id by apply Z.log2_nonneg.
    destruct (decide (n = 0)) as [->|]; [done|]. apply Z.log2_lt_pow2; [lia|]. lia.
  - rewrite app_nil_r in Heq. unfold decimal. rewrite Heq. split_and!; try done. intros ->. apply H0; [done|lia].
Qed.

Lemma decimal_nonempty n : 0 ≤ n → decimal n ≠ [].
Proof.
  intros Hn. destruct (decimal_spec n Hn) as (_ & _ & H1 & H0). destruct (decide (n = 0)) as [He|].
  - by rewrite H0.
  - intros He. rewrite He in H1. apply H1. lia.
Qed.

Lemma digits_forallb ds : forallb is_digit ds = true ↔ digits ds.
Proof. unfold digits. rewrite forallb_forall, Forall_forall. by setoid_rewrite <-list_elem_of_In. Qed.

(** The head of a digit string is no sign, point or exponent mark. *)
Lemma digit_not c d : is_digit c = true → is_digit d = false → c ≠ d.
Proof. intros Hc Hd ->. congruence. Qed.

Lemma SetString_digits ds : ds ≠ [] → digits ds → SetString ds = Some (digits_value ds).
Proof.
  intros Hne Hds. unfold SetString. destruct ds as [|c ds]; [done|].
  inversion Hds as [|? ? Hc Hds']; subst.
  rewrite !bool_decide_false by (by apply digit_not). cbn match. rewrite bool_decide_false by done.
  rewrite (proj2 (digits_forallb _) Hds). cbn [negb orb]. f_equal. lia.
Qed.
Lemma SetString_minus ds : ds ≠ [] → digits ds → SetString ("-"%char :: ds) = Some (- digits_value ds).
Proof.
  intros Hne Hds. unfold SetString. change (bool_decide ("-"%char = "-"%char)) with true. cbn match.
  rewrite (bool_decide_false (ds = [])) by done.
  rewrite (proj2 (digits_forallb _) Hds). cbn [negb orb]. by f_equal.
Qed.

Lemma SetString_FormatInt z : SetString (FormatInt z) = Some z.
Proof.
  unfold FormatInt. destruct (Z.ltb_spec z 0).
  - destruct (decimal_spec (- z)) as (? & Hv & _); [lia|]. rewrite SetString_minus by (done || apply decimal_nonempty; lia).
    f_equal. lia.
  - destruct (decimal_spec z) as (? & Hv & _); [lia|]. rewrite SetString_digits by (done || by apply decimal_nonempty).
    by rewrite Hv.
Qed.

Lemma ParseInt_FormatInt z : int64_range z → ParseInt (FormatInt z) = Some z.
Proof.
  intros Hz. unfold ParseInt. rewrite SetString_FormatInt. cbn.
  unfold int64_range in Hz. by rewrite (proj2 (Z.leb_le _ _)), (proj2 (Z.leb_le _ _)) by lia.
Qed.

(** ** Scanning *)

Lemma span_app p a b : Forall (λ c, p c = true) a → match b with [] => True | c :: _ => p c = false end →
  span p (a ++ b) = (a, b).
Proof.
  intros Ha Hb. induction Ha as [|c a Hc _ IH]; cbn.
  - destruct b as [|d b]; [done|]. cbn. by rewrite Hb.
  - by rewrite Hc, IH.
Qed.
Lemma span_spec p l : ∃ a b, span p l = (a, b) ∧ l = a ++ b ∧ Forall (λ c, p c = true) a ∧
  match b with [] => True | c :: _ => p c = false end.
Proof.
  induction l as [|c l (a & b & Hs & -> & Ha & Hb)]; cbn; [by exists [], []; repeat constructor|].
  rewrite Hs. destruct (p c) eqn:Hc.
  - exists (c :: a), b. by repeat constructor.
  - exists [], (c :: a ++ b). by repeat constructor.
Qed.

(** What may follow a number literal. *)
Definition stops (rest : bytes) : Prop :=
  match rest with
  | [] => True
  | c :: _ => is_digit c = false ∧ c ≠ "."%char ∧ is_exponent c = false
  end.
Definition stops_digits (rest : bytes) : Prop := match rest with [] => True | c :: _ => is_digit c = false end.
Lemma stops_stops_digits rest : stops rest → stops_digits rest.
Proof. destruct rest; cbn; naive_solver. Qed.
#[export] Hint Resolve stops_stops_digits : jobman.

Lemma scan_digits_app ds rest : ds ≠ [] → digits ds → stops_digits rest → scan_digits (ds ++ rest) = Some (ds, rest).
Proof. intros Hne Hds Hr. unfold scan_digits. rewrite span_app by done. by rewrite bool_decide_false. Qed.
Lemma scan_digits_spec l ds rest : scan_digits l = Some (ds, rest) → l = ds ++ rest ∧ ds ≠ [] ∧ digits ds ∧ stops_digits rest.
Proof.
  unfold scan_digits. destruct (span_spec is_digit l) as (a & b & -> & -> & Ha & Hb).
  case_bool_decide; [done|]. intros [= <- <-]. done.
Qed.

(** ** The shape of a literal *)

Definition sign_text (negative : bool) : bytes := if negative then ["-"%char] else [].
Definition fraction_text (f : bytes) : Prop := f = [] ∨ ∃ ds, f = "."%char :: ds ∧ ds ≠ [] ∧ digits ds.
Inductive exponent_text : bytes → Z → Prop :=
  | exponent_none : exponent_text [] 0
  | exponent_plain m ds : is_exponent m = true → ds ≠ [] → digits ds → exponent_text (m :: ds) (digits_value ds)
  | exponent_plus m ds : is_exponent m = true → ds ≠ [] → digits ds → exponent_text (m :: "+"%char :: ds) (digits_value ds)
  | exponent_minus m ds : is_exponent m = true → ds ≠ [] → digits ds → exponent_text (m :: "-"%char :: ds) (- digits_value ds).
Definition integer_text (i : bytes) : Prop := digits i ∧ (i = ["0"%char] ∨ no_leading_zero i).
Inductive literal : bytes → parts → Prop :=
  | literal_intro n i f e x : integer_text i → fraction_text f → exponent_text e x →
      literal (sign_text n ++ i ++ f ++ e) {| p_negative := n; p_integer := i; p_fraction := drop 1 f; p_exponent := x |}.

Lemma digit_not_exponent c : is_digit c = true → is_exponent c = false ∧ c ≠ "."%char ∧ c ≠ "-"%char ∧ c ≠ "+"%char.
Proof. destruct c as [[] [] [] [] [] [] [] []]; intros H; try discriminate H; by vm_compute. Qed.
Lemma exponent_not_digit c : is_exponent c = true → is_digit c = false ∧ c ≠ "."%char.
Proof. destruct c as [[] [] [] [] [] [] [] []]; intros H; try discriminate H; by vm_compute. Qed.

(** Exhaustive tests on single bytes. *)
Ltac byte_cases := repeat match goal with
  | H : is_one_of _ _ = true |- _ => unfold is_one_of in H; apply bool_decide_eq_true in H
  | H : _ ∈ _ :: _ |- _ => apply elem_of_cons in H as [->|H]
  | H : _ ∈ [] |- _ => by apply elem_of_nil in H
  end.

Lemma integer_text_head i : integer_text i → ∃ c l, i = c :: l ∧ is_digit c = true ∧ digits l.
Proof.
  intros [Hd Hi]. destruct i as [|c l]; [destruct Hi; done|]. exists c, l. by inversion Hd.
Qed.

Lemma exponent_text_stops e x rest : exponent_text e x → stops rest →
  stops_digits (e ++ rest) ∧ match e ++ rest with [] => True | c :: _ => c ≠ "."%char end.
Proof.
  intros He Hr. destruct He as [|m ds Hm|m ds Hm|m ds Hm]; cbn; [|by apply exponent_not_digit..].
  destruct rest; cbn in *; naive_solver.
Qed.

Lemma scan_exponent_app e x rest : exponent_text e x → stops rest → scan_exponent (e ++ rest) = Some (e, rest).
Proof.
  intros He Hr. pose proof (stops_stops_digits _ Hr) as Hrd. destruct He as [|m ds Hm Hne Hds|m ds Hm Hne Hds|m ds Hm Hne Hds]; cbn [app scan_exponent].
  - destruct rest as [|c rest]; [done|]. cbn in *. destruct Hr as (_ & _ & Hr). by rewrite Hr.
  - rewrite Hm. destruct ds as [|c ds]; [done|]. inversion Hds as [|? ? Hc Hds']; subst. cbn [app scan_sign].
    assert (is_one_of ["+"%char; "-"%char] c = false) as ->.
    { unfold is_one_of. apply bool_decide_eq_false. destruct (digit_not_exponent c Hc) as (_ & _ & ? & ?). set_solver. }
    change (c :: ds ++ rest) with ((c :: ds) ++ rest). by rewrite scan_digits_app.
  - rewrite Hm. cbn [scan_sign]. change (is_one_of ["+"%char; "-"%char] "+"%char) with true. cbn match. by rewrite scan_digits_app.
  - rewrite Hm. cbn [scan_sign]. change (is_one_of ["+"%char; "-"%char] "-"%char) with true. cbn match. by rewrite scan_digits_app.
Qed.

Lemma scan_fraction_app f rest : fraction_text f → stops_digits rest →
  match rest with [] => True | c :: _ => c ≠ "."%char end → scan_fraction (f ++ rest) = Some (f, rest).
Proof.
  intros [->|(ds & -> & Hne & Hds)] Hr Hd; cbn [app scan_fraction].
  - destruct rest as [|c rest]; [done|]. cbn. by rewrite bool_decide_false.
  - by rewrite bool_decide_true, scan_digits_app.
Qed.

Lemma scan_integer_app i rest : integer_text i → stops_digits rest → scan_integer (i ++ rest) = Some (i, rest).
Proof.
  intros [Hd [->|Hi]] Hr; [done|]. destruct i as [|c l]; [done|]. cbn in Hi. cbn [app scan_integer]. rewrite Hi.
  inversion Hd as [|? ? Hc Hl]; subst. rewrite Hc. change (c :: l ++ rest) with ((c :: l) ++ rest). by rewrite span_app.
Qed.

Lemma scan_sign_text n c l : c ≠ "-"%char → scan_sign ["-"%char] (sign_text n ++ c :: l) = (sign_text n, c :: l).
Proof.
  intros Hc. destruct n; cbn [sign_text app scan_sign]; [done|]. unfold is_one_of. rewrite bool_decide_false; [done|set_solver].
Qed.

(** A literal followed by something that cannot continue it is scanned whole. *)
Lemma literal_scan t p rest : literal t p → stops rest → scan_number (t ++ rest) = Some (t, rest).
Proof.
  intros [n i f e x Hi Hf He] Hr. destruct (exponent_text_stops e x rest He Hr) as [H1 H2].
  destruct (integer_text_head i Hi) as (c & l & -> & Hc & Hl). unfold scan_number.
  rewrite <-!app_assoc. cbn [app]. rewrite scan_sign_text by (by apply digit_not_exponent).
  change (c :: l ++ f ++ e ++ rest) with ((c :: l) ++ f ++ e ++ rest). rewrite scan_integer_app; [|done|].
  - cbn [mbind option_bind]. rewrite scan_fraction_app by done. cbn. by rewrite (scan_exponent_app e x) by done.
  - destruct Hf as [->|(ds & -> & _)]; cbn; [done|by vm_compute].
Qed.

Lemma scan_sign_spec l s l' : scan_sign ["-"%char] l = (s, l') → ∃ n, s = sign_text n ∧ l = s ++ l'.
Proof.
  destruct l as [|c l]; cbn; [intros [= <- <-]; by exists false|].
  destruct (is_one_of _ c) eqn:Hc; intros [= <- <-]; [byte_cases; by exists true|by exists false].
Qed.
Lemma scan_integer_spec l i l' : scan_integer l = Some (i, l') → integer_text i ∧ l = i ++ l'.
Proof.
  destruct l as [|c l]; cbn [scan_integer]; [done|]. destruct (zero_digit c) eqn:Hz.
  - intros [= <- <-]. unfold zero_digit in Hz. apply bool_decide_eq_true in Hz as ->. split; [|done].
    split; [by apply digits_one|by left].
  - destruct (is_digit c) eqn:Hc; [|done]. destruct (span_spec is_digit (c :: l)) as (a & b & -> & Heq & Ha & Hb).
    intros [= <- <-]. split; [|done]. split; [done|right]. destruct a as [|d a]; cbn in Heq.
    + subst b. by rewrite Hc in Hb.
    + injection Heq as -> _. done.
Qed.
Lemma scan_fraction_spec l f l' : scan_fraction l = Some (f, l') → fraction_text f ∧ l = f ++ l'.
Proof.
  destruct l as [|c l]; cbn [scan_fraction]; [intros [= <- <-]; split; [by left|done]|].
  case_bool_decide as Hc; [|intros [= <- <-]; split; [by left|done]]. subst c.
  intros ([ds r] & (-> & Hne & Hds & _)%scan_digits_spec & [= <- <-])%bind_Some. split; [right; by exists ds|done].
Qed.
Lemma scan_exponent_spec l e l' : scan_exponent l = Some (e, l') → ∃ x, exponent_text e x ∧ l = e ++ l'.
Proof.
  destruct l as [|m l]; cbn [scan_exponent]; [intros [= <- <-]; exists 0; split; [constructor|done]|].
  destruct (is_exponent m) eqn:Hm; [|intros [= <- <-]; exists 0; split; [constructor|done]].
  destruct l as [|c l]; [done|]. cbn [scan_sign]. destruct (is_one_of ["+"%char; "-"%char] c) eqn:Hc; cbn match;
    intros ([ds r] & (Heq & Hne & Hds & _)%scan_digits_spec & [= <- <-])%bind_Some.
  - subst l. byte_cases; eexists; (split; [by constructor|done]).
  - exists (digits_value ds). cbn [app]. split; [by constructor|]. by rewrite Heq.
Qed.

Lemma scan_literal l t rest : scan_number l = Some (t, rest) → (∃ p, literal t p) ∧ l = t ++ rest.
Proof.
  unfold scan_number. destruct (scan_sign _ l) as [s l1] eqn:Hs. apply scan_sign_spec in Hs as (n & -> & ->).
  intros ([i l2] & [Hi ->]%scan_integer_spec & ([f l3] & [Hf ->]%scan_fraction_spec &
    ([e l4] & (x & He & ->)%scan_exponent_spec & [= <- <-])%bind_Some)%bind_Some)%bind_Some.
  split; [eexists; by constructor|]. by rewrite <-!app_assoc.
Qed.

Lemma number_literal_spec t : number_literal t ↔ ∃ p, literal t p.
Proof.
  split; [by intros [? _]%scan_literal|]. intros [p Hp]. unfold number_literal.
  rewrite <-(app_nil_r t) at 1. by apply (literal_scan t p).
Qed.

Lemma parse_exponent_text m text x : exponent_text (m :: text) x → parse_exponent text = Some x.
Proof.
  inversion 1 as [|? ds Hm Hne Hds|? ds Hm Hne Hds|? ds Hm Hne Hds]; subst.
  - destruct text as [|c ds]; [done|]. unfold parse_exponent. inversion Hds as [|? ? Hc ?]; subst.
    rewrite bool_decide_false by (by apply digit_not_exponent). by apply SetString_digits.
  - unfold parse_exponent. by apply SetString_digits.
  - unfold parse_exponent. by apply SetString_minus.
Qed.

Lemma literal_parts t p : literal t p → number_parts t = Some p.
Proof.
  intros [n i f e x Hi Hf He]. unfold number_parts. destruct (integer_text_head i Hi) as (c & l & -> & Hc & Hl).
  cbn [app]. rewrite scan_sign_text by (by apply digit_not_exponent).
  assert (span (λ c, negb (is_exponent c)) (((c :: l) ++ f) ++ e) = ((c :: l) ++ f, e)) as Hspan.
  { apply span_app.
    - apply Forall_app_2; [apply (Forall_impl _ _ _ (proj1 Hi)); intros d Hd; by rewrite (proj1 (digit_not_exponent d Hd))|].
      destruct Hf as [->|(ds & -> & _ & Hds)]; [constructor|]. constructor; [done|].
      apply (Forall_impl _ _ _ Hds). intros d Hd. by rewrite (proj1 (digit_not_exponent d Hd)).
    - destruct He as [|m ? Hm|m ? Hm|m ? Hm]; [done|by rewrite Hm..]. }
  rewrite <-app_assoc in Hspan. cbn [app] in Hspan. rewrite Hspan.
  assert (match e with [] => Some 0 | _ :: text => parse_exponent text end = Some x) as ->.
  { destruct e as [|m text]; [by inversion He|by eapply parse_exponent_text]. }
  cbn [mbind option_bind]. change (c :: l ++ f) with ((c :: l) ++ f). rewrite span_app.
  - by destruct n.
  - apply (Forall_impl _ _ _ (proj1 Hi)). intros d Hd. rewrite bool_decide_false; [done|by apply digit_not_exponent].
  - by destruct Hf as [->|(ds & -> & _)].
Qed.

(** ** Numbers as values *)

Lemma same_number_at m x y : m ≤ snd x → m ≤ snd y →
  same_number x y ↔ fst x * 10 ^ (snd x - m) = fst y * 10 ^ (snd y - m).
Proof.
  destruct x as [c1 e1], y as [c2 e2]. unfold same_number. cbn. intros H1 H2.
  set (k := Z.min e1 e2 - m). assert (0 ≤ k) as Hk by lia.
  replace (e1 - m) with ((e1 - Z.min e1 e2) + k) by lia. replace (e2 - m) with ((e2 - Z.min e1 e2) + k) by lia.
  rewrite !Z.pow_add_r, !Z.mul_assoc, Z.mul_cancel_r by (lia || (pose proof (pow10_pos k Hk); lia)). done.
Qed.

#[export] Instance same_number_equiv : Equivalence same_number.
Proof.
  split.
  - intros x. unfold same_number. lia.
  - intros x y. unfold same_number. rewrite Z.min_comm. lia.
  - intros x y z. set (m := Z.min (Z.min (snd x) (snd y)) (snd z)).
    rewrite (same_number_at m x y), (same_number_at m y z), (same_number_at m x z) by lia. lia.
Qed.

Lemma same_number_shift c e k : 0 ≤ k → same_number (c * 10 ^ k, e) (c, e + k).
Proof.
  intros Hk. apply (same_number_at e); [cbn; lia..|]. cbn. replace (e - e) with 0 by lia. replace (e + k - e) with k by lia. lia.
Qed.

Lemma same_number_zero e1 e2 : same_number (0, e1) (0, e2).
Proof. unfold same_number. cbn. lia. Qed.

(** Significant digits: no leading and no trailing zero. *)
Record significant (s : bytes) : Prop := {
  sig_digits : digits s; sig_leading : no_leading_zero s; sig_trailing : no_leading_zero (rev s) }.

Lemma significant_pos s : significant s → 0 < digits_value s.
Proof.
  intros [Hd Hl _]. destruct s as [|c s]; [done|]. inversion Hd as [|? ? Hc Hds]; subst.
  pose proof (digits_value_low c s Hc Hl Hds). pose proof (pow10_pos (slice_len s) (slice_len_nonneg _)). lia.
Qed.
Lemma significant_mod s k : significant s → 0 < k → digits_value s mod 10 ^ k ≠ 0.
Proof.
  intros [Hd _ Ht] Hk Hm. destruct s as [|c s _] using rev_ind; [done|]. rewrite rev_app_distr in Ht. cbn in Ht.
  apply Forall_app in Hd as [_ Hc]. rewrite Forall_singleton in Hc. apply Z.mod_divide in Hm; [|pose proof (pow10_pos k); lia].
  destruct Hm as [q Hq]. rewrite digits_value_app, (digits_value_cons c []) in Hq.
  replace k with (Z.succ (k - 1)) in Hq by lia. rewrite Z.pow_succ_r in Hq by lia.
  change (slice_len (@nil Ascii.ascii)) with 0 in Hq. change (slice_len [c]) with 1 in Hq. change (digits_value []) with 0 in Hq.
  pose proof (digit_value_range c Hc). assert (digit_value c ≠ 0) by (rewrite <-zero_digit_value by done; congruence).
  change (10 ^ 1) with 10 in Hq. change (10 ^ 0) with 1 in Hq. nia.
Qed.

Definition signed (n : bool) (v : Z) : Z := (if n then -1 else 1) * v.

(** The significant digits, sign and exponent are determined by the number. *)
Lemma significant_unique n1 s1 e1 n2 s2 e2 :
  significant s1 → significant s2 →
  same_number (signed n1 (digits_value s1), e1) (signed n2 (digits_value s2), e2) → n1 = n2 ∧ s1 = s2 ∧ e1 = e2.
Proof.
  assert (∀ n1 s1 e1 n2 s2 e2, significant s1 → significant s2 → e1 ≤ e2 →
    same_number (signed n1 (digits_value s1), e1) (signed n2 (digits_value s2), e2) → n1 = n2 ∧ s1 = s2 ∧ e1 = e2) as Hwlog.
  { clear. intros n1 s1 e1 n2 s2 e2 H1 H2 Hle Heq. rewrite (same_number_at e1) in Heq by (cbn; lia). cbn [fst snd] in Heq.
    replace (e1 - e1) with 0 in Heq by lia. change (10 ^ 0) with 1 in Heq.
    pose proof (significant_pos s1 H1) as Hp1. pose proof (significant_pos s2 H2) as Hp2.
    pose proof (pow10_pos (e2 - e1) ltac:(lia)) as Hpow.
    assert (n1 = n2 ∧ digits_value s1 = digits_value s2 * 10 ^ (e2 - e1)) as [-> Hval]
      by (unfold signed in Heq; destruct n1, n2; split; (reflexivity || nia)).
    destruct (decide (e1 = e2)) as [->|Hne].
    - split_and!; [done| |done]. apply digits_value_inj_leading; [apply H1|apply H2|apply H1|apply H2|].
      rewrite Hval. replace (e2 - e2) with 0 by lia. lia.
    - exfalso. apply (significant_mod s1 (e2 - e1)); [done|lia|]. rewrite Hval. apply Z.mod_mul. lia. }
  intros H1 H2 Heq. destruct (Z.le_gt_cases e1 e2); [by apply Hwlog|].
  destruct (Hwlog n2 s2 e2 n1 s1 e1) as (-> & -> & ->); [done|done|lia|by symmetry|done].
Qed.

(** ** Normalization *)

Lemma FormatInt_exponent x m : is_exponent m = true → exponent_text (m :: FormatInt x) x.
Proof.
  intros Hm. unfold FormatInt. destruct (Z.ltb_spec x 0).
  - destruct (decimal_spec (- x)) as (Hd & Hv & _); [lia|]. replace x with (- digits_value (decimal (- x))) at 2 by lia.
    apply exponent_minus; [done|apply decimal_nonempty; lia|done].
  - destruct (decimal_spec x) as (Hd & Hv & _); [lia|]. rewrite <-Hv at 2.
    apply exponent_plain; [done|by apply decimal_nonempty|done].
Qed.

Lemma render_literal n s x : significant s →
  literal (render n s x) {| p_negative := n; p_integer := take 1 s; p_fraction := drop 1 s; p_exponent := x |}.
Proof.
  intros [Hd Hl _]. destruct s as [|c s]; [done|]. inversion Hd as [|? ? Hc Hs]; subst. unfold render. cbn [take drop].
  set (f := if 1 <? slice_len (c :: s) then _ else _).
  assert (drop 0 s = drop 1 f ∧ fraction_text f) as [-> Hf].
  { unfold f. rewrite slice_len_cons. destruct s as [|d s]; [split; [done|by left]|].
    rewrite (proj2 (Z.ltb_lt _ _)) by (rewrite slice_len_cons; pose proof (slice_len_nonneg s); lia).
    split; [done|]. right. by exists (d :: s). }
  apply literal_intro; [split; [by apply digits_one|by right]|done|].
  destruct (x =? 0) eqn:Hx; [apply Z.eqb_eq in Hx as ->; constructor|]. by apply FormatInt_exponent.
Qed.

Lemma literal_value t p : literal t p →
  number_value t = Some (signed (p_negative p) (digits_value (p_integer p ++ p_fraction p)),
                         p_exponent p - slice_len (p_fraction p)).
Proof. intros Hp. unfold number_value. by rewrite (literal_parts t p Hp). Qed.

Lemma render_value n s x : significant s →
  number_value (render n s x) = Some (signed n (digits_value s), x - slice_len s + 1).
Proof.
  intros Hs. rewrite (literal_value _ _ (render_literal n s x Hs)). cbn [p_negative p_integer p_fraction p_exponent].
  rewrite take_drop. do 2 f_equal. destruct s as [|c s]; [by destruct Hs|]. rewrite slice_len_cons. cbn [drop]. rewrite drop_0. lia.
Qed.

Lemma trim_zeros_spec ds : ∃ z, ds = trim_zeros ds ++ z ∧ all_zero z ∧
  match rev (trim_zeros ds) with [] => True | c :: _ => zero_digit c = false end.
Proof.
  unfold trim_zeros. destruct (span_spec zero_digit (rev ds)) as (a & b & -> & Hds & Ha & Hb). cbn [snd].
  exists (rev a). rewrite rev_involutive. split_and!; [|by apply Forall_rev|done].
  rewrite <-rev_app_distr, <-Hds. by rewrite rev_involutive.
Qed.

Lemma literal_digits t p : literal t p → digits (p_integer p ++ p_fraction p).
Proof.
  intros [n i f e x [Hi _] Hf _]. cbn. apply Forall_app_2; [done|].
  by destruct Hf as [->|(ds & -> & _ & Hds)]; [constructor|].
Qed.

(** The result of normalizing a literal: zero, or its significant digits and exponent. *)
Lemma normalize_spec t p : literal t p →
  (normalizeJSONNumber t = Ok ["0"%char] ∧ digits_value (p_integer p ++ p_fraction p) = 0) ∨
  ∃ s x v, significant s ∧ normalizeJSONNumber t = Ok (render (p_negative p) s x) ∧ number_value t = Some v ∧
    same_number (signed (p_negative p) (digits_value s), x - slice_len s + 1) v.
Proof.
  intros Hp. pose proof (literal_digits t p Hp) as Hd. unfold normalizeJSONNumber. rewrite (literal_parts t p Hp).
  rewrite (literal_value t p Hp).
  destruct (span_spec zero_digit (p_integer p ++ p_fraction p)) as (z & ds & Hspan & Heq & Hz & Hlead).
  rewrite Hspan. case_bool_decide as Hds.
  - left. split; [done|]. rewrite Heq, Hds, app_nil_r. by apply digits_value_zeros.
  - right. destruct (trim_zeros_spec ds) as (z2 & Hz2 & Hall & Htrail). rewrite Heq in Hd.
    apply Forall_app in Hd as [_ Hd]. eexists (trim_zeros ds), _, _.
    assert (significant (trim_zeros ds)) as Hsig.
    { rewrite Hz2 in Hd. apply Forall_app in Hd as [Hd1 _]. split; [done| |].
      - destruct (trim_zeros ds) as [|c s]; [|rewrite Hz2 in Hlead; by apply Hlead]. cbn in Hz2. subst z2.
        destruct ds as [|c ds]; [done|]. inversion Hall. cbn in Hlead. congruence.
      - destruct (trim_zeros ds) as [|c s] using rev_ind; [|rewrite rev_app_distr in *; exact Htrail]. cbn in Hz2. subst z2.
        destruct ds as [|c ds]; [done|]. inversion Hall. cbn in Hlead. congruence. }
    split_and!; [done|reflexivity|reflexivity|].
    assert (slice_len (p_integer p) + slice_len (p_fraction p) = slice_len z + slice_len (trim_zeros ds) + slice_len z2) as Hlen.
    { rewrite <-slice_len_app, Heq, slice_len_app. rewrite Hz2 at 1. rewrite slice_len_app. lia. }
    rewrite Heq, digits_value_app, (digits_value_zeros z Hz).
    assert (digits_value ds = digits_value (trim_zeros ds) * 10 ^ slice_len z2) as ->
      by (rewrite Hz2 at 1; rewrite digits_value_app, (digits_value_zeros z2 Hall); lia).
    unfold signed. rewrite Z.mul_0_l, Z.add_0_l, Z.mul_assoc. symmetry.
    replace (p_exponent p + (slice_len (p_integer p) - slice_len z - 1) - slice_len (trim_zeros ds) + 1)
      with (p_exponent p - slice_len (p_fraction p) + slice_len z2) by lia.
    apply same_number_shift, slice_len_nonneg.
Qed.

Lemma zero_literal : literal ["0"%char] {| p_negative := false; p_integer := ["0"%char]; p_fraction := []; p_exponent := 0 |}.
Proof. apply (literal_intro false ["0"%char] [] [] 0); [split; [by apply digits_one|by left]|by left|constructor]. Qed.

(** A canonical spelling: what [normalizeJSONNumber] returns. *)
Definition canonical_number (t : bytes) : Prop :=
  t = ["0"%char] ∨ ∃ n s x, significant s ∧ t = render n s x.

Lemma normalize_canonical t : number_literal t → ∃ c, normalizeJSONNumber t = Ok c ∧ canonical_number c.
Proof.
  intros [p Hp]%number_literal_spec. destruct (normalize_spec t p Hp) as [[Hn _]|(s & x & v & Hs & Hn & _)].
  - eexists; split; [done|by left].
  - eexists; split; [done|]. right. by eexists _, s, x.
Qed.
Lemma canonical_literal t : canonical_number t → number_literal t.
Proof.
  intros [->|(n & s & x & Hs & ->)]; apply number_literal_spec; eexists; [apply zero_literal|by apply render_literal].
Qed.

Lemma render_not_zero n s x : significant s → render n s x ≠ ["0"%char].
Proof.
  intros Hs Heq. assert (number_value ["0"%char] = Some (0, 0)) as Hz by reflexivity.
  rewrite <-Heq, (render_value _ _ _ Hs) in Hz. injection Hz as Hz _.
  pose proof (significant_pos s Hs). unfold signed in Hz. destruct n; cbv iota in Hz; lia.
Qed.
Lemma significant_not_zero n s e x : significant s → ¬ same_number (signed n (digits_value s), e) (0, x).
Proof.
  intros Hs Heq. rewrite (same_number_at (Z.min e x)) in Heq by (cbn; lia). cbn [fst snd] in Heq.
  pose proof (significant_pos s Hs). pose proof (pow10_pos (e - Z.min e x) ltac:(lia)).
  rewrite Z.mul_0_l in Heq. apply Z.mul_eq_0 in Heq as [Heq|]; [|lia]. unfold signed in Heq. destruct n; cbv iota in Heq; lia.
Qed.

(** Two literals have one spelling exactly when they denote one number. *)
Lemma normalize_complete a b va vb :
  number_literal a → number_literal b → number_value a = Some va → number_value b = Some vb →
  normalizeJSONNumber a = normalizeJSONNumber b ↔ same_number va vb.
Proof.
  intros [p Hp]%number_literal_spec [q Hq]%number_literal_spec.
  assert (∀ t p v, literal t p → number_value t = Some v → digits_value (p_integer p ++ p_fraction p) = 0 → fst v = 0) as Hzero.
  { intros t r v Ht Hv H0. rewrite (literal_value t r Ht), H0 in Hv. injection Hv as <-. cbn. unfold signed. lia. }
  destruct (normalize_spec a p Hp) as [[-> Ha]|(s1 & x1 & v1 & Hs1 & -> & -> & Hsame1)];
    destruct (normalize_spec b q Hq) as [[-> Hb]|(s2 & x2 & v2 & Hs2 & -> & -> & Hsame2)]; intros Hva Hvb.
  - pose proof (Hzero _ _ _ Hp Hva Ha). pose proof (Hzero _ _ _ Hq Hvb Hb). destruct va, vb; cbn in *; subst.
    split; [intros _; apply same_number_zero|done].
  - pose proof (Hzero _ _ _ Hp Hva Ha). injection Hvb as ->. destruct va as [c e]; cbn in *; subst c. split.
    + intros [= Heq]. by destruct (render_not_zero _ _ _ Hs2 (eq_sym Heq)).
    + intros Heq. exfalso. eapply (significant_not_zero _ s2); [done|]. etrans; [exact Hsame2|by symmetry].
  - pose proof (Hzero _ _ _ Hq Hvb Hb). injection Hva as ->. destruct vb as [c e]; cbn in *; subst c. split.
    + intros [= Heq]. by destruct (render_not_zero _ _ _ Hs1 Heq).
    + intros Heq. exfalso. eapply (significant_not_zero _ s1); [done|]. etrans; [exact Hsame1|done].
  - injection Hva as ->. injection Hvb as ->. split.
    + intros [= Heq]. rewrite <-Hsame1, <-Hsame2. pose proof (render_value (p_negative p) s1 x1 Hs1) as Hr.
      rewrite Heq, (render_value _ _ _ Hs2) in Hr. injection Hr as -> ->. done.
    + intros Heq. rewrite <-Hsame1, <-Hsame2 in Heq. apply significant_unique in Heq as (-> & -> & Hx); [|done..].
      do 2 f_equal. lia.
Qed.

(** Normalizing keeps the number, so it is idempotent. *)
Lemma normalize_value t c : number_literal t → normalizeJSONNumber t = Ok c →
  ∃ v w, number_value t = Some v ∧ number_value c = Some w ∧ same_number v w.
Proof.
  intros [p Hp]%number_literal_spec Hc.
  destruct (normalize_spec t p Hp) as [[Hn Ha]|(s & x & v & Hs & Hn & Hv & Hsame)]; rewrite Hn in Hc; injection Hc as <-.
  - eexists _, _. split_and!; [by apply literal_value|by apply literal_value, zero_literal|]. rewrite Ha.
    unfold signed. rewrite Z.mul_0_r. apply same_number_zero.
  - eexists _, _. split_and!; [done|by apply render_value|]. by symmetry.
Qed.
Lemma normalize_id c : canonical_number c → normalizeJSONNumber c = Ok c.
Proof.
  intros [->|(n & s & x & Hs & ->)]; [reflexivity|].
  pose proof (render_literal n s x Hs) as Hl. pose proof (render_value n s x Hs) as Hv.
  destruct (normalize_spec _ _ Hl) as [[Hn H0]|(s' & x' & v & Hs' & Hn & Hv' & Hsame)].
  - cbn [p_integer p_fraction] in H0. rewrite take_drop in H0. pose proof (significant_pos s Hs). lia.
  - rewrite Hn. cbn [p_negative] in *. rewrite Hv in Hv'. injection Hv' as <-.
    apply significant_unique in Hsame as (_ & -> & Hx); [|done..]. do 2 f_equal. lia.
Qed.

(** ** Integers *)

Lemma decimal_integer n : 0 ≤ n → integer_text (decimal n).
Proof.
  intros Hn. destruct (decimal_spec n Hn) as (Hd & _ & Hl & H0). split; [done|].
  destruct (decide (n = 0)); [left; auto|right; apply Hl; lia].
Qed.

Lemma FormatInt_literal z : literal (FormatInt z)
  {| p_negative := z <? 0; p_integer := decimal (Z.abs z); p_fraction := []; p_exponent := 0 |}.
Proof.
  replace (FormatInt z) with (sign_text (z <? 0) ++ decimal (Z.abs z) ++ [] ++ []).
  - apply (literal_intro _ _ [] [] 0); [apply decimal_integer; lia|by left|constructor].
  - rewrite !app_nil_r. unfold FormatInt. destruct (Z.ltb_spec z 0); cbn [sign_text app]; [do 2 f_equal; lia|f_equal; lia].
Qed.
Lemma FormatInt_number z : number_literal (FormatInt z).
Proof. apply number_literal_spec. eexists. apply FormatInt_literal. Qed.
Lemma FormatInt_value z : number_value (FormatInt z) = Some (z, 0).
Proof.
  rewrite (literal_value _ _ (FormatInt_literal z)). cbn [p_negative p_integer p_fraction p_exponent]. rewrite app_nil_r.
  destruct (decimal_spec (Z.abs z)) as (_ & -> & _); [lia|]. unfold signed. f_equal. f_equal. destruct (Z.ltb_spec z 0); lia.
Qed.

Lemma SetString_not_digit s a c b : s = a ++ c :: b → a ≠ [] → is_digit c = false → SetString s = None.
Proof.
  intros -> Ha Hc. destruct a as [|d a]; [done|].
  assert (∀ l, forallb is_digit (l ++ c :: b) = false) as Hl.
  { intros l. apply not_true_iff_false. rewrite digits_forallb. intros [_ H]%Forall_app. inversion H; congruence. }
  unfold SetString. cbn [app]. repeat case_bool_decide; cbn match; rewrite ?Hl, ?orb_true_r; try done.
  change (d :: a ++ c :: b) with ((d :: a) ++ c :: b). by rewrite Hl.
Qed.

Lemma render_exponent n s x : significant s → x ≠ 0 → SetString (render n s x) = None.
Proof.
  intros [_ Hl _] Hx. destruct s as [|d s]; [done|]. unfold render. rewrite (proj2 (Z.eqb_neq _ _)) by done.
  rewrite !app_assoc. eapply SetString_not_digit; [done| |done]. by destruct n.
Qed.

(** An integer of two digits or more gets an exponent, which [ParseInt] does not read. *)
Lemma normalize_integer z c : normalizeJSONNumber (FormatInt z) = Ok c →
  ParseInt c = if bool_decide (Z.abs z < 10) then Some z else None.
Proof.
  intros Hc. case_bool_decide as Hz.
  - assert (∃ k, (k < 19)%nat ∧ z = Z.of_nat k - 9) as (k & Hk & ->) by (exists (Z.to_nat (z + 9)); lia).
    do 19 (destruct k as [|k]; [vm_compute in Hc; injection Hc as <-; by vm_compute|]). lia.
  - destruct (normalize_spec _ _ (FormatInt_literal z)) as [[_ H0]|(s & x & v & Hs & Hn & Hv & Hsame)].
    { cbn [p_integer p_fraction] in H0. rewrite app_nil_r in H0. destruct (decimal_spec (Z.abs z)) as (_ & Hd & _); lia. }
    rewrite Hn in Hc. injection Hc as <-. unfold ParseInt. rewrite render_exponent; [done|done|]. intros ->.
    rewrite FormatInt_value in Hv. injection Hv as <-. cbn [p_negative] in Hsame.
    pose proof (significant_pos s Hs) as Hpos. destruct (digits_value_range s (sig_digits s Hs)) as [_ Hlt].
    assert (1 ≤ slice_len s) as Hlen by (destruct s; [by destruct Hs|rewrite slice_len_cons; pose proof (slice_len_nonneg s); lia]).
    rewrite (same_number_at (1 - slice_len s)) in Hsame by (cbn; lia). cbn [fst snd] in Hsame.
    replace (0 - slice_len s + 1 - (1 - slice_len s)) with 0 in Hsame by lia. change (10 ^ 0) with 1 in Hsame.
    replace (0 - (1 - slice_len s)) with (slice_len s - 1) in Hsame by lia.
    replace (slice_len s) with (Z.succ (slice_len s - 1)) in Hlt by lia. rewrite Z.pow_succ_r in Hlt by lia.
    pose proof (pow10_pos (slice_len s - 1) ltac:(lia)). unfold signed in Hsame. destruct (z <? 0); cbv iota in Hsame; nia.
Qed.
