(* ===== verification/Json.v ===== *)
(** * JSON documents

    JSON values, their text as [json.Marshal] writes it, and the bounded decoder of
    [contracts/jobman/v1alpha1/codec.go]: [decodeJSONValue] and [canonicalJSON].  A decoded object is
    a Go map, which has no order and which [json.Marshal] writes in key order; it is kept as the
    list of its members in key order. *)
From S2P Require Import Prelude Regex Names Url Utf8 Number.

#[local] Set Warnings "-register-all".

Inductive json :=
  | JNull
  | JBool (b : bool)
  | JNumber (text : bytes)
  | JString (s : string)
  | JArray (l : list json)
  | JObject (l : list (string * json)).

Definition bytes_of : string → bytes := String.list_ascii_of_string.
Definition string_of : bytes → string := String.string_of_list_ascii.
Definition quotation_mark : Ascii.ascii := "034"%char.

(** ** [json.Marshal] *)

Fixpoint commas (l : list bytes) : bytes :=
  match l with
  | [] => []
  | [x] => x
  | x :: l => x ++ ","%char :: commas l
  end.

Fixpoint Marshal (v : json) : bytes :=
  match v with
  | JNull => bytes_of "null"
  | JBool b => bytes_of (if b then "true" else "false")
  | JNumber t => t
  | JString s => quote (bytes_of s)
  | JArray l => "["%char :: commas (map Marshal l) ++ ["]"%char]
  | JObject l =>
      "{"%char :: commas (map (λ '(k, w), quote (bytes_of k) ++ ":"%char :: Marshal w) l) ++ ["}"%char]
  end.

(** [value[key] = child] on a map kept in key order. *)
Fixpoint member_insert (k : string) (v : json) (m : list (string * json)) : list (string * json) :=
  match m with
  | [] => [(k, v)]
  | (k', v') :: m' =>
      if bool_decide (k = k') then (k, v) :: m'
      else if bool_decide (String.le k k') then (k, v) :: m
      else (k', v') :: member_insert k v m'
  end.

(** ** [decodeJSONValue] *)

Definition is_space (c : Ascii.ascii) : bool := is_one_of [" "%char; "009"%char; "010"%char; "013"%char] c.
Fixpoint skip_space (l : bytes) : bytes :=
  match l with
  | c :: l' => if is_space c then skip_space l' else l
  | [] => []
  end.

(** The next token is the byte [c]. *)
Definition expect (c : Ascii.ascii) (l : bytes) : option bytes :=
  match skip_space l with
  | d :: rest => if bool_decide (d = c) then Some rest else None
  | [] => None
  end.

Definition invalid_json {A} : result A := Err (Errorf "invalid JSON" []).

(** A token that is not a delimiter. *)
Definition decode_scalar (l : bytes) : result (json * bytes) :=
  match l with
  | [] => invalid_json
  | c :: l' =>
      if bool_decide (c = quotation_mark) then
        match unquote l' with Some (s, rest) => Ok (JString (string_of s), rest) | None => invalid_json end
      else if bool_decide (c = "-"%char) || is_digit c then
        match scan_number l with
        | Some (t, rest) => n ← normalizeJSONNumber t; Ok (JNumber n, rest)
        | None => invalid_json
        end
      else if has_prefix (bytes_of "null") l then Ok (JNull, drop 4 l)
      else if has_prefix (bytes_of "true") l then Ok (JBool true, drop 4 l)
      else if has_prefix (bytes_of "false") l then Ok (JBool false, drop 5 l)
      else invalid_json
  end.

Section decoder.
Variable maximumDepth : Z.

(** Every call spends one unit of fuel. *)
Fixpoint decodeJSONValue (fuel : nat) (depth : Z) (l : bytes) : result (json * bytes) :=
  match fuel with
  | O => invalid_json
  | S fuel =>
      fail_if (maximumDepth <? depth) (Errorf "JSON nesting exceeds %d" []);;
      match expect "{"%char l with
      | Some l' =>
          match expect "}"%char l' with
          | Some rest => Ok (JObject [], rest)
          | None => decode_members fuel depth [] l'
          end
      | None =>
          match expect "["%char l with
          | Some l' =>
              match expect "]"%char l' with
              | Some rest => Ok (JArray [], rest)
              | None => decode_elements fuel depth [] l'
              end
          | None => decode_scalar (skip_space l)
          end
      end
  end
with decode_members (fuel : nat) (depth : Z) (value : list (string * json)) (l : bytes) : result (json * bytes) :=
  match fuel with
  | O => invalid_json
  | S fuel =>
      match (l1 ← expect quotation_mark l; unquote l1) with
      | None => invalid_json
      | Some (k, l2) =>
          let key := string_of k in
          fail_if (bool_decide (key ∈ value.*1)) (Errorf "duplicate JSON object key %q" [key]);;
          match expect ":"%char l2 with
          | None => invalid_json
          | Some l3 =>
              '(child, l4) ← decodeJSONValue fuel (depth + 1) l3;
              let value := member_insert key child value in
              match expect ","%char l4 with
              | Some l5 => decode_members fuel depth value l5
              | None => match expect "}"%char l4 with
                        | Some rest => Ok (JObject value, rest)
                        | None => Err (Errorf "unterminated JSON object" [])
                        end
              end
          end
      end
  end
with decode_elements (fuel : nat) (depth : Z) (value : list json) (l : bytes) : result (json * bytes) :=
  match fuel with
  | O => invalid_json
  | S fuel =>
      '(child, l1) ← decodeJSONValue fuel (depth + 1) l;
      let value := value ++ [child] in
      match expect ","%char l1 with
      | Some l2 => decode_elements fuel depth value l2
      | None => match expect "]"%char l1 with
                | Some rest => Ok (JArray value, rest)
                | None => Err (Errorf "unterminated JSON array" [])
                end
      end
  end.
End decoder.

(** Enough fuel for an input of the length of [l]. *)
Definition json_fuel (l : bytes) : nat := 2 * length l + 1.

Definition parse_canonical (encoded : bytes) (maximumDepth : Z) : result json :=
  fail_if (negb (utf8_Valid encoded)) (Errorf "JSON input is not valid UTF-8" []);;
  '(value, rest) ← decodeJSONValue maximumDepth (json_fuel encoded) 0 encoded;
  fail_if (negb (bool_decide (skip_space rest = []))) (Errorf "trailing JSON value" []);;
  Ok value.

Definition canonicalJSON (encoded : bytes) (maximumDepth : Z) : result bytes :=
  Marshal <$> parse_canonical encoded maximumDepth.

(** ** Tokens *)

Lemma bytes_of_string s : string_of (bytes_of s) = s.
Proof. apply String.string_of_list_ascii_of_string. Qed.
Lemma string_of_bytes l : bytes_of (string_of l) = l.
Proof. apply String.list_ascii_of_string_of_list_ascii. Qed.

Lemma space_ascii c : is_space c = true → rune1 c = true.
Proof. destruct c as [[] [] [] [] [] [] [] []]; intros H; try discriminate H; reflexivity. Qed.

Lemma skip_space_spec l : ∃ ws, l = ws ++ skip_space l ∧ Forall (λ c, is_space c = true) ws.
Proof.
  induction l as [|c l (ws & Heq & Hws)]; cbn; [by exists []|]. destruct (is_space c) eqn:Hc.
  - exists (c :: ws). split; [by rewrite Heq at 1|by constructor].
  - by exists [].
Qed.
Lemma skip_space_length l : (length (skip_space l) ≤ length l)%nat.
Proof. destruct (skip_space_spec l) as (ws & Heq & _). rewrite Heq at 2. rewrite length_app. lia. Qed.
Lemma skip_space_utf8 l : utf8 l → utf8 (skip_space l).
Proof.
  intros Hl. induction l as [|c l IH]; cbn; [done|]. destruct (is_space c) eqn:Hc; [|done].
  apply IH. by apply utf8_tail in Hl; [|apply space_ascii].
Qed.

Lemma expect_length c l r : expect c l = Some r → (length r < length l)%nat.
Proof.
  unfold expect. pose proof (skip_space_length l). destruct (skip_space l); [done|]. cbn in *.
  case_bool_decide; [intros [= ->]; lia|done].
Qed.
Lemma expect_utf8 c l r : rune1 c = true → expect c l = Some r → utf8 l → utf8 r.
Proof.
  unfold expect. intros Hc He Hl%skip_space_utf8. destruct (skip_space l); [done|].
  case_bool_decide; [|done]. simplify_eq. by apply utf8_tail in Hl.
Qed.
Lemma expect_here c l : is_space c = false → expect c (c :: l) = Some l.
Proof. intros Hc. unfold expect. cbn. rewrite Hc. by rewrite bool_decide_true. Qed.
Lemma expect_other c d l : is_space d = false → c ≠ d → expect c (d :: l) = None.
Proof. intros Hc Hne. unfold expect. cbn. rewrite Hc. by rewrite bool_decide_false. Qed.

Lemma push_length r o s t : push r o = Some (s, t) → ∃ s', o = Some (s', t).
Proof. intros (s' & ? & _)%push_Some. by exists s'. Qed.

(** What the decoder of a string leaves is shorter. *)
Lemma unquote_length l s t : unquote l = Some (s, t) → (length t < length l)%nat.
Proof.
  revert s. induction l as [l IH] using (induction_ltof1 _ length). unfold ltof in IH. intros s.
  assert (∀ r l', (length l' < length l)%nat → push r (unquote l') = Some (s, t) → (length t < length l)%nat) as Hpush.
  { intros r l' Hlen (s' & Heq)%push_length. specialize (IH l' Hlen s' Heq). lia. }
  destruct l as [|c l]; [done|]. cbn [unquote]. case_bool_decide; [intros [= _ ->]; cbn; lia|].
  case_bool_decide; [|destruct (code c <? 32); [done|apply Hpush; cbn; lia]].
  destruct l as [|e l]; [done|]. case_bool_decide.
  - destruct l as [|h1 [|h2 [|h3 [|h4 l]]]]; try done. intros (n & _ & Hr)%bind_Some. revert Hr.
    destruct (surrogate n); [|apply Hpush; cbn; lia].
    destruct l as [|x [|y [|e1 [|e2 [|e3 [|e4 l']]]]]]; try (apply Hpush; cbn; lia).
    destruct ('(lo, _) ← _; surrogate_pair n lo); apply Hpush; cbn; lia.
  - intros (d & _ & Hr)%bind_Some. revert Hr. apply Hpush. cbn. lia.
Qed.

Lemma literal_nonempty t p : literal t p → t ≠ [].
Proof.
  intros [n i f e x Hi _ _]. destruct (integer_text_head i Hi) as (c & l & -> & _). by destruct n.
Qed.
Lemma scan_number_length l t r : scan_number l = Some (t, r) → (length r < length l)%nat.
Proof.
  intros [[p Hp] ->]%scan_literal. apply literal_nonempty in Hp. rewrite length_app. destruct t; cbn; [done|lia].
Qed.

Lemma has_prefix_spec p l : has_prefix p l = true → l = p ++ drop (length p) l.
Proof. unfold has_prefix. intros H%bool_decide_eq_true. rewrite <-H at 1. by rewrite take_drop. Qed.
Lemma has_prefix_app p l : has_prefix p (p ++ l) = true.
Proof. unfold has_prefix. rewrite take_app_length. by apply bool_decide_eq_true. Qed.

Lemma decode_scalar_length l v r : decode_scalar l = Ok (v, r) → (length r < length l)%nat.
Proof.
  unfold decode_scalar. destruct l as [|c l']; [done|]. case_bool_decide.
  { destruct (unquote l') as [[s t]|] eqn:Hu; [|done]. intros [= _ ->]. apply unquote_length in Hu. cbn. lia. }
  destruct (bool_decide _ || is_digit c).
  { destruct (scan_number _) as [[t s]|] eqn:Hs; [|done]. intros (n & _ & [= _ ->])%bind_ok. by eapply scan_number_length. }
  assert (∀ p, has_prefix p (c :: l') = true → p ≠ [] → (length (drop (length p) (c :: l')) < length (c :: l'))%nat) as Hdrop.
  { intros p Hp%has_prefix_spec Hne. rewrite Hp at 2. rewrite length_app. destruct p; cbn; [done|lia]. }
  destruct (has_prefix (bytes_of "null") _) eqn:H1; [intros [= _ <-]; by apply (Hdrop _ H1)|].
  destruct (has_prefix (bytes_of "true") _) eqn:H2; [intros [= _ <-]; by apply (Hdrop _ H2)|].
  destruct (has_prefix (bytes_of "false") _) eqn:H3; [intros [= _ <-]; by apply (Hdrop _ H3)|done].
Qed.

(** ** The decoder terminates *)

Section decoding.
Context (max : Z).
#[local] Abbreviation decode := (decodeJSONValue max).
#[local] Abbreviation members := (decode_members max).
#[local] Abbreviation elements := (decode_elements max).

(** Case analysis of a successful call. *)
Lemma decode_inv fuel d l v r : decode (S fuel) d l = Ok (v, r) →
  d ≤ max ∧
  ((∃ l', expect "{"%char l = Some l' ∧
      ((expect "}"%char l' = Some r ∧ v = JObject []) ∨ members fuel d [] l' = Ok (v, r))) ∨
   (∃ l', expect "["%char l = Some l' ∧
      ((expect "]"%char l' = Some r ∧ v = JArray []) ∨ elements fuel d [] l' = Ok (v, r))) ∨
   decode_scalar (skip_space l) = Ok (v, r)).
Proof.
  cbn [decodeJSONValue]. intros [Hd%fail_if_ok H]%bind_unit_ok. split; [lia|].
  destruct (expect "{"%char l) as [l1|].
  - left. exists l1. split; [done|]. destruct (expect "}"%char l1); [left; by simplify_eq|by right].
  - destruct (expect "["%char l) as [l1|]; [right; left|by right; right].
    exists l1. split; [done|]. destruct (expect "]"%char l1); [left; by simplify_eq|by right].
Qed.

Lemma members_inv fuel d m l v r : members (S fuel) d m l = Ok (v, r) →
  ∃ l1 k l2 l3 w l4, expect quotation_mark l = Some l1 ∧ unquote l1 = Some (k, l2) ∧ (string_of k ∉ m.*1) ∧
    expect ":"%char l2 = Some l3 ∧ decode fuel (d + 1) l3 = Ok (w, l4) ∧
    ((∃ l5, expect ","%char l4 = Some l5 ∧ members fuel d (member_insert (string_of k) w m) l5 = Ok (v, r)) ∨
     (expect "}"%char l4 = Some r ∧ v = JObject (member_insert (string_of k) w m))).
Proof.
  cbn [decode_members]. destruct (expect quotation_mark l) as [l1|]; [|done]. cbn [mbind option_bind].
  destruct (unquote l1) as [[k l2]|] eqn:Hu; [|done].
  intros [Hk%fail_if_ok%bool_decide_eq_false H]%bind_unit_ok.
  destruct (expect ":"%char l2) as [l3|] eqn:Hc; [|done]. apply bind_ok in H as ([w l4] & Hw & H).
  exists l1, k, l2, l3, w, l4. split_and!; try done. destruct (expect ","%char l4) as [l5|]; [left; by exists l5|].
  destruct (expect "}"%char l4); [right; by simplify_eq|done].
Qed.

Lemma elements_inv fuel d vs l v r : elements (S fuel) d vs l = Ok (v, r) →
  ∃ w l1, decode fuel (d + 1) l = Ok (w, l1) ∧
    ((∃ l2, expect ","%char l1 = Some l2 ∧ elements fuel d (vs ++ [w]) l2 = Ok (v, r)) ∨
     (expect "]"%char l1 = Some r ∧ v = JArray (vs ++ [w]))).
Proof.
  cbn [decode_elements]. intros ([w l1] & Hw & H)%bind_ok. exists w, l1. split; [done|].
  destruct (expect ","%char l1) as [l2|]; [left; by exists l2|]. destruct (expect "]"%char l1); [right; by simplify_eq|done].
Qed.

Lemma decode_length fuel :
  (∀ d l v r, decode fuel d l = Ok (v, r) → (length r < length l)%nat) ∧
  (∀ d m l v r, members fuel d m l = Ok (v, r) → (length r < length l)%nat) ∧
  (∀ d vs l v r, elements fuel d vs l = Ok (v, r) → (length r < length l)%nat).
Proof.
  induction fuel as [|fuel (IHv & IHm & IHe)]; [done|]. split_and!.
  - intros d l v r (_ & [(l' & Hl%expect_length & [[Hr%expect_length _]|Hr%IHm])|
      [(l' & Hl%expect_length & [[Hr%expect_length _]|Hr%IHe])|Hr%decode_scalar_length]])%decode_inv; try lia.
    pose proof (skip_space_length l). lia.
  - intros d m l v r (l1 & k & l2 & l3 & w & l4 & H1%expect_length & H2%unquote_length & _ & H3%expect_length &
      H4%IHv & [(l5 & H5%expect_length & H6%IHm)|[H5%expect_length _]])%members_inv; lia.
  - intros d vs l v r (w & l1 & H1%IHv & [(l2 & H2%expect_length & H3%IHe)|[H2%expect_length _]])%elements_inv; lia.
Qed.

(** The result does not depend on the fuel, once there is enough of it. *)
Lemma decode_fuel n m :
  (∀ d l, (2 * length l + 1 ≤ n)%nat → (2 * length l + 1 ≤ m)%nat → decode n d l = decode m d l) ∧
  (∀ d v l, (2 * length l + 2 ≤ n)%nat → (2 * length l + 2 ≤ m)%nat → members n d v l = members m d v l) ∧
  (∀ d v l, (2 * length l + 2 ≤ n)%nat → (2 * length l + 2 ≤ m)%nat → elements n d v l = elements m d v l).
Proof.
  revert m. induction n as [|n IH]; intros m; [split_and!; intros; lia|].
  destruct m as [|m]; [split_and!; intros; lia|]. destruct (IH m) as (IHv & IHm & IHe). split_and!.
  - intros d l Hn Hm. cbn [decodeJSONValue]. destruct (fail_if _ _); [|done]. cbn [mbind result_bind].
    destruct (expect "{"%char l) as [l1|] eqn:Hl; [|destruct (expect "["%char l) as [l1|] eqn:Hl2; [|done]].
    + apply expect_length in Hl. destruct (expect _ l1); [done|]. apply IHm; lia.
    + apply expect_length in Hl2. destruct (expect _ l1); [done|]. apply IHe; lia.
  - intros d v l Hn Hm. cbn [decode_members]. destruct (expect quotation_mark l) as [l1|] eqn:Hq; [|done]. cbn [mbind option_bind].
    destruct (unquote l1) as [[k l2]|] eqn:Hu; [|done]. destruct (fail_if _ _); [|done]. cbn [mbind result_bind].
    destruct (expect ":"%char l2) as [l3|] eqn:Hc; [|done].
    apply expect_length in Hq, Hc. apply unquote_length in Hu. rewrite (IHv (d + 1) l3) by lia.
    destruct (decode m (d + 1) l3) as [[w l4]|] eqn:Hw; [|done]. cbn [mbind result_bind].
    apply (proj1 (decode_length m)) in Hw. destruct (expect ","%char l4) as [l5|] eqn:Hl; [|done].
    apply expect_length in Hl. apply IHm; lia.
  - intros d v l Hn Hm. cbn [decode_elements]. rewrite (IHv (d + 1) l) by lia.
    destruct (decode m (d + 1) l) as [[w l1]|] eqn:Hw; [|done]. cbn [mbind result_bind].
    apply (proj1 (decode_length m)) in Hw. destruct (expect ","%char l1) as [l2|] eqn:Hl; [|done].
    apply expect_length in Hl. apply IHe; lia.
Qed.

(** More fuel keeps a result. *)
Lemma decode_mono n :
  (∀ m d l x, decode n d l = Ok x → (n ≤ m)%nat → decode m d l = Ok x) ∧
  (∀ m d v l x, members n d v l = Ok x → (n ≤ m)%nat → members m d v l = Ok x) ∧
  (∀ m d v l x, elements n d v l = Ok x → (n ≤ m)%nat → elements m d v l = Ok x).
Proof.
  induction n as [|n (IHv & IHm & IHe)]; [done|]. split_and!; intros [|m]; try lia.
  - intros d l x. cbn [decodeJSONValue]. destruct (fail_if _ _); [|done]. cbn [mbind result_bind].
    destruct (expect "{"%char l) as [l1|]; [|destruct (expect "["%char l) as [l1|]; [|done]];
      destruct (expect _ l1); [done| |done|]; intros H Hle; [apply IHm|apply IHe]; (done || lia).
  - intros d v l x H Hle. revert H. cbn [decode_members]. destruct (expect quotation_mark l) as [l1|]; [|done].
    cbn [mbind option_bind]. destruct (unquote l1) as [[k l2]|]; [|done]. destruct (fail_if _ _); [|done].
    cbn [mbind result_bind]. destruct (expect ":"%char l2) as [l3|]; [|done].
    intros ([w l4] & Hw & H)%bind_ok. rewrite (IHv m _ _ _ Hw) by lia. cbn [mbind result_bind]. revert H.
    destruct (expect ","%char l4); [|done]. intros H. apply IHm; (done || lia).
  - intros d v l x H Hle. revert H. cbn [decode_elements]. intros ([w l4] & Hw & H)%bind_ok.
    rewrite (IHv m _ _ _ Hw) by lia. cbn [mbind result_bind]. revert H.
    destruct (expect ","%char l4); [|done]. intros H. apply IHe; (done || lia).
Qed.
End decoding.

(** ** Well-formed and canonical values *)

Section induction.
Context (P : json → Prop).
Hypothesis P_null : P JNull.
Hypothesis P_bool : ∀ b, P (JBool b).
Hypothesis P_number : ∀ t, P (JNumber t).
Hypothesis P_string : ∀ s, P (JString s).
Hypothesis P_array : ∀ l, Forall P l → P (JArray l).
Hypothesis P_object : ∀ l, Forall (λ kv, P (snd kv)) l → P (JObject l).

Fixpoint json_rec' (v : json) : P v :=
  match v with
  | JNull => P_null
  | JBool b => P_bool b
  | JNumber t => P_number t
  | JString s => P_string s
  | JArray l => P_array l ((fix go l : Forall P l :=
      match l with [] => List.Forall_nil _ | w :: l => List.Forall_cons _ w l (json_rec' w) (go l) end) l)
  | JObject l => P_object l ((fix go l : Forall (λ kv, P (snd kv)) l :=
      match l with [] => List.Forall_nil _ | kv :: l => List.Forall_cons _ kv l (json_rec' (snd kv)) (go l) end) l)
  end.
End induction.

Definition utf8_string (s : string) : Prop := utf8 (bytes_of s).

(** What [json.Marshal] can be given. *)
Inductive well_formed : json → Prop :=
  | wf_null : well_formed JNull
  | wf_bool b : well_formed (JBool b)
  | wf_number t : number_literal t → well_formed (JNumber t)
  | wf_string s : utf8_string s → well_formed (JString s)
  | wf_array l : Forall well_formed l → well_formed (JArray l)
  | wf_object l : NoDup (l.*1) → Forall (λ kv, utf8_string (fst kv) ∧ well_formed (snd kv)) l →
      well_formed (JObject l).

(** What [decodeJSONValue] returns. *)
Inductive canonical : json → Prop :=
  | can_null : canonical JNull
  | can_bool b : canonical (JBool b)
  | can_number t : canonical_number t → canonical (JNumber t)
  | can_string s : utf8_string s → canonical (JString s)
  | can_array l : Forall canonical l → canonical (JArray l)
  | can_object l : strictly_sorted (l.*1) → Forall (λ kv, utf8_string (fst kv) ∧ canonical (snd kv)) l →
      canonical (JObject l).

(** The canonical value of a value. *)
Definition canon_number (t : bytes) : bytes := match normalizeJSONNumber t with Ok c => c | Err _ => t end.
Definition sort_members (m l : list (string * json)) : list (string * json) :=
  foldl (λ m kv, member_insert (fst kv) (snd kv) m) m l.
Fixpoint canon (v : json) : json :=
  match v with
  | JNumber t => JNumber (canon_number t)
  | JArray l => JArray (map canon l)
  | JObject l => JObject (sort_members [] (map (λ '(k, w), (k, canon w)) l))
  | _ => v
  end.

(** Nesting: a value is at depth 0, what it contains one deeper. *)
Fixpoint height (v : json) : Z :=
  match v with
  | JArray l => foldr (λ w n, Z.max (height w + 1) n) 0 l
  | JObject l => foldr (λ '(_, w) n, Z.max (height w + 1) n) 0 l
  | _ => 0
  end.

(** *** Members in key order *)

Lemma member_insert_perm k v m : k ∉ m.*1 → member_insert k v m ≡ₚ (k, v) :: m.
Proof.
  induction m as [|[k' v'] m IH]; cbn; [done|]. intros [Hne Hk]%not_elem_of_cons.
  rewrite bool_decide_false by done. case_bool_decide; [done|]. rewrite IH by done. constructor.
Qed.

Lemma member_insert_sorted k v m : k ∉ m.*1 → strictly_sorted (m.*1) → strictly_sorted ((member_insert k v m).*1).
Proof.
  unfold strictly_sorted. induction m as [|[k' v'] m IH]; cbn; [intros; repeat constructor|].
  intros [Hne Hk]%not_elem_of_cons Hs. inversion Hs as [|? ? Hs' Hall]; subst. rewrite bool_decide_false by done.
  case_bool_decide as Hle; cbn.
  - constructor; [done|]. constructor; [done|]. eapply Forall_impl; [exact Hall|]. intros x [Hx Hnx]. cbn in *.
    split; [by etrans|]. intros ->. apply Hne. by apply (anti_symm String.le).
  - constructor; [by apply IH|]. rewrite member_insert_perm by done. cbn. constructor; [|done].
    split; [|done]. by destruct (total String.le k k').
Qed.

Lemma member_insert_last k v m : Forall (λ k', String.le k' k ∧ k' ≠ k) (m.*1) → member_insert k v m = m ++ [(k, v)].
Proof.
  induction m as [|[k' v'] m IH]; cbn; [done|]. intros [[Hle Hne] Hall]%Forall_cons_1.
  rewrite bool_decide_false by naive_solver. rewrite bool_decide_false; [by rewrite IH|].
  intros Hle'. apply Hne. by apply (anti_symm String.le).
Qed.

Lemma sort_members_app m l1 l2 : sort_members m (l1 ++ l2) = sort_members (sort_members m l1) l2.
Proof. apply foldl_app. Qed.

Lemma sort_members_perm m l : NoDup ((m ++ l).*1) → sort_members m l ≡ₚ m ++ l.
Proof.
  revert m. induction l as [|[k v] l IH]; intros m Hnd; cbn; [by rewrite app_nil_r|].
  assert (k ∉ m.*1) as Hk.
  { rewrite fmap_app in Hnd. cbn in Hnd. apply NoDup_app in Hnd as (_ & Hd & _). intros Hin. apply (Hd k Hin). by left. }
  rewrite <-Permutation_middle in Hnd.
  rewrite IH; rewrite member_insert_perm by done; [by rewrite <-Permutation_middle|done].
Qed.

Lemma sort_members_sorted m l : NoDup ((m ++ l).*1) → strictly_sorted (m.*1) → strictly_sorted ((sort_members m l).*1).
Proof.
  revert m. induction l as [|[k v] l IH]; intros m Hnd Hs; cbn; [done|].
  assert (k ∉ m.*1) as Hk.
  { rewrite fmap_app in Hnd. cbn in Hnd. apply NoDup_app in Hnd as (_ & Hd & _). intros Hin. apply (Hd k Hin). by left. }
  apply IH; [|by apply member_insert_sorted]. rewrite member_insert_perm by done.
  by rewrite <-Permutation_middle in Hnd.
Qed.

(** Members already in key order stay as they are. *)
Lemma sort_members_id m l : strictly_sorted ((m ++ l).*1) → sort_members m l = m ++ l.
Proof.
  revert m. induction l as [|[k v] l IH]; intros m Hs; cbn; [by rewrite app_nil_r|].
  rewrite member_insert_last.
  - rewrite IH; by rewrite <-app_assoc.
  - rewrite fmap_app in Hs. cbn in Hs. apply Forall_forall. intros x Hx. 
    eapply StronglySorted_app_1_elem_of in Hs; [exact Hs|done|by left].
Qed.

(** *** Canonical values *)

Lemma canonical_wf v : canonical v → well_formed v.
Proof.
  induction v as [| | | |l IH|l IH] using json_rec'; inversion 1 as [| |? Ht|? Hs|? Hl|? Hk Hl]; subst; constructor.
  - by apply canonical_literal.
  - done.
  - rewrite Forall_forall in *. auto.
  - by apply strictly_sorted_NoDup.
  - rewrite Forall_forall in *. intros kv Hkv. destruct (Hl kv Hkv). auto.
Qed.

Lemma canon_canonical v : canonical v → canon v = v.
Proof.
  induction v as [| | | |l IH|l IH] using json_rec'; inversion 1 as [| |? Ht|? Hs|? Hl|? Hk Hl]; subst; cbn; try done.
  - unfold canon_number. by rewrite normalize_id.
  - f_equal. rewrite <-(map_id l) at 2. apply map_ext_in. intros w Hw%list_elem_of_In. rewrite Forall_forall in *. auto.
  - assert (map (λ '(k, w), (k, canon w)) l = l) as ->.
    { rewrite <-(map_id l) at 2. apply map_ext_in. intros [k w] Hw%list_elem_of_In. rewrite Forall_forall in *.
      unfold id. f_equal. apply (IH _ Hw). by destruct (Hl _ Hw). }
    f_equal. by apply (sort_members_id []).
Qed.

Lemma canon_keys l : map (λ '(k, w), (k, canon w)) l = (λ kv : string * json, (kv.1, canon kv.2)) <$> l.
Proof. apply map_ext. by intros []. Qed.

Lemma canon_correct v : well_formed v → canonical (canon v).
Proof.
  induction v as [| | | |l IH|l IH] using json_rec'; inversion 1 as [| |? Ht|? Hs|? Hl|? Hk Hl]; subst; cbn; constructor; try done.
  - unfold canon_number. by destruct (normalize_canonical _ Ht) as (c & -> & ?).
  - change (map canon l) with (canon <$> l). rewrite Forall_fmap. rewrite Forall_forall in *. intros w Hw. cbn. auto.
  - apply sort_members_sorted; [|constructor]. cbn. by rewrite canon_keys, <-list_fmap_compose.
  - rewrite sort_members_perm by (cbn; by rewrite canon_keys, <-list_fmap_compose). cbn.
    rewrite canon_keys, Forall_fmap. rewrite Forall_forall in *. intros kv Hkv. destruct (Hl kv Hkv). split; cbn; auto.
Qed.

(** Canonicalizing a value does not change its nesting. *)
Lemma height_object l : height (JObject l) = foldr (λ kv n, Z.max (height (snd kv) + 1) n) 0 l.
Proof. cbn. induction l as [|[k w] l IH]; cbn; [done|]. by rewrite IH. Qed.

Lemma height_array_le l n : 0 ≤ n → height (JArray l) ≤ n ↔ Forall (λ w, height w + 1 ≤ n) l.
Proof.
  intros Hn. cbn. induction l as [|w l IH]; cbn; [by rewrite Forall_nil|]. rewrite Forall_cons, <-IH. lia.
Qed.
Lemma height_object_le l n : 0 ≤ n → height (JObject l) ≤ n ↔ Forall (λ kv, height (snd kv) + 1 ≤ n) l.
Proof.
  intros Hn. rewrite height_object. induction l as [|w l IH]; cbn; [by rewrite Forall_nil|]. rewrite Forall_cons, <-IH. lia.
Qed.
Lemma height_nonneg v : 0 ≤ height v.
Proof. destruct v; cbn; try lia. - induction l; cbn; lia. - induction l as [|[]]; cbn; lia. Qed.

(** ** What the decoder returns *)

Lemma utf8_app_ascii t r : Forall (λ c, rune1 c = true) t → utf8 (t ++ r) → utf8 r.
Proof. induction 1 as [|c t Hc _ IH]; cbn; [done|]. intros Ht. apply IH. by apply utf8_tail in Ht. Qed.

Lemma digit_ascii c : is_digit c = true → rune1 c = true.
Proof. destruct c as [[] [] [] [] [] [] [] []]; intros H; try discriminate H; reflexivity. Qed.
Lemma exponent_ascii c : is_exponent c = true → rune1 c = true.
Proof. destruct c as [[] [] [] [] [] [] [] []]; intros H; try discriminate H; reflexivity. Qed.

Lemma literal_ascii t p : literal t p → Forall (λ c, rune1 c = true) t.
Proof.
  assert (∀ ds, digits ds → Forall (λ c, rune1 c = true) ds) as Hdigits.
  { intros ds Hds. eapply Forall_impl; [exact Hds|]. apply digit_ascii. }
  intros [n i f e x [Hi _] Hf He]. repeat apply Forall_app_2.
  - destruct n; by repeat constructor.
  - by apply Hdigits.
  - destruct Hf as [->|(ds & -> & _ & Hds)]; [constructor|]. constructor; [done|by apply Hdigits].
  - destruct He as [|m ds Hm _ Hds|m ds Hm _ Hds|m ds Hm _ Hds]; repeat constructor; auto using exponent_ascii.
Qed.

Lemma decode_scalar_canonical l v r : decode_scalar l = Ok (v, r) → utf8 l → canonical v ∧ utf8 r ∧ height v = 0.
Proof.
  unfold decode_scalar. destruct l as [|c l']; [done|]. case_bool_decide as Hc.
  { subst c. destruct (unquote l') as [[s t]|] eqn:Hu; [|done]. intros [= <- ->] Hl. apply utf8_tail in Hl; [|done].
    apply unquote_utf8 in Hu as (? & ? & _); [|done]. split_and!; [|done|done]. constructor. unfold utf8_string.
    by rewrite string_of_bytes. }
  destruct (bool_decide _ || is_digit c).
  { destruct (scan_number _) as [[t s]|] eqn:Hs; [|done]. intros (n & Hn & [= <- ->])%bind_ok Hl.
    apply scan_literal in Hs as [[p Hp] Heq]. rewrite Heq in Hl.
    destruct (normalize_canonical t) as (c' & Hc' & Hcan); [apply number_literal_spec; by exists p|].
    rewrite Hn in Hc'. injection Hc' as <-. split_and!; [by constructor| |done].
    eapply utf8_app_ascii; [by eapply literal_ascii|done]. }
  assert (∀ p, has_prefix (bytes_of p) (c :: l') = true → Forall (λ c, rune1 c = true) (bytes_of p) →
    utf8 (c :: l') → utf8 (drop (length (bytes_of p)) (c :: l'))) as Hdrop.
  { intros p Hp%has_prefix_spec Hascii Hl. rewrite Hp in Hl. by apply utf8_app_ascii in Hl. }
  destruct (has_prefix (bytes_of "null") _) eqn:H1; [intros [= <- <-] Hl; split_and!; [constructor|apply (Hdrop _ H1); [by repeat constructor|done]|done]|].
  destruct (has_prefix (bytes_of "true") _) eqn:H2; [intros [= <- <-] Hl; split_and!; [constructor|apply (Hdrop _ H2); [by repeat constructor|done]|done]|].
  destruct (has_prefix (bytes_of "false") _) eqn:H3; [intros [= <- <-] Hl; split_and!; [constructor|apply (Hdrop _ H3); [by repeat constructor|done]|done]|done].
Qed.

Definition canonical_member (kv : string * json) : Prop := utf8_string (fst kv) ∧ canonical (snd kv).

Section results.
Context (max : Z).

Lemma decode_canonical fuel :
  (∀ d l v r, decodeJSONValue max fuel d l = Ok (v, r) → utf8 l → canonical v ∧ utf8 r ∧ height v ≤ max - d) ∧
  (∀ d m l v r, decode_members max fuel d m l = Ok (v, r) → utf8 l → d ≤ max →
     strictly_sorted (m.*1) → Forall canonical_member m → height (JObject m) ≤ max - d →
     canonical v ∧ utf8 r ∧ height v ≤ max - d) ∧
  (∀ d vs l v r, decode_elements max fuel d vs l = Ok (v, r) → utf8 l → d ≤ max →
     Forall canonical vs → height (JArray vs) ≤ max - d → canonical v ∧ utf8 r ∧ height v ≤ max - d).
Proof.
  induction fuel as [|fuel (IHv & IHm & IHe)]; [done|]. split_and!.
  - intros d l v r (Hd & [(l' & Hl & H)|[(l' & Hl & H)|Hr]])%decode_inv Hutf.
    + apply expect_utf8 in Hl; [|done|done]. destruct H as [[Hr ->]|Hr].
      * apply expect_utf8 in Hr; [|done|done]. split_and!; [repeat constructor|done|cbn; lia].
      * eapply IHm; [exact Hr|done|done|constructor|constructor|cbn; lia].
    + apply expect_utf8 in Hl; [|done|done]. destruct H as [[Hr ->]|Hr].
      * apply expect_utf8 in Hr; [|done|done]. split_and!; [repeat constructor|done|cbn; lia].
      * eapply IHe; [exact Hr|done|done|constructor|cbn; lia].
    + apply decode_scalar_canonical in Hr as (? & ? & ->); [|by apply skip_space_utf8]. split_and!; [done|done|lia].
  - intros d m l v r (l1 & k & l2 & l3 & w & l4 & H1 & H2 & Hk & H3 & H4 & H5)%members_inv Hutf Hd Hs Hm Hh.
    apply expect_utf8 in H1; [|done|done]. apply unquote_utf8 in H2 as (Hku & H2 & _); [|done].
    apply expect_utf8 in H3; [|done|done]. apply IHv in H4 as (Hw & H4 & Hwh); [|done].
    assert (Forall canonical_member (member_insert (string_of k) w m)) as Hm'.
    { rewrite member_insert_perm by done. constructor; [|done]. split; [unfold utf8_string; cbn; by rewrite string_of_bytes|done]. }
    assert (height (JObject (member_insert (string_of k) w m)) ≤ max - d) as Hh'.
    { rewrite height_object_le in * by lia. rewrite member_insert_perm by done. constructor; [cbn; lia|done]. }
    assert (strictly_sorted ((member_insert (string_of k) w m).*1)) as Hs' by (by apply member_insert_sorted).
    destruct H5 as [(l5 & H5 & H6)|[H5 ->]]; apply expect_utf8 in H5; [|done|done| |done|done].
    + by eapply IHm in H6.
    + split_and!; [by constructor|done|done].
  - intros d vs l v r (w & l1 & H1 & H2)%elements_inv Hutf Hd Hvs Hh.
    apply IHv in H1 as (Hw & H1 & Hwh); [|done].
    assert (Forall canonical (vs ++ [w])) as Hvs' by (apply Forall_app_2; [done|by repeat constructor]).
    assert (height (JArray (vs ++ [w])) ≤ max - d) as Hh'.
    { rewrite height_array_le in * by lia. apply Forall_app_2; [done|]. constructor; [lia|constructor]. }
    destruct H2 as [(l2 & H2 & H3)|[H2 ->]]; apply expect_utf8 in H2; [|done|done| |done|done].
    + by eapply IHe in H3.
    + split_and!; [by constructor|done|done].
Qed.
End results.

(** ** What [json.Marshal] writes is decoded to the canonical value *)

(** The first byte of a value is no space and no closing bracket. *)
Lemma Marshal_head v : well_formed v →
  ∃ c t, Marshal v = c :: t ∧ is_space c = false ∧ c ≠ "]"%char ∧ c ≠ "}"%char.
Proof.
  inversion 1 as [|b|t Ht|s Hs|l Hl|l Hk Hl]; subst; cbn [Marshal].
  - by eexists _, _.
  - destruct b; by eexists _, _.
  - apply number_literal_spec in Ht as [p [n i f e x Hi _ _]]. destruct (integer_text_head i Hi) as (c & j & -> & Hc & _).
    destruct n; cbn; eexists _, _; (split; [reflexivity|]); [done|].
    revert Hc. destruct c as [[] [] [] [] [] [] [] []]; intros Hc; try discriminate Hc; by vm_compute.
  - by eexists _, _.
  - by eexists _, _.
  - by eexists _, _.
Qed.

Lemma stops_punctuation c rest : is_digit c = false → c ≠ "."%char → is_exponent c = false → stops (c :: rest).
Proof. done. Qed.
#[local] Hint Extern 1 (stops (_ :: _)) => (by apply stops_punctuation) : core.

Lemma commas_cons x y l : commas (x :: y :: l) = x ++ ","%char :: commas (y :: l).
Proof. done. Qed.

Section printing.
Context (max : Z).

Lemma decode_token n d c l : d ≤ max → is_space c = false → c ≠ "{"%char → c ≠ "["%char →
  decodeJSONValue max (S n) d (c :: l) = decode_scalar (c :: l).
Proof.
  intros Hd Hc H1 H2. cbn [decodeJSONValue]. rewrite bind_fail_if by lia.
  rewrite !expect_other by done. cbn [skip_space]. by rewrite Hc.
Qed.

Lemma decode_number t d rest : d ≤ max → number_literal t → stops rest →
  decodeJSONValue max 1 d (t ++ rest) = Ok (JNumber (canon_number t), rest).
Proof.
  intros Hd Ht Hr. pose proof Ht as [p Hp]%number_literal_spec. pose proof (literal_scan t p rest Hp Hr) as Hscan.
  destruct (Marshal_head (JNumber t)) as (c & t' & Ht' & Hc & _); [by constructor|]. cbn [Marshal] in Ht'.
  assert (bool_decide (c = "-"%char) || is_digit c = true) as Hcd.
  { destruct Hp as [n i f e x Hi _ _]. destruct (integer_text_head i Hi) as (c' & j & -> & Hc' & _).
    destruct n; cbn in Ht'; injection Ht' as <- _; [done|]. by rewrite Hc', orb_true_r. }
  assert (c ≠ quotation_mark ∧ c ≠ "{"%char ∧ c ≠ "["%char) as (H1 & H2 & H3) by (split_and!; intros ->; done).
  rewrite Ht' in *. cbn [app] in *. rewrite decode_token by done. unfold decode_scalar.
  rewrite bool_decide_false, Hcd, Hscan by done. unfold canon_number.
  destruct (normalize_canonical (c :: t') Ht) as (n & -> & _). done.
Qed.

Lemma decode_string s d rest : d ≤ max → utf8_string s →
  decodeJSONValue max 1 d (quote (bytes_of s) ++ rest) = Ok (JString s, rest).
Proof.
  intros Hd Hs. unfold quote. cbn [app]. rewrite decode_token by done. unfold decode_scalar.
  rewrite bool_decide_true by done. rewrite <-app_assoc. cbn [app]. rewrite unquote_quote by done. by rewrite bytes_of_string.
Qed.

(** The elements of an array, given that every element is decoded. *)
Lemma decode_elements_Marshal d l rest acc :
  Forall (λ w, well_formed w ∧ ∀ rest, stops rest → ∃ n, decodeJSONValue max n (d + 1) (Marshal w ++ rest) = Ok (canon w, rest)) l →
  l ≠ [] →
  ∃ n, decode_elements max n d acc (commas (map Marshal l) ++ "]"%char :: rest) = Ok (JArray (acc ++ map canon l), rest).
Proof.
  intros Hl. revert acc. induction Hl as [|w l [Hwf Hw] Hl IH]; intros acc Hne; [done|]. destruct l as [|w' l].
  - cbn [map commas]. destruct (Hw ("]"%char :: rest)) as [n Hn]; [done|]. exists (S n). cbn [decode_elements].
    rewrite Hn. cbn [mbind result_bind]. rewrite expect_other, expect_here by done. done.
  - destruct (IH (acc ++ [canon w])) as [m Hm]; [done|]. cbn [map] in *. rewrite commas_cons, <-app_assoc. cbn [app].
    destruct (Hw (","%char :: commas (Marshal w' :: map Marshal l) ++ "]"%char :: rest)) as [n Hn]; [done|].
    exists (S (n `max` m)). cbn [decode_elements].
    rewrite (proj1 (decode_mono max n) (n `max` m)%nat _ _ _ Hn) by lia. cbn [mbind result_bind].
    rewrite expect_here by done. rewrite (proj2 (proj2 (decode_mono max m)) (n `max` m)%nat _ _ _ _ Hm) by lia.
    by rewrite <-app_assoc.
Qed.

(** The members of an object. *)
Lemma decode_members_Marshal d l rest acc :
  Forall (λ kv, utf8_string (fst kv) ∧
    ∀ rest, stops rest → ∃ n, decodeJSONValue max n (d + 1) (Marshal (snd kv) ++ rest) = Ok (canon (snd kv), rest)) l →
  l ≠ [] → NoDup ((acc ++ l).*1) →
  ∃ n, decode_members max n d acc (commas (map (λ '(k, w), quote (bytes_of k) ++ ":"%char :: Marshal w) l) ++ "}"%char :: rest) =
       Ok (JObject (sort_members acc (map (λ '(k, w), (k, canon w)) l)), rest).
Proof.
  intros Hl. revert acc. induction Hl as [|[k w] l [Hk Hw] Hl IH]; intros acc Hne Hnd; [done|]. cbn [fst snd] in *.
  assert (k ∉ acc.*1) as Hfresh.
  { rewrite <-Permutation_middle in Hnd. inversion Hnd as [|? ? Hin]; subst. rewrite fmap_app in Hin. set_solver. }
  assert (∀ n rest', decode_members max (S n) d acc (quote (bytes_of k) ++ ":"%char :: Marshal w ++ rest') =
    ('(child, l4) ← decodeJSONValue max n (d + 1) (Marshal w ++ rest');
     let value := member_insert k child acc in
     match expect ","%char l4 with
     | Some l5 => decode_members max n d value l5
     | None => match expect "}"%char l4 with
               | Some rest => Ok (JObject value, rest)
               | None => Err (Errorf "unterminated JSON object" [])
               end
     end)) as Hstep.
  { intros n rest'. cbn [decode_members]. unfold quote. cbn [app]. rewrite expect_here by done. cbn [mbind option_bind].
    rewrite <-app_assoc. cbn [app]. rewrite unquote_quote by done. rewrite bytes_of_string.
    rewrite bind_fail_if by (by apply bool_decide_eq_false). by rewrite expect_here. }
  destruct l as [|[k' w'] l].
  - cbn [map commas]. destruct (Hw ("}"%char :: rest)) as [n Hn]; [done|]. exists (S n).
    rewrite <-app_assoc. cbn [app]. rewrite Hstep, Hn. cbn [mbind result_bind]. by rewrite expect_other, expect_here.
  - destruct (IH (member_insert k (canon w) acc)) as [m Hm]; [done| |].
    { rewrite member_insert_perm by done. by rewrite <-Permutation_middle in Hnd. }
    cbn [map] in *. rewrite commas_cons, <-!app_assoc. cbn [app].
    match goal with |- context [Marshal w ++ ?r] => destruct (Hw r) as [n Hn]; [done|] end.
    exists (S (n `max` m)). rewrite Hstep.
    rewrite (proj1 (decode_mono max n) (n `max` m)%nat _ _ _ Hn) by lia. cbn [mbind result_bind].
    rewrite expect_here by done. by rewrite (proj1 (proj2 (decode_mono max m)) (n `max` m)%nat _ _ _ _ Hm) by lia.
Qed.
End printing.

Lemma commas_head (x : bytes) l rest : ∃ r, commas (x :: l) ++ rest = x ++ r.
Proof. destruct l as [|y l]; [by exists rest|]. rewrite commas_cons, <-app_assoc. by eexists. Qed.

Lemma decode_Marshal max v d rest :
  well_formed v → d + height v ≤ max → stops rest →
  ∃ n, decodeJSONValue max n d (Marshal v ++ rest) = Ok (canon v, rest).
Proof.
  revert d rest. induction v as [|b|t|s|l IH|l IH] using json_rec'; intros d rest Hwf Hh Hr.
  - exists 1%nat. cbn [Marshal bytes_of String.list_ascii_of_string app].
    by rewrite decode_token by (done || (cbn in Hh; lia)).
  - exists 1%nat. destruct b; cbn [Marshal bytes_of String.list_ascii_of_string app];
      by rewrite decode_token by (done || (cbn in Hh; lia)).
  - exists 1%nat. inversion Hwf. apply decode_number; [cbn in Hh; lia|done|done].
  - exists 1%nat. inversion Hwf. apply decode_string; [cbn in Hh; lia|done].
  - inversion Hwf as [| | | |? Hl|]; subst. pose proof (height_nonneg (JArray l)).
    cbn [Marshal app canon]. rewrite <-app_assoc. cbn [app].
    destruct (decide (l = [])) as [->|Hne].
    { exists 1%nat. cbn [map commas app decodeJSONValue]. rewrite bind_fail_if by lia.
      by rewrite expect_other, !expect_here. }
    destruct (decode_elements_Marshal max d l rest []) as [n Hn]; [|done|].
    { assert (height (JArray l) ≤ max - d) as Hle by lia. rewrite height_array_le in Hle by lia.
      rewrite Forall_forall in *. intros w Hw. split; [by apply Hl|]. intros rest' Hr'.
      specialize (Hle w Hw). apply IH; auto. lia. }
    exists (S n). cbn [decodeJSONValue]. rewrite bind_fail_if by lia. rewrite expect_other, expect_here by done.
    destruct l as [|w l]; [done|]. cbn [map] in *.
    destruct (commas_head (Marshal w) (map Marshal l) ("]"%char :: rest)) as [r Hcom].
    destruct (Marshal_head w) as (c & t & Hw & Hc & Hc1 & _); [by inversion Hl|].
    rewrite Hcom, Hw in *. cbn [app] in *. by rewrite expect_other.
  - inversion Hwf as [| | | | |? Hk Hl]; subst. pose proof (height_nonneg (JObject l)).
    cbn [Marshal app canon]. rewrite <-app_assoc. cbn [app].
    destruct (decide (l = [])) as [->|Hne].
    { exists 1%nat. cbn [map commas app decodeJSONValue]. rewrite bind_fail_if by lia. by rewrite !expect_here. }
    destruct (decode_members_Marshal max d l rest []) as [n Hn]; [|done|done|].
    { assert (height (JObject l) ≤ max - d) as Hle by lia. rewrite height_object_le in Hle by lia.
      rewrite Forall_forall in *. intros kv Hkv. destruct (Hl kv Hkv) as [Hk1 Hk2]. split; [done|]. intros rest' Hr'.
      specialize (Hle kv Hkv). apply IH; auto. lia. }
    exists (S n). cbn [decodeJSONValue]. rewrite bind_fail_if by lia. rewrite expect_here by done.
    destruct l as [|[k w] l]; [done|]. cbn [map] in *.
    match goal with |- context [commas (?x :: ?y)] => destruct (commas_head x y ("}"%char :: rest)) as [r Hcom] end.
    rewrite Hcom in *. unfold quote in *. cbn [app] in *. by rewrite expect_other.
Qed.

Lemma commas_utf8 l : Forall utf8 l → utf8 (commas l).
Proof.
  induction 1 as [|x l Hx Hl IH]; [constructor|]. destruct l as [|y l]; [done|]. rewrite commas_cons.
  apply utf8_app; [done|]. by apply (utf8_rune [","%char]).
Qed.

Lemma Marshal_utf8 v : well_formed v → utf8 (Marshal v).
Proof.
  induction v as [|b|t|s|l IH|l IH] using json_rec'; intros Hwf; cbn [Marshal].
  - apply utf8_ascii. by repeat constructor.
  - destruct b; apply utf8_ascii; by repeat constructor.
  - inversion Hwf as [| |? [p Hp]%number_literal_spec| | |]; subst. apply utf8_ascii. by eapply literal_ascii.
  - apply quote_valid.
  - inversion Hwf as [| | | |? Hl|]; subst. apply (utf8_rune ["["%char]); [done|].
    apply utf8_app; [|apply utf8_ascii; by repeat constructor]. apply commas_utf8.
    change (map Marshal l) with (Marshal <$> l). rewrite Forall_fmap. rewrite Forall_forall in *. cbn. auto.
  - inversion Hwf as [| | | | |? Hk Hl]; subst. apply (utf8_rune ["{"%char]); [done|].
    apply utf8_app; [|apply utf8_ascii; by repeat constructor]. apply commas_utf8.
    match goal with |- Forall _ (map ?f l) => change (map f l) with (f <$> l) end.
    rewrite Forall_fmap. rewrite Forall_forall in *. intros [k w] Hkw.
    apply (utf8_app (quote (bytes_of k))); [apply quote_valid|]. apply (utf8_rune [":"%char]); [done|]. apply (IH (k, w) Hkw). by destruct (Hl _ Hkw).
Qed.

(** ** [canonicalJSON] *)

Lemma parse_Marshal v max : well_formed v → height v ≤ max → parse_canonical (Marshal v) max = Ok (canon v).
Proof.
  intros Hwf Hh. unfold parse_canonical.
  rewrite bind_fail_if by (apply negb_false_iff; by apply utf8_Valid_spec, Marshal_utf8).
  destruct (decode_Marshal max v 0 [] Hwf) as [n Hn]; [lia|done|]. rewrite app_nil_r in Hn.
  apply (proj1 (decode_mono max n) (n `max` json_fuel (Marshal v))%nat) in Hn; [|lia].
  rewrite (proj1 (decode_fuel max _ (json_fuel (Marshal v))) 0 (Marshal v)) in Hn by (unfold json_fuel; lia).
  rewrite Hn. done.
Qed.

Lemma canonicalJSON_Marshal v max : well_formed v → height v ≤ max → canonicalJSON (Marshal v) max = Ok (Marshal (canon v)).
Proof. intros Hwf Hh. unfold canonicalJSON. by rewrite parse_Marshal. Qed.

Lemma parse_canonical_spec l max v : parse_canonical l max = Ok v → canonical v ∧ height v ≤ max.
Proof.
  unfold parse_canonical. intros [Hv%fail_if_ok ([w r] & Hw & [_ [= ->]]%bind_unit_ok)%bind_ok]%bind_unit_ok.
  apply negb_false_iff, utf8_Valid_spec in Hv. apply (decode_canonical max) in Hw as (? & _ & ?); [|done]. split; [done|lia].
Qed.

(** Canonical values are determined by their text. *)
Lemma Marshal_inj v w : canonical v → canonical w → Marshal v = Marshal w → v = w.
Proof.
  intros Hv Hw Heq. set (max := Z.max (height v) (height w)).
  assert (parse_canonical (Marshal v) max = Ok v) as H1.
  { rewrite parse_Marshal by (lia || by apply canonical_wf). by rewrite canon_canonical. }
  assert (parse_canonical (Marshal w) max = Ok w) as H2.
  { rewrite parse_Marshal by (lia || by apply canonical_wf). by rewrite canon_canonical. }
  rewrite Heq, H2 in H1. by simplify_eq.
Qed.

(** Canonical text is a fixed point. *)
Lemma canonicalJSON_fixed l max c : canonicalJSON l max = Ok c → canonicalJSON c max = Ok c.
Proof.
  unfold canonicalJSON at 1. destruct (parse_canonical l max) as [v|] eqn:Hv; [|done]. intros [= <-].
  apply parse_canonical_spec in Hv as [Hc Hh]. rewrite canonicalJSON_Marshal by (done || by apply canonical_wf).
  by rewrite canon_canonical.
Qed.

(** A larger depth bound accepts the same documents with the same result. *)
Lemma decode_depth_mono max max' fuel : max ≤ max' →
  (∀ d l x, decodeJSONValue max fuel d l = Ok x → decodeJSONValue max' fuel d l = Ok x) ∧
  (∀ d v l x, decode_members max fuel d v l = Ok x → decode_members max' fuel d v l = Ok x) ∧
  (∀ d v l x, decode_elements max fuel d v l = Ok x → decode_elements max' fuel d v l = Ok x).
Proof.
  intros Hmax. induction fuel as [|fuel (IHv & IHm & IHe)]; [done|]. split_and!.
  - intros d l x. cbn [decodeJSONValue]. intros [Hd%fail_if_ok H]%bind_unit_ok. rewrite bind_fail_if by lia. revert H.
    destruct (expect "{"%char l) as [l1|]; [|destruct (expect "["%char l) as [l1|]; [|done]];
      destruct (expect _ l1); auto.
  - intros d v l x. cbn [decode_members]. destruct (expect quotation_mark l) as [l1|]; [|done]. cbn [mbind option_bind].
    destruct (unquote l1) as [[k l2]|]; [|done]. destruct (fail_if _ _); [|done]. cbn [mbind result_bind].
    destruct (expect ":"%char l2) as [l3|]; [|done]. intros ([w l4] & Hw & H)%bind_ok. rewrite (IHv _ _ _ Hw).
    cbn [mbind result_bind]. revert H. destruct (expect ","%char l4); auto.
  - intros d v l x. cbn [decode_elements]. intros ([w l4] & Hw & H)%bind_ok. rewrite (IHv _ _ _ Hw).
    cbn [mbind result_bind]. revert H. destruct (expect ","%char l4); auto.
Qed.

Lemma parse_depth_mono l max max' v : max ≤ max' → parse_canonical l max = Ok v → parse_canonical l max' = Ok v.
Proof.
  unfold parse_canonical. intros Hmax [Hu ([w r] & Hw & H)%bind_ok]%bind_unit_ok. rewrite Hu. cbn [mbind result_bind].
  apply (proj1 (decode_depth_mono max max' _ Hmax)) in Hw. rewrite Hw. exact H.
Qed.

(** The canonical text of an encoded value, whenever it has one. *)
Lemma canonicalJSON_encoded v max c : well_formed v → canonicalJSON (Marshal v) max = Ok c → c = Marshal (canon v) ∧ height (canon v) ≤ max.
Proof.
  intros Hwf. unfold canonicalJSON. destruct (parse_canonical (Marshal v) max) as [w|] eqn:Hw; [|done]. intros [= <-].
  pose proof (parse_canonical_spec _ _ _ Hw) as [_ Hh]. apply (parse_depth_mono _ _ (Z.max max (height v))) in Hw; [|lia].
  rewrite parse_Marshal in Hw by (done || lia). by injection Hw as <-.
Qed.

(** The nesting of a value is below the length of its text. *)
Lemma commas_length (x : bytes) l : x ∈ l → (length x ≤ length (commas l))%nat.
Proof.
  induction l as [|y l IH]; [by intros ?%elem_of_nil|]. intros Hx. destruct l as [|z l].
  - apply list_elem_of_singleton in Hx as ->. done.
  - rewrite commas_cons, length_app. cbn [length]. apply elem_of_cons in Hx as [->|Hx]; [lia|]. specialize (IH Hx). lia.
Qed.
Lemma height_length v : height v ≤ slice_len (Marshal v).
Proof.
  unfold slice_len. induction v as [| | | |l IH|l IH] using json_rec'; try (cbn [height]; lia).
  - apply height_array_le; [lia|]. rewrite Forall_forall in *. intros w Hw. specialize (IH w Hw).
    assert (Marshal w ∈ map Marshal l) as Hin%commas_length by (apply list_elem_of_fmap; by exists w).
    cbn [Marshal length]. rewrite length_app. cbn [length]. lia.
  - apply height_object_le; [lia|]. rewrite Forall_forall in *. intros [k w] Hw. specialize (IH _ Hw). cbn [snd] in *.
    assert (quote (bytes_of k) ++ ":"%char :: Marshal w ∈ map (λ '(k, w), quote (bytes_of k) ++ ":"%char :: Marshal w) l) as Hin%commas_length.
    { apply list_elem_of_fmap. by exists (k, w). }
    cbn [Marshal length]. rewrite length_app in *. cbn [length] in *. lia.
Qed.
