(* ===== verification/Sha256.v ===== *)
(** * SHA-256

    [crypto/sha256.Sum256] (FIPS 180-4) on byte strings, and the digest text of
    [contracts/jobman/v1alpha1/codec.go].  The function is executable: the published test vectors
    and the digests of the conformance fixtures are computed. *)
From S2P Require Import Prelude Regex Names Url Utf8 Json.

(** ** Words of 32 bits *)

Definition word_mask : Z := 0xffffffff.
Definition add32 (x y : Z) : Z := Z.land (x + y) word_mask.
Definition rotr (x n : Z) : Z := Z.lor (Z.shiftr x n) (Z.land (Z.shiftl x (32 - n)) word_mask).
Definition big_sigma0 (x : Z) : Z := Z.lxor (Z.lxor (rotr x 2) (rotr x 13)) (rotr x 22).
Definition big_sigma1 (x : Z) : Z := Z.lxor (Z.lxor (rotr x 6) (rotr x 11)) (rotr x 25).
Definition small_sigma0 (x : Z) : Z := Z.lxor (Z.lxor (rotr x 7) (rotr x 18)) (Z.shiftr x 3).
Definition small_sigma1 (x : Z) : Z := Z.lxor (Z.lxor (rotr x 17) (rotr x 19)) (Z.shiftr x 10).
Definition ch (x y z : Z) : Z := Z.lxor (Z.land x y) (Z.land (Z.lxor x word_mask) z).
Definition maj (x y z : Z) : Z := Z.lxor (Z.lxor (Z.land x y) (Z.land x z)) (Z.land y z).

(** The constants of the standard are the first 32 bits of the fractional parts of the square roots of
    the first 8 primes and of the cube roots of the first 64. *)
Definition is_prime (n : Z) : bool := forallb (λ d, negb (n mod d =? 0)) (seqZ 2 (Z.sqrt n - 1)).
Definition primes (n : nat) : list Z := take n (filter (λ k, is_prime k = true) (seqZ 2 310)).
(** The integer cube root of [n], one bit at a time from bit 39 down. *)
Definition cube_root (n : Z) : Z :=
  foldl (λ r i, let s := r + 2 ^ i in if s ^ 3 <=? n then s else r) 0 (rev (seqZ 0 40)).

Definition round_constants : list Z :=
  Eval vm_compute in (λ p, Z.land (cube_root (p * 2 ^ 96)) word_mask) <$> primes 64.

Record hash := { h_a : Z; h_b : Z; h_c : Z; h_d : Z; h_e : Z; h_f : Z; h_g : Z; h_h : Z }.
Definition hash_of (l : list Z) : hash :=
  match l with
  | [a; b; c; d; e; f; g; h] => Build_hash a b c d e f g h
  | _ => Build_hash 0 0 0 0 0 0 0 0
  end.
Definition initial_hash : hash :=
  Eval vm_compute in hash_of ((λ p, Z.land (Z.sqrt (p * 2 ^ 64)) word_mask) <$> primes 8).

(** ** Compression *)

(** The sixteen words of a block extended to the message schedule, latest word first. *)
Fixpoint extend (n : nat) (w : list Z) : list Z :=
  match n with
  | O => w
  | S n =>
      let at_ i := nth i w 0 in
      extend n (add32 (add32 (small_sigma1 (at_ 1%nat)) (at_ 6%nat)) (add32 (small_sigma0 (at_ 14%nat)) (at_ 15%nat)) :: w)
  end.
Definition schedule (block : list Z) : list Z := rev (extend 48 (rev block)).

Definition compress_round (s : hash) (kw : Z * Z) : hash :=
  let t1 := add32 (add32 (h_h s) (big_sigma1 (h_e s))) (add32 (ch (h_e s) (h_f s) (h_g s)) (add32 kw.1 kw.2)) in
  let t2 := add32 (big_sigma0 (h_a s)) (maj (h_a s) (h_b s) (h_c s)) in
  Build_hash (add32 t1 t2) (h_a s) (h_b s) (h_c s) (add32 (h_d s) t1) (h_e s) (h_f s) (h_g s).

Definition compress (s : hash) (block : list Z) : hash :=
  let r := foldl compress_round s (zip round_constants (schedule block)) in
  Build_hash (add32 (h_a s) (h_a r)) (add32 (h_b s) (h_b r)) (add32 (h_c s) (h_c r)) (add32 (h_d s) (h_d r))
             (add32 (h_e s) (h_e r)) (add32 (h_f s) (h_f r)) (add32 (h_g s) (h_g r)) (add32 (h_h s) (h_h r)).

(** ** Padding and blocks *)

(** [n] bytes of [x], most significant first. *)
Fixpoint big_endian (n : nat) (x : Z) : list Z :=
  match n with O => [] | S n => Z.land (Z.shiftr x (8 * Z.of_nat n)) 255 :: big_endian n x end.

Definition pad (msg : list Z) : list Z :=
  let n := length msg in
  let zeros := ((119 - n mod 64) mod 64)%nat in
  msg ++ 128 :: replicate zeros 0 ++ big_endian 8 (8 * Z.of_nat n).

Fixpoint words (l : list Z) : list Z :=
  match l with
  | a :: b :: c :: d :: l => Z.lor (Z.lor (Z.shiftl a 24) (Z.shiftl b 16)) (Z.lor (Z.shiftl c 8) d) :: words l
  | _ => []
  end.
Fixpoint blocks (n : nat) (l : list Z) : list (list Z) :=
  match n with O => [] | S n => take 16 l :: blocks n (drop 16 l) end.

Definition Sum256 (msg : bytes) : list Z :=
  let w := words (pad (code <$> msg)) in
  let s := foldl compress initial_hash (blocks (length w / 16) w) in
  [h_a s; h_b s; h_c s; h_d s; h_e s; h_f s; h_g s; h_h s] ≫= big_endian 4.

(** ["sha256:" + hex.EncodeToString(sum[:])] *)
Definition digest (canonical : bytes) : string :=
  "sha256:" +:+ string_of (hex_encode (Sum256 canonical)).

(** ** Test vectors *)

Example sha256_empty : digest [] = "sha256:e3b0c44298fc1c149afbf4c8996fb92427ae41e4649b934ca495991b7852b855".
Proof. vm_compute. reflexivity. Qed.
Example sha256_abc :
  digest (bytes_of "abc") = "sha256:ba7816bf8f01cfea414140de5dae2223b00361a396177a9cb410ff61f20015ad".
Proof. vm_compute. reflexivity. Qed.
Example sha256_two_blocks :
  digest (bytes_of "abcdbcdecdefdefgefghfghighijhijkijkljklmklmnlmnomnopnopq") =
  "sha256:248d6a61d20638b8e5c026930c3e6039a33ce45964ff2167f6ecedd419db06c1".
Proof. vm_compute. reflexivity. Qed.

(** ** Every digest has the digest pattern *)

Lemma big_endian_bytes n x : Forall (λ b, 0 ≤ b < 256) (big_endian n x) ∧ length (big_endian n x) = n.
Proof.
  induction n as [|n [IH1 IH2]]; cbn; [by split|]. split; [|by rewrite IH2]. constructor; [|done].
  change 255 with (Z.ones 8). rewrite Z.land_ones by lia. apply Z.mod_pos_bound. lia.
Qed.

Lemma hex_digit_hex n : 0 ≤ n < 16 → is_hex (hex_digit n) = true.
Proof.
  intros Hn. assert (∃ k, (k < 16)%nat ∧ n = Z.of_nat k) as (k & Hk & ->) by (exists (Z.to_nat n); lia).
  do 16 (destruct k as [|k]; [reflexivity|]). lia.
Qed.

Lemma hex_encode_hex l : Forall (λ b, 0 ≤ b < 256) l →
  Forall (λ c, is_hex c = true) (hex_encode l) ∧ length (hex_encode l) = (2 * length l)%nat.
Proof.
  unfold hex_encode. induction 1 as [|b l Hb _ [IH1 IH2]]; [by split|]. cbn [mbind list_bind].
  rewrite Forall_app, length_app, IH2. split; [|cbn; lia]. split; [|done].
  repeat constructor; apply hex_digit_hex.
  - rewrite Z.shiftr_div_pow2 by lia. change (2 ^ 4) with 16. Z.to_euclidean_division_equations. lia.
  - change 15 with (Z.ones 4). rewrite Z.land_ones by lia. apply Z.mod_pos_bound. lia.
Qed.

Lemma digest_matches c : MatchString digestPattern (digest c) = true.
Proof.
  rewrite MatchString_correct. unfold digestPattern. rewrite matches_seq.
  destruct (hex_encode_hex (Sum256 c)) as [Hhex Hlen].
  { unfold Sum256. cbn [mbind list_bind]. rewrite !Forall_app. split_and!; try apply big_endian_bytes. constructor. }
  exists (bytes_of "sha256:"), (hex_encode (Sum256 c)). split_and!; [|by apply matches_lit|].
  - transitivity (bytes_of "sha256:" ++ bytes_of (string_of (hex_encode (Sum256 c)))); [reflexivity|].
    by rewrite string_of_bytes.
  - apply matches_rep_class. split; [|done]. rewrite Hlen. unfold Sum256. cbn [mbind list_bind].
    rewrite !length_app, !(proj2 (big_endian_bytes _ _)). cbn. lia.
Qed.
