(* ===== verification/Tokens.v ===== *)
(** * Credential tokens

    [Store.deriveToken] and [hashToken] of [internal/store/postgres/store.go], with the two encodings of
    the standard library they use: HMAC-SHA-256 (RFC 2104, [crypto/hmac]) and unpadded URL-safe base64
    ([base64.RawURLEncoding]).  A clear token is never stored: the server derives it again from the
    identifier of its row, and compares hashes. *)
From S2P Require Import Prelude Regex Names Url Utf8 Json Sha256.

(** ** [base64.RawURLEncoding] *)

Definition encodeURL : list Ascii.ascii :=
  bytes_of "ABCDEFGHIJKLMNOPQRSTUVWXYZabcdefghijklmnopqrstuvwxyz0123456789-_".
Definition url_digit (n : Z) : Ascii.ascii := nth (Z.to_nat (Z.land n 63)) encodeURL Ascii.zero.

(** Three bytes give four digits; a rest of one byte gives two, a rest of two bytes three. *)
Fixpoint EncodeToString (src : list Z) : bytes :=
  match src with
  | a :: b :: c :: src =>
      let v := Z.lor (Z.lor (Z.shiftl a 16) (Z.shiftl b 8)) c in
      url_digit (Z.shiftr v 18) :: url_digit (Z.shiftr v 12) :: url_digit (Z.shiftr v 6) :: url_digit v ::
      EncodeToString src
  | [a; b] =>
      let v := Z.lor (Z.shiftl a 16) (Z.shiftl b 8) in
      [url_digit (Z.shiftr v 18); url_digit (Z.shiftr v 12); url_digit (Z.shiftr v 6)]
  | [a] => let v := Z.shiftl a 16 in [url_digit (Z.shiftr v 18); url_digit (Z.shiftr v 12)]
  | [] => []
  end.

(** ** [crypto/hmac] with [sha256.New] *)

Definition byte_of (n : Z) : Ascii.ascii := Ascii.ascii_of_N (Z.to_N n).
Definition BlockSize : nat := 64.
Definition hmac_key (key : bytes) : list Z :=
  let key := if (BlockSize <? length key)%nat then Sum256 key else code <$> key in
  key ++ replicate (BlockSize - length key) 0.
Definition hmac_pad (mask : Z) (key : bytes) : bytes := byte_of ∘ Z.lxor mask <$> hmac_key key.
Definition hmac_Sum (key msg : bytes) : list Z :=
  Sum256 (hmac_pad 0x5c key ++ (byte_of <$> Sum256 (hmac_pad 0x36 key ++ msg))).

(** ** Tokens *)

(** [deriveToken], for the key of the store. *)
Definition deriveToken (tokenKey : bytes) (prefix identifier : string) : string :=
  prefix +:+ "_" +:+
  string_of (EncodeToString (hmac_Sum tokenKey (bytes_of prefix ++ Ascii.zero :: bytes_of identifier))).

(** [hashToken] *)
Definition hashToken (token : string) : list Z := Sum256 (bytes_of token).

(** ** Test vectors *)

(** RFC 4231, test case 2, and RFC 4648, section 10. *)
Example hmac_jefe : string_of (hex_encode (hmac_Sum (bytes_of "Jefe") (bytes_of "what do ya want for nothing?"))) =
  "5bdcc146bf60754e6a042426089575c75a003f089d2739839dec58b964ec3843".
Proof. vm_compute. reflexivity. Qed.
Example hmac_long_key : string_of (hex_encode (hmac_Sum (replicate 131 (byte_of 0xaa))
    (bytes_of "Test Using Larger Than Block-Size Key - Hash Key First"))) =
  "60e431591ee0b67f0d8a26aacbf5b77f8e0bc6213728c5140546040f0ee37f54".
Proof. vm_compute. reflexivity. Qed.
Example base64_foobar : (λ s, string_of (EncodeToString (code <$> bytes_of s))) <$> ["f"; "fo"; "foo"; "foob"; "fooba"; "foobar"] =
  ["Zg"; "Zm8"; "Zm9v"; "Zm9vYg"; "Zm9vYmE"; "Zm9vYmFy"].
Proof. vm_compute. reflexivity. Qed.

