(* ===== verification/Paths.v ===== *)
(** * Logical paths and URIs

    [validateName], [validateLogicalPath] and [validateLogicalURI] of
    [contracts/jobman/v1alpha1/validate.go], with [strings.Split] and [path.Clean] on rooted paths.
    [logical_path_spec] shows that an accepted path stays below its logical root. *)
From S2P Require Import Prelude Regex Names Url Json.

(** ** [strings.Split] and [path.Clean] *)

(** [strings.Split] on one byte, and the inverse [strings.Join]. *)
Fixpoint split_on (c : Ascii.ascii) (s : bytes) : list bytes :=
  match s with
  | [] => [[]]
  | x :: s' =>
      if bool_decide (x = c) then [] :: split_on c s'
      else match split_on c s' with
           | seg :: segs => (x :: seg) :: segs
           | [] => [[x]]
           end
  end.
Fixpoint join_with (c : Ascii.ascii) (segs : list bytes) : bytes :=
  match segs with
  | [] => []
  | [seg] => seg
  | seg :: segs => seg ++ c :: join_with c segs
  end.

Definition dot : bytes := ["."%char].
Definition dot_dot : bytes := ["."%char; "."%char].

(** One element of [path.Clean]'s lexical processing, on the elements kept so far. *)
Definition clean_step (stack : list bytes) (seg : bytes) : list bytes :=
  if bool_decide (seg = []) || bool_decide (seg = dot) then stack
  else if bool_decide (seg = dot_dot) then tail stack
  else seg :: stack.

(** [path.Clean] of a path that starts with a slash. *)
Definition Clean_rooted (s : bytes) : bytes :=
  slash :: join_with slash (rev (foldl clean_step [] (split_on slash (drop 1 s)))).

(** ** Validators *)

Definition maximumNameBytes : Z := 128.

Definition validateName (field value : string) : result unit :=
  fail_if (bool_decide (value = "")) (Errorf "%s is required" [field]);;
  fail_if (bool_decide (maximumNameBytes < len value) || negb (MatchString namePattern value))
    (Errorf "%s %q is invalid" [field; value]).

Definition bad_segment (segment : bytes) : bool :=
  bool_decide (segment = []) || bool_decide (segment = dot) || bool_decide (segment = dot_dot).

Definition validateLogicalURI (value scheme : string) : result unit :=
  let malformed := Err (Errorf "must be a %s URI without credentials, query, or fragment" [scheme]) in
  match url_Parse value with
  | None => malformed
  | Some parsed =>
      if negb (bool_decide (u_Scheme parsed = scheme)) || bool_decide (u_Host parsed = "") || u_User parsed ||
         negb (bool_decide (u_RawQuery parsed = "")) || negb (bool_decide (u_Fragment parsed = ""))
      then malformed
      else
        validateName (scheme +:+ " store") (u_Host parsed);;
        fail_if (bool_decide (u_Path parsed = "") || bool_decide (u_Path parsed = "/"))
          (Errorf "URI path is required" []);;
        for_each (λ segment, fail_if (bad_segment segment || bool_decide (Ascii.zero ∈ segment))
                               (Errorf "URI contains an invalid path segment" []))
          (split_on slash (bytes_of (trim_slash (u_Path parsed))))
  end.

Definition validateLogicalPath (value root : string) : result unit :=
  let prefix := bytes_of (root +:+ ":/") in
  fail_if (negb (has_prefix prefix (bytes_of value))) (Errorf "must use the %s logical root" [root]);;
  fail_if (contains_byte "\"%char value || contains_nul value) (Errorf "contains an invalid path character" []);;
  let remainder := drop (length prefix) (bytes_of value) in
  if bool_decide (remainder = []) then Ok tt
  else
    fail_if (negb (bool_decide (Clean_rooted (slash :: remainder) = slash :: remainder)))
      (Errorf "path is not normalized" []);;
    for_each (λ segment, fail_if (bad_segment segment) (Errorf "contains an invalid path segment" []))
      (split_on slash remainder).

(** ** Segments *)

Definition plain_segment (segment : bytes) : Prop :=
  segment ≠ [] ∧ segment ≠ dot ∧ segment ≠ dot_dot ∧
  Forall (λ c, c ≠ slash ∧ c ≠ "\"%char ∧ c ≠ Ascii.zero) segment.

Lemma bad_segment_false s : bad_segment s = false ↔ s ≠ [] ∧ s ≠ dot ∧ s ≠ dot_dot.
Proof. unfold bad_segment. rewrite !orb_false_iff, !bool_decide_eq_false. tauto. Qed.

Lemma split_on_nonempty c s : split_on c s ≠ [].
Proof. destruct s as [|x s]; cbn; [done|]. case_bool_decide; [done|]. by destruct (split_on c s). Qed.

Lemma join_split c s : join_with c (split_on c s) = s.
Proof.
  induction s as [|x s IH]; cbn; [done|]. pose proof (split_on_nonempty c s) as Hne.
  case_bool_decide as Hx; [subst x|]; destruct (split_on c s) as [|seg segs]; try done.
  - change (join_with c ([] :: seg :: segs)) with (c :: join_with c (seg :: segs)). by rewrite IH.
  - rewrite <-IH. by destruct segs.
Qed.

Lemma split_on_segments c s : Forall (Forall (λ x, x ≠ c ∧ x ∈ s)) (split_on c s).
Proof.
  induction s as [|x s IH]; cbn; [by repeat constructor|].
  assert (Forall (Forall (λ y, y ≠ c ∧ y ∈ x :: s)) (split_on c s)) as IH'.
  { eapply Forall_impl; [exact IH|]. intros seg Hseg. eapply Forall_impl; [exact Hseg|]. intros y [? ?]. split; [done|by right]. }
  case_bool_decide as Hx; [by repeat constructor|]. pose proof (split_on_nonempty c s).
  destruct (split_on c s) as [|seg segs]; [done|]. inversion IH'; subst. constructor; [|done].
  constructor; [|done]. split; [done|by left].
Qed.

Lemma split_join c segs : segs ≠ [] → Forall (Forall (λ x, x ≠ c)) segs → split_on c (join_with c segs) = segs.
Proof.
  intros Hne Hall.
  assert (∀ seg, Forall (λ x, x ≠ c) seg → split_on c seg = [seg]) as Hone.
  { induction 1 as [|x seg Hx _ IH]; cbn; [done|]. by rewrite bool_decide_false, IH. }
  assert (∀ seg l, Forall (λ x, x ≠ c) seg → split_on c (seg ++ c :: l) = seg :: split_on c l) as Hcons.
  { intros seg l. induction 1 as [|x seg Hx _ IH]; cbn; [by rewrite bool_decide_true|]. by rewrite bool_decide_false, IH. }
  induction Hall as [|seg segs Hseg Hall IH]; [done|]. destruct segs as [|seg' segs]; [by apply Hone|].
  change (join_with c (seg :: seg' :: segs)) with (seg ++ c :: join_with c (seg' :: segs)).
  rewrite Hcons by done. f_equal. by apply IH.
Qed.

(** Cleaning keeps a path of plain segments. *)
Lemma clean_plain segs stack : Forall (λ s, bad_segment s = false) segs → foldl clean_step stack segs = rev segs ++ stack.
Proof.
  intros Hall. revert stack. induction Hall as [|s segs (H1 & H2 & H3)%bad_segment_false _ IH]; intros stack; cbn; [done|].
  unfold clean_step at 2. rewrite !bool_decide_false by done. cbn. rewrite IH. by rewrite <-app_assoc.
Qed.

Lemma Clean_plain remainder : Forall (λ s, bad_segment s = false) (split_on slash remainder) →
  Clean_rooted (slash :: remainder) = slash :: remainder.
Proof.
  intros Hall. unfold Clean_rooted. cbn [drop]. rewrite drop_0. rewrite clean_plain, app_nil_r, rev_involutive, join_split; done.
Qed.

Lemma contains_byte_spec c s : contains_byte c s = true ↔ c ∈ bytes_of s.
Proof.
  induction s as [|x s IH]; cbn; [set_solver|]. rewrite orb_true_iff, bool_decide_eq_true, elem_of_cons. by rewrite IH.
Qed.

Lemma join_with_chars c segs (P : Ascii.ascii → Prop) : P c → Forall (Forall P) segs → Forall P (join_with c segs).
Proof.
  intros Hc. induction 1 as [|seg segs Hseg Hall IH]; [constructor|]. destruct segs as [|seg' segs]; [done|].
  apply Forall_app_2; [done|]. by constructor.
Qed.

Definition plain_byte (c : Ascii.ascii) : Prop := c ≠ "\"%char ∧ c ≠ Ascii.zero.

Lemma plain_bytes s : contains_byte "\"%char s || contains_nul s = false ↔ Forall plain_byte (bytes_of s).
Proof.
  unfold contains_nul. rewrite orb_false_iff, <-!not_true_iff_false, !contains_byte_spec, Forall_forall. unfold plain_byte.
  split; [intros [H1 H2] c Hc; split; congruence|]. intros H. split; intros Hin; by destruct (H _ Hin).
Qed.

Lemma bytes_of_app s t : bytes_of (s +:+ t) = bytes_of s ++ bytes_of t.
Proof. induction s as [|c s IH]; cbn; [done|]. by rewrite <-IH. Qed.

(** An accepted logical path is its root followed by plain segments. *)
Lemma logical_path_spec value root :
  Forall plain_byte (bytes_of root) →
  validateLogicalPath value root = Ok tt ↔
  ∃ segs, Forall plain_segment segs ∧ bytes_of value = bytes_of (root +:+ ":/") ++ join_with slash segs.
Proof.
  intros Hroot. unfold validateLogicalPath. rewrite bind_unit_ok, fail_if_ok, negb_false_iff.
  rewrite bind_unit_ok, fail_if_ok, plain_bytes. set (prefix := bytes_of (root +:+ ":/")).
  assert (Forall plain_byte prefix) as Hprefix.
  { unfold prefix. rewrite bytes_of_app. apply Forall_app_2; [done|]. by repeat constructor. }
  split.
  - intros (Hp%has_prefix_spec & Hv & H). set (remainder := drop (length prefix) (bytes_of value)) in *.
    case_bool_decide as Hr; [exists []; split; [constructor|]; by rewrite Hp, Hr|].
    apply bind_unit_ok in H as [_ Hseg%for_each_ok]. exists (split_on slash remainder). rewrite join_split.
    split; [|done]. rewrite Hp in Hv. apply Forall_app in Hv as [_ Hv].
    pose proof (split_on_segments slash remainder) as Hchars. rewrite Forall_forall in *. intros seg Hin.
    specialize (Hseg seg Hin). cbn in Hseg. apply fail_if_ok, bad_segment_false in Hseg as (H1 & H2 & H3).
    split_and!; [done..|]. specialize (Hchars seg Hin). rewrite Forall_forall in *. intros c Hc.
    destruct (Hchars c Hc) as [? Hcr]. by destruct (Hv c Hcr).
  - intros (segs & Hsegs & Heq). rewrite Heq, drop_app_length. split_and!; [apply has_prefix_app| |].
    + apply Forall_app_2; [done|]. apply join_with_chars; [done|]. eapply Forall_impl; [exact Hsegs|].
      intros seg (_ & _ & _ & Hc). eapply Forall_impl; [exact Hc|]. intros c (_ & ? & ?). done.
    + case_bool_decide as Hr; [done|]. assert (segs ≠ []) as Hne by (intros ->; by apply Hr).
      assert (split_on slash (join_with slash segs) = segs) as Hsplit.
      { apply split_join; [done|]. eapply Forall_impl; [exact Hsegs|]. intros seg (_ & _ & _ & Hc).
        eapply Forall_impl; [exact Hc|]. naive_solver. }
      assert (Forall (λ s, bad_segment s = false) segs) as Hgood.
      { eapply Forall_impl; [exact Hsegs|]. intros seg (? & ? & ? & _). by apply bad_segment_false. }
      rewrite Clean_plain by (by rewrite Hsplit). rewrite bind_fail_if by (apply negb_false_iff; by apply bool_decide_eq_true).
      apply for_each_ok. rewrite Hsplit. eapply Forall_impl; [exact Hgood|]. intros seg Hs. by apply fail_if_ok.
Qed.
