(* ===== verification/Duration.v ===== *)
(** * Durations

    [time.ParseDuration], as [validateDuration] of [contracts/jobman/v1alpha1/validate.go] uses it:
    unsigned 64-bit accumulation with its overflow tests, and the binary64 product that scales a
    decimal fraction, computed with the IEEE 754 model of the standard library. *)
From Stdlib Require Import SpecFloat.
From S2P Require Import Prelude Regex Names Url Utf8 Number Json.

Definition two63 : Z := 2 ^ 63.
Definition wrap_u64 (z : Z) : Z := z mod 2 ^ 64.

(** [leadingInt]: the value of the leading digits, unless it exceeds [1<<63]. *)
Fixpoint leadingInt (x : Z) (s : bytes) : option (Z * bytes) :=
  match s with
  | c :: s' =>
      if is_digit c then
        if two63 / 10 <? x then None
        else let y := x * 10 + digit_value c in if two63 <? y then None else leadingInt y s'
      else Some (x, s)
  | [] => Some (x, [])
  end.

(** [leadingFraction]: the digits read before overflow, and the power of ten that scales them. *)
Fixpoint leadingFraction (x scale : Z) (overflow : bool) (s : bytes) : Z * Z * bytes :=
  match s with
  | c :: s' =>
      if is_digit c then
        if overflow || ((two63 - 1) / 10 <? x) then leadingFraction x scale true s'
        else let y := x * 10 + digit_value c in
             if two63 <? y then leadingFraction x scale true s' else leadingFraction y (scale * 10) false s'
      else (x, scale, s)
  | [] => (x, scale, [])
  end.

(** [unitMap], in nanoseconds; the micro sign and the Greek letter mu are both accepted. *)
Definition unitMap (u : bytes) : option Z :=
  if bool_decide (u = bytes_of "ns") then Some 1
  else if bool_decide (u = bytes_of "us") then Some 1000
  else if bool_decide (u = ["194"%char; "181"%char; "s"%char]) then Some 1000
  else if bool_decide (u = ["206"%char; "188"%char; "s"%char]) then Some 1000
  else if bool_decide (u = bytes_of "ms") then Some 1000000
  else if bool_decide (u = bytes_of "s") then Some 1000000000
  else if bool_decide (u = bytes_of "m") then Some 60000000000
  else if bool_decide (u = bytes_of "h") then Some 3600000000000
  else None.

(** binary64: an integer rounded, and [uint64] of a positive float. *)
Definition float64 (z : Z) : spec_float := binary_normalize 53 1024 z 0 false.
Definition float_to_uint64 (f : spec_float) : Z :=
  match f with
  | S754_finite false m e => if 0 <=? e then Z.pos m * 2 ^ e else Z.pos m / 2 ^ (- e)
  | _ => 0
  end.

(** [uint64(float64(f) * (float64(unit) / scale))]; [scale] is a power of ten that binary64 holds exactly. *)
Definition scaled_fraction (f unit scale : Z) : Z :=
  float_to_uint64 (SFmul 53 1024 (float64 f) (SFdiv 53 1024 (float64 unit) (float64 scale))).

Definition is_unit_end (c : Ascii.ascii) : bool := bool_decide (c = "."%char) || is_digit c.

(** One iteration of the loop: a number with its unit is added to [d]. *)
Definition duration_step (d : Z) (s : bytes) : option (Z * bytes) :=
  match s with
  | [] => None
  | c :: _ =>
      if negb (is_unit_end c) then None
      else
        '(v, s1) ← leadingInt 0 s;
        let pre := negb (bool_decide (length s1 = length s)) in
        let '(f, scale, s2, post) :=
          match s1 with
          | p :: s1' =>
              if bool_decide (p = "."%char) then
                let '(f, scale, s2) := leadingFraction 0 1 false s1' in
                (f, scale, s2, negb (bool_decide (length s2 = length s1')))
              else (0, 1, s1, false)
          | [] => (0, 1, s1, false)
          end in
        if negb pre && negb post then None
        else
          let '(u, s3) := span (λ c, negb (is_unit_end c)) s2 in
          if bool_decide (u = []) then None
          else
            unit ← unitMap u;
            if two63 / unit <? v then None
            else
              let v := v * unit in
              let v := if 0 <? f then v + scaled_fraction f unit scale else v in
              if two63 <? v then None
              else let d := wrap_u64 (d + v) in if two63 <? d then None else Some (d, s3)
  end.

(** Every iteration consumes input, so its length is enough fuel. *)
Fixpoint duration_loop (fuel : nat) (d : Z) (s : bytes) : option Z :=
  match s, fuel with
  | [], _ => Some d
  | _, O => None
  | _, S fuel => '(d, s) ← duration_step d s; duration_loop fuel d s
  end.

Definition ParseDuration (value : string) : option Z :=
  let '(sign, s) := scan_sign ["-"%char; "+"%char] (bytes_of value) in
  if bool_decide (s = ["0"%char]) then Some 0
  else if bool_decide (s = []) then None
  else
    d ← duration_loop (length s) 0 s;
    if bool_decide (sign = ["-"%char]) then Some (wrap64 (- d))
    else if two63 - 1 <? d then None else Some d.

Definition validateDuration (field value : string) : result unit :=
  match ParseDuration value with
  | Some duration => fail_if (duration <=? 0) (Errorf "%s must be a positive Go duration" [field])
  | None => Err (Errorf "%s must be a positive Go duration" [field])
  end.

Example ParseDuration_compound : ParseDuration "2h15m" = Some 8100000000000.
Proof. vm_compute. reflexivity. Qed.
Example ParseDuration_fraction : ParseDuration "-1.5h" = Some (-5400000000000).
Proof. vm_compute. reflexivity. Qed.
Example ParseDuration_rounding : ParseDuration "0.3333333333333333333h" = Some 1200000000000.
Proof. vm_compute. reflexivity. Qed.
Example ParseDuration_bare : ParseDuration "10" = None.
Proof. vm_compute. reflexivity. Qed.

(** ** The loop terminates and stays within 64 bits *)

Lemma leadingInt_spec x s v r : leadingInt x s = Some (v, r) → (length r ≤ length s)%nat ∧ (0 ≤ x ≤ two63 → 0 ≤ v ≤ two63).
Proof.
  revert x. induction s as [|c s IH]; intros x; cbn [leadingInt]; [intros [= <- <-]; cbn; lia|].
  destruct (is_digit c) eqn:Hc; [|intros [= <- <-]; cbn; lia]. destruct (two63 / 10 <? x); [done|].
  destruct (two63 <? _) eqn:Hy; [done|]. intros [Hr Hv]%IH. cbn. split; [lia|]. intros Hx. apply Hv.
  apply digit_value_range in Hc. lia.
Qed.
Lemma leadingFraction_length x scale o s f k r : leadingFraction x scale o s = (f, k, r) → (length r ≤ length s)%nat.
Proof.
  revert x scale o. induction s as [|c s IH]; intros x scale o; cbn [leadingFraction]; [intros [= _ _ <-]; cbn; lia|].
  destruct (is_digit c); [|intros [= _ _ <-]; cbn; lia].
  destruct (o || _); [|destruct (two63 <? _)]; intros Hr%IH; cbn; lia.
Qed.

Lemma duration_step_length d s d' r : duration_step d s = Some (d', r) → (length r < length s)%nat.
Proof.
  destruct s as [|c s]; [done|]. unfold duration_step. destruct (negb (is_unit_end c)); [done|].
  intros ([v s1] & [H1 _]%leadingInt_spec & H)%bind_Some. revert H.
  assert (∀ pre f scale s2 post, (length s2 ≤ length s1)%nat →
    (if negb pre && negb post then None else
     let '(u, s3) := span (λ c, negb (is_unit_end c)) s2 in
     if bool_decide (u = []) then None else
     unit ← unitMap u;
     if two63 / unit <? v then None else
     let v := v * unit in
     let v := if 0 <? f then v + scaled_fraction f unit scale else v in
     if two63 <? v then None else let d := wrap_u64 (d + v) in if two63 <? d then None else Some (d, s3)) = Some (d', r) →
    (length r < length (c :: s))%nat) as Hbody.
  { intros pre f scale s2 post Hs2. destruct (_ && _); [done|].
    destruct (span_spec (λ c, negb (is_unit_end c)) s2) as (u & s3 & -> & -> & _). case_bool_decide as Hu; [done|].
    intros (unit & _ & H)%bind_Some. revert H. destruct (_ <? v); [done|]. cbv zeta.
    destruct (_ <? _); [done|]. destruct (_ <? _); [done|]. intros [= _ <-]. rewrite length_app in Hs2.
    destruct u; [done|]. cbn in *. lia. }
  destruct s1 as [|p s1]; [by apply Hbody|]. destruct (bool_decide (p = _)); [|by apply Hbody].
  destruct (leadingFraction 0 1 false s1) as [[f scale] s2] eqn:Hf. apply leadingFraction_length in Hf.
  apply Hbody. cbn. lia.
Qed.

(** The length of the input is enough fuel: more does not change the result. *)
Lemma duration_loop_fuel n m d s : (length s ≤ n)%nat → (length s ≤ m)%nat → duration_loop n d s = duration_loop m d s.
Proof.
  revert m d s. induction n as [|n IH]; intros m d s Hn Hm.
  - destruct s; [by destruct m|cbn in Hn; lia].
  - destruct s as [|c s]; [by destruct m|]. destruct m as [|m]; [cbn in Hm; lia|]. cbn [duration_loop].
    destruct (duration_step d (c :: s)) as [[d' r]|] eqn:Hs; [|done]. apply duration_step_length in Hs. cbn in *.
    apply IH; lia.
Qed.

Lemma duration_step_range d s d' r : duration_step d s = Some (d', r) → 0 ≤ d' ≤ two63.
Proof.
  assert (∀ x, (two63 <? wrap_u64 x) = false → 0 ≤ wrap_u64 x ≤ two63) as Hrange.
  { intros x Hx. split; [by apply Z.mod_pos_bound|lia]. }
  destruct s as [|c s]; [done|]. unfold duration_step. intros H.
  repeat match type of H with
  | (if ?b then _ else _) = _ => destruct b eqn:?; [try done|]
  | (if ?b then _ else _) = _ => destruct b eqn:?; [|try done]
  | (_ ≫= _) = Some _ => apply bind_Some in H as (? & ? & H)
  | (let '(_, _) := ?x in _) = _ => destruct x as [? ?]
  | context [let pre := _ in _] => cbv zeta in H
  end; try (simplify_eq; by apply Hrange).
Qed.

Lemma duration_loop_range n d s d' : 0 ≤ d ≤ two63 → duration_loop n d s = Some d' → 0 ≤ d' ≤ two63.
Proof.
  revert d s. induction n as [|n IH]; intros d [|c s] Hd; cbn [duration_loop]; try (by intros [= <-]).
  intros ([d2 r] & Hs%duration_step_range & H)%bind_Some. by apply IH in H.
Qed.

(** A parsed duration is an [int64] number of nanoseconds. *)
Lemma ParseDuration_range value d : ParseDuration value = Some d → int64_range d.
Proof.
  unfold ParseDuration, int64_range. destruct (scan_sign _ _) as [sign s].
  case_bool_decide; [intros [= <-]; split; vm_compute; congruence|]. case_bool_decide; [done|].
  intros (d' & Hd%duration_loop_range & Hout)%bind_Some; [|vm_compute; split; congruence].
  revert Hout. unfold two63, min_int64, max_int64 in *. case_bool_decide.
  - intros [= <-]. unfold wrap64. pose proof (Z.mod_pos_bound (- d' + 2 ^ 63) (2 ^ 64) ltac:(lia)). lia.
  - destruct (_ <? d') eqn:Hlt; [done|]. intros [= <-]. lia.
Qed.

Lemma validateDuration_ok field value :
  validateDuration field value = Ok tt ↔ ∃ d, ParseDuration value = Some d ∧ 0 < d ≤ max_int64.
Proof.
  unfold validateDuration. destruct (ParseDuration value) as [d|] eqn:Hd; [|naive_solver].
  apply ParseDuration_range in Hd. unfold int64_range in Hd. rewrite fail_if_ok. split.
  - intros H. exists d. split; [done|lia].
  - intros (d' & [= ->] & ?). lia.
Qed.
