(* ===== verification/Validate.v ===== *)
(** * Workload validation

    The validators of [contracts/jobman/v1alpha1/validate.go] for the parts of a workload:
    metadata, command, environment, resources, runtime, artifacts, policy, requirements and
    extensions.  Go iterates over maps in no particular order; the model takes the order of
    [map_to_list], which decides only which of several errors is reported. *)
From S2P Require Import Prelude Regex Names Url Kahn Graph Contract Json Paths Duration.

(** ** Limits *)

Definition maximumDescriptionBytes : Z := 4096.
Definition maximumCommandArgs : Z := 4096.
Definition maximumArgumentBytes : Z := 64 * 1024.
Definition maximumScriptBytes : Z := 1024 * 1024.
Definition maximumMapEntries : Z := 1024.
Definition maximumArtifacts : Z := 4096.
Definition maximumRuns : Z := 10000.
Definition maximumCollectionItems : Z := 10000.
Definition maximumGraphNodes : Z := 10000.
Definition maximumGraphEdges : Z := 100000.
Definition slurmBackend := "slurm".
Definition defaultMaximumJSONDepth : Z := 32.

Definition map_len {A} (m : gmap string A) : Z := Z.of_nat (size m).
Definition is_nil {A} (o : option A) : bool := match o with None => true | Some _ => false end.

(** [if p != nil { if err := validate( *p); err != nil { return err } }] *)
Definition validate_optional {A} (validate : A → result unit) (o : option A) : result unit :=
  match o with None => Ok tt | Some a => validate a end.

(** [if s != "" { if err := validate(s); err != nil { return err } }] *)
Definition validate_nonempty (validate : string → result unit) (s : string) : result unit :=
  if bool_decide (s = "") then Ok tt else validate s.

(** ** Maps and metadata *)

Definition validateStringMap (name : string) (values : gmap string string) (maximumValueBytes : Z) : result unit :=
  fail_if (bool_decide (maximumMapEntries < map_len values)) (Errorf "%s has too many entries" [name]);;
  for_each (λ '(key, value),
    validateName (name +:+ " key") key;;
    fail_if (bool_decide (maximumValueBytes < len value) || contains_nul value)
      (Errorf "%s value for %q is invalid" [name; key]))
    (map_to_list values).

Definition validateWorkloadMetadata (value : WorkloadMetadata) : result unit :=
  validate_nonempty (λ name, wrap "validate workload: metadata: %w" [] (validateName "name" name)) (wm_Name value);;
  fail_if (bool_decide (maximumDescriptionBytes < len (wm_Description value)) || contains_nul (wm_Description value))
    (Errorf "validate workload: metadata: invalid description" []);;
  wrap "validate workload: metadata: %w" [] (validateStringMap "labels" (wm_Labels value) maximumNameBytes);;
  wrap "validate workload: metadata: %w" [] (validateStringMap "annotations" (wm_Annotations value) maximumArgumentBytes).

(** ** Commands *)

Definition validateCommand (value : Command) : result unit :=
  let direct := negb (bool_decide (c_Executable value = "")) in
  fail_if (Bool.eqb direct (negb (is_nil (c_Shell value))))
    (Errorf "validate workload: command must select exactly one of executable or shell" []);;
  fail_if (bool_decide (maximumCommandArgs < slice_len (c_Args value)))
    (Errorf "validate workload: command has more than %d arguments" []);;
  for_each (λ argument, fail_if (bool_decide (maximumArgumentBytes < len argument) || contains_nul argument)
                          (Errorf "validate workload: command argument %d is invalid" []))
    (c_Args value);;
  match c_Shell value with
  | None =>
      fail_if (bool_decide (maximumArgumentBytes < len (c_Executable value)) || contains_nul (c_Executable value))
        (Errorf "validate workload: executable is invalid" [])
  | Some shell =>
      fail_if (negb (bool_decide (slice_len (c_Args value) = 0)))
        (Errorf "validate workload: shell command cannot contain direct arguments" []);;
      wrap "validate workload: command: %w" [] (validateName "shell capability" (sc_Capability shell));;
      fail_if (bool_decide (sc_Script shell = "") || bool_decide (maximumScriptBytes < len (sc_Script shell)) ||
               contains_nul (sc_Script shell))
        (Errorf "validate workload: shell script is invalid" [])
  end.

(** ** Environments *)

Definition validateEnvironmentValues (values : gmap string string) : result unit :=
  fail_if (bool_decide (maximumMapEntries < map_len values)) (Errorf "validate workload: environment has too many values" []);;
  for_each (λ '(name, content),
    fail_if (negb (MatchString environmentPattern name) || bool_decide (maximumNameBytes < len name))
      (Errorf "validate workload: invalid environment name %q" [name]);;
    fail_if (bool_decide (maximumArgumentBytes < len content) || contains_nul content)
      (Errorf "validate workload: invalid environment value for %q" [name]))
    (map_to_list values).

Definition validateSecretBinding (secret : SecretBinding) : result unit :=
  wrap "validate workload: environment: %w" [] (validateName "secret name" (sb_Name secret));;
  wrap "validate workload: secret %q source: %w" [sb_Name secret] (validateLogicalURI (sb_Source secret) "secret");;
  let environmentExposure := negb (bool_decide (se_Environment (sb_ExposeAs secret) = "")) in
  let fileExposure := negb (bool_decide (se_File (sb_ExposeAs secret) = "")) in
  fail_if (Bool.eqb environmentExposure fileExposure)
    (Errorf "validate workload: secret %q must select one exposure" [sb_Name secret]);;
  fail_if (environmentExposure && negb (MatchString environmentPattern (se_Environment (sb_ExposeAs secret))))
    (Errorf "validate workload: secret %q has invalid environment exposure" [sb_Name secret]);;
  if negb fileExposure then Ok tt
  else wrap "validate workload: secret %q file exposure: %w" [sb_Name secret]
         (validateLogicalPath (se_File (sb_ExposeAs secret)) "workspace").

Definition validateSecretBindings (secrets : list SecretBinding) : result unit :=
  fail_if (bool_decide (maximumMapEntries < slice_len secrets)) (Errorf "validate workload: environment has too many secrets" []);;
  for_range (λ (seen : gset string) secret,
    fail_if (bool_decide (sb_Name secret ∈ seen)) (Errorf "validate workload: duplicate secret %q" [sb_Name secret]);;
    validateSecretBinding secret;;
    Ok ({[sb_Name secret]} ∪ seen)) ∅ secrets;;
  Ok tt.

Definition validateEnvironment (value : Environment) : result unit :=
  validate_nonempty (λ p, wrap "validate workload: environment: %w" [] (validateName "environment profile" p)) (env_Profile value);;
  validateEnvironmentValues (env_Values value);;
  validateSecretBindings (env_Secrets value).

(** ** Resources and runtime *)

Definition validateResources (value : Resources) : result unit :=
  fail_if (bool_decide (res_CPU value < 0) || bool_decide (res_GPU value < 0) || bool_decide (res_Nodes value < 0) ||
           bool_decide (res_Tasks value < 0)) (Errorf "validate workload: resources cannot be negative" []);;
  validate_nonempty (λ q, fail_if (negb (MatchString quantityPattern q))
                            (Errorf "validate workload: invalid memory quantity" [])) (res_Memory value);;
  validate_nonempty (λ q, fail_if (negb (MatchString quantityPattern q))
                            (Errorf "validate workload: invalid temporary storage quantity" [])) (res_TemporaryStorage value);;
  validate_nonempty (λ d, wrap "validate workload: resources: %w" [] (validateDuration "wall time" d)) (res_WallTime value).

Definition validateRuntime (value : Runtime) : result unit :=
  if bool_decide (rt_Kind value = "native") then
    fail_if (negb (is_nil (rt_Container value))) (Errorf "validate workload: native runtime cannot contain container settings" [])
  else if bool_decide (rt_Kind value = "container") then
    match rt_Container value with
    | None => Err (Errorf "validate workload: container runtime settings are required" [])
    | Some container =>
        fail_if (bool_decide (cr_Image container = "") || bool_decide (maximumArgumentBytes < len (cr_Image container)) ||
                 contains_nul (cr_Image container)) (Errorf "validate workload: invalid container image" []);;
        fail_if (negb (slices_Contains ["always"; "if-not-present"; "never"] (cr_PullPolicy container)))
          (Errorf "validate workload: invalid container pull policy" []);;
        fail_if (negb (slices_Contains ["host"; "none"; "restricted"] (cr_Network container)))
          (Errorf "validate workload: invalid container network policy" [])
    end
  else Err (Errorf "validate workload: unsupported runtime kind %q" [rt_Kind value]).

(** ** Artifacts *)

Definition claimArtifactName (seen : gset string) (name kind : string) : result (gset string) :=
  wrap "validate workload: artifacts: %w" [] (validateName (kind +:+ " artifact name") name);;
  fail_if (bool_decide (name ∈ seen)) (Errorf "validate workload: duplicate artifact name %q" [name]);;
  Ok ({[name]} ∪ seen).

Definition validateInputArtifact (input : InputArtifact) : result unit :=
  wrap "validate workload: input %q source: %w" [ia_Name input] (validateLogicalURI (ia_Source input) "artifact");;
  wrap "validate workload: input %q target: %w" [ia_Name input] (validateLogicalPath (ia_Target input) "inputs");;
  fail_if (negb (bool_decide (ia_Checksum input = "")) && negb (MatchString digestPattern (ia_Checksum input)))
    (Errorf "validate workload: input %q checksum is invalid" [ia_Name input]).

Definition validateOutputArtifact (output : OutputArtifact) : result unit :=
  wrap "validate workload: output %q source: %w" [oa_Name output] (validateLogicalPath (oa_Source output) "outputs");;
  wrap "validate workload: output %q destination: %w" [oa_Name output] (validateLogicalURI (oa_Destination output) "artifact").

Definition validateArtifacts (value : Artifacts) : result unit :=
  fail_if (bool_decide (maximumArtifacts < slice_len (art_Inputs value)) ||
           bool_decide (maximumArtifacts - slice_len (art_Inputs value) < slice_len (art_Outputs value)))
    (Errorf "validate workload: too many artifacts" []);;
  seen ← for_range (λ seen input,
    seen ← claimArtifactName seen (ia_Name input) "input";
    validateInputArtifact input;;
    Ok seen) ∅ (art_Inputs value);
  for_range (λ seen output,
    seen ← claimArtifactName seen (oa_Name output) "output";
    validateOutputArtifact output;;
    Ok seen) seen (art_Outputs value);;
  Ok tt.

(** ** Policy and requirements *)

Definition validatePolicy (value : ExecutionPolicy) : result unit :=
  validate_nonempty (λ d, wrap "validate workload: policy: %w" [] (validateDuration "run timeout" d)) (ep_RunTimeout value);;
  fail_if (bool_decide (rp_MaxRuns (ep_Retry value) < 1) || bool_decide (maximumRuns < rp_MaxRuns (ep_Retry value)))
    (Errorf "validate workload: retry max runs must be between 1 and %d" []);;
  validate_nonempty (λ d, wrap "validate workload: policy: %w" [] (validateDuration "retry backoff" d)) (rp_Backoff (ep_Retry value));;
  fail_if (negb (slices_Contains ["allow-if-idempotent"; "reject"] (ep_DuplicateRisk value)))
    (Errorf "validate workload: invalid duplicate-risk policy" []).

(** [hasDuplicate]: two equal neighbours. *)
Fixpoint hasDuplicate (values : list string) : bool :=
  match values with
  | x :: ((y :: _) as values') => bool_decide (y = x) || hasDuplicate values'
  | _ => false
  end.

Definition validateRequirements (value : Requirements) : result unit :=
  for_each (λ '(name, values),
    fail_if (bool_decide (maximumMapEntries < slice_len values)) (Errorf "validate workload: too many %s" [name]);;
    fail_if (negb (slices_IsSorted values) || hasDuplicate values)
      (Errorf "validate workload: %s must be sorted and unique" [name]);;
    for_each (λ item, wrap "validate workload: requirements: %w" [] (validateName name item)) values)
    [("operating systems", req_OperatingSystems value);
     ("architectures", req_Architectures value);
     ("capabilities", req_Capabilities value)].

(** ** Extensions *)

(** A number that [json.Unmarshal] decodes into a [float64] of type [any]: its magnitude is below
    the half-way point between the largest float and the next power of two. *)
Definition float64_limit : Z := 2 ^ 1024 - 2 ^ 970.
Definition fits_float64 (t : bytes) : bool :=
  match Number.number_value t with
  | None => false
  | Some (c, e) => if 0 <=? e then Z.abs c * 10 ^ e <? float64_limit else Z.abs c <? float64_limit * 10 ^ (- e)
  end.
Fixpoint numbers_fit (v : json) : bool :=
  match v with
  | JNumber t => fits_float64 t
  | JArray l => forallb numbers_fit l
  | JObject l => forallb (λ '(_, w), numbers_fit w) l
  | _ => true
  end.

Definition validateExtension (name raw : string) : result unit :=
  wrap "validate workload: %w" [] (validateName "extension" name);;
  value ← wrap "validate workload: extension %q: %w" [name] (parse_canonical (bytes_of raw) defaultMaximumJSONDepth);
  fail_if (negb (bool_decide (Marshal value = bytes_of raw))) (Errorf "validate workload: extension %q is not canonical" [name]);;
  fail_if (negb (match value with JObject _ => numbers_fit value | _ => false end))
    (Errorf "validate workload: extension %q must be an object" [name]).

Definition validateExtensions (value : gmap string string) : result unit :=
  fail_if (bool_decide (maximumMapEntries < map_len value)) (Errorf "validate workload: too many extensions" []);;
  for_each (λ '(name, raw), validateExtension name raw) (map_to_list value).

(** ** Workloads *)

Definition ValidateWorkload (value : Workload) : result unit :=
  let spec := w_Spec value in
  fail_if (negb (bool_decide (w_APIVersion value = V1Alpha1)))
    (Errorf "validate workload: unsupported API version %q" [w_APIVersion value]);;
  fail_if (negb (bool_decide (w_Kind value = WorkloadKind))) (Errorf "validate workload: kind is %q" [w_Kind value]);;
  validateWorkloadMetadata (w_Metadata value);;
  validateCommand (ws_Command spec);;
  wrap "validate workload: working directory: %w" [] (validateLogicalPath (ws_WorkingDirectory spec) "workspace");;
  validate_optional validateEnvironment (ws_Environment spec);;
  validate_optional validateResources (ws_Resources spec);;
  validateRuntime (ws_Runtime spec);;
  validate_optional validateArtifacts (ws_Artifacts spec);;
  validatePolicy (ws_Policy spec);;
  validate_optional validateRequirements (ws_Requirements spec);;
  validateExtensions (ws_Extensions spec).
