(* ===== verification/Clone.v ===== *)
(** * [cloneJSON]

    [cloneJSON] of [contracts/jobman/v1alpha1/codec.go] encodes a document and decodes it again.
    Fields keep their values, except that the encoder replaces every invalid byte of a string by
    U+FFFD.  The class [Clone] gives the effect on each type of [types.go]; [clone_clone] shows that
    cloning is idempotent.  The text of an extension is left alone: re-encoding only changes
    spelling that [normalizeExtensions] removes right after. *)
From S2P Require Import Prelude Regex Names Url Utf8 Kahn Graph Contract Json.

Class Clone (A : Type) := clone : A → A.
#[global] Arguments clone {A _} _ : simpl never.
Class CloneLaws (A : Type) `{Clone A} := clone_clone : ∀ a : A, clone (clone a) = clone a.

(** ** Strings *)

Definition clone_chunk (c : chunk) : bytes := match c with Rune r => r | Bad _ => replacement end.
Definition valid_text (s : bytes) : bytes := runes s ≫= clone_chunk.
#[export] Instance clone_string : Clone string := λ s, string_of (valid_text (bytes_of s)).

Lemma valid_text_utf8 s : utf8 (valid_text s).
Proof.
  induction s as [s IH] using (induction_ltof1 _ length). unfold ltof in IH. unfold valid_text.
  destruct (runes_step s) as [->|[(r & t & -> & Hr & ->)|(a & t & -> & _ & ->)]]; cbn [mbind list_bind]; [constructor| |].
  - apply utf8_rune; [done|]. apply IH. apply rune_nonempty in Hr. rewrite length_app. destruct r; cbn; [done|lia].
  - apply utf8_rune; [done|]. apply IH. cbn. lia.
Qed.
Lemma valid_text_id s : utf8 s → valid_text s = s.
Proof. unfold valid_text. induction 1 as [|r s Hr _ IH]; [done|]. rewrite runes_rune by done. cbn [mbind list_bind clone_chunk]. by rewrite IH. Qed.

Lemma clone_string_utf8 (s : string) : utf8_string (clone s).
Proof. unfold utf8_string, clone, clone_string. rewrite string_of_bytes. apply valid_text_utf8. Qed.
Lemma clone_string_id (s : string) : utf8_string s → clone s = s.
Proof. intros Hs. unfold clone, clone_string. by rewrite valid_text_id, bytes_of_string. Qed.

(** A clone without replacement characters is the original. *)
Lemma clone_string_ascii (s : string) :
  Forall (λ c, rune1 c = true) (bytes_of (clone s)) → clone s = s.
Proof.
  unfold clone, clone_string. rewrite string_of_bytes. intros Ha. rewrite <-(bytes_of_string s) at 2. f_equal.
  generalize dependent (bytes_of s). intros l. unfold valid_text.
  induction l as [l IH] using (induction_ltof1 _ length). unfold ltof in IH.
  destruct (runes_step l) as [->|[(r & t & -> & Hr & ->)|(a & t & -> & _ & ->)]]; cbn [mbind list_bind clone_chunk]; [done| |].
  - intros [_ Ht]%Forall_app. f_equal. apply IH; [|done]. apply rune_nonempty in Hr. rewrite length_app. destruct r; cbn; [done|lia].
  - intros [Hb _]%Forall_app. exfalso. vm_compute in Hb. by inversion Hb.
Qed.

#[export] Instance clone_string_laws : CloneLaws string.
Proof. intros s. apply clone_string_id, clone_string_utf8. Qed.

(** ** Other basic types *)

#[export] Instance clone_Z : Clone Z := λ z, z.
#[export] Instance clone_Z_laws : CloneLaws Z.
Proof. done. Qed.
#[export] Instance clone_bool : Clone bool := λ b, b.
#[export] Instance clone_bool_laws : CloneLaws bool.
Proof. done. Qed.
#[export] Instance clone_list {A} `{Clone A} : Clone (list A) := fmap clone.
#[export] Instance clone_list_laws {A} `{CloneLaws A} : CloneLaws (list A).
Proof. intros l. unfold clone, clone_list. rewrite <-list_fmap_compose. apply list_fmap_ext. intros _ a _. apply clone_clone. Qed.
#[export] Instance clone_option {A} `{Clone A} : Clone (option A) := fmap clone.
#[export] Instance clone_option_laws {A} `{CloneLaws A} : CloneLaws (option A).
Proof. intros [a|]; [|done]. unfold clone at 1 2 3, clone_option. cbn. by rewrite clone_clone. Qed.

(** A map: keys and values are strings.  Two keys that become equal contain a replacement
    character, which no validator of a key accepts. *)
Definition clone_map_with {A} (f : A → A) (m : gmap string A) : gmap string A :=
  list_to_map ((λ '(k, v), (clone k, f v)) <$> map_to_list m).
#[export] Instance clone_map : Clone (gmap string string) := clone_map_with clone.

Lemma list_to_map_keys {A} (P : string → Prop) (Q : A → Prop) (l : list (string * A)) k v :
  Forall (λ kv, P kv.1 ∧ Q kv.2) l → (list_to_map l : gmap string A) !! k = Some v → P k ∧ Q v.
Proof. intros Hl Hk%elem_of_list_to_map_2. rewrite Forall_forall in Hl. by specialize (Hl _ Hk). Qed.

Lemma clone_map_with_id {A} (f : A → A) (m : gmap string A) :
  (∀ k v, m !! k = Some v → clone k = k ∧ f v = v) → clone_map_with f m = m.
Proof.
  intros Hm. unfold clone_map_with. rewrite <-(list_to_map_to_list m) at 2. f_equal.
  rewrite <-(list_fmap_id (map_to_list m)) at 2. apply list_fmap_ext. intros i [k v] Hi.
  apply list_elem_of_lookup_2, elem_of_map_to_list in Hi. destruct (Hm k v Hi) as [-> ->]. done.
Qed.
Lemma clone_map_with_spec {A} (f : A → A) (m : gmap string A) k v :
  clone_map_with f m !! k = Some v → utf8_string k ∧ ∃ k' v', m !! k' = Some v' ∧ k = clone k' ∧ v = f v'.
Proof.
  intros Hk%elem_of_list_to_map_2%list_elem_of_fmap_1. destruct Hk as ([k' v'] & [= -> ->] & Hin%elem_of_map_to_list).
  split; [apply clone_string_utf8|by exists k', v'].
Qed.
#[export] Instance clone_map_laws : CloneLaws (gmap string string).
Proof.
  intros m. apply clone_map_with_id. intros k v (Hk & k' & v' & _ & _ & ->)%clone_map_with_spec.
  split; [by apply clone_string_id|apply clone_clone].
Qed.

(** ** Documents *)

Definition clone_extensions (m : gmap string string) : gmap string string := clone_map_with id m.

Lemma clone_extensions_idem m : clone_extensions (clone_extensions m) = clone_extensions m.
Proof.
  apply clone_map_with_id. intros k v (Hk & _)%clone_map_with_spec. split; [by apply clone_string_id|done].
Qed.

(** Cloning field by field. *)
Ltac clone_record inst :=
  intros []; match goal with |- clone (clone ?v) = _ => change (inst (inst v) = inst v) end;
  unfold inst; cbn; f_equal; (apply clone_extensions_idem || apply clone_clone).

#[export] Instance clone_WorkloadMetadata : Clone WorkloadMetadata := λ v,
  {| wm_Name := clone (wm_Name v); wm_Description := clone (wm_Description v); wm_Labels := clone
     (wm_Labels v); wm_Annotations := clone (wm_Annotations v) |}.
#[export] Instance clone_WorkloadMetadata_laws : CloneLaws WorkloadMetadata.
Proof. clone_record clone_WorkloadMetadata. Qed.
#[export] Instance clone_ShellCommand : Clone ShellCommand := λ v,
  {| sc_Capability := clone (sc_Capability v); sc_Script := clone (sc_Script v) |}.
#[export] Instance clone_ShellCommand_laws : CloneLaws ShellCommand.
Proof. clone_record clone_ShellCommand. Qed.
#[export] Instance clone_Command : Clone Command := λ v,
  {| c_Executable := clone (c_Executable v); c_Args := clone (c_Args v); c_Shell := clone (c_Shell
     v) |}.
#[export] Instance clone_Command_laws : CloneLaws Command.
Proof. clone_record clone_Command. Qed.
#[export] Instance clone_SecretExposure : Clone SecretExposure := λ v,
  {| se_Environment := clone (se_Environment v); se_File := clone (se_File v) |}.
#[export] Instance clone_SecretExposure_laws : CloneLaws SecretExposure.
Proof. clone_record clone_SecretExposure. Qed.
#[export] Instance clone_SecretBinding : Clone SecretBinding := λ v,
  {| sb_Name := clone (sb_Name v); sb_Source := clone (sb_Source v); sb_ExposeAs := clone
     (sb_ExposeAs v) |}.
#[export] Instance clone_SecretBinding_laws : CloneLaws SecretBinding.
Proof. clone_record clone_SecretBinding. Qed.
#[export] Instance clone_Environment : Clone Environment := λ v,
  {| env_Profile := clone (env_Profile v); env_Values := clone (env_Values v); env_Secrets := clone
     (env_Secrets v) |}.
#[export] Instance clone_Environment_laws : CloneLaws Environment.
Proof. clone_record clone_Environment. Qed.
#[export] Instance clone_Resources : Clone Resources := λ v,
  {| res_CPU := clone (res_CPU v); res_Memory := clone (res_Memory v); res_GPU := clone (res_GPU v);
     res_Nodes := clone (res_Nodes v); res_Tasks := clone (res_Tasks v); res_TemporaryStorage :=
     clone (res_TemporaryStorage v); res_WallTime := clone (res_WallTime v) |}.
#[export] Instance clone_Resources_laws : CloneLaws Resources.
Proof. clone_record clone_Resources. Qed.
#[export] Instance clone_ContainerRuntime : Clone ContainerRuntime := λ v,
  {| cr_Image := clone (cr_Image v); cr_PullPolicy := clone (cr_PullPolicy v); cr_Network := clone
     (cr_Network v) |}.
#[export] Instance clone_ContainerRuntime_laws : CloneLaws ContainerRuntime.
Proof. clone_record clone_ContainerRuntime. Qed.
#[export] Instance clone_Runtime : Clone Runtime := λ v,
  {| rt_Kind := clone (rt_Kind v); rt_Container := clone (rt_Container v) |}.
#[export] Instance clone_Runtime_laws : CloneLaws Runtime.
Proof. clone_record clone_Runtime. Qed.
#[export] Instance clone_InputArtifact : Clone InputArtifact := λ v,
  {| ia_Name := clone (ia_Name v); ia_Source := clone (ia_Source v); ia_Target := clone (ia_Target
     v); ia_Checksum := clone (ia_Checksum v) |}.
#[export] Instance clone_InputArtifact_laws : CloneLaws InputArtifact.
Proof. clone_record clone_InputArtifact. Qed.
#[export] Instance clone_OutputArtifact : Clone OutputArtifact := λ v,
  {| oa_Name := clone (oa_Name v); oa_Source := clone (oa_Source v); oa_Destination := clone
     (oa_Destination v); oa_Required := clone (oa_Required v) |}.
#[export] Instance clone_OutputArtifact_laws : CloneLaws OutputArtifact.
Proof. clone_record clone_OutputArtifact. Qed.
#[export] Instance clone_Artifacts : Clone Artifacts := λ v,
  {| art_Inputs := clone (art_Inputs v); art_Outputs := clone (art_Outputs v) |}.
#[export] Instance clone_Artifacts_laws : CloneLaws Artifacts.
Proof. clone_record clone_Artifacts. Qed.
#[export] Instance clone_RetryPolicy : Clone RetryPolicy := λ v,
  {| rp_MaxRuns := clone (rp_MaxRuns v); rp_Backoff := clone (rp_Backoff v) |}.
#[export] Instance clone_RetryPolicy_laws : CloneLaws RetryPolicy.
Proof. clone_record clone_RetryPolicy. Qed.
#[export] Instance clone_ExecutionPolicy : Clone ExecutionPolicy := λ v,
  {| ep_RunTimeout := clone (ep_RunTimeout v); ep_Retry := clone (ep_Retry v); ep_DuplicateRisk :=
     clone (ep_DuplicateRisk v) |}.
#[export] Instance clone_ExecutionPolicy_laws : CloneLaws ExecutionPolicy.
Proof. clone_record clone_ExecutionPolicy. Qed.
#[export] Instance clone_Requirements : Clone Requirements := λ v,
  {| req_OperatingSystems := clone (req_OperatingSystems v); req_Architectures := clone
     (req_Architectures v); req_Capabilities := clone (req_Capabilities v) |}.
#[export] Instance clone_Requirements_laws : CloneLaws Requirements.
Proof. clone_record clone_Requirements. Qed.
#[export] Instance clone_WorkloadSpec : Clone WorkloadSpec := λ v,
  {| ws_Command := clone (ws_Command v); ws_WorkingDirectory := clone (ws_WorkingDirectory v);
     ws_Environment := clone (ws_Environment v); ws_Resources := clone (ws_Resources v); ws_Runtime
     := clone (ws_Runtime v); ws_Artifacts := clone (ws_Artifacts v); ws_Policy := clone (ws_Policy
     v); ws_Requirements := clone (ws_Requirements v); ws_Extensions := clone_extensions
     (ws_Extensions v) |}.
#[export] Instance clone_WorkloadSpec_laws : CloneLaws WorkloadSpec.
Proof. clone_record clone_WorkloadSpec. Qed.
#[export] Instance clone_Workload : Clone Workload := λ v,
  {| w_APIVersion := clone (w_APIVersion v); w_Kind := clone (w_Kind v); w_Metadata := clone
     (w_Metadata v); w_Spec := clone (w_Spec v) |}.
#[export] Instance clone_Workload_laws : CloneLaws Workload.
Proof. clone_record clone_Workload. Qed.
#[export] Instance clone_WorkloadBinding : Clone WorkloadBinding := λ v,
  {| wb_Digest := clone (wb_Digest v); wb_Document := clone (wb_Document v) |}.
#[export] Instance clone_WorkloadBinding_laws : CloneLaws WorkloadBinding.
Proof. clone_record clone_WorkloadBinding. Qed.
#[export] Instance clone_Placement : Clone Placement := λ v,
  {| pl_Target := clone (pl_Target v); pl_Partition := clone (pl_Partition v) |}.
#[export] Instance clone_Placement_laws : CloneLaws Placement.
Proof. clone_record clone_Placement. Qed.
#[export] Instance clone_SlurmArrayBinding : Clone SlurmArrayBinding := λ v,
  {| sab_CollectionID := clone (sab_CollectionID v); sab_TaskIndex := clone (sab_TaskIndex v);
     sab_TaskCount := clone (sab_TaskCount v); sab_MaxParallel := clone (sab_MaxParallel v) |}.
#[export] Instance clone_SlurmArrayBinding_laws : CloneLaws SlurmArrayBinding.
Proof. clone_record clone_SlurmArrayBinding. Qed.
#[export] Instance clone_EffectiveExecutionMetadata : Clone EffectiveExecutionMetadata := λ v,
  {| eem_ExecutionID := clone (eem_ExecutionID v); eem_RunID := clone (eem_RunID v); eem_JobID :=
     clone (eem_JobID v); eem_Namespace := clone (eem_Namespace v); eem_SlurmArray := clone
     (eem_SlurmArray v) |}.
#[export] Instance clone_EffectiveExecutionMetadata_laws : CloneLaws EffectiveExecutionMetadata.
Proof. clone_record clone_EffectiveExecutionMetadata. Qed.
#[export] Instance clone_ArtifactStoreBinding : Clone ArtifactStoreBinding := λ v,
  {| asb_Name := clone (asb_Name v); asb_Version := clone (asb_Version v) |}.
#[export] Instance clone_ArtifactStoreBinding_laws : CloneLaws ArtifactStoreBinding.
Proof. clone_record clone_ArtifactStoreBinding. Qed.
#[export] Instance clone_EffectivePlacement : Clone EffectivePlacement := λ v,
  {| epl_TargetID := clone (epl_TargetID v); epl_TargetGenerationID := clone (epl_TargetGenerationID
     v); epl_Target := clone (epl_Target v); epl_Partition := clone (epl_Partition v);
     epl_ExecutionBackend := clone (epl_ExecutionBackend v) |}.
#[export] Instance clone_EffectivePlacement_laws : CloneLaws EffectivePlacement.
Proof. clone_record clone_EffectivePlacement. Qed.
#[export] Instance clone_EffectiveExecutionSpec : Clone EffectiveExecutionSpec := λ v,
  {| ees_Workload := clone (ees_Workload v); ees_Placement := clone (ees_Placement v);
     ees_ArtifactStores := clone (ees_ArtifactStores v) |}.
#[export] Instance clone_EffectiveExecutionSpec_laws : CloneLaws EffectiveExecutionSpec.
Proof. clone_record clone_EffectiveExecutionSpec. Qed.
#[export] Instance clone_EffectiveExecution : Clone EffectiveExecution := λ v,
  {| ee_APIVersion := clone (ee_APIVersion v); ee_Kind := clone (ee_Kind v); ee_Metadata := clone
     (ee_Metadata v); ee_Spec := clone (ee_Spec v) |}.
#[export] Instance clone_EffectiveExecution_laws : CloneLaws EffectiveExecution.
Proof. clone_record clone_EffectiveExecution. Qed.
#[export] Instance clone_AgentAssignmentMetadata : Clone AgentAssignmentMetadata := λ v,
  {| aam_DeliveryID := clone (aam_DeliveryID v); aam_AgentID := clone (aam_AgentID v) |}.
#[export] Instance clone_AgentAssignmentMetadata_laws : CloneLaws AgentAssignmentMetadata.
Proof. clone_record clone_AgentAssignmentMetadata. Qed.
#[export] Instance clone_AgentAssignmentSpec : Clone AgentAssignmentSpec := λ v,
  {| aas_EffectiveExecutionDigest := clone (aas_EffectiveExecutionDigest v); aas_EffectiveExecution
     := clone (aas_EffectiveExecution v) |}.
#[export] Instance clone_AgentAssignmentSpec_laws : CloneLaws AgentAssignmentSpec.
Proof. clone_record clone_AgentAssignmentSpec. Qed.
#[export] Instance clone_AgentAssignment : Clone AgentAssignment := λ v,
  {| aa_APIVersion := clone (aa_APIVersion v); aa_Kind := clone (aa_Kind v); aa_Metadata := clone
     (aa_Metadata v); aa_Spec := clone (aa_Spec v) |}.
#[export] Instance clone_AgentAssignment_laws : CloneLaws AgentAssignment.
Proof. clone_record clone_AgentAssignment. Qed.
#[export] Instance clone_JobRequestMetadata : Clone JobRequestMetadata := λ v,
  {| jrm_Namespace := clone (jrm_Namespace v); jrm_Name := clone (jrm_Name v); jrm_Labels := clone
     (jrm_Labels v) |}.
#[export] Instance clone_JobRequestMetadata_laws : CloneLaws JobRequestMetadata.
Proof. clone_record clone_JobRequestMetadata. Qed.
#[export] Instance clone_JobRequestSpec : Clone JobRequestSpec := λ v,
  {| jrs_Workload := clone (jrs_Workload v); jrs_Placement := clone (jrs_Placement v) |}.
#[export] Instance clone_JobRequestSpec_laws : CloneLaws JobRequestSpec.
Proof. clone_record clone_JobRequestSpec. Qed.
#[export] Instance clone_JobRequest : Clone JobRequest := λ v,
  {| jr_APIVersion := clone (jr_APIVersion v); jr_Kind := clone (jr_Kind v); jr_Metadata := clone
     (jr_Metadata v); jr_Spec := clone (jr_Spec v) |}.
#[export] Instance clone_JobRequest_laws : CloneLaws JobRequest.
Proof. clone_record clone_JobRequest. Qed.
#[export] Instance clone_CollectionItem : Clone CollectionItem := λ v,
  {| ci_Name := clone (ci_Name v); ci_Workload := clone (ci_Workload v); ci_Placement := clone
     (ci_Placement v) |}.
#[export] Instance clone_CollectionItem_laws : CloneLaws CollectionItem.
Proof. clone_record clone_CollectionItem. Qed.
#[export] Instance clone_CollectionRequestMetadata : Clone CollectionRequestMetadata := λ v,
  {| crm_Namespace := clone (crm_Namespace v); crm_Name := clone (crm_Name v); crm_Labels := clone
     (crm_Labels v) |}.
#[export] Instance clone_CollectionRequestMetadata_laws : CloneLaws CollectionRequestMetadata.
Proof. clone_record clone_CollectionRequestMetadata. Qed.
#[export] Instance clone_CollectionRequestSpec : Clone CollectionRequestSpec := λ v,
  {| crs_Items := clone (crs_Items v); crs_MaxActive := clone (crs_MaxActive v); crs_FailurePolicy
     := clone (crs_FailurePolicy v); crs_ArrayPolicy := clone (crs_ArrayPolicy v) |}.
#[export] Instance clone_CollectionRequestSpec_laws : CloneLaws CollectionRequestSpec.
Proof. clone_record clone_CollectionRequestSpec. Qed.
#[export] Instance clone_CollectionRequest : Clone CollectionRequest := λ v,
  {| cq_APIVersion := clone (cq_APIVersion v); cq_Kind := clone (cq_Kind v); cq_Metadata := clone
     (cq_Metadata v); cq_Spec := clone (cq_Spec v) |}.
#[export] Instance clone_CollectionRequest_laws : CloneLaws CollectionRequest.
Proof. clone_record clone_CollectionRequest. Qed.
#[export] Instance clone_GraphEdge : Clone GraphEdge := λ v,
  {| ge_From := clone (ge_From v); ge_To := clone (ge_To v); ge_Predicate := clone (ge_Predicate v);
     ge_Outcomes := clone (ge_Outcomes v) |}.
#[export] Instance clone_GraphEdge_laws : CloneLaws GraphEdge.
Proof. clone_record clone_GraphEdge. Qed.
#[export] Instance clone_GraphNode : Clone GraphNode := λ v,
  {| gn_Name := clone (gn_Name v); gn_Workload := clone (gn_Workload v); gn_Placement := clone
     (gn_Placement v) |}.
#[export] Instance clone_GraphNode_laws : CloneLaws GraphNode.
Proof. clone_record clone_GraphNode. Qed.
#[export] Instance clone_GraphRequestMetadata : Clone GraphRequestMetadata := λ v,
  {| grm_Namespace := clone (grm_Namespace v); grm_Name := clone (grm_Name v); grm_Labels := clone
     (grm_Labels v) |}.
#[export] Instance clone_GraphRequestMetadata_laws : CloneLaws GraphRequestMetadata.
Proof. clone_record clone_GraphRequestMetadata. Qed.
#[export] Instance clone_GraphRequestSpec : Clone GraphRequestSpec := λ v,
  {| grs_Nodes := clone (grs_Nodes v); grs_Edges := clone (grs_Edges v); grs_MaxActive := clone
     (grs_MaxActive v); grs_UnsatisfiedPolicy := clone (grs_UnsatisfiedPolicy v) |}.
#[export] Instance clone_GraphRequestSpec_laws : CloneLaws GraphRequestSpec.
Proof. clone_record clone_GraphRequestSpec. Qed.
#[export] Instance clone_GraphRequest : Clone GraphRequest := λ v,
  {| gr_APIVersion := clone (gr_APIVersion v); gr_Kind := clone (gr_Kind v); gr_Metadata := clone
     (gr_Metadata v); gr_Spec := clone (gr_Spec v) |}.
#[export] Instance clone_GraphRequest_laws : CloneLaws GraphRequest.
Proof. clone_record clone_GraphRequest. Qed.
#[export] Instance clone_AgentAcceptanceMetadata : Clone AgentAcceptanceMetadata := λ v,
  {| acm_DeliveryID := clone (acm_DeliveryID v); acm_ExecutionID := clone (acm_ExecutionID v);
     acm_AgentID := clone (acm_AgentID v) |}.
#[export] Instance clone_AgentAcceptanceMetadata_laws : CloneLaws AgentAcceptanceMetadata.
Proof. clone_record clone_AgentAcceptanceMetadata. Qed.
#[export] Instance clone_AgentAcceptanceSpec : Clone AgentAcceptanceSpec := λ v,
  {| acs_TargetGenerationID := clone (acs_TargetGenerationID v); acs_EffectiveExecutionDigest :=
     clone (acs_EffectiveExecutionDigest v) |}.
#[export] Instance clone_AgentAcceptanceSpec_laws : CloneLaws AgentAcceptanceSpec.
Proof. clone_record clone_AgentAcceptanceSpec. Qed.
#[export] Instance clone_AgentAcceptance : Clone AgentAcceptance := λ v,
  {| ac_APIVersion := clone (ac_APIVersion v); ac_Kind := clone (ac_Kind v); ac_Metadata := clone
     (ac_Metadata v); ac_Spec := clone (ac_Spec v) |}.
#[export] Instance clone_AgentAcceptance_laws : CloneLaws AgentAcceptance.
Proof. clone_record clone_AgentAcceptance. Qed.
