(* ===== verification/Normalize.v ===== *)
(** * Workload normalization

    [contracts/jobman/v1alpha1/normalize.go]: defaults are filled in, semantically unordered lists
    sorted, empty collections dropped and extensions made canonical.  [normalizeWorkload_idem]
    shows that a normalized workload is a fixed point. *)
From S2P Require Import Prelude Regex Names Url Utf8 Kahn Graph Contract Json Clone Validate.

(** ** Generic steps *)

(** [sort.Slice] with the order [le].  Go's sort is not stable, but the validators reject two
    elements that are equal in the order. *)
Fixpoint insert_with {A} (le : A → A → bool) (x : A) (l : list A) : list A :=
  match l with
  | [] => [x]
  | y :: l' => if le x y then x :: l else y :: insert_with le x l'
  end.
Definition sort_with {A} (le : A → A → bool) (l : list A) : list A := foldr (insert_with le) [] l.
Definition key_le {A} (key : A → string) (x y : A) : bool := bool_decide (String.le (key x) (key y)).
Definition sort_by {A} (key : A → string) : list A → list A := sort_with (key_le key).
#[global] Arguments sort_with : simpl never.
#[global] Arguments sort_by : simpl never.
#[global] Arguments sort_strings : simpl never.

(** [if value == "" { value = v }] *)
Definition or_default (v s : string) : string := if bool_decide (s = "") then v else s.

(** The loop [for name, raw := range m { m[name], err = f(name, raw); if err != nil { return err } }]. *)
Definition map_each (f : string → string → result string) (m : gmap string string) : result (gmap string string) :=
  for_range (λ acc '(k, v), v' ← f k v; Ok (<[k := v']> acc)) ∅ (map_to_list m).

(** ** [normalize.go] *)

(** [normalizeMetadata] and [normalizeCommand] replace empty maps and slices by nil, which the
    model does not distinguish. *)
Definition normalizeMetadata (value : WorkloadMetadata) : WorkloadMetadata := value.
Definition normalizeCommand (value : Command) : Command := value.

Definition normalizeEnvironment (value : Environment) : Environment :=
  {| env_Profile := env_Profile value; env_Values := env_Values value;
     env_Secrets := sort_by sb_Name (env_Secrets value) |}.
Definition emptyEnvironment (value : Environment) : bool :=
  bool_decide (env_Profile value = "") && bool_decide (map_len (env_Values value) = 0) &&
  bool_decide (slice_len (env_Secrets value) = 0).
Definition normalizeOptionalEnvironment (value : option Environment) : option Environment :=
  match value with
  | None => None
  | Some env => let env := normalizeEnvironment env in if emptyEnvironment env then None else Some env
  end.
Definition normalizeWorkingDirectory : string → string := or_default "workspace:/".

Definition emptyResources : Resources :=
  {| res_CPU := 0; res_Memory := ""; res_GPU := 0; res_Nodes := 0; res_Tasks := 0;
     res_TemporaryStorage := ""; res_WallTime := "" |}.
Definition normalizeResources (value : option Resources) : option Resources :=
  match value with
  | None => None
  | Some r => if bool_decide (r = emptyResources) then None else Some r
  end.

Definition normalizeRuntime (value : Runtime) : Runtime :=
  {| rt_Kind := or_default "native" (rt_Kind value);
     rt_Container := (λ c, {| cr_Image := cr_Image c; cr_PullPolicy := or_default "if-not-present" (cr_PullPolicy c);
                              cr_Network := or_default "restricted" (cr_Network c) |}) <$> rt_Container value |}.

Definition normalizeArtifacts (value : option Artifacts) : option Artifacts :=
  match value with
  | None => None
  | Some a =>
      let inputs := sort_by ia_Name (art_Inputs a) in
      let outputs := sort_by oa_Name (art_Outputs a) in
      if bool_decide (slice_len inputs = 0) && bool_decide (slice_len outputs = 0) then None
      else Some {| art_Inputs := inputs; art_Outputs := outputs |}
  end.

Definition normalizePolicy (value : ExecutionPolicy) : ExecutionPolicy :=
  {| ep_RunTimeout := ep_RunTimeout value;
     ep_Retry := {| rp_MaxRuns := if bool_decide (rp_MaxRuns (ep_Retry value) = 0) then 1 else rp_MaxRuns (ep_Retry value);
                    rp_Backoff := rp_Backoff (ep_Retry value) |};
     ep_DuplicateRisk := or_default "reject" (ep_DuplicateRisk value) |}.

Definition emptyRequirements (value : Requirements) : bool :=
  bool_decide (slice_len (req_OperatingSystems value) = 0) && bool_decide (slice_len (req_Architectures value) = 0) &&
  bool_decide (slice_len (req_Capabilities value) = 0).
Definition normalizeRequirements (value : option Requirements) : option Requirements :=
  match value with
  | None => None
  | Some r =>
      let r := {| req_OperatingSystems := sort_strings (req_OperatingSystems r);
                  req_Architectures := sort_strings (req_Architectures r);
                  req_Capabilities := sort_strings (req_Capabilities r) |} in
      if emptyRequirements r then None else Some r
  end.

Definition normalizeExtension (name raw : string) : result string :=
  value ← wrap "extension %q: %w" [name] (parse_canonical (bytes_of raw) defaultMaximumJSONDepth);
  match value with
  | JObject _ => Ok (string_of (Marshal value))
  | _ => Err (Errorf "extension %q must be a JSON object" [name])
  end.
Definition normalizeExtensions : gmap string string → result (gmap string string) := map_each normalizeExtension.

Definition normalizeWorkload (value : Workload) : result Workload :=
  let spec := w_Spec value in
  extensions ← normalizeExtensions (ws_Extensions spec);
  Ok {| w_APIVersion := w_APIVersion value; w_Kind := w_Kind value;
        w_Metadata := normalizeMetadata (w_Metadata value);
        w_Spec :=
          {| ws_Command := normalizeCommand (ws_Command spec);
             ws_WorkingDirectory := normalizeWorkingDirectory (ws_WorkingDirectory spec);
             ws_Environment := normalizeOptionalEnvironment (ws_Environment spec);
             ws_Resources := normalizeResources (ws_Resources spec);
             ws_Runtime := normalizeRuntime (ws_Runtime spec);
             ws_Artifacts := normalizeArtifacts (ws_Artifacts spec);
             ws_Policy := normalizePolicy (ws_Policy spec);
             ws_Requirements := normalizeRequirements (ws_Requirements spec);
             ws_Extensions := extensions |} |}.

(** ** Sorting *)

Section sorting.
Context {A : Type} (le : A → A → bool) (le_total : ∀ x y, le x y = true ∨ le y x = true).

Lemma insert_with_perm x l : insert_with le x l ≡ₚ x :: l.
Proof. induction l as [|y l IH]; cbn; [done|]. destruct (le x y); [done|]. rewrite IH. constructor. Qed.
Lemma sort_with_perm l : sort_with le l ≡ₚ l.
Proof. unfold sort_with. induction l as [|x l IH]; cbn; [done|]. by rewrite insert_with_perm, IH. Qed.

Lemma insert_with_sorted x l : Sorted le l → Sorted le (insert_with le x l).
Proof using le_total.
  induction 1 as [|y l Hl IH Hhd]; cbn; [by repeat constructor|]. destruct (le x y) eqn:Hle.
  - repeat constructor; [done|done|by rewrite Hle].
  - assert (le y x = true) as Hyx by (destruct (le_total x y); congruence).
    constructor; [done|]. destruct Hhd as [|z l Hz]; cbn; [|destruct (le x z)]; constructor; try done; by rewrite Hyx.
Qed.
Lemma sort_with_sorted l : Sorted le (sort_with le l).
Proof using le_total. unfold sort_with. induction l as [|x l IH]; cbn; [constructor|by apply insert_with_sorted]. Qed.

Lemma sort_with_id l : Sorted le l → sort_with le l = l.
Proof.
  unfold sort_with. induction 1 as [|x l Hl IH Hhd]; cbn; [done|]. rewrite IH.
  destruct Hhd as [|y l Hy]; cbn; [done|]. by destruct (le x y).
Qed.
Lemma sort_with_idem l : sort_with le (sort_with le l) = sort_with le l.
Proof using le_total. apply sort_with_id, sort_with_sorted. Qed.
End sorting.

Section keys.
Context {A : Type} (key : A → string).

Lemma key_le_total x y : key_le key x y = true ∨ key_le key y x = true.
Proof. unfold key_le. rewrite !bool_decide_eq_true. apply (total String.le). Qed.
Lemma sort_by_perm l : sort_by key l ≡ₚ l.
Proof. apply sort_with_perm. Qed.
Lemma sort_by_idem l : sort_by key (sort_by key l) = sort_by key l.
Proof. apply sort_with_idem, key_le_total. Qed.
End keys.

Lemma or_default_idem v s : or_default v (or_default v s) = or_default v s.
Proof. unfold or_default. by repeat case_bool_decide. Qed.
Lemma sort_strings_idem l : sort_strings (sort_strings l) = sort_strings l.
Proof. apply sort_strings_sorted_id, StronglySorted_Sorted, sort_strings_sorted. Qed.
#[export] Hint Rewrite @sort_by_idem or_default_idem sort_strings_idem : jobman_rw.

(** ** Loops over maps *)

Lemma map_each_from f (acc : gmap string string) (l : list (string * string)) (m : gmap string string) :
  NoDup (l.*1) → (∀ k, k ∈ l.*1 → acc !! k = None) →
  for_range (λ acc '(k, v), v' ← f k v; Ok (<[k := v']> acc)) acc l = Ok m →
  ∀ k, ((k ∉ l.*1) ∧ m !! k = acc !! k) ∨ (∃ v v', (k, v) ∈ l ∧ f k v = Ok v' ∧ m !! k = Some v').
Proof.
  revert acc. induction l as [|[k v] l IH]; intros acc Hnd Hacc; cbn.
  - intros [= ->] k. left. split; [set_solver|done].
  - inversion Hnd as [|? ? Hk Hnd']; subst. intros (acc' & (v' & Hv & [= <-])%bind_ok & H)%bind_ok k'.
    destruct (IH (<[k:=v']> acc) Hnd') with (k := k') as [[Hk' Hm]|(w & w' & Hin & Hw & Hm)]; [|done| |].
    + intros j Hj. rewrite lookup_insert_ne by (intros ->; done). apply Hacc. by right.
    + destruct (decide (k' = k)) as [->|Hne].
      * right. exists v, v'. split_and!; [by left|done|]. by rewrite Hm, lookup_insert_eq.
      * left. split; [set_solver|]. by rewrite Hm, lookup_insert_ne.
    + right. exists w, w'. split_and!; [by right|done|done].
Qed.

(** The loop applies [f] to every entry. *)
Lemma map_each_spec f m m' : map_each f m = Ok m' →
  ∀ k, match m !! k with
       | Some v => ∃ v', f k v = Ok v' ∧ m' !! k = Some v'
       | None => m' !! k = None
       end.
Proof.
  intros H k. destruct (map_each_from _ _ _ _ (NoDup_fst_map_to_list m) ltac:(intros; apply lookup_empty) H k)
    as [[Hk Hm]|(v & v' & Hin%elem_of_map_to_list & Hf & Hm)].
  - destruct (m !! k) as [v|] eqn:Hv; [|by rewrite Hm, lookup_empty]. exfalso. apply Hk.
    apply elem_of_map_to_list in Hv. by apply (list_elem_of_fmap_2 fst) in Hv.
  - rewrite Hin. by exists v'.
Qed.

(** A loop whose body succeeds everywhere succeeds, and one that changes nothing is the identity. *)
Lemma map_each_total f m : (∀ k v, m !! k = Some v → ∃ v', f k v = Ok v') → ∃ m', map_each f m = Ok m'.
Proof.
  intros Hf. unfold map_each. assert (∀ kv, kv ∈ map_to_list m → ∃ v', f kv.1 kv.2 = Ok v') as Hl.
  { intros [k v] Hin%elem_of_map_to_list. by apply Hf. }
  generalize (∅ : gmap string string). revert Hl. generalize (map_to_list m). intros l.
  induction l as [|[k v] l IH]; intros Hl acc; cbn; [by eexists|].
  destruct (Hl (k, v)) as [v' Hv]; [by left|]. cbn in Hv. rewrite Hv. cbn. apply IH. intros kv Hkv. apply Hl. by right.
Qed.
Lemma map_each_id f m : (∀ k v, m !! k = Some v → f k v = Ok v) → map_each f m = Ok m.
Proof.
  intros Hf. destruct (map_each_total f m) as [m' Hm]; [intros k v Hk; eexists; by apply Hf|]. rewrite Hm. f_equal.
  apply map_eq. intros k. pose proof (map_each_spec f m m' Hm k) as Hk. destruct (m !! k) as [v|] eqn:Hv; [|done].
  destruct Hk as (v' & Hv' & ->). rewrite (Hf k v Hv) in Hv'. by simplify_eq.
Qed.

(** ** Normalization is idempotent *)

Lemma normalizeExtension_canonical name raw text : normalizeExtension name raw = Ok text →
  ∃ l, canonical (JObject l) ∧ height (JObject l) ≤ defaultMaximumJSONDepth ∧ text = string_of (Marshal (JObject l)).
Proof.
  unfold normalizeExtension. intros (v & Hv%wrap_ok & H)%bind_ok. apply parse_canonical_spec in Hv as [? ?].
  destruct v; try done. injection H as <-. by eexists.
Qed.
Lemma normalizeExtension_fixed name l : canonical (JObject l) → height (JObject l) ≤ defaultMaximumJSONDepth →
  normalizeExtension name (string_of (Marshal (JObject l))) = Ok (string_of (Marshal (JObject l))).
Proof.
  intros Hc Hh. unfold normalizeExtension. rewrite string_of_bytes, parse_Marshal by (done || by apply canonical_wf).
  by rewrite canon_canonical.
Qed.
Lemma normalizeExtensions_idem m m' : normalizeExtensions m = Ok m' → normalizeExtensions m' = Ok m'.
Proof.
  intros H. apply map_each_id. intros k v' Hk'. pose proof (map_each_spec _ _ _ H k) as Hk.
  destruct (m !! k) as [v|]; [|congruence]. destruct Hk as (w & Hw & Hk). simplify_eq.
  apply normalizeExtension_canonical in Hw as (l & ? & ? & ->). by apply normalizeExtension_fixed.
Qed.

Lemma normalizeOptionalEnvironment_idem e : normalizeOptionalEnvironment (normalizeOptionalEnvironment e) = normalizeOptionalEnvironment e.
Proof.
  destruct e as [e|]; [|done]. cbn. destruct (emptyEnvironment (normalizeEnvironment e)) eqn:He; [done|].
  cbn. assert (normalizeEnvironment (normalizeEnvironment e) = normalizeEnvironment e) as ->.
  { unfold normalizeEnvironment. cbn. by rewrite sort_by_idem. }
  by rewrite He.
Qed.
Lemma normalizeResources_idem r : normalizeResources (normalizeResources r) = normalizeResources r.
Proof. destruct r as [r|]; [|done]. cbn. case_bool_decide; [done|]. cbn. by rewrite bool_decide_false. Qed.
Lemma normalizeRuntime_idem r : normalizeRuntime (normalizeRuntime r) = normalizeRuntime r.
Proof.
  unfold normalizeRuntime. cbn. rewrite or_default_idem. f_equal. destruct (rt_Container r); cbn; [|done].
  by rewrite !or_default_idem.
Qed.
Lemma normalizeArtifacts_idem a : normalizeArtifacts (normalizeArtifacts a) = normalizeArtifacts a.
Proof.
  destruct a as [a|]; [|done]. cbn. destruct (_ && _) eqn:Ha; [done|]. cbn. rewrite !sort_by_idem, Ha. done.
Qed.
Lemma normalizePolicy_idem p : normalizePolicy (normalizePolicy p) = normalizePolicy p.
Proof. unfold normalizePolicy. cbn. rewrite or_default_idem. by repeat case_bool_decide. Qed.
Lemma normalizeRequirements_idem r : normalizeRequirements (normalizeRequirements r) = normalizeRequirements r.
Proof.
  destruct r as [r|]; [|done]. cbn. destruct (emptyRequirements _) eqn:Hr; [done|]. cbn. by rewrite !sort_strings_idem, Hr.
Qed.

Lemma normalizeWorkload_idem w d : normalizeWorkload w = Ok d → normalizeWorkload d = Ok d.
Proof.
  unfold normalizeWorkload at 1. intros (ext & Hext & [= <-])%bind_ok. unfold normalizeWorkload. cbn.
  rewrite (normalizeExtensions_idem _ _ Hext). cbn. unfold normalizeWorkingDirectory, normalizeMetadata, normalizeCommand.
  by rewrite or_default_idem, normalizeOptionalEnvironment_idem, normalizeResources_idem, normalizeRuntime_idem,
    normalizeArtifacts_idem, normalizePolicy_idem, normalizeRequirements_idem.
Qed.

(** ** Normalizing a clone gives a clone *)

Lemma cloned_list {A} `{Clone A} (l : list A) : clone l = l ↔ Forall (λ a, clone a = a) l.
Proof.
  change (clone l) with (clone <$> l). induction l as [|a l IH]; cbn; [done|]. rewrite Forall_cons, <-IH. split.
  - by intros [= -> ->].
  - by intros [-> ->].
Qed.
Lemma cloned_option {A} `{Clone A} (a : A) : clone (Some a) = Some a ↔ clone a = a.
Proof. change (clone (Some a)) with (Some (clone a)). split; congruence. Qed.
Lemma cloned_sort_by {A} `{CloneLaws A} key (l : list A) : clone (sort_by key (clone l)) = sort_by key (clone l).
Proof. apply cloned_list. rewrite sort_by_perm. apply cloned_list, clone_clone. Qed.
Lemma cloned_sort_strings l : clone (sort_strings (clone l)) = sort_strings (clone l).
Proof. apply cloned_list. rewrite sort_strings_perm. apply cloned_list, clone_clone. Qed.
Lemma cloned_or_default v (s : string) : clone v = v → clone (or_default v (clone s)) = or_default v (clone s).
Proof. intros Hv. unfold or_default. case_bool_decide; [done|apply clone_clone]. Qed.
#[export] Hint Rewrite @cloned_sort_by cloned_sort_strings : jobman_rw.

Lemma normalizeExtensions_cloned m m' : normalizeExtensions (clone_extensions m) = Ok m' → clone_extensions m' = m'.
Proof.
  intros H. apply clone_map_with_id. intros k v Hk. split; [|done]. apply clone_string_id.
  pose proof (map_each_spec _ _ _ H k) as Hspec. destruct (clone_extensions m !! k) as [w|] eqn:Hw; [|congruence].
  by apply clone_map_with_spec in Hw as [? _].
Qed.

(** One field of a record at a time. *)
Ltac cloned_record inst :=
  match goal with |- clone ?v = _ => change (clone v) with (inst v) end; unfold inst; cbn; f_equal.

Lemma normalizeOptionalEnvironment_cloned e :
  clone (normalizeOptionalEnvironment (clone e)) = normalizeOptionalEnvironment (clone e).
Proof.
  destruct e as [[p v s]|]; [|done].
  change (clone (Some (Build_Environment p v s))) with (Some (Build_Environment (clone p) (clone v) (clone s))).
  cbn. case_match; [done|]. apply cloned_option. unfold normalizeEnvironment.
  cloned_record clone_Environment; [apply clone_clone..|apply cloned_sort_by].
Qed.
Lemma normalizeResources_cloned r : clone (normalizeResources (clone r)) = normalizeResources (clone r).
Proof.
  destruct r as [r|]; [|done]. change (clone (Some r)) with (Some (clone r)). cbn. case_match; [done|].
  apply cloned_option, clone_clone.
Qed.
Lemma normalizeRuntime_cloned r : clone (normalizeRuntime (clone r)) = normalizeRuntime (clone r).
Proof.
  destruct r as [k c]. change (clone (Build_Runtime k c)) with (Build_Runtime (clone k) (clone c)). unfold normalizeRuntime.
  cloned_record clone_Runtime; [by apply cloned_or_default|]. destruct c as [[i p n]|]; [|done].
  change (clone (Some (Build_ContainerRuntime i p n))) with (Some (Build_ContainerRuntime (clone i) (clone p) (clone n))).
  apply cloned_option. cloned_record clone_ContainerRuntime; [apply clone_clone|by apply cloned_or_default..].
Qed.
Lemma normalizeArtifacts_cloned a : clone (normalizeArtifacts (clone a)) = normalizeArtifacts (clone a).
Proof.
  destruct a as [[i o]|]; [|done]. change (clone (Some (Build_Artifacts i o))) with (Some (Build_Artifacts (clone i) (clone o))).
  cbn. case_match; [done|]. apply cloned_option. cloned_record clone_Artifacts; apply cloned_sort_by.
Qed.
Lemma normalizePolicy_cloned p : clone (normalizePolicy (clone p)) = normalizePolicy (clone p).
Proof.
  destruct p as [t [n b] d].
  change (clone (Build_ExecutionPolicy t (Build_RetryPolicy n b) d)) with
    (Build_ExecutionPolicy (clone t) (Build_RetryPolicy n (clone b)) (clone d)).
  unfold normalizePolicy. cloned_record clone_ExecutionPolicy; [apply clone_clone| |by apply cloned_or_default].
  cloned_record clone_RetryPolicy. apply clone_clone.
Qed.
Lemma normalizeRequirements_cloned r : clone (normalizeRequirements (clone r)) = normalizeRequirements (clone r).
Proof.
  destruct r as [[o a c]|]; [|done].
  change (clone (Some (Build_Requirements o a c))) with (Some (Build_Requirements (clone o) (clone a) (clone c))).
  cbn. case_match; [done|]. apply cloned_option. cloned_record clone_Requirements; apply cloned_sort_strings.
Qed.

Lemma normalizeWorkload_cloned w d : normalizeWorkload (clone w) = Ok d → clone d = d.
Proof.
  destruct w as [api kind meta [cmd dir env res rt art pol req ex]].
  change (clone (Build_Workload api kind meta (Build_WorkloadSpec cmd dir env res rt art pol req ex))) with
    (Build_Workload (clone api) (clone kind) (clone meta)
       (Build_WorkloadSpec (clone cmd) (clone dir) (clone env) (clone res) (clone rt) (clone art) (clone pol) (clone req)
          (clone_extensions ex))).
  unfold normalizeWorkload. cbn. intros (ext & Hext%normalizeExtensions_cloned & [= <-])%bind_ok.
  cloned_record clone_Workload; [apply clone_clone..|]. cloned_record clone_WorkloadSpec.
  - apply clone_clone.
  - by apply cloned_or_default.
  - apply normalizeOptionalEnvironment_cloned.
  - apply normalizeResources_cloned.
  - apply normalizeRuntime_cloned.
  - apply normalizeArtifacts_cloned.
  - apply normalizePolicy_cloned.
  - apply normalizeRequirements_cloned.
  - exact Hext.
Qed.
