(* ===== verification/Wire.v ===== *)
(** * Encoding and decoding of documents

    What [encoding/json] does with the types of [contracts/jobman/v1alpha1/types.go]: encoding with
    [omitempty], and strict decoding into an existing value, as [strictUnmarshal] of [codec.go]
    uses it.  A type opts in with an instance of [Wire]; a struct is described by its list of
    [field]s.  The class [WireLaws] states when a canonical encoding is decoded back: when every
    integer is below ten in magnitude, and never otherwise. *)
From S2P Require Import Prelude Regex Names Url Utf8 Number Graph Contract Json Clone Validate Normalize.

(** [unmarshal v a] decodes [v] into a variable that holds [a]. *)
Class Wire (A : Type) := {
  zero : A;
  omit : A → bool;
  encode : A → json;
  unmarshal : json → A → option A;
  valid : A → Prop;
  small : A → bool }.
#[global] Arguments zero : simpl never.
#[global] Arguments encode : simpl never.
#[global] Arguments unmarshal : simpl never.
#[global] Arguments valid : simpl never.
#[global] Arguments small : simpl never.
#[global] Arguments omit : simpl never.

Class WireLaws (A : Type) `{Wire A} := {
  wire_well_formed (a : A) : valid a → well_formed (encode a);
  wire_decode (a : A) : valid a → small a = true → unmarshal (canon (encode a)) zero = Some a;
  wire_reject (a b : A) : valid a → small a = false → unmarshal (canon (encode a)) b = None;
  wire_omit (a : A) : omit a = true → a = zero;
  wire_zero : small (zero : A) = true }.

(** Only a nil pointer is encoded as [null]. *)
Class NotNull (A : Type) `{Wire A} := not_null (a : A) : encode a ≠ JNull.

(** ** Basic types *)

#[export] Instance wire_string : Wire string := {|
  zero := ""; omit s := bool_decide (s = ""); encode := JString;
  unmarshal v s := match v with JString t => Some t | JNull => Some s | _ => None end;
  valid := utf8_string; small _ := true |}.
#[export] Instance wire_string_laws : WireLaws string.
Proof. split; try done. - intros a Ha. by constructor. - by intros a ?%bool_decide_eq_true. Qed.
#[export] Instance wire_string_not_null : NotNull string.
Proof. done. Qed.

#[export] Instance wire_bool : Wire bool := {|
  zero := false; omit := negb; encode := JBool;
  unmarshal v b := match v with JBool c => Some c | JNull => Some b | _ => None end;
  valid _ := True; small _ := true |}.
#[export] Instance wire_bool_laws : WireLaws bool.
Proof. split; try done. - intros a _. constructor. - by intros []. Qed.
#[export] Instance wire_bool_not_null : NotNull bool.
Proof. done. Qed.

(** [int] and [int64]: [strconv.ParseInt] of the number's text. *)
#[export] Instance wire_int : Wire Z := {|
  zero := 0; omit z := bool_decide (z = 0); encode z := JNumber (FormatInt z);
  unmarshal v z := match v with JNumber t => ParseInt t | JNull => Some z | _ => None end;
  valid _ := True; small z := bool_decide (Z.abs z < 10) |}.

Lemma canon_integer z : canon_number (FormatInt z) ≠ [] ∧
  ParseInt (canon_number (FormatInt z)) = if bool_decide (Z.abs z < 10) then Some z else None.
Proof.
  unfold canon_number. destruct (normalize_canonical (FormatInt z) (FormatInt_number z)) as (c & Hc & Hcan). rewrite Hc.
  split; [|by apply normalize_integer]. apply canonical_literal, number_literal_spec in Hcan as [p Hp].
  by eapply literal_nonempty.
Qed.

#[export] Instance wire_int_laws : WireLaws Z.
Proof.
  split; try done.
  - intros z _. constructor. apply FormatInt_number.
  - intros z _ Hz. unfold unmarshal, encode. cbn. destruct (canon_integer z) as [_ ->]. unfold small in Hz. cbn in Hz. by rewrite Hz.
  - intros z b _ Hz. unfold unmarshal, encode. cbn. destruct (canon_integer z) as [_ ->]. unfold small in Hz. cbn in Hz. by rewrite Hz.
  - by intros z ?%bool_decide_eq_true.
Qed.

#[export] Instance wire_int_not_null : NotNull Z.
Proof. done. Qed.

(** A pointer; [null] is what a nil pointer encodes to and what makes a pointer nil. *)
#[export] Instance wire_pointer {A} `{Wire A} : Wire (option A) := {|
  zero := None; omit o := match o with None => true | Some _ => false end;
  encode o := match o with Some a => encode a | None => JNull end;
  unmarshal v o := match v with JNull => Some None | _ => Some <$> unmarshal v (default zero o) end;
  valid o := match o with Some a => valid a | None => True end;
  small o := match o with Some a => small a | None => true end |}.

Lemma canon_not_null v : v ≠ JNull → canon v ≠ JNull.
Proof. by destruct v. Qed.

#[export] Instance wire_pointer_laws {A} `{WireLaws A, !NotNull A} : WireLaws (option A).
Proof.
  assert (∀ v (o : option A), v ≠ JNull → unmarshal v o = Some <$> unmarshal v (default zero o)) as Hdef by (by intros []).
  split.
  - intros [a|] Ha; [exact (wire_well_formed a Ha)|constructor].
  - intros [a|] Ha Hs; [|done]. change (encode (Some a)) with (encode a). rewrite Hdef by apply canon_not_null, not_null.
    change (default zero (zero : option A)) with (zero : A). by rewrite wire_decode.
  - intros [a|] b Ha Hs; [|done]. change (encode (Some a)) with (encode a). rewrite Hdef by apply canon_not_null, not_null.
    by rewrite wire_reject.
  - by intros [].
  - done.
Qed.

(** A slice.  Elements are decoded into the elements already there, then into zero values; a slice
    that is not omitted is never empty in a valid document. *)
Fixpoint unmarshal_elements {A} `{Wire A} (vs : list json) (old : list A) : option (list A) :=
  match vs with
  | [] => Some []
  | v :: vs => a ← unmarshal v (default zero (head old)); l ← unmarshal_elements vs (tail old); Some (a :: l)
  end.
#[export] Instance wire_list {A} `{Wire A} : Wire (list A) := {|
  zero := []; omit l := bool_decide (slice_len l = 0);
  encode l := JArray (map encode l);
  unmarshal v l := match v with JArray vs => unmarshal_elements vs l | JNull => Some [] | _ => None end;
  valid l := Forall valid l; small l := forallb small l |}.

Lemma unmarshal_elements_decode {A} `{WireLaws A} (l : list A) : Forall valid l → forallb small l = true →
  unmarshal_elements (map canon (map encode l)) [] = Some l.
Proof.
  induction 1 as [|a l Ha _ IH]; cbn; [done|]. intros [Hs Hl]%andb_true_iff. by rewrite wire_decode, IH.
Qed.
Lemma unmarshal_elements_reject {A} `{WireLaws A} (l old : list A) : Forall valid l → forallb small l = false →
  unmarshal_elements (map canon (map encode l)) old = None.
Proof.
  intros Hl. revert old. induction Hl as [|a l Ha _ IH]; intros old; cbn; [done|]. intros Hs.
  destruct (small a) eqn:Hsa; cbn in Hs; [|by rewrite wire_reject].
  destruct (unmarshal _ _); [|done]. cbn. by rewrite IH.
Qed.

#[export] Instance wire_list_laws {A} `{WireLaws A} : WireLaws (list A).
Proof.
  split.
  - intros l Hl. constructor. apply Forall_fmap. eapply Forall_impl; [exact Hl|]. intros a Ha. by apply wire_well_formed.
  - intros l Hl Hs. by apply unmarshal_elements_decode.
  - intros l b Hl Hs. by apply unmarshal_elements_reject.
  - intros [|a l] Hl%bool_decide_eq_true; [done|]. by cbn in Hl.
  - done.
Qed.
#[export] Instance wire_list_not_null {A} `{Wire A} : NotNull (list A).
Proof. done. Qed.

(** A map with string values; every value is decoded into a fresh element. *)
Definition map_members {A} (f : A → json) (m : gmap string A) : list (string * json) :=
  (λ '(k, a), (k, f a)) <$> sort_by fst (map_to_list m).
Definition unmarshal_members {A} (f : json → option A) (l : list (string * json)) (m : gmap string A) : option (gmap string A) :=
  foldl (λ m '(k, v), m ← m; a ← f v; Some (<[k := a]> m)) (Some m) l.
#[export] Instance wire_map : Wire (gmap string string) := {|
  zero := ∅; omit m := bool_decide (map_len m = 0);
  encode m := JObject (map_members encode m);
  unmarshal v m := match v with JObject l => unmarshal_members (λ v, unmarshal v zero) l m | JNull => Some ∅ | _ => None end;
  valid m := map_Forall (λ k s, utf8_string k ∧ utf8_string s) m; small _ := true |}.

Lemma foldl_insert_perm {A} (l : list (string * A)) (m : gmap string A) :
  l ≡ₚ map_to_list m → foldl (λ m '(k, a), <[k := a]> m) ∅ l = m.
Proof.
  intros Hl. assert (∀ (l : list (string * A)) (acc : gmap string A), NoDup (l.*1) →
    foldl (λ m '(k, a), <[k := a]> m) acc l = list_to_map l ∪ acc) as Hfold.
  { clear. induction l as [|[k a] l IH]; intros acc Hnd; cbn; [by rewrite (left_id_L ∅ (∪))|].
    inversion Hnd as [|? ? Hk Hnd']; subst. rewrite IH by done. rewrite <-insert_union_r; [by rewrite insert_union_l|].
    by apply not_elem_of_list_to_map. }
  assert (NoDup (l.*1)) as Hnd by (rewrite Hl; apply NoDup_fst_map_to_list).
  rewrite Hfold, (right_id_L ∅ (∪)) by done. rewrite (list_to_map_proper l (map_to_list m)) by done. apply list_to_map_to_list.
Qed.

Section maps.
Context {A : Type} (f : A → json) (g : json → option A).

Lemma map_members_keys (m : gmap string A) : NoDup ((map_members f m).*1).
Proof.
  unfold map_members. rewrite <-list_fmap_compose. rewrite (list_fmap_ext _ fst) by (by intros ? []).
  rewrite sort_by_perm. apply NoDup_fst_map_to_list.
Qed.

Lemma canon_members (m : gmap string A) :
  ∃ l, canon (JObject (map_members f m)) = JObject ((λ '(k, a), (k, canon (f a))) <$> l) ∧ l ≡ₚ map_to_list m.
Proof.
  cbn. rewrite canon_keys. unfold map_members at 1. rewrite <-list_fmap_compose.
  set (L := _ <$> sort_by fst (map_to_list m)).
  assert (sort_members [] L ≡ₚ (λ '(k, a), (k, canon (f a))) <$> map_to_list m) as HL.
  { rewrite sort_members_perm; cbn; [|unfold L].
    - unfold L. rewrite sort_by_perm. erewrite list_fmap_ext; [done|]. by intros ? [].
    - rewrite <-list_fmap_compose, (list_fmap_ext _ fst) by (by intros ? []). rewrite sort_by_perm. apply NoDup_fst_map_to_list. }
  apply Permutation_map_inv in HL as (l & -> & Hl). by exists l.
Qed.

Lemma unmarshal_members_decode (m : gmap string A) : (∀ k a, m !! k = Some a → g (canon (f a)) = Some a) →
  ∃ l, canon (JObject (map_members f m)) = JObject l ∧ unmarshal_members g l ∅ = Some m.
Proof.
  intros Hg. destruct (canon_members m) as (l & -> & Hl). eexists; split; [done|].
  rewrite <-(foldl_insert_perm l m Hl). unfold unmarshal_members.
  assert (∀ k a, (k, a) ∈ l → g (canon (f a)) = Some a) as Hgl.
  { intros k a Hin. apply (Hg k). apply elem_of_map_to_list. by rewrite <-Hl. }
  clear Hl. generalize (∅ : gmap string A). induction l as [|[k a] l IH]; intros acc; [done|].
  cbn. rewrite (Hgl k a) by (by left). cbn. apply IH. intros k' a' Hin. apply (Hgl k'). by right.
Qed.

Lemma map_members_wf (m : gmap string A) :
  (∀ k a, m !! k = Some a → utf8_string k ∧ well_formed (f a)) → well_formed (JObject (map_members f m)).
Proof.
  intros Hm. constructor; [apply map_members_keys|]. unfold map_members. apply Forall_fmap. rewrite sort_by_perm.
  apply Forall_forall. intros [k a] Hin%elem_of_map_to_list. by apply Hm.
Qed.
End maps.

Lemma map_len_zero {A} (m : gmap string A) : map_len m = 0 → m = ∅.
Proof. unfold map_len. intros H. apply map_size_empty_iff. lia. Qed.

#[export] Instance wire_map_laws : WireLaws (gmap string string).
Proof.
  split; try done.
  - intros m Hm. apply map_members_wf. intros k s Hk. destruct (Hm k s Hk). split; [done|by constructor].
  - intros m Hm _. destruct (unmarshal_members_decode encode (λ v, unmarshal v zero) m) as (l & Hl & Hu); [done|].
    change (encode m) with (JObject (map_members encode m)). by rewrite Hl.
  - intros m Hm%bool_decide_eq_true. by apply map_len_zero in Hm.
Qed.
#[export] Instance wire_map_not_null : NotNull (gmap string string).
Proof. done. Qed.

(** Extensions: a [json.RawMessage] holds the text of a value.  Every document is encoded after
    [normalizeExtensions] has made these texts canonical, and a canonical text is the text of the
    value it parses to. *)
Definition extension_json (raw : string) : json :=
  match parse_canonical (bytes_of raw) defaultMaximumJSONDepth with Ok v => v | Err _ => JNull end.
Definition canonical_text (raw : string) : Prop :=
  ∃ v, canonical v ∧ height v ≤ defaultMaximumJSONDepth ∧ raw = string_of (Marshal v).
Definition wire_extensions : Wire (gmap string string) := {|
  zero := ∅; omit m := bool_decide (map_len m = 0);
  encode m := JObject (map_members extension_json m);
  unmarshal v m := match v with
                   | JObject l => unmarshal_members (λ v, Some (string_of (Marshal v))) l m
                   | JNull => Some ∅
                   | _ => None
                   end;
  valid m := map_Forall (λ k raw, utf8_string k ∧ canonical_text raw) m; small _ := true |}.

Lemma raw_json_text v : canonical v → height v ≤ defaultMaximumJSONDepth → extension_json (string_of (Marshal v)) = v.
Proof.
  intros Hv Hh. unfold extension_json. rewrite string_of_bytes, parse_Marshal by (done || by apply canonical_wf).
  by apply canon_canonical.
Qed.
Lemma wire_extensions_laws : @WireLaws _ wire_extensions.
Proof.
  split; try done.
  - intros m Hm. apply map_members_wf. intros k s Hk. destruct (Hm k s Hk) as [? (v & ? & ? & ->)]. split; [done|].
    rewrite raw_json_text by done. by apply canonical_wf.
  - intros m Hm _. destruct (unmarshal_members_decode extension_json (λ v, Some (string_of (Marshal v))) m) as (l & Hl & Hu).
    + intros k s Hk. destruct (Hm k s Hk) as [? (v & ? & ? & ->)]. by rewrite raw_json_text, canon_canonical.
    + change (@encode _ wire_extensions m) with (JObject (map_members extension_json m)). by rewrite Hl.
  - intros m Hm%bool_decide_eq_true. by apply map_len_zero in Hm.
Qed.

(** ** Structs *)

(** [foldName]: the case folding under which a key that names no field exactly is compared.  Two
    non-ASCII runes fold to ASCII letters, the Kelvin sign and the long s. *)
Definition upper (c : Ascii.ascii) : Ascii.ascii := if is_lower c then byte (code c - 32) else c.
Definition fold_chunk (c : chunk) : bytes :=
  match c with
  | Rune [a] => [upper a]
  | Rune r => if bool_decide (r = ["226"%char; "132"%char; "170"%char]) then ["K"%char]
              else if bool_decide (r = ["197"%char; "191"%char]) then ["S"%char] else r
  | Bad _ => replacement
  end.
Definition foldName (s : string) : bytes := runes (bytes_of s) ≫= fold_chunk.

(** A field of a struct: its JSON name, whether it has [omitempty], and how it is read and set. *)
Record field (R : Type) := Field {
  f_type : Type;
  f_wire : Wire f_type;
  f_name : string;
  f_omitempty : bool;
  f_get : R → f_type;
  f_put : f_type → R → R }.
#[global] Arguments Field {R f_type f_wire} f_name f_omitempty f_get f_put.
#[global] Arguments f_type {R} f.
#[global] Arguments f_wire {R} f.
#[global] Arguments f_name {R} f.
#[global] Arguments f_omitempty {R} f.
#[global] Arguments f_get {R} f r.
#[global] Arguments f_put {R} f a r.
#[export] Existing Instance f_wire.

Lemma forallb_false {A} (p : A → bool) l : forallb p l = false → ∃ a, a ∈ l ∧ p a = false.
Proof.
  induction l as [|a l IH]; cbn; [done|]. destruct (p a) eqn:Ha; cbn; [|exists a; split; [by left|done]].
  intros (b & Hb & ?)%IH. exists b. split; [by right|done].
Qed.

Section structs.
Context {R : Type} (fs : list (field R)).

Definition encode_field (r : R) (f : field R) : option (string * json) :=
  if f_omitempty f && omit (f_get f r) then None else Some (f_name f, encode (f_get f r)).
Definition encode_struct (r : R) : json := JObject (omap (encode_field r) fs).

(** The field a key denotes: the one of that name, or one whose name folds alike. *)
Definition find_field (k : string) : option (field R) :=
  match list_find (λ f, f_name f = k) fs with
  | Some (_, f) => Some f
  | None => snd <$> list_find (λ f, foldName (f_name f) = foldName k) fs
  end.

(** One member; [DisallowUnknownFields] rejects a key that denotes no field. *)
Definition set_member (r : R) (kv : string * json) : option R :=
  f ← find_field kv.1; a ← unmarshal kv.2 (f_get f r); Some (f_put f a r).
Fixpoint set_members (l : list (string * json)) (r : R) : option R :=
  match l with
  | [] => Some r
  | kv :: l => r ← set_member r kv; set_members l r
  end.

Definition wire_struct (z : R) : Wire R := {|
  zero := z; omit _ := false; encode := encode_struct;
  unmarshal v r := match v with JObject l => set_members l r | JNull => Some r | _ => None end;
  valid r := Forall (λ f, valid (f_get f r)) fs; small r := forallb (λ f, small (f_get f r)) fs |}.

(** What makes a list of fields describe a struct with zero value [z]. *)
Record struct_laws (z : R) : Prop := {
  s_names : NoDup (f_name <$> fs);
  s_ascii : Forall (λ f, utf8_string (f_name f)) fs;
  s_wire : Forall (λ f, WireLaws (f_type f)) fs;
  s_zero : Forall (λ f, f_get f z = zero) fs;
  s_get : Forall (λ f, ∀ a r, f_get f (f_put f a r) = a) fs;
  s_other : Forall (λ f, Forall (λ g, f_name f ≠ f_name g → ∀ a r, f_get g (f_put f a r) = f_get g r) fs) fs;
  s_ext : ∀ r1 r2, Forall (λ f, f_get f r1 = f_get f r2) fs → r1 = r2 }.

Context (z : R) (laws : struct_laws z).

Lemma field_by_name f g : f ∈ fs → g ∈ fs → f_name f = f_name g → f = g.
Proof using laws.
  intros [i Hi]%list_elem_of_lookup [j Hj]%list_elem_of_lookup Hn.
  assert (i = j) as ->; [|congruence]. apply (NoDup_lookup (f_name <$> fs) i j (f_name f)); [apply laws| |].
  - by rewrite list_lookup_fmap, Hi.
  - rewrite list_lookup_fmap, Hj. cbn. congruence.
Qed.

Lemma find_field_exact f : f ∈ fs → find_field (f_name f) = Some f.
Proof using laws.
  intros Hf. unfold find_field. destruct (list_find_elem_of (λ g, f_name g = f_name f) fs f Hf eq_refl) as [[i g] Hg].
  rewrite Hg. apply list_find_Some in Hg as (Hi & Hn & _). f_equal. apply field_by_name; [|done|done].
  by eapply list_elem_of_lookup_2.
Qed.

Lemma set_members_spec l r r0 :
  NoDup (l.*1) →
  (∀ k v, (k, v) ∈ l → ∃ f, f ∈ fs ∧ f_name f = k ∧ unmarshal v zero = Some (f_get f r)) →
  (∀ f, f ∈ fs → f_name f ∈ l.*1 → f_get f r0 = zero) →
  ∃ r1, set_members l r0 = Some r1 ∧
    ∀ f, f ∈ fs → (f_name f ∈ l.*1 → f_get f r1 = f_get f r) ∧ ((f_name f ∉ l.*1) → f_get f r1 = f_get f r0).
Proof using laws.
  revert r0. induction l as [|[k v] l IH]; intros r0 Hnd Hl H0; cbn.
  { exists r0. split; [done|]. intros f _. split; [by intros ?%elem_of_nil|done]. }
  inversion Hnd as [|? ? Hk Hnd']; subst. destruct (Hl k v) as (f & Hf & Hn & Hu); [by left|].
  assert (set_member r0 (k, v) = Some (f_put f (f_get f r) r0)) as ->.
  { unfold set_member. cbn. rewrite <-Hn, find_field_exact by done. cbn. rewrite H0 by (done || (rewrite Hn; by left)). by rewrite Hu. }
  pose proof (s_get z laws) as Hget. pose proof (s_other z laws) as Hother. rewrite Forall_forall in Hget, Hother.
  assert (∀ g, g ∈ fs → f_name g ≠ k → f_get g (f_put f (f_get f r) r0) = f_get g r0) as Hne.
  { intros g Hg Hgk. specialize (Hother f Hf). rewrite Forall_forall in Hother. apply Hother; [done|]. congruence. }
  cbn. destruct (IH (f_put f (f_get f r) r0)) as (r1 & Hr1 & Hfields); [done| | |].
  - intros k' v' Hin. apply Hl. by right.
  - intros g Hg Hin. rewrite Hne; [apply H0; [done|by right]|done|]. intros Heq. apply Hk. by rewrite <-Heq.
  - exists r1. split; [done|]. intros g Hg. destruct (Hfields g Hg) as [H1 H2]. split.
    + intros [Heq|Hin]%elem_of_cons; [|by apply H1]. assert (g = f) as -> by (apply field_by_name; [done|done|congruence]).
      rewrite H2 by (by rewrite Hn). by apply Hget.
    + intros [Hgk Hin]%not_elem_of_cons. rewrite H2 by done. by apply Hne.
Qed.

Lemma set_members_reject l r0 kv : kv ∈ l → (∀ r, set_member r kv = None) → set_members l r0 = None.
Proof.
  intros Hin Hr. revert r0. induction l as [|kv' l IH]; intros r0; [by apply elem_of_nil in Hin|]. cbn [set_members].
  apply elem_of_cons in Hin as [<-|Hin]; [by rewrite Hr|]. destruct (set_member r0 kv'); [|done]. by apply IH.
Qed.

(** The members of an encoded struct. *)
Lemma encode_members r k v : (k, v) ∈ omap (encode_field r) fs ↔
  ∃ f, f ∈ fs ∧ f_name f = k ∧ v = encode (f_get f r) ∧ f_omitempty f && omit (f_get f r) = false.
Proof.
  rewrite list_elem_of_omap. unfold encode_field. split.
  - intros (f & Hf & H). exists f. destruct (_ && _) eqn:Ho; [done|]. by simplify_eq.
  - intros (f & Hf & <- & -> & Ho). exists f. by rewrite Ho.
Qed.
Lemma encode_members_keys r : NoDup ((omap (encode_field r) fs).*1).
Proof using laws.
  pose proof (s_names z laws) as Hnd. clear laws. induction fs as [|f l IH]; cbn; [constructor|].
  inversion Hnd as [|? ? Hf Hnd']; subst. destruct (encode_field r f) as [[k v]|] eqn:He; [|by apply IH].
  cbn. constructor; [|by apply IH]. unfold encode_field in He. destruct (_ && _); [done|]. simplify_eq.
  intros ([k v] & Heq & (g & Hg & He)%list_elem_of_omap)%list_elem_of_fmap. unfold encode_field in He. destruct (_ && _); [done|].
  simplify_eq. apply Hf. apply list_elem_of_fmap. by exists g.
Qed.

Lemma canon_struct r : ∃ l, canon (encode_struct r) = JObject l ∧ l ≡ₚ (λ kv, (kv.1, canon kv.2)) <$> omap (encode_field r) fs.
Proof using laws.
  eexists. split; [reflexivity|]. rewrite sort_members_perm; cbn; rewrite canon_keys; [done|].
  rewrite <-list_fmap_compose. apply encode_members_keys.
Qed.
Lemma struct_members_spec r l : canon (encode_struct r) = JObject l →
  l ≡ₚ (λ kv, (kv.1, canon kv.2)) <$> omap (encode_field r) fs ∧ NoDup (l.*1) ∧
  ∀ k v, (k, v) ∈ l ↔ ∃ f, f ∈ fs ∧ f_name f = k ∧ v = canon (encode (f_get f r)) ∧ f_omitempty f && omit (f_get f r) = false.
Proof using laws.
  intros Hl. destruct (canon_struct r) as (l' & Hl' & Hp). rewrite Hl in Hl'. injection Hl' as <-. split; [done|]. split.
  - rewrite Hp, <-list_fmap_compose. apply encode_members_keys.
  - intros k v. rewrite Hp, list_elem_of_fmap. split.
    + intros ([k' v'] & [= -> ->] & (f & ? & ? & -> & ?)%encode_members). by exists f.
    + intros (f & Hf & Hn & -> & Ho). exists (k, encode (f_get f r)). split; [done|]. apply encode_members. by exists f.
Qed.

Lemma wire_struct_laws : @WireLaws R (wire_struct z).
Proof using laws.
  pose proof (s_wire z laws) as Hw. pose proof (s_zero z laws) as Hz. rewrite Forall_forall in Hw, Hz. split; try done.
  - intros r Hr. change (well_formed (encode_struct r)). constructor; [apply encode_members_keys|].
    apply Forall_forall. intros [k v] (f & Hf & <- & -> & _)%encode_members. cbn. pose proof (s_ascii z laws) as Ha.
    change (Forall (λ f, valid (f_get f r)) fs) in Hr. rewrite Forall_forall in Ha, Hr. split; [by apply Ha|].
    pose proof (Hw f Hf). apply wire_well_formed. by apply Hr.
  - intros r Hr Hs. change (Forall (λ f, valid (f_get f r)) fs) in Hr. change (forallb (λ f, small (f_get f r)) fs = true) in Hs.
    rewrite Forall_forall in Hr. rewrite forallb_forall in Hs. setoid_rewrite <-list_elem_of_In in Hs.
    change (encode r) with (encode_struct r). destruct (canon_struct r) as (l & Hl & _). rewrite Hl.
    apply struct_members_spec in Hl as (_ & Hnd & Hin). change (set_members l z = Some r).
    destruct (set_members_spec l r z Hnd) as (r1 & -> & Hfields).
    + intros k v (f & Hf & Hn & -> & _)%Hin. exists f. split_and!; [done|done|]. pose proof (Hw f Hf). apply wire_decode; auto.
    + intros f Hf _. by apply Hz.
    + f_equal. apply (s_ext z laws). apply Forall_forall. intros f Hf. destruct (Hfields f Hf) as [H1 H2].
      destruct (decide (f_name f ∈ l.*1)) as [Hk|Hk]; [by apply H1|]. rewrite H2, Hz by done. symmetry.
      pose proof (Hw f Hf). apply wire_omit. destruct (f_omitempty f && omit (f_get f r)) eqn:Ho.
      * by apply andb_true_iff in Ho as [_ ?].
      * exfalso. apply Hk. apply list_elem_of_fmap. eexists (f_name f, _). split; [done|]. apply Hin. by exists f.
  - intros r r0 Hr Hs. change (Forall (λ f, valid (f_get f r)) fs) in Hr. change (forallb (λ f, small (f_get f r)) fs = false) in Hs.
    rewrite Forall_forall in Hr. apply forallb_false in Hs as (f & Hf & Hsf).
    change (encode r) with (encode_struct r). destruct (canon_struct r) as (l & Hl & _). rewrite Hl.
    apply struct_members_spec in Hl as (_ & Hnd & Hin). change (set_members l r0 = None). pose proof (Hw f Hf) as Hwf.
    apply (set_members_reject l r0 (f_name f, canon (encode (f_get f r)))).
    + apply Hin. exists f. split_and!; [done|done|done|]. destruct (f_omitempty f && omit (f_get f r)) eqn:Ho; [|done].
      apply andb_true_iff in Ho as [_ Ho%wire_omit]. rewrite Ho, wire_zero in Hsf. done.
    + intros r1. unfold set_member. cbn. rewrite find_field_exact by done. cbn. rewrite wire_reject; auto.
  - apply forallb_forall. intros f Hf%list_elem_of_In. pose proof (Hw f Hf). 
    change (small (f_get f z) = true). rewrite Hz by done. apply wire_zero.
Qed.
End structs.
