(* ===== verification/Documents.v ===== *)
(** * The encoding of the portable documents

    One list of fields per struct of [contracts/jobman/v1alpha1/types.go], in the order and with
    the JSON names of its tags, from which encoding and strict decoding follow ([Wire.v]). *)
From S2P Require Import Prelude Regex Names Url Utf8 Kahn Graph Contract Json Clone Normalize Wire.

(** The obligations of [struct_laws] for a concrete struct. *)
Ltac each_field tac :=
  repeat lazymatch goal with
  | |- List.Forall _ (_ :: _) => apply List.Forall_cons
  | |- List.Forall _ [] => apply List.Forall_nil
  end; tac.
Ltac solve_struct fs :=
  split; unfold fs;
  [ apply (bool_decide_unpack _); vm_compute; exact I
  | each_field ltac:(apply utf8_Valid_spec; vm_compute; reflexivity)
  | each_field ltac:(first [exact wire_extensions_laws | apply _])
  | each_field ltac:(reflexivity)
  | each_field ltac:(intros; reflexivity)
  | each_field ltac:(each_field ltac:(intros Hne; first [intros; reflexivity | by destruct Hne]))
  | intros [] [] Hall; repeat (apply Forall_cons_1 in Hall as [? Hall]); cbn in *; congruence ].

(** A document that is its own clone holds valid strings only. *)
Class CloneValid (A : Type) `{Clone A, Wire A} := clone_valid (a : A) : clone a = a → valid a.

#[export] Instance string_clone_valid : CloneValid string.
Proof. intros s Hs. change (utf8_string s). rewrite <-Hs. apply clone_string_utf8. Qed.
#[export] Instance Z_clone_valid : CloneValid Z.
Proof. done. Qed.
#[export] Instance bool_clone_valid : CloneValid bool.
Proof. done. Qed.
#[export] Instance list_clone_valid {A} `{CloneValid A} : CloneValid (list A).
Proof. intros l Hl%cloned_list. eapply Forall_impl; [exact Hl|]. intros a. apply clone_valid. Qed.
#[export] Instance option_clone_valid {A} `{CloneValid A} : CloneValid (option A).
Proof. intros [a|]; [|done]. intros Ha. rewrite cloned_option in Ha. exact (clone_valid a Ha). Qed.
#[export] Instance map_clone_valid : CloneValid (gmap string string).
Proof.
  intros m Hm k v Hk. change (clone m) with (clone_map_with clone m) in Hm. rewrite <-Hm in Hk.
  apply clone_map_with_spec in Hk as (? & k' & v' & _ & _ & ->). split; [done|apply clone_string_utf8].
Qed.

(** A type without integers. *)
Class NoIntegers (A : Type) `{Wire A} := no_integers (a : A) : small a = true.

#[export] Instance string_no_integers : NoIntegers string.
Proof. done. Qed.
#[export] Instance bool_no_integers : NoIntegers bool.
Proof. done. Qed.
#[export] Instance map_no_integers : NoIntegers (gmap string string).
Proof. done. Qed.
#[export] Instance list_no_integers {A} `{NoIntegers A} : NoIntegers (list A).
Proof. intros l. apply forallb_forall. intros a _. apply no_integers. Qed.
#[export] Instance option_no_integers {A} `{NoIntegers A} : NoIntegers (option A).
Proof. intros [a|]; [|done]. exact (no_integers a). Qed.

Lemma small_struct {R} (fs : list (field R)) z r :
  @small R (wire_struct fs z) r = true ↔ List.Forall (λ f, small (f_get f r) = true) fs.
Proof. change (forallb (λ f, small (f_get f r)) fs = true ↔ Forall (λ f, small (f_get f r) = true) fs).
  rewrite forallb_forall, Forall_forall. by setoid_rewrite list_elem_of_In. Qed.
Ltac no_integers_record fs := intros r; apply (small_struct fs); unfold fs; each_field ltac:(exact (no_integers _)).

Ltac clone_fields inst :=
  match goal with |- clone ?v = _ → _ => change (clone v) with (inst v) end; unfold inst; cbn; intros [=].
Ltac clone_valid_record inst fs :=
  intros []; clone_fields inst; match goal with |- valid ?r => change (List.Forall (λ f, valid (f_get f r)) fs) end;
  unfold fs; each_field ltac:(cbn; apply clone_valid; first [assumption | reflexivity]).

(** *** [WorkloadMetadata] *)

#[export] Instance WorkloadMetadata_settable : Settable WorkloadMetadata := λ r, Build_WorkloadMetadata
  (wm_Name r) (wm_Description r) (wm_Labels r) (wm_Annotations r).
Definition WorkloadMetadata_zero : WorkloadMetadata := Build_WorkloadMetadata "" "" ∅ ∅.
Definition WorkloadMetadata_fields : list (field WorkloadMetadata) :=
  [Field "name" true wm_Name (λ x r, r <| wm_Name := x |>);
   Field "description" true wm_Description (λ x r, r <| wm_Description := x |>);
   Field "labels" true wm_Labels (λ x r, r <| wm_Labels := x |>);
   Field "annotations" true wm_Annotations (λ x r, r <| wm_Annotations := x |>)].
#[export] Instance WorkloadMetadata_wire : Wire WorkloadMetadata := wire_struct WorkloadMetadata_fields WorkloadMetadata_zero.
Lemma WorkloadMetadata_fields_ok : struct_laws WorkloadMetadata_fields WorkloadMetadata_zero.
Proof. solve_struct WorkloadMetadata_fields. Qed.
#[export] Instance WorkloadMetadata_wire_laws : WireLaws WorkloadMetadata := wire_struct_laws _ _ WorkloadMetadata_fields_ok.
#[export] Instance WorkloadMetadata_not_null : NotNull WorkloadMetadata.
Proof. done. Qed.
#[export] Instance WorkloadMetadata_no_integers : NoIntegers WorkloadMetadata.
Proof. no_integers_record WorkloadMetadata_fields. Qed.
#[export] Instance WorkloadMetadata_clone_valid : CloneValid WorkloadMetadata.
Proof. clone_valid_record clone_WorkloadMetadata WorkloadMetadata_fields. Qed.

(** *** [ShellCommand] *)

#[export] Instance ShellCommand_settable : Settable ShellCommand := λ r, Build_ShellCommand (sc_Capability r)
  (sc_Script r).
Definition ShellCommand_zero : ShellCommand := Build_ShellCommand "" "".
Definition ShellCommand_fields : list (field ShellCommand) :=
  [Field "capability" false sc_Capability (λ x r, r <| sc_Capability := x |>);
   Field "script" false sc_Script (λ x r, r <| sc_Script := x |>)].
#[export] Instance ShellCommand_wire : Wire ShellCommand := wire_struct ShellCommand_fields ShellCommand_zero.
Lemma ShellCommand_fields_ok : struct_laws ShellCommand_fields ShellCommand_zero.
Proof. solve_struct ShellCommand_fields. Qed.
#[export] Instance ShellCommand_wire_laws : WireLaws ShellCommand := wire_struct_laws _ _ ShellCommand_fields_ok.
#[export] Instance ShellCommand_not_null : NotNull ShellCommand.
Proof. done. Qed.
#[export] Instance ShellCommand_no_integers : NoIntegers ShellCommand.
Proof. no_integers_record ShellCommand_fields. Qed.
#[export] Instance ShellCommand_clone_valid : CloneValid ShellCommand.
Proof. clone_valid_record clone_ShellCommand ShellCommand_fields. Qed.

(** *** [Command] *)

#[export] Instance Command_settable : Settable Command := λ r, Build_Command (c_Executable r) (c_Args r)
  (c_Shell r).
Definition Command_zero : Command := Build_Command "" [] None.
Definition Command_fields : list (field Command) :=
  [Field "executable" true c_Executable (λ x r, r <| c_Executable := x |>);
   Field "args" true c_Args (λ x r, r <| c_Args := x |>);
   Field "shell" true c_Shell (λ x r, r <| c_Shell := x |>)].
#[export] Instance Command_wire : Wire Command := wire_struct Command_fields Command_zero.
Lemma Command_fields_ok : struct_laws Command_fields Command_zero.
Proof. solve_struct Command_fields. Qed.
#[export] Instance Command_wire_laws : WireLaws Command := wire_struct_laws _ _ Command_fields_ok.
#[export] Instance Command_not_null : NotNull Command.
Proof. done. Qed.
#[export] Instance Command_no_integers : NoIntegers Command.
Proof. no_integers_record Command_fields. Qed.
#[export] Instance Command_clone_valid : CloneValid Command.
Proof. clone_valid_record clone_Command Command_fields. Qed.

(** *** [SecretExposure] *)

#[export] Instance SecretExposure_settable : Settable SecretExposure := λ r, Build_SecretExposure
  (se_Environment r) (se_File r).
Definition SecretExposure_zero : SecretExposure := Build_SecretExposure "" "".
Definition SecretExposure_fields : list (field SecretExposure) :=
  [Field "environment" true se_Environment (λ x r, r <| se_Environment := x |>);
   Field "file" true se_File (λ x r, r <| se_File := x |>)].
#[export] Instance SecretExposure_wire : Wire SecretExposure := wire_struct SecretExposure_fields SecretExposure_zero.
Lemma SecretExposure_fields_ok : struct_laws SecretExposure_fields SecretExposure_zero.
Proof. solve_struct SecretExposure_fields. Qed.
#[export] Instance SecretExposure_wire_laws : WireLaws SecretExposure := wire_struct_laws _ _ SecretExposure_fields_ok.
#[export] Instance SecretExposure_not_null : NotNull SecretExposure.
Proof. done. Qed.
#[export] Instance SecretExposure_no_integers : NoIntegers SecretExposure.
Proof. no_integers_record SecretExposure_fields. Qed.
#[export] Instance SecretExposure_clone_valid : CloneValid SecretExposure.
Proof. clone_valid_record clone_SecretExposure SecretExposure_fields. Qed.

(** *** [SecretBinding] *)

#[export] Instance SecretBinding_settable : Settable SecretBinding := λ r, Build_SecretBinding (sb_Name r)
  (sb_Source r) (sb_ExposeAs r).
Definition SecretBinding_zero : SecretBinding := Build_SecretBinding "" "" SecretExposure_zero.
Definition SecretBinding_fields : list (field SecretBinding) :=
  [Field "name" false sb_Name (λ x r, r <| sb_Name := x |>);
   Field "source" false sb_Source (λ x r, r <| sb_Source := x |>);
   Field "exposeAs" false sb_ExposeAs (λ x r, r <| sb_ExposeAs := x |>)].
#[export] Instance SecretBinding_wire : Wire SecretBinding := wire_struct SecretBinding_fields SecretBinding_zero.
Lemma SecretBinding_fields_ok : struct_laws SecretBinding_fields SecretBinding_zero.
Proof. solve_struct SecretBinding_fields. Qed.
#[export] Instance SecretBinding_wire_laws : WireLaws SecretBinding := wire_struct_laws _ _ SecretBinding_fields_ok.
#[export] Instance SecretBinding_not_null : NotNull SecretBinding.
Proof. done. Qed.
#[export] Instance SecretBinding_no_integers : NoIntegers SecretBinding.
Proof. no_integers_record SecretBinding_fields. Qed.
#[export] Instance SecretBinding_clone_valid : CloneValid SecretBinding.
Proof. clone_valid_record clone_SecretBinding SecretBinding_fields. Qed.

(** *** [Environment] *)

#[export] Instance Environment_settable : Settable Environment := λ r, Build_Environment (env_Profile r)
  (env_Values r) (env_Secrets r).
Definition Environment_zero : Environment := Build_Environment "" ∅ [].
Definition Environment_fields : list (field Environment) :=
  [Field "profile" true env_Profile (λ x r, r <| env_Profile := x |>);
   Field "values" true env_Values (λ x r, r <| env_Values := x |>);
   Field "secrets" true env_Secrets (λ x r, r <| env_Secrets := x |>)].
#[export] Instance Environment_wire : Wire Environment := wire_struct Environment_fields Environment_zero.
Lemma Environment_fields_ok : struct_laws Environment_fields Environment_zero.
Proof. solve_struct Environment_fields. Qed.
#[export] Instance Environment_wire_laws : WireLaws Environment := wire_struct_laws _ _ Environment_fields_ok.
#[export] Instance Environment_not_null : NotNull Environment.
Proof. done. Qed.
#[export] Instance Environment_no_integers : NoIntegers Environment.
Proof. no_integers_record Environment_fields. Qed.
#[export] Instance Environment_clone_valid : CloneValid Environment.
Proof. clone_valid_record clone_Environment Environment_fields. Qed.

(** *** [Resources] *)

#[export] Instance Resources_settable : Settable Resources := λ r, Build_Resources (res_CPU r) (res_Memory r)
  (res_GPU r) (res_Nodes r) (res_Tasks r) (res_TemporaryStorage r) (res_WallTime r).
Definition Resources_zero : Resources := Build_Resources 0 "" 0 0 0 "" "".
Definition Resources_fields : list (field Resources) :=
  [Field "cpu" true res_CPU (λ x r, r <| res_CPU := x |>);
   Field "memory" true res_Memory (λ x r, r <| res_Memory := x |>);
   Field "gpu" true res_GPU (λ x r, r <| res_GPU := x |>);
   Field "nodes" true res_Nodes (λ x r, r <| res_Nodes := x |>);
   Field "tasks" true res_Tasks (λ x r, r <| res_Tasks := x |>);
   Field "temporaryStorage" true res_TemporaryStorage (λ x r, r <| res_TemporaryStorage := x |>);
   Field "wallTime" true res_WallTime (λ x r, r <| res_WallTime := x |>)].
#[export] Instance Resources_wire : Wire Resources := wire_struct Resources_fields Resources_zero.
Lemma Resources_fields_ok : struct_laws Resources_fields Resources_zero.
Proof. solve_struct Resources_fields. Qed.
#[export] Instance Resources_wire_laws : WireLaws Resources := wire_struct_laws _ _ Resources_fields_ok.
#[export] Instance Resources_not_null : NotNull Resources.
Proof. done. Qed.
#[export] Instance Resources_clone_valid : CloneValid Resources.
Proof. clone_valid_record clone_Resources Resources_fields. Qed.

(** *** [ContainerRuntime] *)

#[export] Instance ContainerRuntime_settable : Settable ContainerRuntime := λ r, Build_ContainerRuntime
  (cr_Image r) (cr_PullPolicy r) (cr_Network r).
Definition ContainerRuntime_zero : ContainerRuntime := Build_ContainerRuntime "" "" "".
Definition ContainerRuntime_fields : list (field ContainerRuntime) :=
  [Field "image" false cr_Image (λ x r, r <| cr_Image := x |>);
   Field "pullPolicy" false cr_PullPolicy (λ x r, r <| cr_PullPolicy := x |>);
   Field "network" false cr_Network (λ x r, r <| cr_Network := x |>)].
#[export] Instance ContainerRuntime_wire : Wire ContainerRuntime := wire_struct ContainerRuntime_fields ContainerRuntime_zero.
Lemma ContainerRuntime_fields_ok : struct_laws ContainerRuntime_fields ContainerRuntime_zero.
Proof. solve_struct ContainerRuntime_fields. Qed.
#[export] Instance ContainerRuntime_wire_laws : WireLaws ContainerRuntime := wire_struct_laws _ _ ContainerRuntime_fields_ok.
#[export] Instance ContainerRuntime_not_null : NotNull ContainerRuntime.
Proof. done. Qed.
#[export] Instance ContainerRuntime_no_integers : NoIntegers ContainerRuntime.
Proof. no_integers_record ContainerRuntime_fields. Qed.
#[export] Instance ContainerRuntime_clone_valid : CloneValid ContainerRuntime.
Proof. clone_valid_record clone_ContainerRuntime ContainerRuntime_fields. Qed.

(** *** [Runtime] *)

#[export] Instance Runtime_settable : Settable Runtime := λ r, Build_Runtime (rt_Kind r) (rt_Container r).
Definition Runtime_zero : Runtime := Build_Runtime "" None.
Definition Runtime_fields : list (field Runtime) :=
  [Field "kind" false rt_Kind (λ x r, r <| rt_Kind := x |>);
   Field "container" true rt_Container (λ x r, r <| rt_Container := x |>)].
#[export] Instance Runtime_wire : Wire Runtime := wire_struct Runtime_fields Runtime_zero.
Lemma Runtime_fields_ok : struct_laws Runtime_fields Runtime_zero.
Proof. solve_struct Runtime_fields. Qed.
#[export] Instance Runtime_wire_laws : WireLaws Runtime := wire_struct_laws _ _ Runtime_fields_ok.
#[export] Instance Runtime_not_null : NotNull Runtime.
Proof. done. Qed.
#[export] Instance Runtime_no_integers : NoIntegers Runtime.
Proof. no_integers_record Runtime_fields. Qed.
#[export] Instance Runtime_clone_valid : CloneValid Runtime.
Proof. clone_valid_record clone_Runtime Runtime_fields. Qed.

(** *** [InputArtifact] *)

#[export] Instance InputArtifact_settable : Settable InputArtifact := λ r, Build_InputArtifact (ia_Name r)
  (ia_Source r) (ia_Target r) (ia_Checksum r).
Definition InputArtifact_zero : InputArtifact := Build_InputArtifact "" "" "" "".
Definition InputArtifact_fields : list (field InputArtifact) :=
  [Field "name" false ia_Name (λ x r, r <| ia_Name := x |>);
   Field "source" false ia_Source (λ x r, r <| ia_Source := x |>);
   Field "target" false ia_Target (λ x r, r <| ia_Target := x |>);
   Field "checksum" true ia_Checksum (λ x r, r <| ia_Checksum := x |>)].
#[export] Instance InputArtifact_wire : Wire InputArtifact := wire_struct InputArtifact_fields InputArtifact_zero.
Lemma InputArtifact_fields_ok : struct_laws InputArtifact_fields InputArtifact_zero.
Proof. solve_struct InputArtifact_fields. Qed.
#[export] Instance InputArtifact_wire_laws : WireLaws InputArtifact := wire_struct_laws _ _ InputArtifact_fields_ok.
#[export] Instance InputArtifact_not_null : NotNull InputArtifact.
Proof. done. Qed.
#[export] Instance InputArtifact_no_integers : NoIntegers InputArtifact.
Proof. no_integers_record InputArtifact_fields. Qed.
#[export] Instance InputArtifact_clone_valid : CloneValid InputArtifact.
Proof. clone_valid_record clone_InputArtifact InputArtifact_fields. Qed.

(** *** [OutputArtifact] *)

#[export] Instance OutputArtifact_settable : Settable OutputArtifact := λ r, Build_OutputArtifact (oa_Name r)
  (oa_Source r) (oa_Destination r) (oa_Required r).
Definition OutputArtifact_zero : OutputArtifact := Build_OutputArtifact "" "" "" false.
Definition OutputArtifact_fields : list (field OutputArtifact) :=
  [Field "name" false oa_Name (λ x r, r <| oa_Name := x |>);
   Field "source" false oa_Source (λ x r, r <| oa_Source := x |>);
   Field "destination" false oa_Destination (λ x r, r <| oa_Destination := x |>);
   Field "required" false oa_Required (λ x r, r <| oa_Required := x |>)].
#[export] Instance OutputArtifact_wire : Wire OutputArtifact := wire_struct OutputArtifact_fields OutputArtifact_zero.
Lemma OutputArtifact_fields_ok : struct_laws OutputArtifact_fields OutputArtifact_zero.
Proof. solve_struct OutputArtifact_fields. Qed.
#[export] Instance OutputArtifact_wire_laws : WireLaws OutputArtifact := wire_struct_laws _ _ OutputArtifact_fields_ok.
#[export] Instance OutputArtifact_not_null : NotNull OutputArtifact.
Proof. done. Qed.
#[export] Instance OutputArtifact_no_integers : NoIntegers OutputArtifact.
Proof. no_integers_record OutputArtifact_fields. Qed.
#[export] Instance OutputArtifact_clone_valid : CloneValid OutputArtifact.
Proof. clone_valid_record clone_OutputArtifact OutputArtifact_fields. Qed.

(** *** [Artifacts] *)

#[export] Instance Artifacts_settable : Settable Artifacts := λ r, Build_Artifacts (art_Inputs r) (art_Outputs
  r).
Definition Artifacts_zero : Artifacts := Build_Artifacts [] [].
Definition Artifacts_fields : list (field Artifacts) :=
  [Field "inputs" true art_Inputs (λ x r, r <| art_Inputs := x |>);
   Field "outputs" true art_Outputs (λ x r, r <| art_Outputs := x |>)].
#[export] Instance Artifacts_wire : Wire Artifacts := wire_struct Artifacts_fields Artifacts_zero.
Lemma Artifacts_fields_ok : struct_laws Artifacts_fields Artifacts_zero.
Proof. solve_struct Artifacts_fields. Qed.
#[export] Instance Artifacts_wire_laws : WireLaws Artifacts := wire_struct_laws _ _ Artifacts_fields_ok.
#[export] Instance Artifacts_not_null : NotNull Artifacts.
Proof. done. Qed.
#[export] Instance Artifacts_no_integers : NoIntegers Artifacts.
Proof. no_integers_record Artifacts_fields. Qed.
#[export] Instance Artifacts_clone_valid : CloneValid Artifacts.
Proof. clone_valid_record clone_Artifacts Artifacts_fields. Qed.

(** *** [RetryPolicy] *)

#[export] Instance RetryPolicy_settable : Settable RetryPolicy := λ r, Build_RetryPolicy (rp_MaxRuns r)
  (rp_Backoff r).
Definition RetryPolicy_zero : RetryPolicy := Build_RetryPolicy 0 "".
Definition RetryPolicy_fields : list (field RetryPolicy) :=
  [Field "maxRuns" false rp_MaxRuns (λ x r, r <| rp_MaxRuns := x |>);
   Field "backoff" true rp_Backoff (λ x r, r <| rp_Backoff := x |>)].
#[export] Instance RetryPolicy_wire : Wire RetryPolicy := wire_struct RetryPolicy_fields RetryPolicy_zero.
Lemma RetryPolicy_fields_ok : struct_laws RetryPolicy_fields RetryPolicy_zero.
Proof. solve_struct RetryPolicy_fields. Qed.
#[export] Instance RetryPolicy_wire_laws : WireLaws RetryPolicy := wire_struct_laws _ _ RetryPolicy_fields_ok.
#[export] Instance RetryPolicy_not_null : NotNull RetryPolicy.
Proof. done. Qed.
#[export] Instance RetryPolicy_clone_valid : CloneValid RetryPolicy.
Proof. clone_valid_record clone_RetryPolicy RetryPolicy_fields. Qed.

(** *** [ExecutionPolicy] *)

#[export] Instance ExecutionPolicy_settable : Settable ExecutionPolicy := λ r, Build_ExecutionPolicy
  (ep_RunTimeout r) (ep_Retry r) (ep_DuplicateRisk r).
Definition ExecutionPolicy_zero : ExecutionPolicy := Build_ExecutionPolicy "" RetryPolicy_zero "".
Definition ExecutionPolicy_fields : list (field ExecutionPolicy) :=
  [Field "runTimeout" true ep_RunTimeout (λ x r, r <| ep_RunTimeout := x |>);
   Field "retry" false ep_Retry (λ x r, r <| ep_Retry := x |>);
   Field "duplicateRisk" false ep_DuplicateRisk (λ x r, r <| ep_DuplicateRisk := x |>)].
#[export] Instance ExecutionPolicy_wire : Wire ExecutionPolicy := wire_struct ExecutionPolicy_fields ExecutionPolicy_zero.
Lemma ExecutionPolicy_fields_ok : struct_laws ExecutionPolicy_fields ExecutionPolicy_zero.
Proof. solve_struct ExecutionPolicy_fields. Qed.
#[export] Instance ExecutionPolicy_wire_laws : WireLaws ExecutionPolicy := wire_struct_laws _ _ ExecutionPolicy_fields_ok.
#[export] Instance ExecutionPolicy_not_null : NotNull ExecutionPolicy.
Proof. done. Qed.
#[export] Instance ExecutionPolicy_clone_valid : CloneValid ExecutionPolicy.
Proof. clone_valid_record clone_ExecutionPolicy ExecutionPolicy_fields. Qed.

(** *** [Requirements] *)

#[export] Instance Requirements_settable : Settable Requirements := λ r, Build_Requirements
  (req_OperatingSystems r) (req_Architectures r) (req_Capabilities r).
Definition Requirements_zero : Requirements := Build_Requirements [] [] [].
Definition Requirements_fields : list (field Requirements) :=
  [Field "operatingSystems" true req_OperatingSystems (λ x r, r <| req_OperatingSystems := x |>);
   Field "architectures" true req_Architectures (λ x r, r <| req_Architectures := x |>);
   Field "capabilities" true req_Capabilities (λ x r, r <| req_Capabilities := x |>)].
#[export] Instance Requirements_wire : Wire Requirements := wire_struct Requirements_fields Requirements_zero.
Lemma Requirements_fields_ok : struct_laws Requirements_fields Requirements_zero.
Proof. solve_struct Requirements_fields. Qed.
#[export] Instance Requirements_wire_laws : WireLaws Requirements := wire_struct_laws _ _ Requirements_fields_ok.
#[export] Instance Requirements_not_null : NotNull Requirements.
Proof. done. Qed.
#[export] Instance Requirements_no_integers : NoIntegers Requirements.
Proof. no_integers_record Requirements_fields. Qed.
#[export] Instance Requirements_clone_valid : CloneValid Requirements.
Proof. clone_valid_record clone_Requirements Requirements_fields. Qed.

(** *** [WorkloadSpec] *)

#[export] Instance WorkloadSpec_settable : Settable WorkloadSpec := λ r, Build_WorkloadSpec (ws_Command r)
  (ws_WorkingDirectory r) (ws_Environment r) (ws_Resources r) (ws_Runtime r) (ws_Artifacts r) (ws_Policy r)
  (ws_Requirements r) (ws_Extensions r).
Definition WorkloadSpec_zero : WorkloadSpec := Build_WorkloadSpec Command_zero "" None None Runtime_zero None
  ExecutionPolicy_zero None ∅.
Definition WorkloadSpec_fields : list (field WorkloadSpec) :=
  [Field "command" false ws_Command (λ x r, r <| ws_Command := x |>);
   Field "workingDirectory" false ws_WorkingDirectory (λ x r, r <| ws_WorkingDirectory := x |>);
   Field "environment" true ws_Environment (λ x r, r <| ws_Environment := x |>);
   Field "resources" true ws_Resources (λ x r, r <| ws_Resources := x |>);
   Field "runtime" false ws_Runtime (λ x r, r <| ws_Runtime := x |>);
   Field "artifacts" true ws_Artifacts (λ x r, r <| ws_Artifacts := x |>);
   Field "policy" false ws_Policy (λ x r, r <| ws_Policy := x |>);
   Field "requirements" true ws_Requirements (λ x r, r <| ws_Requirements := x |>);
   Field (f_wire := wire_extensions) "extensions" true ws_Extensions (λ x r, r <| ws_Extensions := x |>)].
#[export] Instance WorkloadSpec_wire : Wire WorkloadSpec := wire_struct WorkloadSpec_fields WorkloadSpec_zero.
Lemma WorkloadSpec_fields_ok : struct_laws WorkloadSpec_fields WorkloadSpec_zero.
Proof. solve_struct WorkloadSpec_fields. Qed.
#[export] Instance WorkloadSpec_wire_laws : WireLaws WorkloadSpec := wire_struct_laws _ _ WorkloadSpec_fields_ok.
#[export] Instance WorkloadSpec_not_null : NotNull WorkloadSpec.
Proof. done. Qed.

(** *** [Workload] *)

#[export] Instance Workload_settable : Settable Workload := λ r, Build_Workload (w_APIVersion r) (w_Kind r)
  (w_Metadata r) (w_Spec r).
Definition Workload_zero : Workload := Build_Workload "" "" WorkloadMetadata_zero WorkloadSpec_zero.
Definition Workload_fields : list (field Workload) :=
  [Field "apiVersion" false w_APIVersion (λ x r, r <| w_APIVersion := x |>);
   Field "kind" false w_Kind (λ x r, r <| w_Kind := x |>);
   Field "metadata" false w_Metadata (λ x r, r <| w_Metadata := x |>);
   Field "spec" false w_Spec (λ x r, r <| w_Spec := x |>)].
#[export] Instance Workload_wire : Wire Workload := wire_struct Workload_fields Workload_zero.
Lemma Workload_fields_ok : struct_laws Workload_fields Workload_zero.
Proof. solve_struct Workload_fields. Qed.
#[export] Instance Workload_wire_laws : WireLaws Workload := wire_struct_laws _ _ Workload_fields_ok.
#[export] Instance Workload_not_null : NotNull Workload.
Proof. done. Qed.

(** *** [WorkloadBinding] *)

#[export] Instance WorkloadBinding_settable : Settable WorkloadBinding := λ r, Build_WorkloadBinding
  (wb_Digest r) (wb_Document r).
Definition WorkloadBinding_zero : WorkloadBinding := Build_WorkloadBinding "" Workload_zero.
Definition WorkloadBinding_fields : list (field WorkloadBinding) :=
  [Field "digest" false wb_Digest (λ x r, r <| wb_Digest := x |>);
   Field "document" false wb_Document (λ x r, r <| wb_Document := x |>)].
#[export] Instance WorkloadBinding_wire : Wire WorkloadBinding := wire_struct WorkloadBinding_fields WorkloadBinding_zero.
Lemma WorkloadBinding_fields_ok : struct_laws WorkloadBinding_fields WorkloadBinding_zero.
Proof. solve_struct WorkloadBinding_fields. Qed.
#[export] Instance WorkloadBinding_wire_laws : WireLaws WorkloadBinding := wire_struct_laws _ _ WorkloadBinding_fields_ok.
#[export] Instance WorkloadBinding_not_null : NotNull WorkloadBinding.
Proof. done. Qed.

(** *** [Placement] *)

#[export] Instance Placement_settable : Settable Placement := λ r, Build_Placement (pl_Target r) (pl_Partition
  r).
Definition Placement_zero : Placement := Build_Placement "" "".
Definition Placement_fields : list (field Placement) :=
  [Field "target" false pl_Target (λ x r, r <| pl_Target := x |>);
   Field "partition" true pl_Partition (λ x r, r <| pl_Partition := x |>)].
#[export] Instance Placement_wire : Wire Placement := wire_struct Placement_fields Placement_zero.
Lemma Placement_fields_ok : struct_laws Placement_fields Placement_zero.
Proof. solve_struct Placement_fields. Qed.
#[export] Instance Placement_wire_laws : WireLaws Placement := wire_struct_laws _ _ Placement_fields_ok.
#[export] Instance Placement_not_null : NotNull Placement.
Proof. done. Qed.
#[export] Instance Placement_no_integers : NoIntegers Placement.
Proof. no_integers_record Placement_fields. Qed.
#[export] Instance Placement_clone_valid : CloneValid Placement.
Proof. clone_valid_record clone_Placement Placement_fields. Qed.

(** *** [SlurmArrayBinding] *)

#[export] Instance SlurmArrayBinding_settable : Settable SlurmArrayBinding := λ r, Build_SlurmArrayBinding
  (sab_CollectionID r) (sab_TaskIndex r) (sab_TaskCount r) (sab_MaxParallel r).
Definition SlurmArrayBinding_zero : SlurmArrayBinding := Build_SlurmArrayBinding "" 0 0 0.
Definition SlurmArrayBinding_fields : list (field SlurmArrayBinding) :=
  [Field "collectionId" false sab_CollectionID (λ x r, r <| sab_CollectionID := x |>);
   Field "taskIndex" false sab_TaskIndex (λ x r, r <| sab_TaskIndex := x |>);
   Field "taskCount" false sab_TaskCount (λ x r, r <| sab_TaskCount := x |>);
   Field "maxParallel" false sab_MaxParallel (λ x r, r <| sab_MaxParallel := x |>)].
#[export] Instance SlurmArrayBinding_wire : Wire SlurmArrayBinding := wire_struct SlurmArrayBinding_fields SlurmArrayBinding_zero.
Lemma SlurmArrayBinding_fields_ok : struct_laws SlurmArrayBinding_fields SlurmArrayBinding_zero.
Proof. solve_struct SlurmArrayBinding_fields. Qed.
#[export] Instance SlurmArrayBinding_wire_laws : WireLaws SlurmArrayBinding := wire_struct_laws _ _ SlurmArrayBinding_fields_ok.
#[export] Instance SlurmArrayBinding_not_null : NotNull SlurmArrayBinding.
Proof. done. Qed.
#[export] Instance SlurmArrayBinding_clone_valid : CloneValid SlurmArrayBinding.
Proof. clone_valid_record clone_SlurmArrayBinding SlurmArrayBinding_fields. Qed.

(** *** [EffectiveExecutionMetadata] *)

#[export] Instance EffectiveExecutionMetadata_settable : Settable EffectiveExecutionMetadata := λ r,
  Build_EffectiveExecutionMetadata (eem_ExecutionID r) (eem_RunID r) (eem_JobID r) (eem_Namespace r)
  (eem_SlurmArray r).
Definition EffectiveExecutionMetadata_zero : EffectiveExecutionMetadata := Build_EffectiveExecutionMetadata ""
  "" "" "" None.
Definition EffectiveExecutionMetadata_fields : list (field EffectiveExecutionMetadata) :=
  [Field "executionId" false eem_ExecutionID (λ x r, r <| eem_ExecutionID := x |>);
   Field "runId" false eem_RunID (λ x r, r <| eem_RunID := x |>);
   Field "jobId" false eem_JobID (λ x r, r <| eem_JobID := x |>);
   Field "namespace" false eem_Namespace (λ x r, r <| eem_Namespace := x |>);
   Field "slurmArray" true eem_SlurmArray (λ x r, r <| eem_SlurmArray := x |>)].
#[export] Instance EffectiveExecutionMetadata_wire : Wire EffectiveExecutionMetadata := wire_struct EffectiveExecutionMetadata_fields EffectiveExecutionMetadata_zero.
Lemma EffectiveExecutionMetadata_fields_ok : struct_laws EffectiveExecutionMetadata_fields EffectiveExecutionMetadata_zero.
Proof. solve_struct EffectiveExecutionMetadata_fields. Qed.
#[export] Instance EffectiveExecutionMetadata_wire_laws : WireLaws EffectiveExecutionMetadata := wire_struct_laws _ _ EffectiveExecutionMetadata_fields_ok.
#[export] Instance EffectiveExecutionMetadata_not_null : NotNull EffectiveExecutionMetadata.
Proof. done. Qed.
#[export] Instance EffectiveExecutionMetadata_clone_valid : CloneValid EffectiveExecutionMetadata.
Proof. clone_valid_record clone_EffectiveExecutionMetadata EffectiveExecutionMetadata_fields. Qed.

(** *** [ArtifactStoreBinding] *)

#[export] Instance ArtifactStoreBinding_settable : Settable ArtifactStoreBinding := λ r,
  Build_ArtifactStoreBinding (asb_Name r) (asb_Version r).
Definition ArtifactStoreBinding_zero : ArtifactStoreBinding := Build_ArtifactStoreBinding "" 0.
Definition ArtifactStoreBinding_fields : list (field ArtifactStoreBinding) :=
  [Field "name" false asb_Name (λ x r, r <| asb_Name := x |>);
   Field "version" false asb_Version (λ x r, r <| asb_Version := x |>)].
#[export] Instance ArtifactStoreBinding_wire : Wire ArtifactStoreBinding := wire_struct ArtifactStoreBinding_fields ArtifactStoreBinding_zero.
Lemma ArtifactStoreBinding_fields_ok : struct_laws ArtifactStoreBinding_fields ArtifactStoreBinding_zero.
Proof. solve_struct ArtifactStoreBinding_fields. Qed.
#[export] Instance ArtifactStoreBinding_wire_laws : WireLaws ArtifactStoreBinding := wire_struct_laws _ _ ArtifactStoreBinding_fields_ok.
#[export] Instance ArtifactStoreBinding_not_null : NotNull ArtifactStoreBinding.
Proof. done. Qed.
#[export] Instance ArtifactStoreBinding_clone_valid : CloneValid ArtifactStoreBinding.
Proof. clone_valid_record clone_ArtifactStoreBinding ArtifactStoreBinding_fields. Qed.

(** *** [EffectivePlacement] *)

#[export] Instance EffectivePlacement_settable : Settable EffectivePlacement := λ r, Build_EffectivePlacement
  (epl_TargetID r) (epl_TargetGenerationID r) (epl_Target r) (epl_Partition r) (epl_ExecutionBackend r).
Definition EffectivePlacement_zero : EffectivePlacement := Build_EffectivePlacement "" "" "" "" "".
Definition EffectivePlacement_fields : list (field EffectivePlacement) :=
  [Field "targetId" false epl_TargetID (λ x r, r <| epl_TargetID := x |>);
   Field "targetGenerationId" false epl_TargetGenerationID (λ x r, r <| epl_TargetGenerationID := x |>);
   Field "target" false epl_Target (λ x r, r <| epl_Target := x |>);
   Field "partition" true epl_Partition (λ x r, r <| epl_Partition := x |>);
   Field "executionBackend" false epl_ExecutionBackend (λ x r, r <| epl_ExecutionBackend := x |>)].
#[export] Instance EffectivePlacement_wire : Wire EffectivePlacement := wire_struct EffectivePlacement_fields EffectivePlacement_zero.
Lemma EffectivePlacement_fields_ok : struct_laws EffectivePlacement_fields EffectivePlacement_zero.
Proof. solve_struct EffectivePlacement_fields. Qed.
#[export] Instance EffectivePlacement_wire_laws : WireLaws EffectivePlacement := wire_struct_laws _ _ EffectivePlacement_fields_ok.
#[export] Instance EffectivePlacement_not_null : NotNull EffectivePlacement.
Proof. done. Qed.
#[export] Instance EffectivePlacement_no_integers : NoIntegers EffectivePlacement.
Proof. no_integers_record EffectivePlacement_fields. Qed.
#[export] Instance EffectivePlacement_clone_valid : CloneValid EffectivePlacement.
Proof. clone_valid_record clone_EffectivePlacement EffectivePlacement_fields. Qed.

(** *** [EffectiveExecutionSpec] *)

#[export] Instance EffectiveExecutionSpec_settable : Settable EffectiveExecutionSpec := λ r,
  Build_EffectiveExecutionSpec (ees_Workload r) (ees_Placement r) (ees_ArtifactStores r).
Definition EffectiveExecutionSpec_zero : EffectiveExecutionSpec := Build_EffectiveExecutionSpec
  WorkloadBinding_zero EffectivePlacement_zero [].
Definition EffectiveExecutionSpec_fields : list (field EffectiveExecutionSpec) :=
  [Field "workload" false ees_Workload (λ x r, r <| ees_Workload := x |>);
   Field "placement" false ees_Placement (λ x r, r <| ees_Placement := x |>);
   Field "artifactStores" true ees_ArtifactStores (λ x r, r <| ees_ArtifactStores := x |>)].
#[export] Instance EffectiveExecutionSpec_wire : Wire EffectiveExecutionSpec := wire_struct EffectiveExecutionSpec_fields EffectiveExecutionSpec_zero.
Lemma EffectiveExecutionSpec_fields_ok : struct_laws EffectiveExecutionSpec_fields EffectiveExecutionSpec_zero.
Proof. solve_struct EffectiveExecutionSpec_fields. Qed.
#[export] Instance EffectiveExecutionSpec_wire_laws : WireLaws EffectiveExecutionSpec := wire_struct_laws _ _ EffectiveExecutionSpec_fields_ok.
#[export] Instance EffectiveExecutionSpec_not_null : NotNull EffectiveExecutionSpec.
Proof. done. Qed.

(** *** [EffectiveExecution] *)

#[export] Instance EffectiveExecution_settable : Settable EffectiveExecution := λ r, Build_EffectiveExecution
  (ee_APIVersion r) (ee_Kind r) (ee_Metadata r) (ee_Spec r).
Definition EffectiveExecution_zero : EffectiveExecution := Build_EffectiveExecution "" ""
  EffectiveExecutionMetadata_zero EffectiveExecutionSpec_zero.
Definition EffectiveExecution_fields : list (field EffectiveExecution) :=
  [Field "apiVersion" false ee_APIVersion (λ x r, r <| ee_APIVersion := x |>);
   Field "kind" false ee_Kind (λ x r, r <| ee_Kind := x |>);
   Field "metadata" false ee_Metadata (λ x r, r <| ee_Metadata := x |>);
   Field "spec" false ee_Spec (λ x r, r <| ee_Spec := x |>)].
#[export] Instance EffectiveExecution_wire : Wire EffectiveExecution := wire_struct EffectiveExecution_fields EffectiveExecution_zero.
Lemma EffectiveExecution_fields_ok : struct_laws EffectiveExecution_fields EffectiveExecution_zero.
Proof. solve_struct EffectiveExecution_fields. Qed.
#[export] Instance EffectiveExecution_wire_laws : WireLaws EffectiveExecution := wire_struct_laws _ _ EffectiveExecution_fields_ok.
#[export] Instance EffectiveExecution_not_null : NotNull EffectiveExecution.
Proof. done. Qed.

(** *** [AgentAssignmentMetadata] *)

#[export] Instance AgentAssignmentMetadata_settable : Settable AgentAssignmentMetadata := λ r,
  Build_AgentAssignmentMetadata (aam_DeliveryID r) (aam_AgentID r).
Definition AgentAssignmentMetadata_zero : AgentAssignmentMetadata := Build_AgentAssignmentMetadata "" "".
Definition AgentAssignmentMetadata_fields : list (field AgentAssignmentMetadata) :=
  [Field "deliveryId" false aam_DeliveryID (λ x r, r <| aam_DeliveryID := x |>);
   Field "agentId" false aam_AgentID (λ x r, r <| aam_AgentID := x |>)].
#[export] Instance AgentAssignmentMetadata_wire : Wire AgentAssignmentMetadata := wire_struct AgentAssignmentMetadata_fields AgentAssignmentMetadata_zero.
Lemma AgentAssignmentMetadata_fields_ok : struct_laws AgentAssignmentMetadata_fields AgentAssignmentMetadata_zero.
Proof. solve_struct AgentAssignmentMetadata_fields. Qed.
#[export] Instance AgentAssignmentMetadata_wire_laws : WireLaws AgentAssignmentMetadata := wire_struct_laws _ _ AgentAssignmentMetadata_fields_ok.
#[export] Instance AgentAssignmentMetadata_not_null : NotNull AgentAssignmentMetadata.
Proof. done. Qed.
#[export] Instance AgentAssignmentMetadata_no_integers : NoIntegers AgentAssignmentMetadata.
Proof. no_integers_record AgentAssignmentMetadata_fields. Qed.
#[export] Instance AgentAssignmentMetadata_clone_valid : CloneValid AgentAssignmentMetadata.
Proof. clone_valid_record clone_AgentAssignmentMetadata AgentAssignmentMetadata_fields. Qed.

(** *** [AgentAssignmentSpec] *)

#[export] Instance AgentAssignmentSpec_settable : Settable AgentAssignmentSpec := λ r,
  Build_AgentAssignmentSpec (aas_EffectiveExecutionDigest r) (aas_EffectiveExecution r).
Definition AgentAssignmentSpec_zero : AgentAssignmentSpec := Build_AgentAssignmentSpec ""
  EffectiveExecution_zero.
Definition AgentAssignmentSpec_fields : list (field AgentAssignmentSpec) :=
  [Field "effectiveExecutionDigest" false aas_EffectiveExecutionDigest (λ x r, r <| aas_EffectiveExecutionDigest := x |>);
   Field "effectiveExecution" false aas_EffectiveExecution (λ x r, r <| aas_EffectiveExecution := x |>)].
#[export] Instance AgentAssignmentSpec_wire : Wire AgentAssignmentSpec := wire_struct AgentAssignmentSpec_fields AgentAssignmentSpec_zero.
Lemma AgentAssignmentSpec_fields_ok : struct_laws AgentAssignmentSpec_fields AgentAssignmentSpec_zero.
Proof. solve_struct AgentAssignmentSpec_fields. Qed.
#[export] Instance AgentAssignmentSpec_wire_laws : WireLaws AgentAssignmentSpec := wire_struct_laws _ _ AgentAssignmentSpec_fields_ok.
#[export] Instance AgentAssignmentSpec_not_null : NotNull AgentAssignmentSpec.
Proof. done. Qed.

(** *** [AgentAssignment] *)

#[export] Instance AgentAssignment_settable : Settable AgentAssignment := λ r, Build_AgentAssignment
  (aa_APIVersion r) (aa_Kind r) (aa_Metadata r) (aa_Spec r).
Definition AgentAssignment_zero : AgentAssignment := Build_AgentAssignment "" "" AgentAssignmentMetadata_zero
  AgentAssignmentSpec_zero.
Definition AgentAssignment_fields : list (field AgentAssignment) :=
  [Field "apiVersion" false aa_APIVersion (λ x r, r <| aa_APIVersion := x |>);
   Field "kind" false aa_Kind (λ x r, r <| aa_Kind := x |>);
   Field "metadata" false aa_Metadata (λ x r, r <| aa_Metadata := x |>);
   Field "spec" false aa_Spec (λ x r, r <| aa_Spec := x |>)].
#[export] Instance AgentAssignment_wire : Wire AgentAssignment := wire_struct AgentAssignment_fields AgentAssignment_zero.
Lemma AgentAssignment_fields_ok : struct_laws AgentAssignment_fields AgentAssignment_zero.
Proof. solve_struct AgentAssignment_fields. Qed.
#[export] Instance AgentAssignment_wire_laws : WireLaws AgentAssignment := wire_struct_laws _ _ AgentAssignment_fields_ok.
#[export] Instance AgentAssignment_not_null : NotNull AgentAssignment.
Proof. done. Qed.

(** *** [JobRequestMetadata] *)

#[export] Instance JobRequestMetadata_settable : Settable JobRequestMetadata := λ r, Build_JobRequestMetadata
  (jrm_Namespace r) (jrm_Name r) (jrm_Labels r).
Definition JobRequestMetadata_zero : JobRequestMetadata := Build_JobRequestMetadata "" "" ∅.
Definition JobRequestMetadata_fields : list (field JobRequestMetadata) :=
  [Field "namespace" false jrm_Namespace (λ x r, r <| jrm_Namespace := x |>);
   Field "name" false jrm_Name (λ x r, r <| jrm_Name := x |>);
   Field "labels" true jrm_Labels (λ x r, r <| jrm_Labels := x |>)].
#[export] Instance JobRequestMetadata_wire : Wire JobRequestMetadata := wire_struct JobRequestMetadata_fields JobRequestMetadata_zero.
Lemma JobRequestMetadata_fields_ok : struct_laws JobRequestMetadata_fields JobRequestMetadata_zero.
Proof. solve_struct JobRequestMetadata_fields. Qed.
#[export] Instance JobRequestMetadata_wire_laws : WireLaws JobRequestMetadata := wire_struct_laws _ _ JobRequestMetadata_fields_ok.
#[export] Instance JobRequestMetadata_not_null : NotNull JobRequestMetadata.
Proof. done. Qed.
#[export] Instance JobRequestMetadata_no_integers : NoIntegers JobRequestMetadata.
Proof. no_integers_record JobRequestMetadata_fields. Qed.
#[export] Instance JobRequestMetadata_clone_valid : CloneValid JobRequestMetadata.
Proof. clone_valid_record clone_JobRequestMetadata JobRequestMetadata_fields. Qed.

(** *** [JobRequestSpec] *)

#[export] Instance JobRequestSpec_settable : Settable JobRequestSpec := λ r, Build_JobRequestSpec
  (jrs_Workload r) (jrs_Placement r).
Definition JobRequestSpec_zero : JobRequestSpec := Build_JobRequestSpec WorkloadBinding_zero Placement_zero.
Definition JobRequestSpec_fields : list (field JobRequestSpec) :=
  [Field "workload" false jrs_Workload (λ x r, r <| jrs_Workload := x |>);
   Field "placement" false jrs_Placement (λ x r, r <| jrs_Placement := x |>)].
#[export] Instance JobRequestSpec_wire : Wire JobRequestSpec := wire_struct JobRequestSpec_fields JobRequestSpec_zero.
Lemma JobRequestSpec_fields_ok : struct_laws JobRequestSpec_fields JobRequestSpec_zero.
Proof. solve_struct JobRequestSpec_fields. Qed.
#[export] Instance JobRequestSpec_wire_laws : WireLaws JobRequestSpec := wire_struct_laws _ _ JobRequestSpec_fields_ok.
#[export] Instance JobRequestSpec_not_null : NotNull JobRequestSpec.
Proof. done. Qed.

(** *** [JobRequest] *)

#[export] Instance JobRequest_settable : Settable JobRequest := λ r, Build_JobRequest (jr_APIVersion r)
  (jr_Kind r) (jr_Metadata r) (jr_Spec r).
Definition JobRequest_zero : JobRequest := Build_JobRequest "" "" JobRequestMetadata_zero JobRequestSpec_zero.
Definition JobRequest_fields : list (field JobRequest) :=
  [Field "apiVersion" false jr_APIVersion (λ x r, r <| jr_APIVersion := x |>);
   Field "kind" false jr_Kind (λ x r, r <| jr_Kind := x |>);
   Field "metadata" false jr_Metadata (λ x r, r <| jr_Metadata := x |>);
   Field "spec" false jr_Spec (λ x r, r <| jr_Spec := x |>)].
#[export] Instance JobRequest_wire : Wire JobRequest := wire_struct JobRequest_fields JobRequest_zero.
Lemma JobRequest_fields_ok : struct_laws JobRequest_fields JobRequest_zero.
Proof. solve_struct JobRequest_fields. Qed.
#[export] Instance JobRequest_wire_laws : WireLaws JobRequest := wire_struct_laws _ _ JobRequest_fields_ok.
#[export] Instance JobRequest_not_null : NotNull JobRequest.
Proof. done. Qed.

(** *** [CollectionItem] *)

#[export] Instance CollectionItem_settable : Settable CollectionItem := λ r, Build_CollectionItem (ci_Name r)
  (ci_Workload r) (ci_Placement r).
Definition CollectionItem_zero : CollectionItem := Build_CollectionItem "" WorkloadBinding_zero
  Placement_zero.
Definition CollectionItem_fields : list (field CollectionItem) :=
  [Field "name" false ci_Name (λ x r, r <| ci_Name := x |>);
   Field "workload" false ci_Workload (λ x r, r <| ci_Workload := x |>);
   Field "placement" false ci_Placement (λ x r, r <| ci_Placement := x |>)].
#[export] Instance CollectionItem_wire : Wire CollectionItem := wire_struct CollectionItem_fields CollectionItem_zero.
Lemma CollectionItem_fields_ok : struct_laws CollectionItem_fields CollectionItem_zero.
Proof. solve_struct CollectionItem_fields. Qed.
#[export] Instance CollectionItem_wire_laws : WireLaws CollectionItem := wire_struct_laws _ _ CollectionItem_fields_ok.
#[export] Instance CollectionItem_not_null : NotNull CollectionItem.
Proof. done. Qed.

(** *** [CollectionRequestMetadata] *)

#[export] Instance CollectionRequestMetadata_settable : Settable CollectionRequestMetadata := λ r,
  Build_CollectionRequestMetadata (crm_Namespace r) (crm_Name r) (crm_Labels r).
Definition CollectionRequestMetadata_zero : CollectionRequestMetadata := Build_CollectionRequestMetadata "" ""
  ∅.
Definition CollectionRequestMetadata_fields : list (field CollectionRequestMetadata) :=
  [Field "namespace" false crm_Namespace (λ x r, r <| crm_Namespace := x |>);
   Field "name" false crm_Name (λ x r, r <| crm_Name := x |>);
   Field "labels" true crm_Labels (λ x r, r <| crm_Labels := x |>)].
#[export] Instance CollectionRequestMetadata_wire : Wire CollectionRequestMetadata := wire_struct CollectionRequestMetadata_fields CollectionRequestMetadata_zero.
Lemma CollectionRequestMetadata_fields_ok : struct_laws CollectionRequestMetadata_fields CollectionRequestMetadata_zero.
Proof. solve_struct CollectionRequestMetadata_fields. Qed.
#[export] Instance CollectionRequestMetadata_wire_laws : WireLaws CollectionRequestMetadata := wire_struct_laws _ _ CollectionRequestMetadata_fields_ok.
#[export] Instance CollectionRequestMetadata_not_null : NotNull CollectionRequestMetadata.
Proof. done. Qed.
#[export] Instance CollectionRequestMetadata_no_integers : NoIntegers CollectionRequestMetadata.
Proof. no_integers_record CollectionRequestMetadata_fields. Qed.
#[export] Instance CollectionRequestMetadata_clone_valid : CloneValid CollectionRequestMetadata.
Proof. clone_valid_record clone_CollectionRequestMetadata CollectionRequestMetadata_fields. Qed.

(** *** [CollectionRequestSpec] *)

#[export] Instance CollectionRequestSpec_settable : Settable CollectionRequestSpec := λ r,
  Build_CollectionRequestSpec (crs_Items r) (crs_MaxActive r) (crs_FailurePolicy r) (crs_ArrayPolicy r).
Definition CollectionRequestSpec_zero : CollectionRequestSpec := Build_CollectionRequestSpec [] 0 "" "".
Definition CollectionRequestSpec_fields : list (field CollectionRequestSpec) :=
  [Field "items" false crs_Items (λ x r, r <| crs_Items := x |>);
   Field "maxActive" false crs_MaxActive (λ x r, r <| crs_MaxActive := x |>);
   Field "failurePolicy" false crs_FailurePolicy (λ x r, r <| crs_FailurePolicy := x |>);
   Field "arrayPolicy" false crs_ArrayPolicy (λ x r, r <| crs_ArrayPolicy := x |>)].
#[export] Instance CollectionRequestSpec_wire : Wire CollectionRequestSpec := wire_struct CollectionRequestSpec_fields CollectionRequestSpec_zero.
Lemma CollectionRequestSpec_fields_ok : struct_laws CollectionRequestSpec_fields CollectionRequestSpec_zero.
Proof. solve_struct CollectionRequestSpec_fields. Qed.
#[export] Instance CollectionRequestSpec_wire_laws : WireLaws CollectionRequestSpec := wire_struct_laws _ _ CollectionRequestSpec_fields_ok.
#[export] Instance CollectionRequestSpec_not_null : NotNull CollectionRequestSpec.
Proof. done. Qed.

(** *** [CollectionRequest] *)

#[export] Instance CollectionRequest_settable : Settable CollectionRequest := λ r, Build_CollectionRequest
  (cq_APIVersion r) (cq_Kind r) (cq_Metadata r) (cq_Spec r).
Definition CollectionRequest_zero : CollectionRequest := Build_CollectionRequest "" ""
  CollectionRequestMetadata_zero CollectionRequestSpec_zero.
Definition CollectionRequest_fields : list (field CollectionRequest) :=
  [Field "apiVersion" false cq_APIVersion (λ x r, r <| cq_APIVersion := x |>);
   Field "kind" false cq_Kind (λ x r, r <| cq_Kind := x |>);
   Field "metadata" false cq_Metadata (λ x r, r <| cq_Metadata := x |>);
   Field "spec" false cq_Spec (λ x r, r <| cq_Spec := x |>)].
#[export] Instance CollectionRequest_wire : Wire CollectionRequest := wire_struct CollectionRequest_fields CollectionRequest_zero.
Lemma CollectionRequest_fields_ok : struct_laws CollectionRequest_fields CollectionRequest_zero.
Proof. solve_struct CollectionRequest_fields. Qed.
#[export] Instance CollectionRequest_wire_laws : WireLaws CollectionRequest := wire_struct_laws _ _ CollectionRequest_fields_ok.
#[export] Instance CollectionRequest_not_null : NotNull CollectionRequest.
Proof. done. Qed.

(** *** [GraphEdge] *)

#[export] Instance GraphEdge_settable : Settable GraphEdge := λ r, Build_GraphEdge (ge_From r) (ge_To r)
  (ge_Predicate r) (ge_Outcomes r).
Definition GraphEdge_zero : GraphEdge := Build_GraphEdge "" "" "" [].
Definition GraphEdge_fields : list (field GraphEdge) :=
  [Field "from" false ge_From (λ x r, r <| ge_From := x |>);
   Field "to" false ge_To (λ x r, r <| ge_To := x |>);
   Field "predicate" false ge_Predicate (λ x r, r <| ge_Predicate := x |>);
   Field "outcomes" true ge_Outcomes (λ x r, r <| ge_Outcomes := x |>)].
#[export] Instance GraphEdge_wire : Wire GraphEdge := wire_struct GraphEdge_fields GraphEdge_zero.
Lemma GraphEdge_fields_ok : struct_laws GraphEdge_fields GraphEdge_zero.
Proof. solve_struct GraphEdge_fields. Qed.
#[export] Instance GraphEdge_wire_laws : WireLaws GraphEdge := wire_struct_laws _ _ GraphEdge_fields_ok.
#[export] Instance GraphEdge_not_null : NotNull GraphEdge.
Proof. done. Qed.
#[export] Instance GraphEdge_no_integers : NoIntegers GraphEdge.
Proof. no_integers_record GraphEdge_fields. Qed.
#[export] Instance GraphEdge_clone_valid : CloneValid GraphEdge.
Proof. clone_valid_record clone_GraphEdge GraphEdge_fields. Qed.

(** *** [GraphNode] *)

#[export] Instance GraphNode_settable : Settable GraphNode := λ r, Build_GraphNode (gn_Name r) (gn_Workload r)
  (gn_Placement r).
Definition GraphNode_zero : GraphNode := Build_GraphNode "" WorkloadBinding_zero Placement_zero.
Definition GraphNode_fields : list (field GraphNode) :=
  [Field "name" false gn_Name (λ x r, r <| gn_Name := x |>);
   Field "workload" false gn_Workload (λ x r, r <| gn_Workload := x |>);
   Field "placement" false gn_Placement (λ x r, r <| gn_Placement := x |>)].
#[export] Instance GraphNode_wire : Wire GraphNode := wire_struct GraphNode_fields GraphNode_zero.
Lemma GraphNode_fields_ok : struct_laws GraphNode_fields GraphNode_zero.
Proof. solve_struct GraphNode_fields. Qed.
#[export] Instance GraphNode_wire_laws : WireLaws GraphNode := wire_struct_laws _ _ GraphNode_fields_ok.
#[export] Instance GraphNode_not_null : NotNull GraphNode.
Proof. done. Qed.

(** *** [GraphRequestMetadata] *)

#[export] Instance GraphRequestMetadata_settable : Settable GraphRequestMetadata := λ r,
  Build_GraphRequestMetadata (grm_Namespace r) (grm_Name r) (grm_Labels r).
Definition GraphRequestMetadata_zero : GraphRequestMetadata := Build_GraphRequestMetadata "" "" ∅.
Definition GraphRequestMetadata_fields : list (field GraphRequestMetadata) :=
  [Field "namespace" false grm_Namespace (λ x r, r <| grm_Namespace := x |>);
   Field "name" false grm_Name (λ x r, r <| grm_Name := x |>);
   Field "labels" true grm_Labels (λ x r, r <| grm_Labels := x |>)].
#[export] Instance GraphRequestMetadata_wire : Wire GraphRequestMetadata := wire_struct GraphRequestMetadata_fields GraphRequestMetadata_zero.
Lemma GraphRequestMetadata_fields_ok : struct_laws GraphRequestMetadata_fields GraphRequestMetadata_zero.
Proof. solve_struct GraphRequestMetadata_fields. Qed.
#[export] Instance GraphRequestMetadata_wire_laws : WireLaws GraphRequestMetadata := wire_struct_laws _ _ GraphRequestMetadata_fields_ok.
#[export] Instance GraphRequestMetadata_not_null : NotNull GraphRequestMetadata.
Proof. done. Qed.
#[export] Instance GraphRequestMetadata_no_integers : NoIntegers GraphRequestMetadata.
Proof. no_integers_record GraphRequestMetadata_fields. Qed.
#[export] Instance GraphRequestMetadata_clone_valid : CloneValid GraphRequestMetadata.
Proof. clone_valid_record clone_GraphRequestMetadata GraphRequestMetadata_fields. Qed.

(** *** [GraphRequestSpec] *)

#[export] Instance GraphRequestSpec_settable : Settable GraphRequestSpec := λ r, Build_GraphRequestSpec
  (grs_Nodes r) (grs_Edges r) (grs_MaxActive r) (grs_UnsatisfiedPolicy r).
Definition GraphRequestSpec_zero : GraphRequestSpec := Build_GraphRequestSpec [] [] 0 "".
Definition GraphRequestSpec_fields : list (field GraphRequestSpec) :=
  [Field "nodes" false grs_Nodes (λ x r, r <| grs_Nodes := x |>);
   Field "edges" true grs_Edges (λ x r, r <| grs_Edges := x |>);
   Field "maxActive" false grs_MaxActive (λ x r, r <| grs_MaxActive := x |>);
   Field "unsatisfiedPolicy" false grs_UnsatisfiedPolicy (λ x r, r <| grs_UnsatisfiedPolicy := x |>)].
#[export] Instance GraphRequestSpec_wire : Wire GraphRequestSpec := wire_struct GraphRequestSpec_fields GraphRequestSpec_zero.
Lemma GraphRequestSpec_fields_ok : struct_laws GraphRequestSpec_fields GraphRequestSpec_zero.
Proof. solve_struct GraphRequestSpec_fields. Qed.
#[export] Instance GraphRequestSpec_wire_laws : WireLaws GraphRequestSpec := wire_struct_laws _ _ GraphRequestSpec_fields_ok.
#[export] Instance GraphRequestSpec_not_null : NotNull GraphRequestSpec.
Proof. done. Qed.

(** *** [GraphRequest] *)

#[export] Instance GraphRequest_settable : Settable GraphRequest := λ r, Build_GraphRequest (gr_APIVersion r)
  (gr_Kind r) (gr_Metadata r) (gr_Spec r).
Definition GraphRequest_zero : GraphRequest := Build_GraphRequest "" "" GraphRequestMetadata_zero
  GraphRequestSpec_zero.
Definition GraphRequest_fields : list (field GraphRequest) :=
  [Field "apiVersion" false gr_APIVersion (λ x r, r <| gr_APIVersion := x |>);
   Field "kind" false gr_Kind (λ x r, r <| gr_Kind := x |>);
   Field "metadata" false gr_Metadata (λ x r, r <| gr_Metadata := x |>);
   Field "spec" false gr_Spec (λ x r, r <| gr_Spec := x |>)].
#[export] Instance GraphRequest_wire : Wire GraphRequest := wire_struct GraphRequest_fields GraphRequest_zero.
Lemma GraphRequest_fields_ok : struct_laws GraphRequest_fields GraphRequest_zero.
Proof. solve_struct GraphRequest_fields. Qed.
#[export] Instance GraphRequest_wire_laws : WireLaws GraphRequest := wire_struct_laws _ _ GraphRequest_fields_ok.
#[export] Instance GraphRequest_not_null : NotNull GraphRequest.
Proof. done. Qed.
