(* ===== verification/Codec.v ===== *)
(** * Sealing

    [contracts/jobman/v1alpha1/codec.go]: every document is cloned, normalized, validated, encoded
    and made canonical; its digest is the SHA-256 of the canonical text.  The validators that seal
    the documents they contain ([validate.go]) are here too.  The instance [codec] discharges the
    interface the store uses. *)
From S2P Require Import Prelude Regex Names Url Utf8 Number Kahn Graph Contract Json Sha256 Paths Clone Validate Normalize Wire Documents.

(** ** Canonical text *)

(** [json.Marshal] followed by [canonicalJSON] ([marshalCanonical] of [agent_contracts.go]). *)
Definition marshalCanonical {A} `{Wire A} (value : A) : result bytes :=
  wrap "canonicalize: %w" [] (canonicalJSON (Marshal (encode value)) defaultMaximumJSONDepth).

(** ** Workloads *)

Record SealedWorkload := { sw_Document : Workload; sw_CanonicalJSON : bytes; sw_Digest : string }.

Definition SealWorkload (value : Workload) : result SealedWorkload :=
  let cloned := clone value in
  cloned ← wrap "seal workload: %w" [] (normalizeWorkload cloned);
  ValidateWorkload cloned;;
  canonical ← wrap "seal workload: %w" [] (marshalCanonical cloned);
  Ok {| sw_Document := cloned; sw_CanonicalJSON := canonical; sw_Digest := digest canonical |}.

(** A supplied digest must be the digest of the sealed document. *)
Definition digest_mismatch (supplied sealed : string) : bool :=
  negb (bool_decide (supplied = "")) && negb (bool_decide (supplied = sealed)).

Definition normalizeWorkloadBinding (value : WorkloadBinding) : result WorkloadBinding :=
  sealed ← SealWorkload (wb_Document value);
  fail_if (digest_mismatch (wb_Digest value) (sw_Digest sealed)) (Errorf "workload digest does not match document" []);;
  Ok {| wb_Digest := sw_Digest sealed; wb_Document := sw_Document sealed |}.

Definition validateWorkloadBinding (value : WorkloadBinding) : result unit :=
  fail_if (negb (MatchString digestPattern (wb_Digest value))) (Errorf "invalid workload digest" []);;
  sealed ← SealWorkload (wb_Document value);
  fail_if (negb (bool_decide (wb_Digest value = sw_Digest sealed))) (Errorf "workload digest does not match document" []);;
  fail_if (negb (bool_decide (wb_Document value = sw_Document sealed))) (Errorf "workload document is not normalized" []).

(** ** Job requests *)

Record SealedJobRequest := {
  sjr_Document : JobRequest; sjr_CanonicalJSON : bytes; sjr_RequestDigest : string; sjr_WorkloadDigest : string }.

Definition validatePlacement (context : string) (placement : Placement) : result unit :=
  wrap context [] (validateName "target" (pl_Target placement));;
  validate_nonempty (λ p, wrap context [] (validateName "partition" p)) (pl_Partition placement).

Definition ValidateJobRequest (value : JobRequest) : result unit :=
  fail_if (negb (bool_decide (jr_APIVersion value = V1Alpha1)))
    (Errorf "validate job request: unsupported API version %q" [jr_APIVersion value]);;
  fail_if (negb (bool_decide (jr_Kind value = JobRequestKind))) (Errorf "validate job request: kind is %q" [jr_Kind value]);;
  wrap "validate job request: %w" [] (validateName "namespace" (jrm_Namespace (jr_Metadata value)));;
  wrap "validate job request: %w" [] (validateName "name" (jrm_Name (jr_Metadata value)));;
  wrap "validate job request: %w" [] (validateStringMap "job labels" (jrm_Labels (jr_Metadata value)) maximumNameBytes);;
  let workload := jrs_Workload (jr_Spec value) in
  fail_if (negb (MatchString digestPattern (wb_Digest workload))) (Errorf "validate job request: invalid workload digest" []);;
  sealed ← wrap "validate job request: workload: %w" [] (SealWorkload (wb_Document workload));
  fail_if (negb (bool_decide (wb_Digest workload = sw_Digest sealed)))
    (Errorf "validate job request: workload digest does not match document" []);;
  fail_if (negb (bool_decide (wb_Document workload = sw_Document sealed)))
    (Errorf "validate job request: workload document is not normalized" []);;
  validatePlacement "validate job request: placement: %w" (jrs_Placement (jr_Spec value)).

(** The workload binding of a request, a collection item or a graph node is replaced by the sealed
    workload. *)
Definition seal_binding (context mismatch : string) (args : list string) (binding : WorkloadBinding)
    : result WorkloadBinding :=
  sealed ← wrap context args (SealWorkload (wb_Document binding));
  fail_if (digest_mismatch (wb_Digest binding) (sw_Digest sealed)) (Errorf mismatch args);;
  Ok {| wb_Digest := sw_Digest sealed; wb_Document := sw_Document sealed |}.

Definition SealJobRequest (value : JobRequest) : result SealedJobRequest :=
  let cloned := clone value in
  binding ← seal_binding "seal job request: workload: %w" "seal job request: workload digest does not match document" []
              (jrs_Workload (jr_Spec cloned));
  let cloned := cloned <| jr_Spec ::= λ spec, spec <| jrs_Workload := binding |> |> in
  ValidateJobRequest cloned;;
  canonical ← wrap "seal job request: %w" [] (marshalCanonical cloned);
  Ok {| sjr_Document := cloned; sjr_CanonicalJSON := canonical; sjr_RequestDigest := digest canonical;
        sjr_WorkloadDigest := wb_Digest binding |}.

(** ** Collections *)

Record SealedCollectionRequest := {
  scr_Document : CollectionRequest; scr_CanonicalJSON : bytes; scr_RequestDigest : string;
  scr_WorkloadDigests : list string }.

(** The request a child is validated as. *)
Definition child_request (namespace name : string) (workload : WorkloadBinding) (placement : Placement) : JobRequest :=
  {| jr_APIVersion := V1Alpha1; jr_Kind := JobRequestKind;
     jr_Metadata := {| jrm_Namespace := namespace; jrm_Name := name; jrm_Labels := ∅ |};
     jr_Spec := {| jrs_Workload := workload; jrs_Placement := placement |} |}.

Definition validateCollectionItem (namespace : string) (seen : gset string) (item : CollectionItem) : result (gset string) :=
  wrap "validate collection request: %w" [] (validateName "item" (ci_Name item));;
  fail_if (bool_decide (ci_Name item ∈ seen)) (Errorf "validate collection request: item %q is duplicated" [ci_Name item]);;
  wrap "validate collection request: item %q: %w" [ci_Name item]
    (ValidateJobRequest (child_request namespace (ci_Name item) (ci_Workload item) (ci_Placement item)));;
  Ok ({[ci_Name item]} ∪ seen).

Definition ValidateCollectionRequest (value : CollectionRequest) : result unit :=
  let meta := cq_Metadata value in
  let spec := cq_Spec value in
  fail_if (negb (bool_decide (cq_APIVersion value = V1Alpha1)) || negb (bool_decide (cq_Kind value = CollectionRequestKind)))
    (Errorf "validate collection request: unsupported API version or kind" []);;
  wrap "validate collection request: %w" [] (validateName "namespace" (crm_Namespace meta));;
  wrap "validate collection request: %w" [] (validateName "name" (crm_Name meta));;
  wrap "validate collection request: %w" [] (validateStringMap "collection labels" (crm_Labels meta) maximumNameBytes);;
  fail_if (bool_decide (slice_len (crs_Items spec) = 0) || bool_decide (maximumCollectionItems < slice_len (crs_Items spec)))
    (Errorf "validate collection request: item count is out of bounds" []);;
  fail_if (bool_decide (crs_MaxActive spec < 1) || bool_decide (slice_len (crs_Items spec) < crs_MaxActive spec))
    (Errorf "validate collection request: maxActive is out of bounds" []);;
  fail_if (negb (slices_Contains ["continue"; "fail-fast"] (crs_FailurePolicy spec)))
    (Errorf "validate collection request: failure policy is unsupported" []);;
  fail_if (negb (slices_Contains ["never"; "prefer"; "require"] (crs_ArrayPolicy spec)))
    (Errorf "validate collection request: array policy is unsupported" []);;
  for_range (validateCollectionItem (crm_Namespace meta)) ∅ (crs_Items spec);;
  Ok tt.

(** The loop that seals the children, in order. *)
Definition seal_item (items : list CollectionItem) (item : CollectionItem) : result (list CollectionItem) :=
  binding ← seal_binding "seal collection request: item %q: %w"
              "seal collection request: item %q workload digest does not match document" [ci_Name item] (ci_Workload item);
  Ok (items ++ [item <| ci_Workload := binding |>]).

Definition SealCollectionRequest (value : CollectionRequest) : result SealedCollectionRequest :=
  let cloned := clone value in
  let spec := cq_Spec cloned in
  items ← for_range seal_item [] (crs_Items spec);
  let cloned := cloned <| cq_Spec :=
    {| crs_Items := items;
       crs_MaxActive := if bool_decide (crs_MaxActive spec = 0) then 1 else crs_MaxActive spec;
       crs_FailurePolicy := or_default "continue" (crs_FailurePolicy spec);
       crs_ArrayPolicy := or_default "prefer" (crs_ArrayPolicy spec) |} |> in
  ValidateCollectionRequest cloned;;
  canonical ← wrap "seal collection request: %w" [] (marshalCanonical cloned);
  Ok {| scr_Document := cloned; scr_CanonicalJSON := canonical; scr_RequestDigest := digest canonical;
        scr_WorkloadDigests := (λ item, wb_Digest (ci_Workload item)) <$> items |}.

(** ** Graphs *)

Record SealedGraphRequest := {
  sgr_Document : GraphRequest; sgr_CanonicalJSON : bytes; sgr_RequestDigest : string;
  sgr_WorkloadDigests : list string }.

Definition validateGraphRequestHeader (value : GraphRequest) : result unit :=
  let meta := gr_Metadata value in
  let spec := gr_Spec value in
  fail_if (negb (bool_decide (gr_APIVersion value = V1Alpha1)) || negb (bool_decide (gr_Kind value = GraphRequestKind)))
    (Errorf "validate graph request: unsupported API version or kind" []);;
  wrap "validate graph request: %w" [] (validateName "namespace" (grm_Namespace meta));;
  wrap "validate graph request: %w" [] (validateName "name" (grm_Name meta));;
  wrap "validate graph request: %w" [] (validateStringMap "graph labels" (grm_Labels meta) maximumNameBytes);;
  fail_if (bool_decide (slice_len (grs_Nodes spec) = 0) || bool_decide (maximumGraphNodes < slice_len (grs_Nodes spec)))
    (Errorf "validate graph request: node count is out of bounds" []);;
  fail_if (bool_decide (maximumGraphEdges < slice_len (grs_Edges spec)))
    (Errorf "validate graph request: edge count is out of bounds" []);;
  fail_if (bool_decide (grs_MaxActive spec < 1) || bool_decide (slice_len (grs_Nodes spec) < grs_MaxActive spec))
    (Errorf "validate graph request: maxActive is out of bounds" []);;
  fail_if (negb (slices_Contains ["skip"; "cancel"; "blocked"] (grs_UnsatisfiedPolicy spec)))
    (Errorf "validate graph request: unsatisfied policy is unsupported" []).

(** The loop of [validateGraphNodes]; the index of a node is the size of the map so far. *)
Definition validateGraphNode (namespace : string) (nodes : gmap string nat) (node : GraphNode) : result (gmap string nat) :=
  wrap "validate graph request: %w" [] (validateName "node" (gn_Name node));;
  fail_if (negb (is_nil (nodes !! gn_Name node))) (Errorf "validate graph request: node %q is duplicated" [gn_Name node]);;
  wrap "validate graph request: node %q: %w" [gn_Name node]
    (ValidateJobRequest (child_request namespace (gn_Name node) (gn_Workload node) (gn_Placement node)));;
  Ok (<[gn_Name node := size nodes]> nodes).
Definition validateGraphNodes (value : GraphRequest) : result (gmap string nat) :=
  for_range (validateGraphNode (grm_Namespace (gr_Metadata value))) ∅ (grs_Nodes (gr_Spec value)).

Definition ValidateGraphRequest (value : GraphRequest) : result unit :=
  validateGraphRequestHeader value;;
  nodes ← validateGraphNodes value;
  checkGraphEdges (grs_Edges (gr_Spec value)) nodes (length (grs_Nodes (gr_Spec value))).

Definition seal_node (nodes : list GraphNode) (node : GraphNode) : result (list GraphNode) :=
  binding ← seal_binding "seal graph request: node %q: %w"
              "seal graph request: node %q workload digest does not match document" [gn_Name node] (gn_Workload node);
  Ok (nodes ++ [node <| gn_Workload := binding |>]).

(** The order of edges: by source, then by target. *)
Definition edge_le (x y : GraphEdge) : bool :=
  if bool_decide (ge_From x = ge_From y) then bool_decide (String.le (ge_To x) (ge_To y))
  else bool_decide (String.le (ge_From x) (ge_From y)).

Definition SealGraphRequest (value : GraphRequest) : result SealedGraphRequest :=
  let cloned := clone value in
  let spec := gr_Spec cloned in
  nodes ← for_range seal_node [] (grs_Nodes spec);
  let edges := (λ edge, edge <| ge_Outcomes := sort_strings (ge_Outcomes edge) |>) <$> grs_Edges spec in
  let cloned := cloned <| gr_Spec :=
    {| grs_Nodes := nodes; grs_Edges := sort_with edge_le edges;
       grs_MaxActive := if bool_decide (grs_MaxActive spec = 0) then 1 else grs_MaxActive spec;
       grs_UnsatisfiedPolicy := or_default "skip" (grs_UnsatisfiedPolicy spec) |} |> in
  ValidateGraphRequest cloned;;
  canonical ← wrap "seal graph request: %w" [] (marshalCanonical cloned);
  Ok {| sgr_Document := cloned; sgr_CanonicalJSON := canonical; sgr_RequestDigest := digest canonical;
        sgr_WorkloadDigests := (λ node, wb_Digest (gn_Workload node)) <$> nodes |}.

(** ** Effective executions *)

Definition validate_identity (context : string) (identity : string * string) : result unit :=
  fail_if (negb (MatchString idPattern identity.2)) (Errorf context [identity.1]).

Definition invalid_array (backend : string) (array : SlurmArrayBinding) : bool :=
  negb (MatchString idPattern (sab_CollectionID array)) ||
  bool_decide (sab_TaskCount array < 2) || bool_decide (10000 < sab_TaskCount array) ||
  bool_decide (sab_TaskIndex array < 0) || bool_decide (sab_TaskCount array <= sab_TaskIndex array) ||
  bool_decide (sab_MaxParallel array < 1) || bool_decide (sab_TaskCount array < sab_MaxParallel array) ||
  negb (bool_decide (backend = slurmBackend)).

Definition validateArtifactStore (seen : gset string) (store : ArtifactStoreBinding) : result (gset string) :=
  fail_if (negb (is_ok (validateName "artifact store" (asb_Name store))) || bool_decide (asb_Version store < 1))
    (Errorf "validate effective execution: invalid artifact store binding" []);;
  fail_if (bool_decide (asb_Name store ∈ seen)) (Errorf "validate effective execution: duplicate artifact store binding" []);;
  Ok ({[asb_Name store]} ∪ seen).

Definition ValidateEffectiveExecution (value : EffectiveExecution) : result unit :=
  let meta := ee_Metadata value in
  let spec := ee_Spec value in
  let placement := ees_Placement spec in
  fail_if (negb (bool_decide (ee_APIVersion value = V1Alpha1)))
    (Errorf "validate effective execution: unsupported API version %q" [ee_APIVersion value]);;
  fail_if (negb (bool_decide (ee_Kind value = EffectiveExecutionKind)))
    (Errorf "validate effective execution: kind is %q" [ee_Kind value]);;
  for_each (validate_identity "validate effective execution: invalid %s")
    [("execution ID", eem_ExecutionID meta); ("run ID", eem_RunID meta); ("job ID", eem_JobID meta);
     ("target ID", epl_TargetID placement); ("target generation ID", epl_TargetGenerationID placement)];;
  wrap "validate effective execution: %w" [] (validateName "namespace" (eem_Namespace meta));;
  validate_optional (λ array, fail_if (invalid_array (epl_ExecutionBackend placement) array)
                                (Errorf "validate effective execution: invalid Slurm array binding" []))
    (eem_SlurmArray meta);;
  wrap "validate effective execution: workload: %w" [] (validateWorkloadBinding (ees_Workload spec));;
  wrap "validate effective execution: placement: %w" [] (validateName "target" (epl_Target placement));;
  validate_nonempty (λ p, wrap "validate effective execution: placement: %w" [] (validateName "partition" p))
    (epl_Partition placement);;
  fail_if (negb (slices_Contains ["subprocess"; slurmBackend] (epl_ExecutionBackend placement)))
    (Errorf "validate effective execution: unsupported execution backend" []);;
  for_range validateArtifactStore ∅ (ees_ArtifactStores spec);;
  fail_if (negb (is_sorted_by asb_Name (ees_ArtifactStores spec)))
    (Errorf "validate effective execution: artifact stores are not normalized" []);;
  fail_if (negb (Bool.eqb (negb (is_nil (ws_Artifacts (w_Spec (wb_Document (ees_Workload spec))))))
                          (negb (bool_decide (slice_len (ees_ArtifactStores spec) = 0)))))
    (Errorf "validate effective execution: artifact stores do not match workload artifacts" []).

Definition codec_SealEffectiveExecution (value : EffectiveExecution) : result SealedEffectiveExecution :=
  let cloned := clone value in
  binding ← wrap "seal effective execution: workload: %w" [] (normalizeWorkloadBinding (ees_Workload (ee_Spec cloned)));
  let cloned := cloned <| ee_Spec ::= λ spec,
    spec <| ees_Workload := binding |> <| ees_ArtifactStores := sort_by asb_Name (ees_ArtifactStores spec) |> |> in
  ValidateEffectiveExecution cloned;;
  canonical ← wrap "seal effective execution: %w" [] (marshalCanonical cloned);
  Ok {| see_Document := cloned; see_CanonicalJSON := canonical; see_Digest := digest canonical |}.

(** ** Assignments *)

Definition ValidateAgentAssignment (value : AgentAssignment) : result unit :=
  fail_if (negb (bool_decide (aa_APIVersion value = V1Alpha1)))
    (Errorf "validate agent assignment: unsupported API version %q" [aa_APIVersion value]);;
  fail_if (negb (bool_decide (aa_Kind value = AgentAssignmentKind)))
    (Errorf "validate agent assignment: kind is %q" [aa_Kind value]);;
  fail_if (negb (MatchString idPattern (aam_DeliveryID (aa_Metadata value))))
    (Errorf "validate agent assignment: invalid delivery ID" []);;
  fail_if (negb (MatchString idPattern (aam_AgentID (aa_Metadata value))))
    (Errorf "validate agent assignment: invalid agent ID" []);;
  fail_if (negb (MatchString digestPattern (aas_EffectiveExecutionDigest (aa_Spec value))))
    (Errorf "validate agent assignment: invalid effective execution digest" []);;
  sealed ← wrap "validate agent assignment: effective execution: %w" []
             (codec_SealEffectiveExecution (aas_EffectiveExecution (aa_Spec value)));
  fail_if (negb (bool_decide (aas_EffectiveExecutionDigest (aa_Spec value) = see_Digest sealed)))
    (Errorf "validate agent assignment: effective execution digest does not match document" []);;
  fail_if (negb (bool_decide (aas_EffectiveExecution (aa_Spec value) = see_Document sealed)))
    (Errorf "validate agent assignment: effective execution is not normalized" []).

Definition codec_SealAgentAssignment (value : AgentAssignment) : result SealedAgentAssignment :=
  let cloned := clone value in
  sealedExecution ← wrap "seal agent assignment: effective execution: %w" []
                      (codec_SealEffectiveExecution (aas_EffectiveExecution (aa_Spec cloned)));
  fail_if (digest_mismatch (aas_EffectiveExecutionDigest (aa_Spec cloned)) (see_Digest sealedExecution))
    (Errorf "seal agent assignment: effective execution digest does not match document" []);;
  let cloned := cloned <| aa_Spec :=
    {| aas_EffectiveExecutionDigest := see_Digest sealedExecution;
       aas_EffectiveExecution := see_Document sealedExecution |} |> in
  ValidateAgentAssignment cloned;;
  canonical ← wrap "seal agent assignment: %w" [] (marshalCanonical cloned);
  Ok {| saa_Document := cloned; saa_CanonicalJSON := canonical;
        saa_EffectiveExecutionDigest := see_Digest sealedExecution |}.

(** The codec as the store sees it. *)
Definition codec : Sealer := {|
  SealEffectiveExecution := codec_SealEffectiveExecution;
  SealAgentAssignment := codec_SealAgentAssignment |}.

(** ** Decoding *)

Definition defaultMaximumDecodeBytes : Z := 2 * 1024 * 1024.

(** [DecodeLimits]; a zero field selects the default. *)
Record DecodeLimits := { MaxBytes : Z; MaxDepth : Z }.

Definition readCanonical (source : bytes) (limits : DecodeLimits) : result bytes :=
  let maximumBytes := if bool_decide (MaxBytes limits = 0) then defaultMaximumDecodeBytes else MaxBytes limits in
  fail_if (bool_decide (maximumBytes < 1)) (Errorf "maximum bytes must be positive" []);;
  let maximumDepth := if bool_decide (MaxDepth limits = 0) then defaultMaximumJSONDepth else MaxDepth limits in
  fail_if (bool_decide (maximumDepth < 1)) (Errorf "maximum depth must be positive" []);;
  fail_if (bool_decide (maximumBytes < slice_len source)) (Errorf "input exceeds %d bytes" []);;
  canonicalJSON source maximumDepth.

(** [strictUnmarshal] of canonical text into a zero value.  Nesting is bounded by the length of the
    text; parsing canonical text again leaves its numbers as they are. *)
Definition strictUnmarshal {A} `{Wire A} (encoded : bytes) : result A :=
  value ← parse_canonical encoded (slice_len encoded);
  match unmarshal value zero with
  | Some a => Ok a
  | None => Err (Errorf "json: cannot unmarshal" [])
  end.

Definition decode_document {A} `{Wire A} (context : string) (source : bytes) (limits : DecodeLimits) : result A :=
  encoded ← wrap context [] (readCanonical source limits);
  wrap context [] (strictUnmarshal encoded).

Definition DecodeWorkload (source : bytes) (limits : DecodeLimits) : result SealedWorkload :=
  value ← decode_document "decode workload: %w" source limits; SealWorkload value.
Definition DecodeJobRequest (source : bytes) (limits : DecodeLimits) : result SealedJobRequest :=
  value ← decode_document "decode job request: %w" source limits; SealJobRequest value.
Definition DecodeCollectionRequest (source : bytes) (limits : DecodeLimits) : result SealedCollectionRequest :=
  value ← decode_document "decode collection request: %w" source limits; SealCollectionRequest value.
Definition DecodeGraphRequest (source : bytes) (limits : DecodeLimits) : result SealedGraphRequest :=
  value ← decode_document "decode graph request: %w" source limits; SealGraphRequest value.
Definition DecodeEffectiveExecution (source : bytes) (limits : DecodeLimits) : result SealedEffectiveExecution :=
  value ← decode_document "decode effective execution: %w" source limits; codec_SealEffectiveExecution value.
Definition DecodeAgentAssignment (source : bytes) (limits : DecodeLimits) : result SealedAgentAssignment :=
  value ← decode_document "decode agent assignment: %w" source limits; codec_SealAgentAssignment value.
