(* ===== verification/Sealing.v ===== *)
(** * What sealing guarantees

    Theorems about [contracts/jobman/v1alpha1/codec.go] as modelled in [Json.v], [Number.v] and
    [Codec.v]: canonical text, idempotent sealing, decoding of sealed documents, and the laws of
    the interface [Sealer] for the codec. *)
From S2P Require Import Prelude Regex Names Url Utf8 Number Kahn Graph Contract Json Sha256 Paths Duration Clone Validate Normalize Wire Documents Codec.

(** ** Sealed workloads *)

Lemma SealWorkload_ok v s : SealWorkload v = Ok s ↔
  normalizeWorkload (clone v) = Ok (sw_Document s) ∧ ValidateWorkload (sw_Document s) = Ok tt ∧
  marshalCanonical (sw_Document s) = Ok (sw_CanonicalJSON s) ∧ sw_Digest s = digest (sw_CanonicalJSON s).
Proof.
  unfold SealWorkload. split.
  - intros (d & Hd%wrap_ok & (Hv & (c & Hc%wrap_ok & [= <-])%bind_ok)%bind_unit_ok)%bind_ok. done.
  - intros (Hd & Hv & Hc & Hs). rewrite Hd. cbn. rewrite Hv. cbn. rewrite Hc. cbn. rewrite <-Hs. by destruct s.
Qed.

(** A sealed document is its own clone and normal form. *)
Lemma sealed_workload_normal v s : SealWorkload v = Ok s →
  clone (sw_Document s) = sw_Document s ∧ normalizeWorkload (sw_Document s) = Ok (sw_Document s).
Proof.
  intros (Hd & _)%SealWorkload_ok. split; [by eapply normalizeWorkload_cloned|by eapply normalizeWorkload_idem].
Qed.

Lemma SealWorkload_fixed v s : SealWorkload v = Ok s → SealWorkload (sw_Document s) = Ok s.
Proof.
  intros Hs. destruct (sealed_workload_normal v s Hs) as [Hc Hn]. apply SealWorkload_ok in Hs as (_ & Hv & Hm & Hd).
  apply SealWorkload_ok. by rewrite Hc.
Qed.

Lemma normalized_extensions w d : normalizeWorkload w = Ok d →
  map_Forall (λ _ raw, canonical_text raw) (ws_Extensions (w_Spec d)).
Proof.
  unfold normalizeWorkload. intros (ext & Hext & [= <-])%bind_ok k raw Hk. cbn in Hk.
  pose proof (map_each_spec _ _ _ Hext k) as Hspec. destruct (ws_Extensions (w_Spec w) !! k) as [v|]; [|congruence].
  destruct Hspec as (t & Ht & Hk'). simplify_eq. apply normalizeExtension_canonical in Ht as (l & ? & ? & ->). by exists (JObject l).
Qed.

Lemma workload_clone_valid w : clone w = w → map_Forall (λ _ raw, canonical_text raw) (ws_Extensions (w_Spec w)) → valid w.
Proof.
  destruct w as [api kind meta [cmd dir env res rt art pol req ext]]. intros Hw Hext. cbn in Hext.
  assert (valid (Build_WorkloadSpec cmd dir env res rt art pol req ext)) as Hspec.
  { match goal with |- valid ?r => change (List.Forall (λ f, valid (f_get f r)) WorkloadSpec_fields) end.
    revert Hw. clone_fields clone_Workload. unfold WorkloadSpec_fields.
    each_field ltac:(cbn; first [apply clone_valid; first [assumption|reflexivity] | idtac]).
    intros k raw Hk. split; [|by apply (Hext k)].
    match goal with H : clone_extensions ext = ext |- _ => unfold clone_extensions in H; rewrite <-H in Hk end.
    by apply clone_map_with_spec in Hk as [? _]. }
  match goal with |- valid ?r => change (List.Forall (λ f, valid (f_get f r)) Workload_fields) end.
  revert Hw. clone_fields clone_Workload. unfold Workload_fields.
  each_field ltac:(cbn; first [apply clone_valid; assumption | exact Hspec]).
Qed.

Lemma sealed_workload_valid v s : SealWorkload v = Ok s → valid (sw_Document s).
Proof.
  intros Hs. destruct (sealed_workload_normal v s Hs) as [Hc Hn]. apply workload_clone_valid; [done|].
  by eapply normalized_extensions.
Qed.

(** ** Decoding canonical text *)

Section decoding.
Context {A : Type} `{WireLaws A}.

Lemma marshalCanonical_text (a : A) c : valid a → marshalCanonical a = Ok c →
  c = Marshal (canon (encode a)) ∧ height (canon (encode a)) ≤ defaultMaximumJSONDepth.
Proof. intros Ha Hc%wrap_ok. apply canonicalJSON_encoded; [by apply wire_well_formed|done]. Qed.

(** The default limits. *)
Definition default_limits : DecodeLimits := {| MaxBytes := 0; MaxDepth := 0 |}.

(** Canonical text is read back when, and only when, every integer of the document has one digit. *)
Lemma decode_canonical_text context (a : A) c :
  valid a → marshalCanonical a = Ok c → slice_len c ≤ defaultMaximumDecodeBytes →
  decode_document context c default_limits =
    if small a then Ok a else Err (Wrapf context [] (Errorf "json: cannot unmarshal" [])).
Proof.
  intros Ha Hc Hlen. destruct (marshalCanonical_text a c Ha Hc) as [-> Hh]. unfold decode_document, readCanonical.
  change (bool_decide (MaxBytes default_limits = 0)) with true. change (bool_decide (MaxDepth default_limits = 0)) with true.
  cbn match. rewrite !bind_fail_if by (apply bool_decide_eq_false; (done || lia)).
  pose proof Hc as Hfix%wrap_ok. apply canonicalJSON_fixed in Hfix. rewrite Hfix. cbn [wrap mbind result_bind].
  pose proof (canon_correct _ (wire_well_formed a Ha)) as Hcan. unfold strictUnmarshal.
  rewrite parse_Marshal by (apply height_length || by apply canonical_wf). rewrite canon_canonical by done.
  cbn [mbind result_bind]. destruct (small a) eqn:Hs.
  - by rewrite wire_decode.
  - by rewrite wire_reject.
Qed.
End decoding.

(** ** Integers *)

(** The integer fields of a workload. *)
Definition workload_integers (w : Workload) : list Z :=
  rp_MaxRuns (ep_Retry (ws_Policy (w_Spec w))) ::
  match ws_Resources (w_Spec w) with
  | Some r => [res_CPU r; res_GPU r; res_Nodes r; res_Tasks r]
  | None => []
  end.

(** [small] of a struct, field by field; fields without integers are always small. *)
Ltac small_fields inst fs :=
  unfold inst at 1; rewrite (small_struct fs); unfold fs; rewrite ?Forall_cons, ?Forall_nil; cbn; rewrite ?no_integers.

Lemma small_int z : small z = true ↔ Z.abs z < 10.
Proof. apply bool_decide_eq_true. Qed.

Lemma small_resources r : small r = true ↔ Forall (λ z, Z.abs z < 10) [res_CPU r; res_GPU r; res_Nodes r; res_Tasks r].
Proof. small_fields Resources_wire Resources_fields. rewrite !small_int. tauto. Qed.

Lemma small_workload w : small w = true ↔ Forall (λ z, Z.abs z < 10) (workload_integers w).
Proof.
  small_fields Workload_wire Workload_fields. small_fields WorkloadSpec_wire WorkloadSpec_fields.
  small_fields ExecutionPolicy_wire ExecutionPolicy_fields. small_fields RetryPolicy_wire RetryPolicy_fields.
  unfold workload_integers. rewrite small_int, Forall_cons.
  assert (small (ws_Resources (w_Spec w)) = true ↔
    Forall (λ z, Z.abs z < 10) match ws_Resources (w_Spec w) with
                               | Some r => [res_CPU r; res_GPU r; res_Nodes r; res_Tasks r] | None => [] end) as ->.
  { destruct (ws_Resources (w_Spec w)) as [r|]; [exact (small_resources r)|]. by rewrite Forall_nil. }
  pose proof (no_integers (ws_Runtime (w_Spec w))). pose proof (no_integers (ws_Artifacts (w_Spec w))).
  pose proof (no_integers (ws_Requirements (w_Spec w))). assert (@small _ wire_extensions (ws_Extensions (w_Spec w)) = true) by done.
  pose proof (no_integers (ep_RunTimeout (ws_Policy (w_Spec w)))). pose proof (no_integers (ep_DuplicateRisk (ws_Policy (w_Spec w)))).
  pose proof (no_integers (rp_Backoff (ep_Retry (ws_Policy (w_Spec w))))). tauto.
Qed.

(** What decoding makes of the canonical text of a sealed workload. *)
Lemma decode_sealed v s :
  SealWorkload v = Ok s → slice_len (sw_CanonicalJSON s) ≤ defaultMaximumDecodeBytes →
  DecodeWorkload (sw_CanonicalJSON s) default_limits =
    if small (sw_Document s) then Ok s else Err (Wrapf "decode workload: %w" [] (Errorf "json: cannot unmarshal" [])).
Proof.
  intros Hs Hlen. unfold DecodeWorkload. pose proof Hs as (_ & _ & Hc & _)%SealWorkload_ok.
  rewrite (decode_canonical_text _ (sw_Document s)) by (done || by eapply sealed_workload_valid).
  destruct (small _); [|done]. cbn. by eapply SealWorkload_fixed.
Qed.

(** ** Patterns accept ASCII only *)

Definition all_bytes : bytes := byte <$> seqZ 0 256.
Lemma all_bytes_complete c : c ∈ all_bytes.
Proof.
  apply list_elem_of_fmap. exists (code c). split; [by rewrite byte_code|]. apply elem_of_seqZ. pose proof (code_range c). lia.
Qed.

(** Every class of the expression accepts ASCII bytes only. *)
Fixpoint regex_ascii (r : regex) : bool :=
  match r with
  | REmpty | REps => true
  | RClass p => forallb (λ c, negb (p c) || rune1 c) all_bytes
  | RSeq r1 r2 | RAlt r1 r2 => regex_ascii r1 && regex_ascii r2
  | RStar r | RRep r _ _ => regex_ascii r
  end.

Lemma matches_ascii r s : matches r s → regex_ascii r = true → Forall (λ c, rune1 c = true) s.
Proof.
  induction 1; cbn; rewrite ?andb_true_iff; intros Hr; repeat match goal with H : _ ∧ _ |- _ => destruct H end;
    try constructor; try apply Forall_app_2; auto.
  rewrite forallb_forall in Hr. specialize (Hr c). rewrite <-list_elem_of_In in Hr. specialize (Hr (all_bytes_complete c)).
  destruct (p c); [done|congruence].
Qed.

Lemma pattern_ascii r s : regex_ascii r = true → MatchString r s = true → Forall (λ c, rune1 c = true) (bytes_of s).
Proof. intros Hr Hs%MatchString_correct. by eapply matches_ascii. Qed.

Lemma clone_matching r (s : string) : regex_ascii r = true → MatchString r (clone s) = true → clone s = s.
Proof. intros Hr Hs. by eapply clone_string_ascii, pattern_ascii. Qed.

Lemma clone_identifier (s : string) : MatchString idPattern (clone s) = true → clone s = s.
Proof. apply clone_matching. vm_compute. reflexivity. Qed.
Lemma clone_name field (s : string) : validateName field (clone s) = Ok tt → clone s = s.
Proof.
  unfold validateName. intros [_ Hs%fail_if_ok]%bind_unit_ok. apply orb_false_iff in Hs as [_ Hs%negb_false_iff].
  eapply clone_matching; [|exact Hs]. vm_compute. reflexivity.
Qed.
Lemma clone_optional_name context field (s : string) :
  validate_nonempty (λ p, wrap context [] (validateName field p)) (clone s) = Ok tt → clone s = s.
Proof.
  unfold validate_nonempty. case_bool_decide as Hs; [|intros Hn%wrap_ok; by eapply clone_name].
  intros _. apply clone_string_ascii. rewrite Hs. constructor.
Qed.
Lemma clone_constant (s : string) l : clone s ∈ l → Forall (λ t, Forall (λ c, rune1 c = true) (bytes_of t)) l → clone s = s.
Proof. intros Hs Hl. apply clone_string_ascii. rewrite Forall_forall in Hl. by apply Hl. Qed.

(** ** The codec implements [Sealer] *)

Lemma digest_nonempty c : digest c ≠ "".
Proof. done. Qed.

Lemma SealEffectiveExecution_ok v s : codec_SealEffectiveExecution v = Ok s →
  ∃ binding, normalizeWorkloadBinding (ees_Workload (ee_Spec (clone v))) = Ok binding ∧
    see_Document s = (clone v) <| ee_Spec ::= λ spec,
      spec <| ees_Workload := binding |> <| ees_ArtifactStores := sort_by asb_Name (ees_ArtifactStores spec) |> |> ∧
    ValidateEffectiveExecution (see_Document s) = Ok tt ∧ marshalCanonical (see_Document s) = Ok (see_CanonicalJSON s) ∧
    see_Digest s = digest (see_CanonicalJSON s).
Proof.
  unfold codec_SealEffectiveExecution. intros (binding & Hb%wrap_ok & (Hv & (c & Hc%wrap_ok & [= <-])%bind_ok)%bind_unit_ok)%bind_ok.
  by exists binding.
Qed.

(** What validation says about the identities of an execution. *)
Record valid_identities (meta : EffectiveExecutionMetadata) (placement : EffectivePlacement) : Prop := {
  vi_execution : MatchString idPattern (eem_ExecutionID meta) = true;
  vi_run : MatchString idPattern (eem_RunID meta) = true;
  vi_job : MatchString idPattern (eem_JobID meta) = true;
  vi_target_id : MatchString idPattern (epl_TargetID placement) = true;
  vi_generation : MatchString idPattern (epl_TargetGenerationID placement) = true;
  vi_namespace : validateName "namespace" (eem_Namespace meta) = Ok tt;
  vi_array : ∀ a, eem_SlurmArray meta = Some a → invalid_array (epl_ExecutionBackend placement) a = false;
  vi_target : validateName "target" (epl_Target placement) = Ok tt;
  vi_partition : ∃ context, validate_nonempty (λ p, wrap context [] (validateName "partition" p)) (epl_Partition placement) = Ok tt;
  vi_backend : epl_ExecutionBackend placement ∈ ["subprocess"; slurmBackend] }.

Lemma effective_valid x : ValidateEffectiveExecution x = Ok tt → valid_identities (ee_Metadata x) (ees_Placement (ee_Spec x)).
Proof.
  unfold ValidateEffectiveExecution. cbv zeta. chain_iff.
  intros (_ & _ & Hids%for_each_ok & Hns & Harray & _ & Htarget & Hpart & Hbackend & _).
  rewrite !Forall_cons in Hids. unfold validate_identity in Hids. cbn [fst snd] in Hids. rewrite !fail_if_ok, !negb_false_iff in Hids.
  destruct Hids as (? & ? & ? & ? & ? & _). split; try done.
  - intros a Ha. rewrite Ha in Harray. by apply fail_if_ok in Harray.
  - by eexists.
  - by apply negb_false_iff, slices_Contains_spec in Hbackend.
Qed.

(** Valid cloned identities are the originals. *)
Lemma cloned_identities meta placement :
  valid_identities (clone meta) (clone placement) → clone meta = meta ∧ clone placement = placement.
Proof.
  destruct meta as [eid rid jid ns array], placement as [tid tgid target part backend].
  change (clone (Build_EffectiveExecutionMetadata eid rid jid ns array)) with
    (Build_EffectiveExecutionMetadata (clone eid) (clone rid) (clone jid) (clone ns) (clone array)).
  change (clone (Build_EffectivePlacement tid tgid target part backend)) with
    (Build_EffectivePlacement (clone tid) (clone tgid) (clone target) (clone part) (clone backend)).
  intros [H1 H2 H3 H4 H5 H6 H7 H8 [? H9] H10]. cbn in *.
  split; f_equal; try (by apply clone_identifier); try (by eapply clone_name); try (by eapply clone_optional_name).
  - destruct array as [[cid i n p]|]; [|done]. specialize (H7 _ eq_refl). unfold invalid_array in H7.
    repeat (apply orb_false_iff in H7 as [H7 _]). apply negb_false_iff in H7.
    change (clone (Some (Build_SlurmArrayBinding cid i n p))) with (Some (Build_SlurmArrayBinding (clone cid) i n p)).
    do 2 f_equal. by apply clone_identifier.
  - eapply clone_constant; [exact H10|]. by repeat constructor.
Qed.

Lemma seal_effective_identities v s : codec_SealEffectiveExecution v = Ok s →
  ee_Metadata (see_Document s) = ee_Metadata v ∧ ees_Placement (ee_Spec (see_Document s)) = ees_Placement (ee_Spec v).
Proof.
  intros (binding & _ & Hd & Hv%effective_valid & _)%SealEffectiveExecution_ok.
  assert (ee_Metadata (see_Document s) = clone (ee_Metadata v)) as Hm by (by rewrite Hd).
  assert (ees_Placement (ee_Spec (see_Document s)) = clone (ees_Placement (ee_Spec v))) as Hp by (by rewrite Hd).
  rewrite Hm, Hp in *. by apply cloned_identities.
Qed.

Lemma seal_effective_digest v s : codec_SealEffectiveExecution v = Ok s → see_Digest s = digest (see_CanonicalJSON s).
Proof. by intros (binding & _ & _ & _ & _ & Hd)%SealEffectiveExecution_ok. Qed.

Lemma SealAgentAssignment_ok v s : codec_SealAgentAssignment v = Ok s →
  ∃ e, codec_SealEffectiveExecution (clone (aas_EffectiveExecution (aa_Spec v))) = Ok e ∧
    digest_mismatch (clone (aas_EffectiveExecutionDigest (aa_Spec v))) (see_Digest e) = false ∧
    saa_Document s = (clone v) <| aa_Spec := {| aas_EffectiveExecutionDigest := see_Digest e;
                                              aas_EffectiveExecution := see_Document e |} |> ∧
    ValidateAgentAssignment (saa_Document s) = Ok tt ∧ saa_EffectiveExecutionDigest s = see_Digest e.
Proof.
  unfold codec_SealAgentAssignment. intros (e & He%wrap_ok & (Hm%fail_if_ok & (Hv & (c & Hc%wrap_ok & [= <-])%bind_ok)%bind_unit_ok)%bind_unit_ok)%bind_ok.
  exists e. split_and!; [exact He|exact Hm|reflexivity|exact Hv|reflexivity].
Qed.

Lemma digest_ascii c : Forall (λ x, rune1 x = true) (bytes_of (digest c)).
Proof. eapply pattern_ascii; [|apply digest_matches]. vm_compute. reflexivity. Qed.

Lemma seal_assignment_identities v s : codec_SealAgentAssignment v = Ok s →
  aa_Metadata (saa_Document s) = aa_Metadata v ∧
  aas_EffectiveExecutionDigest (aa_Spec (saa_Document s)) = saa_EffectiveExecutionDigest s ∧
  (aas_EffectiveExecutionDigest (aa_Spec v) ≠ "" →
   saa_EffectiveExecutionDigest s = aas_EffectiveExecutionDigest (aa_Spec v)) ∧
  ee_Metadata (aas_EffectiveExecution (aa_Spec (saa_Document s))) = ee_Metadata (aas_EffectiveExecution (aa_Spec v)) ∧
  ees_Placement (ee_Spec (aas_EffectiveExecution (aa_Spec (saa_Document s)))) =
    ees_Placement (ee_Spec (aas_EffectiveExecution (aa_Spec v))).
Proof.
  intros (e & He & Hm & Hd & Hv & Hs)%SealAgentAssignment_ok.
  pose proof (seal_effective_identities _ _ He) as [Hmeta Hplace].
  assert (∀ x : EffectiveExecution, ee_Metadata (clone x) = clone (ee_Metadata x) ∧
    ees_Placement (ee_Spec (clone x)) = clone (ees_Placement (ee_Spec x))) as Hclone by done.
  destruct (Hclone (aas_EffectiveExecution (aa_Spec v))) as [Hc1 Hc2]. rewrite Hc1 in Hmeta. rewrite Hc2 in Hplace.
  apply SealEffectiveExecution_ok in He as He'. destruct He' as (_ & _ & _ & Hvalid%effective_valid & _ & Hdig).
  rewrite Hmeta, Hplace in Hvalid. apply cloned_identities in Hvalid as [Hi1 Hi2].
  split_and!.
  - assert (aa_Metadata (saa_Document s) = clone (aa_Metadata v)) as Ha by (by rewrite Hd). rewrite Ha.
    unfold ValidateAgentAssignment in Hv. revert Hv. chain_iff. rewrite Ha, !negb_false_iff.
    intros (_ & _ & H1 & H2 & _). destruct (aa_Metadata v) as [d a].
    change (clone (Build_AgentAssignmentMetadata d a)) with (Build_AgentAssignmentMetadata (clone d) (clone a)) in *.
    cbn in H1, H2. f_equal; by apply clone_identifier.
  - by rewrite Hd, Hs.
  - intros Hne. rewrite Hs. unfold digest_mismatch in Hm. apply andb_false_iff in Hm as [Hm|Hm];
      apply negb_false_iff, bool_decide_eq_true in Hm.
    + exfalso. apply Hne. rewrite <-Hm. symmetry. apply clone_string_ascii. rewrite Hm. constructor.
    + rewrite <-Hm. apply clone_string_ascii. rewrite Hm, Hdig. apply digest_ascii.
  - rewrite Hd. cbn. by rewrite Hmeta.
  - rewrite Hd. cbn. by rewrite Hplace.
Qed.

(** Sealing starts from a clone, so it does not tell a document from its clone. *)
Lemma SealEffectiveExecution_clone x : codec_SealEffectiveExecution (clone x) = codec_SealEffectiveExecution x.
Proof. unfold codec_SealEffectiveExecution. by rewrite clone_clone. Qed.

(** The outcome is a function of the document sealed. *)
Lemma sealed_execution_ext v v' e e' : codec_SealEffectiveExecution v = Ok e → codec_SealEffectiveExecution v' = Ok e' →
  see_Document e = see_Document e' → e = e'.
Proof.
  intros (_ & _ & _ & _ & Hc & Hd)%SealEffectiveExecution_ok (_ & _ & _ & _ & Hc' & Hd')%SealEffectiveExecution_ok Heq.
  rewrite Heq, Hc' in Hc. injection Hc as Hc. destruct e, e'. cbn in *. congruence.
Qed.

(** What validation of an assignment says: its execution is in sealed form, under its own digest. *)
Lemma assignment_valid a : ValidateAgentAssignment a = Ok tt →
  ∃ e, codec_SealEffectiveExecution (aas_EffectiveExecution (aa_Spec a)) = Ok e ∧
    aas_EffectiveExecutionDigest (aa_Spec a) = see_Digest e ∧ aas_EffectiveExecution (aa_Spec a) = see_Document e.
Proof.
  unfold ValidateAgentAssignment.
  intros (_ & (_ & (_ & (_ & (_ & (e & He%wrap_ok & (Hd & Hx)%bind_unit_ok)%bind_ok)%bind_unit_ok)%bind_unit_ok)%bind_unit_ok)%bind_unit_ok)%bind_unit_ok.
  exists e. split; [done|]. by rewrite fail_if_ok, negb_false_iff, bool_decide_eq_true in Hd, Hx.
Qed.

(** The digest supplied with an assignment is compared with that of the document. *)
Lemma SealAgentAssignment_mismatch v e : codec_SealEffectiveExecution (aas_EffectiveExecution (aa_Spec v)) = Ok e →
  aas_EffectiveExecutionDigest (aa_Spec v) ∉ [""; see_Digest e] → ∃ err, codec_SealAgentAssignment v = Err err.
Proof.
  intros He Hne. destruct (codec_SealAgentAssignment v) as [s|] eqn:Hs; [|by eexists].
  apply SealAgentAssignment_ok in Hs as Hok. destruct Hok as (e' & He' & _ & _ & _ & Hd).
  rewrite SealEffectiveExecution_clone, He in He'. injection He' as <-.
  destruct (seal_assignment_identities v s Hs) as (_ & _ & Heq & _). rewrite Hd in Heq.
  destruct Hne. destruct (decide (aas_EffectiveExecutionDigest (aa_Spec v) = "")) as [->|Hn]; [left|].
  rewrite <-Heq by done. right. left.
Qed.

#[export] Instance codec_laws : @SealerLaws codec.
Proof.
  split.
  - intros v s Hs. destruct (seal_effective_identities v s Hs). split_and!; [done|done|].
    by rewrite (seal_effective_digest v s Hs).
  - intros v s. apply seal_assignment_identities.
Qed.
