(* ===== verification/Conformance.v ===== *)
(** * The conformance fixtures

    The documents of [contracts/jobman/v1alpha1/conformance], decoded and sealed by the model of the
    codec, with the outcomes and digests that [conformance/manifest.json] records for them. *)
From S2P Require Import Prelude Regex Names Url Utf8 Kahn Graph Contract Number Json Sha256 Paths Clone Validate Normalize Wire Documents Codec Sealing.

(** A fixture is written with single quotes in place of double quotes; none of them uses a single quote. *)
Definition fixture (s : string) : bytes :=
  (λ c, if bool_decide (c = "'"%char) then "034"%char else c) <$> bytes_of s.

(** [conformance/valid/workload-minimal.json] *)
Definition workload_minimal : bytes := fixture "{
  'apiVersion': 'jobman/v1alpha1',
  'kind': 'Workload',
  'metadata': {
    'name': 'minimal'
  },
  'spec': {
    'command': {
      'executable': 'true'
    },
    'workingDirectory': 'workspace:/',
    'runtime': {
      'kind': 'native'
    },
    'policy': {
      'retry': {
        'maxRuns': 1
      },
      'duplicateRisk': 'reject'
    }
  }
}
".

(** [conformance/valid/workload-full.json] *)
Definition workload_full : bytes := fixture "{
  'apiVersion': 'jobman/v1alpha1',
  'kind': 'Workload',
  'metadata': {
    'name': 'train-model',
    'description': 'Portable container training workload',
    'labels': {
      'project': 'example'
    },
    'annotations': {
      'owner': 'research'
    }
  },
  'spec': {
    'command': {
      'executable': 'python',
      'args': [
        'train.py',
        '--input',
        'inputs/dataset/data.parquet',
        '--output',
        'outputs/model'
      ]
    },
    'workingDirectory': 'workspace:/',
    'environment': {
      'profile': 'python-research-v3',
      'values': {
        'OMP_NUM_THREADS': '4'
      },
      'secrets': [
        {
          'name': 'experiment-token',
          'source': 'secret://research/experiment-token',
          'exposeAs': {
            'environment': 'EXPERIMENT_TOKEN'
          }
        }
      ]
    },
    'resources': {
      'cpu': 4,
      'memory': '16GiB',
      'gpu': 1,
      'nodes': 1,
      'tasks': 1,
      'wallTime': '2h'
    },
    'runtime': {
      'kind': 'container',
      'container': {
        'image': 'registry.example.edu/research/trainer@sha256:0123456789abcdef',
        'pullPolicy': 'if-not-present',
        'network': 'restricted'
      }
    },
    'artifacts': {
      'inputs': [
        {
          'name': 'dataset',
          'source': 'artifact://department-data/training/v4',
          'target': 'inputs:/dataset',
          'checksum': 'sha256:aaaaaaaaaaaaaaaaaaaaaaaaaaaaaaaaaaaaaaaaaaaaaaaaaaaaaaaaaaaaaaaa'
        }
      ],
      'outputs': [
        {
          'name': 'model',
          'source': 'outputs:/model',
          'destination': 'artifact://research-results/models',
          'required': true
        }
      ]
    },
    'policy': {
      'runTimeout': '2h15m',
      'retry': {
        'maxRuns': 3,
        'backoff': '5m'
      },
      'duplicateRisk': 'reject'
    },
    'requirements': {
      'architectures': [
        'amd64'
      ],
      'capabilities': [
        'gpu'
      ]
    },
    'extensions': {
      'slurm': {
        'constraint': 'a100'
      }
    }
  }
}
".

(** [conformance/valid/job-request-minimal.json] *)
Definition job_request_minimal : bytes := fixture "{
  'apiVersion': 'jobman/v1alpha1',
  'kind': 'JobRequest',
  'metadata': {
    'namespace': 'research',
    'name': 'minimal-job'
  },
  'spec': {
    'workload': {
      'digest': 'sha256:eb0a1173adb99e86e4e10059248fd642f6b505702d43765cf7a904684aefde01',
      'document': {
        'apiVersion': 'jobman/v1alpha1',
        'kind': 'Workload',
        'metadata': {
          'name': 'minimal'
        },
        'spec': {
          'command': {
            'executable': 'true'
          },
          'workingDirectory': 'workspace:/',
          'runtime': {
            'kind': 'native'
          },
          'policy': {
            'retry': {
              'maxRuns': 1
            },
            'duplicateRisk': 'reject'
          }
        }
      }
    },
    'placement': {
      'target': 'workstation-a'
    }
  }
}
".

(** [conformance/valid/effective-execution-minimal.json] *)
Definition effective_execution_minimal : bytes := fixture "{
  'apiVersion': 'jobman/v1alpha1',
  'kind': 'EffectiveExecution',
  'metadata': {
    'executionId': '33333333-3333-4333-8333-333333333333',
    'runId': '22222222-2222-4222-8222-222222222222',
    'jobId': '11111111-1111-4111-8111-111111111111',
    'namespace': 'research'
  },
  'spec': {
    'workload': {
      'digest': 'sha256:eb0a1173adb99e86e4e10059248fd642f6b505702d43765cf7a904684aefde01',
      'document': {
        'apiVersion': 'jobman/v1alpha1',
        'kind': 'Workload',
        'metadata': {
          'name': 'minimal'
        },
        'spec': {
          'command': {
            'executable': 'true'
          },
          'workingDirectory': 'workspace:/',
          'runtime': {
            'kind': 'native'
          },
          'policy': {
            'retry': {
              'maxRuns': 1
            },
            'duplicateRisk': 'reject'
          }
        }
      }
    },
    'placement': {
      'targetId': '44444444-4444-4444-8444-444444444444',
      'targetGenerationId': '55555555-5555-4555-8555-555555555555',
      'target': 'workstation-a',
      'executionBackend': 'subprocess'
    }
  }
}
".

(** [conformance/valid/agent-assignment-minimal.json] *)
Definition agent_assignment_minimal : bytes := fixture "{
  'apiVersion': 'jobman/v1alpha1',
  'kind': 'AgentAssignment',
  'metadata': {
    'deliveryId': '66666666-6666-4666-8666-666666666666',
    'agentId': '77777777-7777-4777-8777-777777777777'
  },
  'spec': {
    'effectiveExecutionDigest': 'sha256:8f222f3e387b2f8a410137c12d77bc4611720bb7e40846f0f8f8d3766e55601e',
    'effectiveExecution': {
      'apiVersion': 'jobman/v1alpha1',
      'kind': 'EffectiveExecution',
      'metadata': {
        'executionId': '33333333-3333-4333-8333-333333333333',
        'runId': '22222222-2222-4222-8222-222222222222',
        'jobId': '11111111-1111-4111-8111-111111111111',
        'namespace': 'research'
      },
      'spec': {
        'workload': {
          'digest': 'sha256:eb0a1173adb99e86e4e10059248fd642f6b505702d43765cf7a904684aefde01',
          'document': {
            'apiVersion': 'jobman/v1alpha1',
            'kind': 'Workload',
            'metadata': {
              'name': 'minimal'
            },
            'spec': {
              'command': {
                'executable': 'true'
              },
              'workingDirectory': 'workspace:/',
              'runtime': {
                'kind': 'native'
              },
              'policy': {
                'retry': {
                  'maxRuns': 1
                },
                'duplicateRisk': 'reject'
              }
            }
          }
        },
        'placement': {
          'targetId': '44444444-4444-4444-8444-444444444444',
          'targetGenerationId': '55555555-5555-4555-8555-555555555555',
          'target': 'workstation-a',
          'executionBackend': 'subprocess'
        }
      }
    }
  }
}
".

(** [conformance/invalid/workload-unknown-field.json] *)
Definition workload_unknown_field : bytes := fixture "{
  'apiVersion': 'jobman/v1alpha1',
  'kind': 'Workload',
  'metadata': {},
  'spec': {
    'command': {
      'executable': 'true'
    },
    'unknown': true
  }
}
".

(** [conformance/invalid/workload-duplicate-secret.json] *)
Definition workload_duplicate_secret : bytes := fixture "{
  'apiVersion': 'jobman/v1alpha1',
  'kind': 'Workload',
  'metadata': {},
  'spec': {
    'command': {
      'executable': 'true'
    },
    'workingDirectory': 'workspace:/',
    'environment': {
      'secrets': [
        {
          'name': 'token',
          'source': 'secret://research/first',
          'exposeAs': {
            'environment': 'FIRST_TOKEN'
          }
        },
        {
          'name': 'token',
          'source': 'secret://research/second',
          'exposeAs': {
            'environment': 'SECOND_TOKEN'
          }
        }
      ]
    },
    'runtime': {
      'kind': 'native'
    },
    'policy': {
      'retry': {
        'maxRuns': 1
      },
      'duplicateRisk': 'reject'
    }
  }
}
".

(** [conformance/invalid/job-request-bad-digest.json] *)
Definition job_request_bad_digest : bytes := fixture "{
  'apiVersion': 'jobman/v1alpha1',
  'kind': 'JobRequest',
  'metadata': {
    'namespace': 'research',
    'name': 'bad-digest'
  },
  'spec': {
    'workload': {
      'digest': 'sha256:0000000000000000000000000000000000000000000000000000000000000000',
      'document': {
        'apiVersion': 'jobman/v1alpha1',
        'kind': 'Workload',
        'metadata': {},
        'spec': {
          'command': {
            'executable': 'true'
          },
          'workingDirectory': 'workspace:/',
          'runtime': {
            'kind': 'native'
          },
          'policy': {
            'retry': {
              'maxRuns': 1
            },
            'duplicateRisk': 'reject'
          }
        }
      }
    },
    'placement': {
      'target': 'workstation-a'
    }
  }
}
".

(** [conformance/invalid/agent-assignment-bad-digest.json] *)
Definition agent_assignment_bad_digest : bytes := fixture "{
  'apiVersion': 'jobman/v1alpha1',
  'kind': 'AgentAssignment',
  'metadata': {
    'deliveryId': '66666666-6666-4666-8666-666666666666',
    'agentId': '77777777-7777-4777-8777-777777777777'
  },
  'spec': {
    'effectiveExecutionDigest': 'sha256:0000000000000000000000000000000000000000000000000000000000000000',
    'effectiveExecution': {
      'apiVersion': 'jobman/v1alpha1',
      'kind': 'EffectiveExecution',
      'metadata': {
        'executionId': '33333333-3333-4333-8333-333333333333',
        'runId': '22222222-2222-4222-8222-222222222222',
        'jobId': '11111111-1111-4111-8111-111111111111',
        'namespace': 'research'
      },
      'spec': {
        'workload': {
          'digest': 'sha256:eb0a1173adb99e86e4e10059248fd642f6b505702d43765cf7a904684aefde01',
          'document': {
            'apiVersion': 'jobman/v1alpha1',
            'kind': 'Workload',
            'metadata': {'name': 'minimal'},
            'spec': {
              'command': {'executable': 'true'},
              'workingDirectory': 'workspace:/',
              'runtime': {'kind': 'native'},
              'policy': {'retry': {'maxRuns': 1}, 'duplicateRisk': 'reject'}
            }
          }
        },
        'placement': {
          'targetId': '44444444-4444-4444-8444-444444444444',
          'targetGenerationId': '55555555-5555-4555-8555-555555555555',
          'target': 'workstation-a',
          'executionBackend': 'subprocess'
        }
      }
    }
  }
}
".

(** What sealing a decoded document yields: the digest of the document and that of its workload. *)
Definition digests {A} (r : result A) (f : A → string * option string) : option (string * option string) :=
  match r with Ok a => Some (f a) | Err _ => None end.
Definition workload_outcome (source : bytes) : option (string * option string) :=
  digests (DecodeWorkload source default_limits) (λ s, (sw_Digest s, None)).
Definition job_request_outcome (source : bytes) : option (string * option string) :=
  digests (DecodeJobRequest source default_limits) (λ s, (sjr_RequestDigest s, Some (sjr_WorkloadDigest s))).
Definition effective_execution_outcome (source : bytes) : option (string * option string) :=
  digests (DecodeEffectiveExecution source default_limits)
    (λ s, (see_Digest s, Some (wb_Digest (ees_Workload (ee_Spec (see_Document s)))))).
Definition agent_assignment_outcome (source : bytes) : option (string * option string) :=
  digests (DecodeAgentAssignment source default_limits)
    (λ s, (saa_EffectiveExecutionDigest s,
           Some (wb_Digest (ees_Workload (ee_Spec (aas_EffectiveExecution (aa_Spec (saa_Document s)))))))).

Lemma workload_minimal_outcome : workload_outcome workload_minimal =
  Some ("sha256:eb0a1173adb99e86e4e10059248fd642f6b505702d43765cf7a904684aefde01", None).
Proof. vm_compute. reflexivity. Qed.

Lemma workload_full_outcome : workload_outcome workload_full =
  Some ("sha256:d159e65926af38256f2b4da6dc45926eba32c267de4e4944e3e32c338c915c24", None).
Proof. vm_compute. reflexivity. Qed.

Lemma job_request_minimal_outcome : job_request_outcome job_request_minimal =
  Some ("sha256:9e79d05d21baea1a9f226d8c1b679a680b9edcac7169ccc171f202009ebc23c1", Some "sha256:eb0a1173adb99e86e4e10059248fd642f6b505702d43765cf7a904684aefde01").
Proof. vm_compute. reflexivity. Qed.

Lemma effective_execution_minimal_outcome : effective_execution_outcome effective_execution_minimal =
  Some ("sha256:8f222f3e387b2f8a410137c12d77bc4611720bb7e40846f0f8f8d3766e55601e", Some "sha256:eb0a1173adb99e86e4e10059248fd642f6b505702d43765cf7a904684aefde01").
Proof. vm_compute. reflexivity. Qed.

Lemma agent_assignment_minimal_outcome : agent_assignment_outcome agent_assignment_minimal =
  Some ("sha256:8f222f3e387b2f8a410137c12d77bc4611720bb7e40846f0f8f8d3766e55601e", Some "sha256:eb0a1173adb99e86e4e10059248fd642f6b505702d43765cf7a904684aefde01").
Proof. vm_compute. reflexivity. Qed.

Lemma workload_unknown_field_outcome : workload_outcome workload_unknown_field = None.
Proof. vm_compute. reflexivity. Qed.

Lemma workload_duplicate_secret_outcome : workload_outcome workload_duplicate_secret = None.
Proof. vm_compute. reflexivity. Qed.

Lemma job_request_bad_digest_outcome : job_request_outcome job_request_bad_digest = None.
Proof. vm_compute. reflexivity. Qed.

Lemma agent_assignment_bad_digest_outcome : agent_assignment_outcome agent_assignment_bad_digest = None.
Proof. vm_compute. reflexivity. Qed.

(** ** Canonical text *)

(** C34: canonical text is a faithful encoding.  Canonicalising a document yields a value with sorted,
    distinct keys, canonical numbers and bounded nesting; its text reads back as that value and is left
    unchanged by canonicalising again; and two documents have the same canonical text only if they have
    the same canonical value.  Every well-formed value within the depth bound has canonical text. *)
Theorem canonical_json_roundtrip max :
  (∀ source c, canonicalJSON source max = Ok c →
     canonicalJSON c max = Ok c ∧
     ∃ v, c = Marshal v ∧ parse_canonical c max = Ok v ∧ canonical v ∧ height v ≤ max ∧
       ∀ source' v', parse_canonical source' max = Ok v' → Marshal v' = c → v' = v) ∧
  (∀ v, well_formed v → height v ≤ max → parse_canonical (Marshal v) max = Ok (canon v) ∧
     canonicalJSON (Marshal v) max = Ok (Marshal (canon v))).
Proof.
  split; [|intros v Hv Hh; by split; [apply parse_Marshal|apply canonicalJSON_Marshal]].
  intros source c Hc. split; [by eapply canonicalJSON_fixed|].
  unfold canonicalJSON in Hc. destruct (parse_canonical source max) as [v|] eqn:Hv; [|done]. injection Hc as <-.
  pose proof (parse_canonical_spec _ _ _ Hv) as [Hcan Hh]. exists v. split_and!; try done.
  - rewrite parse_Marshal by (done || by apply canonical_wf). by rewrite canon_canonical.
  - intros source' v' [Hv' _]%parse_canonical_spec Heq. by apply Marshal_inj.
Qed.
Lemma canonical_json_roundtrip_witness :
  canonicalJSON (fixture "{'b': [10, 2.50e1], 'a': null}") 8 = Ok (fixture "{'a':null,'b':[1e1,2.5e1]}") ∧
  canonicalJSON (fixture "{'a':null,'b':[1e1,2.5e1]}") 8 = Ok (fixture "{'a':null,'b':[1e1,2.5e1]}").
Proof.
  assert (canonicalJSON (fixture "{'b': [10, 2.50e1], 'a': null}") 8 = Ok (fixture "{'a':null,'b':[1e1,2.5e1]}")) as Hc
    by (vm_compute; reflexivity).
  split; [exact Hc|]. exact (proj1 (proj1 (canonical_json_roundtrip 8) _ _ Hc)).
Defined.

(** C37: numbers are normalised exactly.  Every JSON number literal is given a spelling that denotes the
    same number, whatever its size and exponent; the spelling is its own normal form; and two literals
    are given the same spelling exactly when they denote the same number. *)
Theorem normalize_number_canonical a b :
  number_literal a → number_literal b →
  ∃ ca cb va vb wa, normalizeJSONNumber a = Ok ca ∧ normalizeJSONNumber b = Ok cb ∧ normalizeJSONNumber ca = Ok ca ∧
    number_value a = Some va ∧ number_value b = Some vb ∧ number_value ca = Some wa ∧ same_number va wa ∧
    (ca = cb ↔ same_number va vb).
Proof.
  intros Ha Hb. destruct (normalize_canonical a Ha) as (ca & Hca & Hcan). destruct (normalize_canonical b Hb) as (cb & Hcb & _).
  destruct (normalize_value a ca Ha Hca) as (va & wa & Hva & Hwa & Hsame).
  destruct (normalize_value b cb Hb Hcb) as (vb & _ & Hvb & _).
  exists ca, cb, va, vb, wa. split_and!; try done; [by apply normalize_id|].
  rewrite <-(normalize_complete a b va vb Ha Hb Hva Hvb), Hca, Hcb. split; [by intros ->|by intros [= ->]].
Qed.
Lemma normalize_number_canonical_witness :
  number_literal (fixture "1200") ∧ number_literal (fixture "0.12E+4") ∧
  normalizeJSONNumber (fixture "1200") = Ok (fixture "1.2e3") ∧
  normalizeJSONNumber (fixture "0.12E+4") = Ok (fixture "1.2e3") ∧
  normalizeJSONNumber (fixture "1.2e3") = Ok (fixture "1.2e3").
Proof.
  assert (number_literal (fixture "1200") ∧ number_literal (fixture "0.12E+4")) as [Ha Hb] by (split; vm_compute; reflexivity).
  split; [exact Ha|]. split; [exact Hb|].
  destruct (normalize_number_canonical _ _ Ha Hb) as (ca & cb & va & vb & wa & H1 & H2 & H3 & _).
  assert (normalizeJSONNumber (fixture "1200") = Ok (fixture "1.2e3")) as H1' by (vm_compute; reflexivity).
  assert (normalizeJSONNumber (fixture "0.12E+4") = Ok (fixture "1.2e3")) as H2' by (vm_compute; reflexivity).
  rewrite H1 in H1'. injection H1' as ->. exact (conj H1 (conj H2' H3)).
Defined.

(** ** Sealed documents *)

(** Sealing is idempotent.  A sealed workload is valid and in normal form, its canonical text is
    canonical JSON, and sealing its document again gives the same document, text and digest. *)
Theorem seal_workload_idempotent v s :
  SealWorkload v = Ok s →
  SealWorkload (sw_Document s) = Ok s ∧ ValidateWorkload (sw_Document s) = Ok tt ∧
  normalizeWorkload (sw_Document s) = Ok (sw_Document s) ∧ clone (sw_Document s) = sw_Document s ∧
  canonicalJSON (sw_CanonicalJSON s) defaultMaximumJSONDepth = Ok (sw_CanonicalJSON s) ∧
  sw_Digest s = digest (sw_CanonicalJSON s).
Proof.
  intros Hs. pose proof (sealed_workload_normal v s Hs) as [Hcl Hn].
  pose proof (SealWorkload_fixed v s Hs) as Hf. apply SealWorkload_ok in Hs as (_ & Hv & Hc & Hd).
  split_and!; try done. apply wrap_ok in Hc. by eapply canonicalJSON_fixed.
Qed.

(** The workload of the minimal fixture, decoded and sealed. *)
Definition minimal : Workload :=
  match decode_document "" workload_minimal default_limits with Ok w => w | Err _ => zero end.
Definition sealed_minimal : SealedWorkload :=
  match SealWorkload minimal with
  | Ok s => s
  | Err _ => {| sw_Document := minimal; sw_CanonicalJSON := []; sw_Digest := "" |}
  end.
Lemma sealed_minimal_ok : SealWorkload minimal = Ok sealed_minimal.
Proof.
  assert (is_ok (SealWorkload minimal) = true) as [s Hs]%is_ok_spec by (vm_compute; reflexivity).
  unfold sealed_minimal. by rewrite Hs.
Qed.
Lemma seal_workload_idempotent_witness :
  SealWorkload minimal = Ok sealed_minimal ∧ SealWorkload (sw_Document sealed_minimal) = Ok sealed_minimal.
Proof. exact (conj sealed_minimal_ok (proj1 (seal_workload_idempotent minimal sealed_minimal sealed_minimal_ok))). Defined.

(** C35: what decoding accepts of what sealing wrote.  The canonical text of a sealed workload is decoded
    to the same sealed workload when every integer of the document has one digit, and is rejected as soon
    as one has two: canonical text spells ten as [1e1], which [encoding/json] does not read into a Go
    integer.  The bounds of the validator admit such documents. *)
Theorem decode_sealed_workload v s :
  SealWorkload v = Ok s → slice_len (sw_CanonicalJSON s) ≤ defaultMaximumDecodeBytes →
  (Forall (λ z, Z.abs z < 10) (workload_integers (sw_Document s)) →
     DecodeWorkload (sw_CanonicalJSON s) default_limits = Ok s) ∧
  (¬ Forall (λ z, Z.abs z < 10) (workload_integers (sw_Document s)) →
     ∃ err, DecodeWorkload (sw_CanonicalJSON s) default_limits = Err err).
Proof.
  intros Hs Hlen. rewrite (decode_sealed v s Hs Hlen), <-small_workload.
  destruct (small (sw_Document s)); split; intros Hsmall; [done|by destruct Hsmall|done|by eexists].
Qed.

(** A workload that asks for sixteen cores. *)
Definition sixteen_cores : Workload :=
  minimal <| w_Spec ::= λ spec, spec <| ws_Resources :=
    Some {| res_CPU := 16; res_Memory := ""; res_GPU := 0; res_Nodes := 0; res_Tasks := 0; res_TemporaryStorage := "";
            res_WallTime := "" |} |> |>.
Lemma decode_sealed_workload_witness :
  DecodeWorkload (sw_CanonicalJSON sealed_minimal) default_limits = Ok sealed_minimal ∧
  ∃ s, SealWorkload sixteen_cores = Ok s ∧ ∃ err, DecodeWorkload (sw_CanonicalJSON s) default_limits = Err err.
Proof.
  assert (slice_len (sw_CanonicalJSON sealed_minimal) ≤ defaultMaximumDecodeBytes) as Hlen by (vm_compute; discriminate).
  split.
  - apply (proj1 (decode_sealed_workload minimal sealed_minimal sealed_minimal_ok Hlen)).
    vm_compute. repeat constructor.
  - assert ((s ← SealWorkload sixteen_cores;
      Ok (bool_decide (slice_len (sw_CanonicalJSON s) ≤ defaultMaximumDecodeBytes) && negb (small (sw_Document s)))) = Ok true) as Hr
      by (vm_compute; reflexivity).
    destruct (SealWorkload sixteen_cores) as [s|] eqn:Hs; [|discriminate Hr]. exists s. split; [reflexivity|].
    cbn in Hr. injection Hr as Hr. apply andb_true_iff in Hr as [Hb%bool_decide_eq_true Hn%negb_true_iff].
    apply (proj2 (decode_sealed_workload sixteen_cores s Hs Hb)). rewrite <-small_workload, Hn. discriminate.
Defined.

(** C36: an assignment is bound to its execution.  Sealing an assignment succeeds only if its effective
    execution can be sealed, and then carries exactly that sealed execution, under the digest of its
    canonical text, which is the digest the assignment was built with if it was built with one; the
    identities and the placement are those of the request, and what was sealed seals to itself.  An
    assignment built with the digest of any other document is refused. *)
Theorem sealed_assignment_bound v :
  (∀ s, codec_SealAgentAssignment v = Ok s →
     ∃ e, codec_SealEffectiveExecution (aas_EffectiveExecution (aa_Spec v)) = Ok e ∧
       codec_SealEffectiveExecution (see_Document e) = Ok e ∧
       aas_EffectiveExecution (aa_Spec (saa_Document s)) = see_Document e ∧
       aas_EffectiveExecutionDigest (aa_Spec (saa_Document s)) = see_Digest e ∧ saa_EffectiveExecutionDigest s = see_Digest e ∧
       marshalCanonical (see_Document e) = Ok (see_CanonicalJSON e) ∧ see_Digest e = digest (see_CanonicalJSON e) ∧
       aas_EffectiveExecutionDigest (aa_Spec v) ∈ [""; see_Digest e] ∧
       aa_Metadata (saa_Document s) = aa_Metadata v ∧
       ee_Metadata (see_Document e) = ee_Metadata (aas_EffectiveExecution (aa_Spec v)) ∧
       ees_Placement (ee_Spec (see_Document e)) = ees_Placement (ee_Spec (aas_EffectiveExecution (aa_Spec v)))) ∧
  (∀ e, codec_SealEffectiveExecution (aas_EffectiveExecution (aa_Spec v)) = Ok e →
     aas_EffectiveExecutionDigest (aa_Spec v) ∉ [""; see_Digest e] → ∃ err, codec_SealAgentAssignment v = Err err).
Proof.
  split; [|apply SealAgentAssignment_mismatch].
  intros s Hs. apply SealAgentAssignment_ok in Hs as Hok. destruct Hok as (e & He & _ & Hd & Hv & Hdig).
  rewrite SealEffectiveExecution_clone in He. exists e.
  assert (aas_EffectiveExecution (aa_Spec (saa_Document s)) = see_Document e ∧
    aas_EffectiveExecutionDigest (aa_Spec (saa_Document s)) = see_Digest e) as [Hx Hdoc] by (by rewrite Hd).
  destruct (assignment_valid _ Hv) as (e' & He' & _ & Hdoc'). rewrite Hx in He', Hdoc'.
  rewrite <-(sealed_execution_ext _ _ _ _ He He' Hdoc') in He'.
  destruct (seal_assignment_identities v s Hs) as (Hmeta & _).
  destruct (seal_effective_identities _ _ He) as [Hid Hplace].
  apply SealEffectiveExecution_ok in He as Hok. destruct Hok as (_ & _ & _ & _ & Hc & _).
  split_and!; try done; [by eapply seal_effective_digest|].
  destruct (decide (aas_EffectiveExecutionDigest (aa_Spec v) ∈ [""; see_Digest e])) as [?|Hne]; [done|].
  destruct (SealAgentAssignment_mismatch v e He Hne) as [err Herr]. by rewrite Hs in Herr.
Qed.

(** The assignment of the minimal fixture, as decoded and as sealed. *)
Definition assigned : AgentAssignment :=
  match decode_document "" agent_assignment_minimal default_limits with Ok a => a | Err _ => zero end.
(** An assignment under another digest. *)
Definition relabel (d : string) (a : AgentAssignment) : AgentAssignment :=
  a <| aa_Spec ::= λ spec, spec <| aas_EffectiveExecutionDigest := d |> |>.
Lemma relabel_execution d a : aas_EffectiveExecution (aa_Spec (relabel d a)) = aas_EffectiveExecution (aa_Spec a).
Proof. done. Qed.
Lemma relabel_digest d a : aas_EffectiveExecutionDigest (aa_Spec (relabel d a)) = d.
Proof. done. Qed.
Lemma sealed_assignment_bound_witness :
  (∃ s e, codec_SealAgentAssignment assigned = Ok s ∧
     codec_SealEffectiveExecution (aas_EffectiveExecution (aa_Spec assigned)) = Ok e ∧
     saa_EffectiveExecutionDigest s = see_Digest e) ∧
  ∃ err, codec_SealAgentAssignment (relabel (sw_Digest sealed_minimal) assigned) = Err err.
Proof.
  assert (is_ok (codec_SealAgentAssignment assigned) = true) as [s Hs]%is_ok_spec by (vm_compute; reflexivity).
  assert (match codec_SealEffectiveExecution (aas_EffectiveExecution (aa_Spec assigned)) with
          | Ok e => bool_decide (sw_Digest sealed_minimal ∉ [""; see_Digest e]) | Err _ => false end = true) as Hne
    by (vm_compute; reflexivity).
  destruct (proj1 (sealed_assignment_bound assigned) s Hs) as (e & He & _ & _ & _ & Hd & _). rewrite He in Hne.
  split; [exists s, e; exact (conj Hs (conj He Hd))|].
  apply (proj2 (sealed_assignment_bound (relabel (sw_Digest sealed_minimal) assigned)) e).
  - rewrite relabel_execution. exact He.
  - rewrite relabel_digest. exact (bool_decide_eq_true_1 _ Hne).
Defined.

(** A logical path cannot leave its root.  The validator accepts a path below a logical root exactly
    when it is the root followed by plain segments: none empty, [.] or [..], none with a separator, a
    backslash or a NUL. *)
Theorem logical_path_contained value root :
  Forall plain_byte (bytes_of root) →
  validateLogicalPath value root = Ok tt ↔
  ∃ segs, Forall plain_segment segs ∧ bytes_of value = bytes_of (root +:+ ":/") ++ join_with slash segs.
Proof. apply logical_path_spec. Qed.
Lemma logical_path_contained_witness :
  validateLogicalPath "outputs:/models/best" "outputs" = Ok tt ∧ validateLogicalPath "outputs:/../secret" "outputs" ≠ Ok tt ∧
  ∃ segs, Forall plain_segment segs ∧ bytes_of "outputs:/models/best" = bytes_of ("outputs" +:+ ":/") ++ join_with slash segs.
Proof.
  split; [vm_compute; reflexivity|]. split; [vm_compute; discriminate|].
  apply logical_path_contained; [by repeat constructor|vm_compute; reflexivity].
Defined.
