(* ===== verification/Records.v ===== *)
(** * Domain records

    The request, identity and snapshot types the repository methods exchange
    with their callers ([internal/domain/job.go], [control.go], [monitoring.go]
    and [groups.go]). *)
From S2P Require Import Prelude Regex Names Domain TargetSpec Kahn Graph Contract.

(** ** Instants *)

(** PostgreSQL stores [timestamptz] in microseconds; pgx truncates the
    nanoseconds of the [time.Time] it encodes. *)
Definition timestamptz := Z.
Definition to_timestamptz (t : time) : timestamptz := t_instant t / 1000.

(** A scanned timestamp converted with [.UTC()]. *)
Definition zero_time : time := {| t_instant := 0; t_utc := true; t_monotonic := false |}.
Definition UTC (t : timestamptz) : time :=
  {| t_instant := t * 1000; t_utc := true; t_monotonic := false |}.

(** ** Submissions *)

Record ExecutionFeatures := {
  ef_DirectCommand : bool;
  ef_Resources : bool;
  ef_TemporaryStorage : bool;
  ef_Artifacts : bool;
  ef_Extensions : bool;
  ef_EnvironmentProfile : bool;
  ef_Secrets : bool;
  ef_RetryMaxRuns : Z;
  ef_SchedulerEnvironmentOverride : bool }.

(** The request document is stored verbatim and never inspected, so its decoded
    form is its text. *)
Record JobSubmission := {
  js_Namespace : string;
  js_Name : string;
  js_Labels : gmap string string;
  js_Target : string;
  js_Partition : string;
  js_RuntimeKind : string;
  js_OperatingSystems : list string;
  js_Architectures : list string;
  js_Capabilities : list string;
  js_ArtifactStores : list string;
  js_WorkloadDigest : string;
  js_WorkloadDocument : raw Workload;
  js_RequestDigest : string;
  js_RequestDocument : raw string;
  js_ExecutionFeatures : ExecutionFeatures }.

Record CollectionSubmission := {
  cs_Namespace : string;
  cs_Name : string;
  cs_Labels : gmap string string;
  cs_MaxActive : Z;
  cs_FailurePolicy : string;
  cs_ArrayPolicy : string;
  cs_RequestDigest : string;
  cs_RequestDocument : raw string;
  cs_Items : list JobSubmission }.

Record GraphEdgeSubmission := {
  ges_From : string; ges_To : string; ges_Predicate : string; ges_Outcomes : list string }.

Record GraphSubmission := {
  gs_Namespace : string;
  gs_Name : string;
  gs_Labels : gmap string string;
  gs_MaxActive : Z;
  gs_UnsatisfiedPolicy : string;
  gs_RequestDigest : string;
  gs_RequestDocument : raw string;
  gs_Nodes : list JobSubmission;
  gs_Edges : list GraphEdgeSubmission }.

(** ** Job snapshots *)

Record JobOwner := {
  jo_ID : string; jo_Issuer : string; jo_Subject : string; jo_DisplayName : string }.
Record JobLifecycle := {
  jl_StartedAt : option time; jl_StartedRecordedAt : option time; jl_StartedProvenance : string;
  jl_CompletedAt : option time; jl_CompletedRecordedAt : option time;
  jl_CompletedProvenance : string }.
Record RunReference := { rr_ID : string; rr_Number : string; rr_ExecutionID : string }.
Record JobGroupReference := {
  jg_CollectionID : string; jg_CollectionIndex : option Z;
  jg_GraphID : string; jg_GraphIndex : option Z; jg_GraphDisposition : string }.
Record SchedulerStatus := {
  ss_Backend : string; ss_State : string; ss_Reason : string; ss_Cluster : string;
  ss_ObservedAt : time }.

Record JobCommand := { jc_Executable : string; jc_Args : list string }.
Record JobExecution := { je_Command : JobCommand; je_WorkingDirectory : string }.

(** [domain.Job].  [Execution] and [ExecutionUnavailableReason] are filled only by
    [GetJob], after the scan. *)
Record Job := {
  job_Execution : option JobExecution;
  job_ExecutionUnavailableReason : string;
  job_AsOf : time;
  job_NamespaceID : string;
  job_Owner : option JobOwner;
  job_Imported : bool;
  job_Lifecycle : JobLifecycle;
  job_CurrentRun : option RunReference;
  job_Group : JobGroupReference;
  job_ID : string;
  job_Namespace : string;
  job_Name : string;
  job_Labels : gmap string string;
  job_Phase : string;
  job_DesiredState : string;
  job_Outcome : string;
  job_Target : string;
  job_Partition : string;
  job_TargetID : string;
  job_TargetGenerationID : string;
  job_ExecutionBackend : string;
  job_NativeID : string;
  job_ObservationConfidence : string;
  job_ConfidenceUpdatedAt : time;
  job_Scheduler : option SchedulerStatus;
  job_WorkloadDigest : string;
  job_RequestDigest : string;
  job_Revision : Z;
  job_CreatedAt : time;
  job_UpdatedAt : time }.

Record SubmitResult := { sr_Job : Job; sr_Replayed : bool }.

(** ** Groups *)

Record CollectionItem := {
  coi_ArrayTaskIndex : option Z; coi_Index : Z; coi_Name : string; coi_Job : Job }.
Record Collection := {
  col_ID : string;
  col_Namespace : string;
  col_Name : string;
  col_Labels : gmap string string;
  col_MaxActive : Z;
  col_FailurePolicy : string;
  col_ArrayPolicy : string;
  col_ArrayMode : string;
  col_Phase : string;
  col_Outcome : string;
  col_Revision : Z;
  col_Total : Z;
  col_Active : Z;
  col_Terminal : Z;
  col_Succeeded : Z;
  col_Failed : Z;
  col_Canceled : Z;
  col_Items : list CollectionItem;
  col_CreatedAt : time;
  col_UpdatedAt : time }.
Record CollectionResult := { cres_Collection : Collection; cres_Replayed : bool }.

Record GraphDependency := {
  gd_From : string; gd_Predicate : string; gd_Outcomes : list string; gd_Satisfied : bool }.
Record GraphItem := {
  gi_Index : Z; gi_Name : string; gi_Disposition : string;
  gi_Dependencies : list GraphDependency; gi_Job : Job }.
Record Graph := {
  g_ID : string;
  g_Namespace : string;
  g_Name : string;
  g_Labels : gmap string string;
  g_MaxActive : Z;
  g_UnsatisfiedPolicy : string;
  g_Phase : string;
  g_Outcome : string;
  g_Revision : Z;
  g_Total : Z;
  g_Waiting : Z;
  g_Active : Z;
  g_Terminal : Z;
  g_Succeeded : Z;
  g_Failed : Z;
  g_Canceled : Z;
  g_Skipped : Z;
  g_Blocked : Z;
  g_Items : list GraphItem;
  g_CreatedAt : time;
  g_UpdatedAt : time }.
Record GraphResult := { gres_Graph : Graph; gres_Replayed : bool }.

(** ** Agents *)

Record AgentIdentity := {
  ai_AgentID : string; ai_NamespaceID : string; ai_Namespace : string; ai_PrincipalID : string;
  ai_TargetID : string; ai_TargetGenerationID : string; ai_CertificateSerial : string }.

Record Acceptance := {
  acc_DeliveryID : string;
  acc_ExecutionID : string;
  acc_AgentID : string;
  acc_TargetGenerationID : string;
  acc_EffectiveExecutionDigest : string;
  acc_RequestDigest : string;
  acc_RequestDocument : raw AgentAcceptance }.

Record LaunchAuthorization := {
  lau_AuthorizationID : string;
  lau_ExecutionID : string;
  lau_AgentID : string;
  lau_TargetGenerationID : string;
  lau_EffectiveExecutionDigest : string;
  lau_Revision : Z;
  lau_AcceptedAt : time;
  lau_Replayed : bool }.

Record ExecutionObservation := {
  eo_EventID : string;
  eo_ExecutionID : string;
  eo_AgentID : string;
  eo_Sequence : Z;
  eo_ObservedAt : time;
  eo_Type : string;
  eo_NativeID : string;
  eo_Outcome : string;
  eo_SchedulerBackend : string;
  eo_SchedulerState : string;
  eo_SchedulerReason : string;
  eo_SchedulerCluster : string;
  eo_DocumentDigest : string;
  eo_Document : raw ExecutionEvent }.

Record DesiredAction := {
  da_ActionID : string; da_ExecutionID : string; da_AgentID : string; da_Revision : Z;
  da_Document : Contract.DesiredAction; da_CreatedAt : time }.

Record ActionAcknowledgement := {
  aka_ActionID : string; aka_ExecutionID : string; aka_AgentID : string;
  aka_Revision : Z; aka_ObservedAt : time }.

(** ** Logs *)

Record LogChunk := {
  lc_ExecutionID : string;
  lc_AgentID : string;
  lc_Stream : string;
  lc_Sequence : Z;
  lc_StoreName : string;
  lc_StoreVersion : Z;
  lc_ObjectKey : string;
  lc_ByteOffset : Z;
  lc_ByteLength : Z;
  lc_Checksum : string;
  lc_CapturedAt : time;
  lc_Complete : bool;
  lc_Truncated : bool;
  lc_DocumentDigest : string;
  lc_Document : raw string }.

(** ** Namespace policy *)

Record NamespacePolicy := {
  np_Namespace : string;
  np_MaxActiveJobs : Z;
  np_MaxQueuedJobs : Z;
  np_MaxCollectionItems : Z;
  np_MaxGraphNodes : Z;
  np_IdempotencyRetention : Z;
  np_PublishedOutboxRetention : Z;
  np_Revision : Z;
  np_CreatedAt : time;
  np_UpdatedAt : time }.

Record NamespacePolicyChange := {
  npc_MaxActiveJobs : Z;
  npc_MaxQueuedJobs : Z;
  npc_MaxCollectionItems : Z;
  npc_MaxGraphNodes : Z;
  npc_IdempotencyRetention : Z;
  npc_PublishedOutboxRetention : Z;
  npc_ExpectedRevision : Z }.

Record Membership := {
  mb_Namespace : string; mb_PrincipalID : string; mb_Issuer : string; mb_Subject : string;
  mb_DisplayName : string; mb_Role : string; mb_CreatedAt : time; mb_UpdatedAt : time }.
Record ContributingGrant := {
  cg_ID : string; cg_Namespace : string; cg_PrincipalID : string; cg_Issuer : string; cg_Subject : string;
  cg_DisplayName : string; cg_Role : string; cg_Provenance : string;
  cg_CreatedAt : time; cg_RevokedAt : option time }.

(** ** Directory mappings ([internal/domain/directory.go]) *)

Record DirectoryBinding := { db_GroupID : string; db_NamespaceID : string; db_Role : string }.
Record DirectoryAlias := { dal_Issuer : string; dal_Subject : string }.
Record DirectoryIdentity := {
  di_DirectoryID : string;
  di_PrincipalID : string;
  di_Issuer : string;
  di_Subject : string;
  di_DisplayName : string;
  di_Aliases : list DirectoryAlias }.
Record DirectoryMapping := {
  dm_SourceID : string;
  dm_Revision : Z;
  dm_Namespaces : list string;
  dm_ApprovedTransitions : list string;
  dm_Bindings : list DirectoryBinding;
  dm_Identities : list DirectoryIdentity }.
