(* ===== verification/Cursors.v ===== *)
(** * Monitoring cursors

    The opaque continuation of the monitoring feed ([internal/store/postgres/monitoring_feed.go]): a JSON
    object in unpadded URL-safe base64, a full stop and the base64 of its HMAC under the token key of the
    store.  This file adds the strict decoder of [base64.RawURLEncoding] to the encoder of [Tokens.v], with
    the proof that it inverts it, and shows that a cursor the server hands out is exactly what it accepts. *)
From S2P Require Import Prelude Regex Names Domain TargetSpec Url Utf8 Number Kahn Graph Contract Json Sha256 Tokens Clone Normalize Wire Documents Records.

(** ** [base64.RawURLEncoding.DecodeString], and that of [Strict()] *)

Definition url_value (c : Ascii.ascii) : option Z :=
  Z.of_nat ∘ fst <$> list_find (λ x, x = c) encodeURL.

(** Four digits give three bytes; in strict mode the unused low bits of a final group must be zero. *)
Fixpoint decode_quanta (strict : bool) (src : bytes) : option (list Z) :=
  match src with
  | [] => Some []
  | [_] => None
  | [a; b] =>
      x ← url_value a; y ← url_value b;
      if negb strict || bool_decide (Z.land y 15 = 0) then Some [Z.lor (Z.shiftl x 2) (Z.shiftr y 4)] else None
  | [a; b; c] =>
      x ← url_value a; y ← url_value b; z ← url_value c;
      if negb strict || bool_decide (Z.land z 3 = 0)
      then Some [Z.lor (Z.shiftl x 2) (Z.shiftr y 4); Z.lor (Z.shiftl (Z.land y 15) 4) (Z.shiftr z 2)] else None
  | a :: b :: c :: d :: src =>
      x ← url_value a; y ← url_value b; z ← url_value c; w ← url_value d; rest ← decode_quanta strict src;
      Some (Z.lor (Z.shiftl x 2) (Z.shiftr y 4) :: Z.lor (Z.shiftl (Z.land y 15) 4) (Z.shiftr z 2) ::
            Z.lor (Z.shiftl (Z.land z 3) 6) w :: rest)
  end.

(** Line breaks are skipped. *)
Definition is_line_break (c : Ascii.ascii) : bool := is_one_of ["010"%char; "013"%char] c.
Definition DecodeString (strict : bool) (value : bytes) : option (list Z) :=
  decode_quanta strict (filter (λ c, is_line_break c = false) value).

(** ** Cursors *)

Record monitoringCursor := {
  mcu_Instance : string; mcu_Epoch : Z; mcu_Scope : string; mcu_Position : Z }.

(** An [int64] field with the [string] option is the text of its number. *)
Record quoted := Quoted { unquoted : Z }.
#[export] Instance wire_quoted : Wire quoted := {|
  zero := Quoted 0; omit _ := false; encode q := JString (string_of (FormatInt (unquoted q)));
  unmarshal v q := match v with JString s => Quoted <$> ParseInt (bytes_of s) | JNull => Some q | _ => None end;
  valid q := int64_range (unquoted q); small _ := true |}.

#[export] Instance monitoringCursor_settable : Settable monitoringCursor := λ x,
  Build_monitoringCursor (mcu_Instance x) (mcu_Epoch x) (mcu_Scope x) (mcu_Position x).
Definition monitoringCursor_zero : monitoringCursor := Build_monitoringCursor "" 0 "" 0.
Definition monitoringCursor_fields : list (field monitoringCursor) :=
  [Field "instance" false mcu_Instance (λ x r, r <| mcu_Instance := x |>);
   Field "epoch" false (λ r, Quoted (mcu_Epoch r)) (λ x r, r <| mcu_Epoch := unquoted x |>);
   Field "scope" false mcu_Scope (λ x r, r <| mcu_Scope := x |>);
   Field "position" false (λ r, Quoted (mcu_Position r)) (λ x r, r <| mcu_Position := unquoted x |>)].
#[export] Instance monitoringCursor_wire : Wire monitoringCursor :=
  wire_struct monitoringCursor_fields monitoringCursor_zero.

Definition monitoringCursorDomain := "jobman.control.monitoring-cursor/v1".

(** [strings.Join(ids, "\x00")] *)
Fixpoint join_nul (l : list string) : bytes :=
  match l with
  | [] => []
  | [x] => bytes_of x
  | x :: l => bytes_of x ++ Ascii.zero :: join_nul l
  end.

(** [monitoringScope], of the service and the namespaces of its assertion. *)
Definition monitoringScope (actor : DelegatedActor) : string :=
  string_of (EncodeToString (Sum256
    (bytes_of (da_ServiceID actor) ++ Ascii.zero :: join_nul (sort_strings (da_NamespaceIDs actor))))).

Section cursors.
Context (tokenKey : bytes).

(** The key of the store may be missing. *)
Definition short_key : bool := bool_decide (slice_len tokenKey < 32).

Definition monitoringCursorMAC (data : bytes) : list Z :=
  hmac_Sum tokenKey (bytes_of monitoringCursorDomain ++ Ascii.zero :: data).

Definition encodeMonitoringCursor (cursor : monitoringCursor) : string :=
  if short_key then ""
  else
    let data := Marshal (encode cursor) in
    string_of (EncodeToString (code <$> data) ++ "."%char :: EncodeToString (monitoringCursorMAC data)).

(** The object is read by [parse_canonical]; the texts on which it and [encoding/json] differ are not what
    [json.Marshal] writes, and the comparison at the end refuses them. *)
Definition decodeMonitoringCursor (value : string) : result monitoringCursor :=
  fail_if (bool_decide (value = "") || (1024 <? len value) || short_key) ErrEventCursorInvalid;;
  let '(payload, signature, ok) := cut "."%char (bytes_of value) in
  fail_if (negb ok || negb (bool_decide (slice_len signature = 43))) ErrEventCursorInvalid;;
  match DecodeString true payload, DecodeString true signature with
  | Some raw, Some mac =>
      let raw := byte <$> raw in
      fail_if (negb (bool_decide (mac = monitoringCursorMAC raw))) ErrEventCursorInvalid;;
      match parse_canonical raw 10000 with
      | Ok v =>
          match unmarshal v (zero : monitoringCursor) with
          | Some cursor =>
              fail_if (negb (IsID (mcu_Instance cursor)) || (mcu_Epoch cursor <? 1) || (mcu_Position cursor <? 0) ||
                       negb (bool_decide (len (mcu_Scope cursor) = 43)) ||
                       negb (bool_decide (encodeMonitoringCursor cursor = value))) ErrEventCursorInvalid;;
              Ok cursor
          | None => Err ErrEventCursorInvalid
          end
      | Err _ => Err ErrEventCursorInvalid
      end
  | _, _ => Err ErrEventCursorInvalid
  end.
End cursors.

(** ** Base64 *)

Lemma list_6bit n : 0 ≤ n < 64 → n ∈ seqZ 0 64.
Proof. intros ?. apply elem_of_seqZ. lia. Qed.

Lemma url_value_digit n : url_value (url_digit n) = Some (Z.land n 63).
Proof.
  assert (0 ≤ Z.land n 63 < 64) as Hn by (change 63 with (Z.ones 6); rewrite Z.land_ones by lia; apply Z.mod_pos_bound; lia).
  unfold url_digit. revert Hn. generalize (Z.land n 63). intros k Hk%list_6bit. revert k Hk. apply Forall_forall.
  apply (bool_decide_unpack _). vm_compute. exact I.
Qed.

(** The digits are printable and none of them is a full stop. *)
Definition url_safe (c : Ascii.ascii) : bool :=
  rune1 c && html_safe c && negb (is_line_break c) && negb (bool_decide (c = "."%char)).
Lemma url_digit_safe n : url_safe (url_digit n) = true.
Proof.
  unfold url_digit. assert (0 ≤ Z.land n 63 < 64) as Hn by (change 63 with (Z.ones 6); rewrite Z.land_ones by lia; apply Z.mod_pos_bound; lia).
  revert Hn. generalize (Z.land n 63). intros k Hk%list_6bit. revert k Hk. apply Forall_forall.
  apply (bool_decide_unpack _). vm_compute. exact I.
Qed.

(** Bytes and groups of six bits are digits in mixed radix. *)
Lemma lor_shift a b n : 0 ≤ n → 0 ≤ b < 2 ^ n → Z.lor (Z.shiftl a n) b = a * 2 ^ n + b.
Proof.
  intros Hn Hb. rewrite <-Z.shiftl_mul_pow2 by done. symmetry.
  assert (Z.land (Z.shiftl a n) b = 0) as Hd.
  { apply Z.bits_inj'. intros i Hi. rewrite Z.land_spec, Z.bits_0. destruct (decide (i < n)).
    - by rewrite Z.shiftl_spec_low.
    - rewrite <-(Z.mod_small b (2 ^ n)) by done. rewrite (Z.mod_pow2_bits_high b n i) by lia. apply andb_false_r. }
  rewrite Z.add_nocarry_lxor by done. by apply Z.lxor_lor.
Qed.

Ltac byte_arith :=
  repeat first [rewrite (Z.land_ones _ 6) by lia | rewrite (Z.land_ones _ 4) by lia | rewrite (Z.land_ones _ 2) by lia
               | rewrite Z.shiftr_div_pow2 by lia];
  cbn [Z.pow Z.pow_pos Pos.iter Z.mul Pos.mul];
  repeat rewrite lor_shift by (cbn [Z.pow Z.pow_pos Pos.iter Z.mul Pos.mul]; Z.div_mod_to_equations; lia);
  cbn [Z.pow Z.pow_pos Pos.iter Z.mul Pos.mul]; Z.div_mod_to_equations; lia.
Lemma three_bytes a b c : is_byte a → is_byte b → is_byte c →
  let v := Z.lor (Z.lor (Z.shiftl a 16) (Z.shiftl b 8)) c in
  let x := Z.land (Z.shiftr v 18) 63 in let y := Z.land (Z.shiftr v 12) 63 in
  let z := Z.land (Z.shiftr v 6) 63 in let w := Z.land v 63 in
  Z.lor (Z.shiftl x 2) (Z.shiftr y 4) = a ∧ Z.lor (Z.shiftl (Z.land y 15) 4) (Z.shiftr z 2) = b ∧
  Z.lor (Z.shiftl (Z.land z 3) 6) w = c ∧ (c = 0 → Z.land z 3 = 0) ∧ (b = 0 → c = 0 → Z.land y 15 = 0).
Proof.
  intros Ha Hb Hc. unfold is_byte in *. cbv zeta.
  assert (Z.lor (Z.lor (Z.shiftl a 16) (Z.shiftl b 8)) c = a * 65536 + b * 256 + c) as ->.
  { rewrite <-Z.lor_assoc. rewrite (lor_shift b c 8) by lia. rewrite lor_shift; lia. }
  change 63 with (Z.ones 6). change 15 with (Z.ones 4). change 3 with (Z.ones 2). split_and!; intros; byte_arith.
Qed.

Lemma encode_safe src : Forall (λ c, url_safe c = true) (EncodeToString src).
Proof.
  induction src as [src IH] using (induction_ltof1 _ length). unfold ltof in IH.
  destruct src as [|a [|b [|c src]]]; cbn [EncodeToString]; repeat (constructor; [apply url_digit_safe|]); [constructor..|].
  apply IH. cbn. lia.
Qed.

Lemma decode_encode_quanta strict src : Forall is_byte src → decode_quanta strict (EncodeToString src) = Some src.
Proof.
  induction src as [src IH] using (induction_ltof1 _ length). unfold ltof in IH. intros Hsrc.
  destruct src as [|a [|b [|c src]]]; [done|..]; repeat (apply Forall_cons in Hsrc as [? Hsrc]); cbn [EncodeToString decode_quanta];
    rewrite ?url_value_digit; cbn [mbind option_bind].
  - destruct (three_bytes a 0 0) as (E1 & _ & _ & _ & E2); [done|unfold is_byte; lia..|].
    rewrite Z.shiftl_0_l, !Z.lor_0_r in *. rewrite E1, E2 by done. by rewrite bool_decide_true, orb_true_r.
  - destruct (three_bytes a b 0) as (E1 & E2 & _ & E3 & _); [done|done|unfold is_byte; lia|].
    rewrite !Z.lor_0_r in *. rewrite E1, E2, E3 by done. by rewrite bool_decide_true, orb_true_r.
  - rewrite IH by (cbn; lia || done). cbn [mbind option_bind]. destruct (three_bytes a b c) as (E1 & E2 & E3 & _); [done..|].
    by rewrite E1, E2, E3.
Qed.

Lemma DecodeString_EncodeToString strict src : Forall is_byte src → DecodeString strict (EncodeToString src) = Some src.
Proof.
  intros Hsrc. unfold DecodeString. rewrite filter_all; [by apply decode_encode_quanta|].
  pose proof (encode_safe src) as Hall. rewrite Forall_forall in Hall. intros c Hs%Hall. unfold url_safe in Hs.
  by apply andb_true_iff in Hs as [[[_ _]%andb_true_iff Hb%negb_true_iff]%andb_true_iff _].
Qed.

Lemma length_EncodeToString src : (length (EncodeToString src) = (4 * length src + 2) / 3)%nat.
Proof.
  induction src as [src IH] using (induction_ltof1 _ length). unfold ltof in IH.
  destruct src as [|a [|b [|c src]]]; [done..|]. cbn [EncodeToString length]. rewrite IH by (cbn; lia).
  replace (4 * S (S (S (length src))) + 2)%nat with (4 * length src + 2 + 4 * 3)%nat by lia. rewrite Nat.div_add by lia. lia.
Qed.

Lemma Sum256_bytes msg : Forall is_byte (Sum256 msg) ∧ length (Sum256 msg) = 32%nat.
Proof.
  unfold Sum256. cbn [mbind list_bind]. rewrite !Forall_app, !length_app, !(proj2 (big_endian_bytes _ _)).
  split; [|done]. split_and!; try apply big_endian_bytes. constructor.
Qed.
Lemma hmac_bytes key msg : Forall is_byte (hmac_Sum key msg) ∧ length (hmac_Sum key msg) = 32%nat.
Proof. apply Sum256_bytes. Qed.

Lemma byte_of_code (data : bytes) : byte <$> (code <$> data) = data.
Proof. rewrite <-list_fmap_compose. rewrite (list_fmap_ext _ id); [apply list_fmap_id|]. intros _ c _. apply byte_code. Qed.
Lemma code_is_byte (data : bytes) : Forall is_byte (code <$> data).
Proof. apply Forall_fmap, Forall_forall. intros c _. apply code_range. Qed.

(** ** The text of a cursor *)

(** Text that JSON leaves as it is. *)
Definition plain (s : bytes) : Prop := Forall (λ c, rune1 c && html_safe c = true) s.
Lemma plain_utf8 s : plain s → utf8 s.
Proof. intros Hs. apply utf8_ascii. eapply Forall_impl; [exact Hs|]. by intros c [? _]%andb_true_iff. Qed.
Lemma escape_plain s : plain s → escape s = s.
Proof.
  induction 1 as [|c s [Hc Hs]%andb_true_iff _ IH]; [done|]. change (c :: s) with ([c] ++ s). rewrite escape_rune by done.
  rewrite IH. cbn. unfold escape_ascii. by rewrite Hs.
Qed.

Lemma url_safe_plain s : Forall (λ c, url_safe c = true) s → plain s.
Proof. intros Hs. eapply Forall_impl; [exact Hs|]. intros c. unfold url_safe. by intros [[? _]%andb_true_iff _]%andb_true_iff. Qed.

Lemma ascii_forall (p : Ascii.ascii → bool) : forallb p (byte <$> seqZ 0 256) = true → ∀ c, p c = true.
Proof.
  rewrite forallb_forall. intros Hp c. apply Hp, list_elem_of_In, list_elem_of_fmap. exists (code c).
  split; [by rewrite byte_code|]. apply elem_of_seqZ. pose proof (code_range c). lia.
Qed.
Lemma digit_plain c : implb (is_digit c || is_hex c || bool_decide (c = "-"%char)) (rune1 c && html_safe c) = true.
Proof. revert c. apply ascii_forall. vm_compute. reflexivity. Qed.
Lemma implb_elim a b : implb a b = true → a = true → b = true.
Proof. by destruct a. Qed.

Lemma decimal_plain n : 0 ≤ n → plain (decimal n).
Proof.
  intros (Hd & _)%decimal_spec. eapply Forall_impl; [exact Hd|]. intros c Hc. apply (implb_elim _ _ (digit_plain c)). by rewrite Hc.
Qed.
Lemma decimal_length n : 0 ≤ n ≤ max_int64 → (length (decimal n) ≤ 20)%nat.
Proof.
  intros Hn. destruct (decimal_spec n) as (Hd & Hv & Hlead & H0); [lia|]. destruct (decide (n = 0)) as [->|]; [rewrite H0; cbn; lia|].
  specialize (Hlead ltac:(lia)). destruct (decimal n) as [|c ds]; [done|]. apply Forall_cons in Hd as [Hc Hd].
  pose proof (digits_value_low c ds Hc Hlead Hd) as Hlow. rewrite Hv in Hlow. cbn. destruct (decide (length ds ≤ 19)%nat); [lia|].
  assert (10 ^ 20 ≤ 10 ^ slice_len ds) by (apply Z.pow_le_mono_r; unfold slice_len; lia). unfold max_int64 in *. lia.
Qed.
Lemma FormatInt_plain z : 0 ≤ z ≤ max_int64 → plain (FormatInt z) ∧ (length (FormatInt z) ≤ 20)%nat.
Proof.
  intros Hz. unfold FormatInt. rewrite (proj2 (Z.ltb_ge z 0)) by lia. split; [apply decimal_plain; lia|by apply decimal_length].
Qed.

Lemma IsID_plain s : IsID s = true → plain (bytes_of s) ∧ length (bytes_of s) = 36%nat.
Proof.
  unfold IsID. fold (bytes_of s). intros [[Hlen%bool_decide_eq_true Hdash]%andb_true_iff Hhex]%andb_true_iff. split; [|done].
  apply Forall_lookup. intros i c Hi. apply (implb_elim _ _ (digit_plain c)).
  rewrite forallb_forall in Hdash, Hhex. specialize (Hhex (i, c)). cbn in Hhex.
  assert (In (i, c) (zip (seq 0 (length (bytes_of s))) (bytes_of s))) as Hin.
  { apply list_elem_of_In, list_elem_of_lookup. exists i. apply lookup_zip_Some. split; [|done].
    apply lookup_seq. apply lookup_lt_Some in Hi. lia. }
  specialize (Hhex Hin). destruct (dash_position i) eqn:Hd; cbn in Hhex; [|by rewrite Hhex, orb_true_r].
  apply bool_decide_eq_true in Hd. apply list_elem_of_In in Hd. apply Hdash in Hd. apply bool_decide_eq_true in Hd.
  rewrite Hi in Hd. injection Hd as ->. by rewrite bool_decide_true, orb_true_r.
Qed.

(** Cursors that the server hands out: the scope is that of some assertion. *)
Record issued (cursor : monitoringCursor) : Prop := {
  is_instance : IsID (mcu_Instance cursor) = true;
  is_epoch : 1 ≤ mcu_Epoch cursor ≤ max_int64;
  is_scope : ∃ actor, mcu_Scope cursor = monitoringScope actor;
  is_position : 0 ≤ mcu_Position cursor ≤ max_int64 }.

Lemma monitoringScope_plain actor :
  plain (bytes_of (monitoringScope actor)) ∧ length (bytes_of (monitoringScope actor)) = 43%nat.
Proof.
  unfold monitoringScope. rewrite string_of_bytes. split; [apply url_safe_plain, encode_safe|].
  rewrite length_EncodeToString, (proj2 (Sum256_bytes _)). done.
Qed.

Lemma length_quote s : plain s → length (quote s) = (length s + 2)%nat.
Proof. intros Hs. unfold quote. rewrite (escape_plain s Hs). cbn. rewrite length_app. cbn. lia. Qed.

Lemma length_cursor c : issued c → (length (Marshal (encode c)) ≤ 200)%nat.
Proof.
  intros [[Hi Li]%IsID_plain [He Le]%(λ h, FormatInt_plain _ (conj (Z.le_trans _ _ _ Z.le_0_1 (proj1 h)) (proj2 h))) [actor Hs] [Hp Lp]%FormatInt_plain].
  destruct (monitoringScope_plain actor) as [Hsc Ls]. rewrite <-Hs in Hsc, Ls.
  change (encode c) with (JObject [("instance", JString (mcu_Instance c)); ("epoch", JString (string_of (FormatInt (mcu_Epoch c))));
    ("scope", JString (mcu_Scope c)); ("position", JString (string_of (FormatInt (mcu_Position c))))]).
  cbn [Marshal map commas]. repeat rewrite ?length_cons, ?length_app. rewrite !string_of_bytes. rewrite !length_quote by (done || by apply (bool_decide_unpack _)).
  cbn. lia.
Qed.

Lemma valid_cursor c : issued c → valid c.
Proof.
  intros [[Hi _]%IsID_plain He [actor Hs] Hp]. change (List.Forall (λ f, valid (f_get f c)) monitoringCursor_fields).
  unfold monitoringCursor_fields. each_field idtac; cbn.
  - by apply plain_utf8.
  - change (int64_range (mcu_Epoch c)). unfold int64_range, min_int64. lia.
  - rewrite Hs. apply plain_utf8, monitoringScope_plain.
  - change (int64_range (mcu_Position c)). unfold int64_range, min_int64. lia.
Qed.
Lemma small_cursor c : small c = true.
Proof. reflexivity. Qed.

#[export] Instance wire_quoted_laws : WireLaws quoted.
Proof.
  split; try done.
  - intros [z] Hz. constructor. unfold utf8_string. rewrite string_of_bytes. apply utf8_ascii.
    eapply literal_ascii, FormatInt_literal.
  - intros [z] Hz _. change (Quoted <$> ParseInt (bytes_of (string_of (FormatInt z))) = Some (Quoted z)).
    rewrite string_of_bytes. by rewrite ParseInt_FormatInt.
Qed.
Lemma monitoringCursor_fields_ok : struct_laws monitoringCursor_fields monitoringCursor_zero.
Proof.
  split; unfold monitoringCursor_fields.
  - apply (bool_decide_unpack _). vm_compute. exact I.
  - each_field ltac:(apply utf8_Valid_spec; vm_compute; reflexivity).
  - each_field ltac:(apply _).
  - each_field ltac:(reflexivity).
  - each_field ltac:(first [intros []; reflexivity | intros; reflexivity]).
  - each_field ltac:(each_field ltac:(intros Hne; first [intros; reflexivity | by destruct Hne])).
  - intros [] [] Hall; repeat (apply Forall_cons_1 in Hall as [? Hall]); cbn in *; congruence.
Qed.
#[export] Instance monitoringCursor_wire_laws : WireLaws monitoringCursor := wire_struct_laws _ _ monitoringCursor_fields_ok.

(** ** What is accepted *)

Section exact.
Context (tokenKey : bytes).
#[local] Opaque Sum256 EncodeToString.

Lemma height_cursor (c : monitoringCursor) : height (encode c) = 1.
Proof. reflexivity. Qed.

Lemma cursor_value c : bytes_of (encodeMonitoringCursor tokenKey c) =
  if short_key tokenKey then [] else
  EncodeToString (code <$> Marshal (encode c)) ++ "."%char :: EncodeToString (monitoringCursorMAC tokenKey (Marshal (encode c))).
Proof. unfold encodeMonitoringCursor. destruct (short_key tokenKey); [done|]. apply string_of_bytes. Qed.

(** Nothing but the cursor the store itself would hand out for it is accepted. *)
Lemma decodeMonitoringCursor_ok value c : decodeMonitoringCursor tokenKey value = Ok c →
  value = encodeMonitoringCursor tokenKey c ∧ 32 ≤ slice_len tokenKey ∧
  IsID (mcu_Instance c) = true ∧ 1 ≤ mcu_Epoch c ∧ 0 ≤ mcu_Position c ∧ len (mcu_Scope c) = 43.
Proof.
  unfold decodeMonitoringCursor, short_key. intros [[[_ _]%orb_false_iff Hk%bool_decide_eq_false]%fail_if_ok%orb_false_iff H]%bind_unit_ok.
  destruct (cut _ _) as [[payload signature] ok]. apply bind_unit_ok in H as [_ H].
  destruct (DecodeString true payload) as [raw|]; [|done]. destruct (DecodeString true signature) as [mac|]; [|done].
  apply bind_unit_ok in H as [_ H]. destruct (parse_canonical _ _) as [v|]; [|done].
  destruct (unmarshal v _) as [c'|]; [|done]. apply bind_unit_ok in H as [Hc H]. simplify_eq.
  apply fail_if_ok in Hc. rewrite !orb_false_iff, !negb_false_iff, !bool_decide_eq_true, !Z.ltb_ge in Hc. naive_solver lia.
Qed.

Lemma cut_app c a b : c ∉ a → cut c (a ++ c :: b) = (a, b, true).
Proof.
  induction a as [|x a IH]; cbn; [by rewrite bool_decide_true|]. intros [Hx Ha]%not_elem_of_cons.
  rewrite bool_decide_false by congruence. by rewrite IH.
Qed.
Lemma stop_not_digit src : "."%char ∉ EncodeToString src.
Proof. intros Hin. pose proof (encode_safe src) as Hs. rewrite Forall_forall in Hs. by apply Hs in Hin. Qed.

(** Whatever cursor the store hands out it accepts again. *)
Lemma decode_issued c : 32 ≤ slice_len tokenKey → issued c →
  decodeMonitoringCursor tokenKey (encodeMonitoringCursor tokenKey c) = Ok c.
Proof.
  intros Hkey Hc. assert (short_key tokenKey = false) as Hk by (apply bool_decide_eq_false; lia).
  pose proof (cursor_value c) as Hv. rewrite Hk in Hv. pose proof (length_cursor c Hc) as Hlen.
  pose proof (hmac_bytes tokenKey (bytes_of monitoringCursorDomain ++ Ascii.zero :: Marshal (encode c))) as [Hmb Hml].
  assert (len (encodeMonitoringCursor tokenKey c) ≤ 1024 ∧ encodeMonitoringCursor tokenKey c ≠ "") as [Hshort Hne].
  { split; [|intros E; rewrite E in Hv; by destruct (EncodeToString _)]. unfold len. rewrite <-length_list_ascii. fold (bytes_of (encodeMonitoringCursor tokenKey c)).
    rewrite Hv, length_app. cbn [length]. rewrite !length_EncodeToString. unfold monitoringCursorMAC. rewrite Hml, length_fmap.
    assert ((4 * length (Marshal (encode c)) + 2) / 3 ≤ 300)%nat by (apply Nat.Div0.div_le_upper_bound; lia).
    change ((4 * 32 + 2) / 3)%nat with 43%nat. lia. }
  unfold decodeMonitoringCursor. rewrite Hk, bool_decide_false by done. rewrite (proj2 (Z.ltb_ge _ _)) by lia. cbn [orb].
  rewrite bind_fail_if by done. rewrite Hv, cut_app by apply stop_not_digit.
  rewrite bind_fail_if by (rewrite bool_decide_true; [done|]; unfold slice_len; rewrite length_EncodeToString; unfold monitoringCursorMAC; by rewrite Hml).
  rewrite !DecodeString_EncodeToString by (apply code_is_byte || apply Hmb).
  rewrite byte_of_code. rewrite bind_fail_if by (by rewrite bool_decide_true).
  rewrite parse_Marshal by (apply wire_well_formed, valid_cursor, Hc || by rewrite height_cursor).
  rewrite wire_decode by (apply valid_cursor, Hc || done). destruct Hc as [Hi He [actor Hs] Hp].
  rewrite bind_fail_if; [done|]. rewrite Hi, (proj2 (Z.ltb_ge _ _)), (proj2 (Z.ltb_ge _ _)) by lia.
  rewrite Hs, bool_decide_true; [by rewrite bool_decide_true|]. unfold len. rewrite <-length_list_ascii.
  fold (bytes_of (monitoringScope actor)). by rewrite (proj2 (monitoringScope_plain actor)).
Qed.
End exact.
