(* ===== verification/Db.v ===== *)
(** * The control database

    The tables of [internal/store/postgres/migrations] that the repository
    methods read and write, as finite maps from primary keys to rows, and the
    transaction monad in which the methods run.  A text column with a [CHECK]
    that restricts its values stays a string, as in the sources; the check is
    applied when a row is written ([Constraints.v]).  Nullable columns are
    [option]s.  UUIDs are strings. *)
From S2P Require Import Prelude Regex Names Domain TargetSpec Kahn Graph Contract Records.

(** ** Rows *)

Record principal_row := { prn_issuer : string; prn_subject : string; prn_display_name : string }.
Record namespace_row := { ns_name : string }.

Record membership_row := {
  mem_role : string; mem_created_at : timestamptz; mem_updated_at : timestamptz }.
Record membership_grant_row := {
  mgr_namespace_id : string; mgr_principal_id : string; mgr_role : string;
  mgr_provenance : string; mgr_source_key : string;
  mgr_created_at : timestamptz; mgr_updated_at : timestamptz; mgr_revoked_at : option timestamptz }.
Record authorization_version_row := { av_revision : Z; av_updated_at : timestamptz }.

(** The directory: keyed by (issuer, subject), directory object, namespace, group and source. *)
Record principal_alias_row := {
  pal_directory_id : string; pal_principal_id : string; pal_provenance : string;
  pal_verified_at : timestamptz; pal_source_id : option string }.
Record directory_account_row := {
  dir_principal_id : string; dir_enabled : bool; dir_last_verified_at : option timestamptz;
  dir_source_id : option string }.
Record directory_state_row := {
  dst_source_id : string; dst_last_verified_at : option timestamptz; dst_last_attempt_at : option timestamptz;
  dst_last_error_code : option string; dst_configuration_revision : Z }.
Record role_binding_row := {
  rb_namespace_id : string; rb_role : string; rb_enabled : bool; rb_revision : Z; rb_updated_at : timestamptz }.
Record directory_source_row := {
  ds_revision : Z; ds_configuration_digest : string; ds_mapping : DirectoryMapping;
  ds_configured_at : timestamptz; ds_last_verified_at : option timestamptz;
  ds_last_attempt_at : option timestamptz; ds_last_error_code : option string;
  ds_ignored_direct_members : Z }.

(** [domain.DelegationKey] is stored column by column; the key is the pair
    (service_id, key_id). *)
Record delegation_key_row := {
  dk_audience : string; dk_public_key : string; dk_certificate_thumbprints : list string;
  dk_namespace_ids : list string; dk_operations : list string; dk_enabled : bool; dk_updated_at : timestamptz }.

Record assertion_row := {
  das_key_id : string; das_principal_id : option string; das_directory_id : option string;
  das_actor_issuer : option string; das_actor_subject : option string;
  das_operation : string; das_namespace_ids : list string; das_mode : string;
  das_assertion_digest : string; das_issued_at : timestamptz; das_expires_at : timestamptz;
  das_accepted_at : timestamptz }.

Record workload_revision_row := {
  wr_document : Workload; wr_created_by : string }.

(** The members of the [import_source] object. *)
Record import_source := { is_store : string; is_schema : Z; is_jobId : string }.

Record job_row := {
  j_namespace_id : string;
  j_owner_principal_id : string;
  j_name : string;
  j_labels : gmap string string;
  j_phase : string;
  j_desired_state : string;
  j_outcome : option string;
  j_placement_target : string;
  j_placement_partition : option string;
  j_workload_digest : string;
  j_request_digest : string;
  j_request_document : string;
  j_target_id : option string;
  j_target_generation_id : option string;
  j_resolved_artifact_stores : list ArtifactStoreSpec;
  j_collection_id : option string;
  j_collection_index : option Z;
  j_graph_id : option string;
  j_graph_index : option Z;
  j_graph_disposition : option string;
  j_imported : bool;
  j_import_source : option import_source;
  j_started_at : option timestamptz;
  j_started_recorded_at : option timestamptz;
  j_started_provenance : option string;
  j_completed_at : option timestamptz;
  j_completed_recorded_at : option timestamptz;
  j_completed_provenance : option string;
  j_revision : Z;
  j_created_at : timestamptz;
  j_updated_at : timestamptz }.

Record run_row := {
  r_namespace_id : string;
  r_job_id : string;
  r_run_number : Z;
  r_phase : string;
  r_desired_state : string;
  r_outcome : option string;
  r_created_at : timestamptz;
  r_updated_at : timestamptz }.

Record execution_row := {
  e_namespace_id : string;
  e_run_id : string;
  e_target_id : string;
  e_target_generation_id : string;
  e_agent_id : string;
  e_phase : string;
  e_effective_spec_digest : string;
  e_effective_spec : EffectiveExecution;
  e_revision : Z;
  e_accepted_at : option timestamptz;
  e_last_event_sequence : Z;
  e_native_id : option string;
  e_outcome : option string;
  e_process_result : option ProcessResult;
  e_native_backend : option string;
  e_native_state : option string;
  e_native_reason : option string;
  e_native_cluster : option string;
  e_native_observed_at : option timestamptz;
  e_observation_confidence : string;
  e_confidence_updated_at : timestamptz;
  e_created_at : timestamptz;
  e_updated_at : timestamptz }.

Record assignment_row := {
  a_namespace_id : string;
  a_execution_id : string;
  a_agent_id : string;
  a_state : string;
  a_document : AgentAssignment;
  a_delivery_count : Z;
  a_last_delivered_at : option timestamptz;
  a_accepted_at : option timestamptz;
  a_rejected_at : option timestamptz;
  a_rejection_code : option string;
  a_acceptance_digest : option string;
  a_acceptance_document : option AgentAcceptance;
  a_created_at : timestamptz }.

Record event_row := {
  evt_namespace_id : string;
  evt_execution_id : string;
  evt_agent_id : string;
  evt_source_sequence : Z;
  evt_event_type : string;
  evt_observed_at : timestamptz;
  evt_ingested_at : timestamptz;
  evt_document_digest : string;
  evt_document : ExecutionEvent }.

Record artifact_row := {
  ar_namespace_id : string;
  ar_store_name : string;
  ar_store_version : Z;
  ar_object_key : string;
  ar_byte_length : Z;
  ar_checksum : string;
  ar_published_at : timestamptz }.

Record action_row := {
  act_namespace_id : string;
  act_execution_id : string;
  act_agent_id : string;
  act_revision : Z;
  act_action_type : string;
  act_state : string;
  act_document : Contract.DesiredAction;
  act_delivery_count : Z;
  act_last_delivered_at : option timestamptz;
  act_acknowledged_at : option timestamptz;
  act_created_at : timestamptz }.

Record collection_row := {
  co_namespace_id : string;
  co_owner_principal_id : string;
  co_name : string;
  co_labels : gmap string string;
  co_request_digest : string;
  co_request_document : string;
  co_max_active : Z;
  co_failure_policy : string;
  co_array_policy : string;
  co_array_mode : string;
  co_revision : Z;
  co_created_at : timestamptz;
  co_updated_at : timestamptz }.
Record collection_item_row := { cit_item_name : string; cit_job_id : string }.

Record graph_row := {
  gr_namespace_id : string;
  gr_owner_principal_id : string;
  gr_name : string;
  gr_labels : gmap string string;
  gr_request_digest : string;
  gr_request_document : string;
  gr_max_active : Z;
  gr_unsatisfied_policy : string;
  gr_revision : Z;
  gr_created_at : timestamptz;
  gr_updated_at : timestamptz }.
Record graph_node_row := { nod_node_name : string; nod_job_id : string }.
Record graph_edge_row := { ed_predicate : string; ed_outcomes : list string }.

Record idempotency_row := {
  id_request_digest : string;
  id_resource_type : string;
  id_resource_id : option string;
  id_response_status : option Z;
  id_completed_at : option timestamptz }.

Record audit_row := {
  au_namespace_id : string;
  au_actor_kind : string;
  au_actor_principal_id : option string;
  au_actor_agent_id : option string;
  au_action : string;
  au_resource_type : string;
  au_resource_id : string;
  au_request_digest : option string;
  au_idempotency_key : option string;
  au_details : list (string * string);
  au_occurred_at : timestamptz }.

(** The values of the members of a [jsonb] object that the schema builds. *)
Inductive jsonb_value :=
  | jText (s : string)
  | jBool (b : bool)
  | jTime (t : timestamptz).

Record directory_audit_row := {
  dau_source_id : string; dau_action : string; dau_details : list (string * jsonb_value);
  dau_recorded_at : timestamptz }.

Record outbox_row := {
  ob_namespace_id : string;
  ob_topic : string;
  ob_aggregate_type : string;
  ob_aggregate_id : string;
  ob_payload : list (string * jsonb_value);
  ob_created_at : timestamptz;
  ob_published_at : option timestamptz }.

(** The feed is keyed by position; its state is a single row. *)
Record monitoring_feed_row := {
  mf_event_id : string;
  mf_namespace_id : string;
  mf_payload : list (string * jsonb_value);
  mf_published_at : timestamptz }.
Record monitoring_feed_state := {
  fs_head_position : Z;
  fs_retired_through : Z;
  fs_retention_seconds : Z;
  fs_last_published_at : timestamptz }.

Record log_stream_row := {
  ls_namespace_id : string;
  ls_agent_id : string;
  ls_store_name : string;
  ls_store_version : Z;
  ls_state : string;
  ls_byte_length : Z;
  ls_last_sequence : Z;
  ls_truncated : bool;
  ls_completed_at : option timestamptz;
  ls_updated_at : timestamptz;
  ls_manifest_revision : Z }.
Record log_chunk_row := {
  ch_namespace_id : string;
  ch_agent_id : string;
  ch_store_name : string;
  ch_store_version : Z;
  ch_object_key : string;
  ch_byte_offset : Z;
  ch_byte_length : Z;
  ch_checksum : string;
  ch_captured_at : timestamptz;
  ch_complete : bool;
  ch_truncated : bool;
  ch_document_digest : string;
  ch_document : string }.

Record policy_row := {
  po_max_active_jobs : Z;
  po_max_queued_jobs : Z;
  po_max_collection_items : Z;
  po_max_graph_nodes : Z;
  po_idempotency_retention : Z;
  po_published_outbox_retention : Z;
  po_revision : Z;
  po_last_dispatched_at : option timestamptz;
  po_created_at : timestamptz;
  po_updated_at : timestamptz }.

Record target_row := {
  tg_namespace_id : string; tg_name : string; tg_kind : string; tg_state : string;
  tg_current_generation_id : option string; tg_revision : Z;
  tg_created_at : timestamptz; tg_updated_at : timestamptz }.
Record generation_row := {
  gen_namespace_id : string;
  gen_target_id : string;
  gen_generation : Z;
  gen_execution_backend : string;
  gen_control_transport : string;
  gen_runtimes : list string;
  gen_operating_systems : list string;
  gen_architectures : list string;
  gen_capabilities : list string;
  gen_artifact_stores : list ArtifactStoreSpec;
  gen_log_store_name : option string;
  gen_log_store_version : option Z;
  gen_provider : TargetProvider }.

(** Keyed by generation and name, which are unique; [part_id] is the primary key of the schema. *)
Record partition_row := {
  part_id : string; part_namespace_id : string; part_is_default : bool; part_state : string }.

Record agent_row := {
  ag_namespace_id : string;
  ag_target_id : string;
  ag_target_generation_id : string;
  ag_principal_id : string;
  ag_status : string;
  ag_agent_version : string;
  ag_protocol_versions : list string;
  ag_operating_system : string;
  ag_architecture : string;
  ag_hostname : string;
  ag_execution_user : string;
  ag_execution_backends : list string;
  ag_runtimes : list string;
  ag_capabilities : list string;
  ag_registration_digest : string;
  ag_accepting_assignments : bool;
  ag_capability_revision : Z;
  ag_last_capability_at : option timestamptz;
  ag_last_seen_at : option timestamptz;
  ag_created_at : timestamptz;
  ag_updated_at : timestamptz }.

(** Token hashes are the 32 bytes of a SHA-256 sum. *)
Record session_row := {
  se_namespace_id : string;
  se_agent_id : string;
  se_token_hash : list Z;
  se_expires_at : timestamptz;
  se_last_seen_at : option timestamptz;
  se_revoked_at : option timestamptz;
  se_replaced_by_session_id : option string;
  se_created_at : timestamptz }.
Record enrollment_row := {
  en_namespace_id : string;
  en_target_id : string;
  en_target_generation_id : string;
  en_principal_id : string;
  en_created_by_principal_id : string;
  en_expected_user : string;
  en_token_hash : list Z;
  en_request_digest : string;
  en_expires_at : timestamptz;
  en_used_at : option timestamptz;
  en_used_by_agent_id : option string;
  en_created_at : timestamptz }.
Record certificate_row := {
  crt_namespace_id : string;
  crt_agent_id : string;
  crt_public_key_digest : string;
  crt_not_after : timestamptz;
  crt_revoked_at : option timestamptz;
  crt_replaced_by_serial : option string;
  crt_created_at : timestamptz }.
Record capability_row := {
  cap_namespace_id : string;
  cap_observed_at : timestamptz;
  cap_accepting_assignments : bool;
  cap_agent_version : string;
  cap_operating_system : string;
  cap_architecture : string;
  cap_hostname : string;
  cap_execution_user : string;
  cap_execution_backends : list string;
  cap_runtimes : list string;
  cap_capabilities : list string;
  cap_document_digest : string;
  cap_document : string;
  cap_created_at : timestamptz }.

(** ** The database *)

(** [d_ids] is not a table: it is the stream of identifiers that [store.newID] and
    [gen_random_uuid] still have to hand out.  [d_reconciliation_hold], [d_restore_epoch]
    and [d_delegation_issued_after] are columns of the single row of [service_recovery_state],
    [d_control_instance] is the identifier in [control_instance], [d_target_clocks] is
    [target_catalog_clocks], and [d_directory_audit_next] the next value of an identity column. *)
Record db := {
  d_principals : gmap string principal_row;
  d_namespaces : gmap string namespace_row;
  d_memberships : gmap (string * string) membership_row;
  d_membership_grants : gmap string membership_grant_row;
  d_authorization_versions : gmap (string * string) authorization_version_row;
  d_principal_aliases : gmap (string * string) principal_alias_row;
  d_directory_accounts : gmap string directory_account_row;
  d_directory_state : gmap string directory_state_row;
  d_role_bindings : gmap string role_binding_row;
  d_directory_sources : gmap string directory_source_row;
  d_directory_audit : gmap Z directory_audit_row;
  d_directory_audit_next : Z;
  d_delegation_keys : gmap (string * string) delegation_key_row;
  d_assertions : gmap (string * string) assertion_row;
  d_workload_revisions : gmap (string * string) workload_revision_row;
  d_jobs : gmap string job_row;
  d_runs : gmap string run_row;
  d_executions : gmap string execution_row;
  d_assignments : gmap string assignment_row;
  d_events : gmap string event_row;
  d_artifacts : gmap (string * string) artifact_row;
  d_actions : gmap string action_row;
  d_collections : gmap string collection_row;
  d_collection_items : gmap (string * Z) collection_item_row;
  d_graphs : gmap string graph_row;
  d_graph_nodes : gmap (string * Z) graph_node_row;
  d_graph_edges : gmap (string * string * string) graph_edge_row;
  d_idempotency : gmap (string * string * string * string) idempotency_row;
  d_audit : list audit_row;
  d_outbox : gmap string outbox_row;
  d_monitoring_feed : gmap Z monitoring_feed_row;
  d_monitoring_state : monitoring_feed_state;
  d_log_streams : gmap (string * string) log_stream_row;
  d_log_chunks : gmap (string * string * Z) log_chunk_row;
  d_policies : gmap string policy_row;
  d_target_clocks : gmap string timestamptz;
  d_targets : gmap string target_row;
  d_generations : gmap string generation_row;
  d_partitions : gmap (string * string) partition_row;
  d_agents : gmap string agent_row;
  d_sessions : gmap string session_row;
  d_enrollments : gmap string enrollment_row;
  d_certificates : gmap string certificate_row;
  d_capability_snapshots : gmap (string * Z) capability_row;
  d_control_instance : string;
  d_reconciliation_hold : bool;
  d_restore_epoch : Z;
  d_delegation_issued_after : timestamptz;
  d_ids : list string }.

(** Field updates for the rows that [UPDATE] statements touch, and for the tables. *)
#[export] Instance delegation_key_row_settable : Settable delegation_key_row := λ x,
  Build_delegation_key_row (dk_audience x) (dk_public_key x) (dk_certificate_thumbprints x) (dk_namespace_ids x)
    (dk_operations x) (dk_enabled x) (dk_updated_at x).
#[export] Instance principal_row_settable : Settable principal_row := λ x,
  Build_principal_row (prn_issuer x) (prn_subject x) (prn_display_name x).
#[export] Instance membership_row_settable : Settable membership_row := λ x,
  Build_membership_row (mem_role x) (mem_created_at x) (mem_updated_at x).
#[export] Instance membership_grant_row_settable : Settable membership_grant_row := λ x,
  Build_membership_grant_row (mgr_namespace_id x) (mgr_principal_id x) (mgr_role x) (mgr_provenance x)
    (mgr_source_key x) (mgr_created_at x) (mgr_updated_at x) (mgr_revoked_at x).
#[export] Instance authorization_version_row_settable : Settable authorization_version_row := λ x,
  Build_authorization_version_row (av_revision x) (av_updated_at x).
#[export] Instance directory_account_row_settable : Settable directory_account_row := λ x,
  Build_directory_account_row (dir_principal_id x) (dir_enabled x) (dir_last_verified_at x) (dir_source_id x).
#[export] Instance directory_state_row_settable : Settable directory_state_row := λ x,
  Build_directory_state_row (dst_source_id x) (dst_last_verified_at x) (dst_last_attempt_at x)
    (dst_last_error_code x) (dst_configuration_revision x).
#[export] Instance role_binding_row_settable : Settable role_binding_row := λ x,
  Build_role_binding_row (rb_namespace_id x) (rb_role x) (rb_enabled x) (rb_revision x) (rb_updated_at x).
#[export] Instance directory_source_row_settable : Settable directory_source_row := λ x,
  Build_directory_source_row (ds_revision x) (ds_configuration_digest x) (ds_mapping x) (ds_configured_at x)
    (ds_last_verified_at x) (ds_last_attempt_at x) (ds_last_error_code x) (ds_ignored_direct_members x).
#[export] Instance outbox_row_settable : Settable outbox_row := λ x,
  Build_outbox_row (ob_namespace_id x) (ob_topic x) (ob_aggregate_type x) (ob_aggregate_id x) (ob_payload x)
    (ob_created_at x) (ob_published_at x).
#[export] Instance monitoring_feed_state_settable : Settable monitoring_feed_state := λ x,
  Build_monitoring_feed_state (fs_head_position x) (fs_retired_through x) (fs_retention_seconds x)
    (fs_last_published_at x).
#[export] Instance job_row_settable : Settable job_row := λ x,
  Build_job_row (j_namespace_id x) (j_owner_principal_id x) (j_name x) (j_labels x) (j_phase x)
    (j_desired_state x) (j_outcome x) (j_placement_target x) (j_placement_partition x)
    (j_workload_digest x) (j_request_digest x) (j_request_document x) (j_target_id x)
    (j_target_generation_id x) (j_resolved_artifact_stores x) (j_collection_id x)
    (j_collection_index x) (j_graph_id x) (j_graph_index x) (j_graph_disposition x)
    (j_imported x) (j_import_source x) (j_started_at x) (j_started_recorded_at x) (j_started_provenance x)
    (j_completed_at x) (j_completed_recorded_at x) (j_completed_provenance x) (j_revision x)
    (j_created_at x) (j_updated_at x).
#[export] Instance run_row_settable : Settable run_row := λ x,
  Build_run_row (r_namespace_id x) (r_job_id x) (r_run_number x) (r_phase x) (r_desired_state x)
    (r_outcome x) (r_created_at x) (r_updated_at x).
#[export] Instance execution_row_settable : Settable execution_row := λ x,
  Build_execution_row (e_namespace_id x) (e_run_id x) (e_target_id x) (e_target_generation_id x)
    (e_agent_id x) (e_phase x) (e_effective_spec_digest x) (e_effective_spec x)
    (e_revision x) (e_accepted_at x) (e_last_event_sequence x) (e_native_id x) (e_outcome x)
    (e_process_result x) (e_native_backend x) (e_native_state x) (e_native_reason x)
    (e_native_cluster x) (e_native_observed_at x) (e_observation_confidence x)
    (e_confidence_updated_at x) (e_created_at x) (e_updated_at x).
#[export] Instance assignment_row_settable : Settable assignment_row := λ x,
  Build_assignment_row (a_namespace_id x) (a_execution_id x) (a_agent_id x) (a_state x) (a_document x)
    (a_delivery_count x) (a_last_delivered_at x) (a_accepted_at x) (a_rejected_at x)
    (a_rejection_code x) (a_acceptance_digest x) (a_acceptance_document x) (a_created_at x).
#[export] Instance action_row_settable : Settable action_row := λ x,
  Build_action_row (act_namespace_id x) (act_execution_id x) (act_agent_id x) (act_revision x)
    (act_action_type x) (act_state x) (act_document x) (act_delivery_count x)
    (act_last_delivered_at x) (act_acknowledged_at x) (act_created_at x).
#[export] Instance collection_row_settable : Settable collection_row := λ x,
  Build_collection_row (co_namespace_id x) (co_owner_principal_id x) (co_name x) (co_labels x)
    (co_request_digest x) (co_request_document x) (co_max_active x) (co_failure_policy x)
    (co_array_policy x) (co_array_mode x) (co_revision x) (co_created_at x)
    (co_updated_at x).
#[export] Instance graph_row_settable : Settable graph_row := λ x,
  Build_graph_row (gr_namespace_id x) (gr_owner_principal_id x) (gr_name x) (gr_labels x)
    (gr_request_digest x) (gr_request_document x) (gr_max_active x)
    (gr_unsatisfied_policy x) (gr_revision x) (gr_created_at x) (gr_updated_at x).
#[export] Instance idempotency_row_settable : Settable idempotency_row := λ x,
  Build_idempotency_row (id_request_digest x) (id_resource_type x) (id_resource_id x) (id_response_status x)
    (id_completed_at x).
#[export] Instance log_stream_row_settable : Settable log_stream_row := λ x,
  Build_log_stream_row (ls_namespace_id x) (ls_agent_id x) (ls_store_name x) (ls_store_version x) (ls_state x)
    (ls_byte_length x) (ls_last_sequence x) (ls_truncated x) (ls_completed_at x)
    (ls_updated_at x) (ls_manifest_revision x).
#[export] Instance policy_row_settable : Settable policy_row := λ x,
  Build_policy_row (po_max_active_jobs x) (po_max_queued_jobs x) (po_max_collection_items x)
    (po_max_graph_nodes x) (po_idempotency_retention x) (po_published_outbox_retention x)
    (po_revision x) (po_last_dispatched_at x) (po_created_at x) (po_updated_at x).
#[export] Instance target_row_settable : Settable target_row := λ x,
  Build_target_row (tg_namespace_id x) (tg_name x) (tg_kind x) (tg_state x) (tg_current_generation_id x)
    (tg_revision x) (tg_created_at x) (tg_updated_at x).
#[export] Instance agent_row_settable : Settable agent_row := λ x,
  Build_agent_row (ag_namespace_id x) (ag_target_id x) (ag_target_generation_id x) (ag_principal_id x)
    (ag_status x) (ag_agent_version x) (ag_protocol_versions x) (ag_operating_system x) (ag_architecture x)
    (ag_hostname x) (ag_execution_user x) (ag_execution_backends x)
    (ag_runtimes x) (ag_capabilities x) (ag_registration_digest x) (ag_accepting_assignments x)
    (ag_capability_revision x) (ag_last_capability_at x) (ag_last_seen_at x) (ag_created_at x) (ag_updated_at x).
#[export] Instance session_row_settable : Settable session_row := λ x,
  Build_session_row (se_namespace_id x) (se_agent_id x) (se_token_hash x) (se_expires_at x) (se_last_seen_at x)
    (se_revoked_at x) (se_replaced_by_session_id x) (se_created_at x).
#[export] Instance enrollment_row_settable : Settable enrollment_row := λ x,
  Build_enrollment_row (en_namespace_id x) (en_target_id x) (en_target_generation_id x) (en_principal_id x)
    (en_created_by_principal_id x) (en_expected_user x) (en_token_hash x) (en_request_digest x)
    (en_expires_at x) (en_used_at x) (en_used_by_agent_id x) (en_created_at x).
#[export] Instance certificate_row_settable : Settable certificate_row := λ x,
  Build_certificate_row (crt_namespace_id x) (crt_agent_id x) (crt_public_key_digest x) (crt_not_after x)
    (crt_revoked_at x) (crt_replaced_by_serial x) (crt_created_at x).
#[export] Instance db_settable : Settable db := λ x,
  Build_db (d_principals x) (d_namespaces x) (d_memberships x) (d_membership_grants x) (d_authorization_versions x)
    (d_principal_aliases x) (d_directory_accounts x) (d_directory_state x)
    (d_role_bindings x) (d_directory_sources x) (d_directory_audit x) (d_directory_audit_next x) (d_delegation_keys x) (d_assertions x) (d_workload_revisions x) (d_jobs x) (d_runs x) (d_executions x)
    (d_assignments x) (d_events x) (d_artifacts x) (d_actions x) (d_collections x)
    (d_collection_items x) (d_graphs x) (d_graph_nodes x) (d_graph_edges x)
    (d_idempotency x) (d_audit x) (d_outbox x) (d_monitoring_feed x) (d_monitoring_state x) (d_log_streams x) (d_log_chunks x)
    (d_policies x) (d_target_clocks x) (d_targets x) (d_generations x) (d_partitions x) (d_agents x)
    (d_sessions x) (d_enrollments x) (d_certificates x) (d_capability_snapshots x)
    (d_control_instance x) (d_reconciliation_hold x) (d_restore_epoch x) (d_delegation_issued_after x) (d_ids x).
