(* ===== verification/Tx.v ===== *)
(** * Transactions

    The monad of a repository method running inside [inTransaction]
    ([internal/store/postgres/store.go]): it reads the environment of the
    transaction, threads the database and may return an error, in which case the
    transaction is rolled back and nothing of the intermediate state is visible.
    Statements are executed one transaction at a time; what other transactions
    hold locked is visible only to [SKIP LOCKED] claims, through [row_locked].

    The class [Table] states what a table is: its place in the database, the
    constraints on a row and its triggers.  [INSERT] and [UPDATE] are defined, and
    reasoned about, once for all tables. *)
From S2P Require Import Prelude Regex Names Domain TargetSpec Kahn Graph Contract Records Db.

(** ** Environment *)

(** The clocks are [transaction_timestamp()], [statement_timestamp()], [clock_timestamp()] and [time.Now()]; a
    transaction reads each of them once. *)
Record env := {
  transaction_timestamp : timestamptz;
  statement_timestamp : timestamptz;
  clock_timestamp : timestamptz;
  time_Now : time;
  row_locked : string → bool }.

(** ** The monad *)

Definition tx (A : Type) : Type := env → db → result (A * db).

#[export] Instance tx_ret : MRet tx := λ A a _ d, Ok (a, d).
#[export] Instance tx_bind : MBind tx := λ A B k m e d,
  match m e d with
  | Ok (a, d') => k a e d'
  | Err err => Err err
  end.

Definition query {A} (f : db → A) : tx A := λ _ d, Ok (f d, d).
Definition asks {A} (f : env → A) : tx A := λ e d, Ok (f e, d).
Definition exec (f : env → db → db) : tx unit := λ e d, Ok (tt, f e d).
Definition throw {A} (err : error) : tx A := λ _ _, Err err.
Definition lift {A} (r : result A) : tx A := λ _ d,
  match r with Ok a => Ok (a, d) | Err err => Err err end.

(** [if cond { return err }] *)
Definition reject (cond : bool) (err : error) : tx unit :=
  if cond then throw err else mret tt.

(** [if err != nil { return fmt.Errorf(format, err) }] *)
Definition wrapT {A} (format : string) (args : list string) (m : tx A) : tx A := λ e d,
  match m e d with Ok r => Ok r | Err err => Err (Wrapf format args err) end.

(** [err := row.Scan(...)] with [pgx.ErrNoRows] mapped to [err]. *)
Definition row_or {A} (o : option A) (err : error) : tx A :=
  match o with Some a => mret a | None => throw err end.

(** [if cond { if err := m; err != nil { return err } }] *)
Definition whenT (cond : bool) (m : tx unit) : tx unit := if cond then m else mret tt.

(** [for _, x := range l { s, err = f(s, x); if err != nil { return err } }] *)
Fixpoint forT {S A} (f : S → A → tx S) (s : S) (l : list A) : tx S :=
  match l with
  | [] => mret s
  | x :: l => s' ← f s x; forT f s' l
  end.
Definition for_eachT {A} (f : A → tx unit) (l : list A) : tx unit := forT (λ _, f) tt l.

(** [store.newID] and [gen_random_uuid()]: the next identifier of the supply; an
    exhausted supply is a failure of the random source. *)
Definition newID : tx string := λ _ d,
  match d_ids d with
  | [] => Err (Errorf "generate identifier" [])
  | i :: ids => Ok (i, d <| d_ids := ids |>)
  end.

(** [inTransaction]: commit on success, roll back on error. *)
Definition inTransaction {A} (operation : tx A) (e : env) (d : db) : result A * db :=
  match operation e d with
  | Ok (a, d') => (Ok a, d')
  | Err err => (Err err, d)
  end.

(** ** Tables *)

(** A named constraint and whether the row satisfies it. *)
Definition constraint := (string * bool)%type.
Definition check_all (cs : list constraint) : result unit :=
  for_each (λ c : constraint, fail_if (negb c.2) (Errorf "violates constraint" [c.1])) cs.

Class Table (K R : Type) `{Countable K} := {
  tbl : db → gmap K R;
  set_tbl : gmap K R → db → db;
  constraints : db → K → R → list constraint;
  before_update : env → db → K → R → R → R;
  after_update : K → R → R → tx unit }.

Class TableLaws (K R : Type) `{Table K R} := {
  tbl_set : ∀ m d, tbl (set_tbl m d) = m }.

(** No other row of the table satisfies [p]. *)
Definition unique_among {K R} `{Countable K} (m : gmap K R) (k : K) (p : R → bool) : bool :=
  forallb (λ kr : K * R, bool_decide (kr.1 = k) || negb (p kr.2)) (map_to_list m).

Section statements.
Context {K R : Type} `{Table K R}.

(** [INSERT INTO t VALUES (...)] *)
Definition INSERT (k : K) (row : R) : tx unit := λ e d,
  match tbl d !! k with
  | Some _ => Err (Errorf "violates constraint" ["primary key"])
  | None => check_all (constraints d k row) ≫= λ _, Ok (tt, set_tbl (<[k := row]> (tbl d)) d)
  end.

(** [INSERT INTO t VALUES (...) ON CONFLICT (key) DO NOTHING] where the conflict
    target is the key itself: the number of rows inserted. *)
Definition INSERT_or_nothing (k : K) (row : R) : tx Z := λ e d,
  match tbl d !! k with
  | Some _ => Ok (0, d)
  | None => check_all (constraints d k row) ≫= λ _, Ok (1, set_tbl (<[k := row]> (tbl d)) d)
  end.

(** [UPDATE t SET ... WHERE key = k AND p]: the number of rows affected. *)
Definition UPDATE (k : K) (p : R → bool) (f : R → R) : tx Z := λ e d,
  match tbl d !! k with
  | None => Ok (0, d)
  | Some old =>
      if p old then
        let row := before_update e d k old (f old) in
        check_all (constraints d k row) ≫= λ _,
        match after_update k old row e (set_tbl (<[k := row]> (tbl d)) d) with
        | Ok (_, d') => Ok (1, d')
        | Err err => Err err
        end
      else Ok (0, d)
  end.

(** The same, ignoring the row count. *)
Definition UPDATE_ (k : K) (p : R → bool) (f : R → R) : tx unit := UPDATE k p f ≫= λ _, mret tt.
End statements.

(** ** Queries *)

(** [SELECT ... FROM t WHERE p]: the matching keys and rows, in no meaningful order. *)
Definition select {K R} `{Countable K} (p : K → R → bool) (m : gmap K R) : list (K * R) :=
  map_to_list (filter (λ kr : K * R, p kr.1 kr.2 = true) m).

(** [SELECT count( * ) FROM t WHERE p] *)
Definition count {K R} `{Countable K} (p : R → bool) (m : gmap K R) : Z :=
  Z.of_nat (size (filter (λ kr : K * R, p kr.2 = true) m)).

(** [ORDER BY key] for an integer, and then a text, sort key. *)
Definition order_le {A} (key : A → Z) (tie : A → string) (x y : A) : Prop :=
  key x < key y ∨ (key x = key y ∧ String.le (tie x) (tie y)).
#[export] Instance order_le_dec {A} (key : A → Z) tie : RelDecision (order_le key tie).
Proof. intros x y. unfold order_le. apply _. Defined.
Definition order_by {A} (key : A → Z) (tie : A → string) : list A → list A :=
  merge_sort (order_le key tie).

(** [ORDER BY k1, k2, k3, tie] for three integer sort keys. *)
Definition triple_lt (x y : Z * Z * Z) : Prop :=
  x.1.1 < y.1.1 ∨ (x.1.1 = y.1.1 ∧ (x.1.2 < y.1.2 ∨ (x.1.2 = y.1.2 ∧ x.2 < y.2))).
Definition keys_le {A} (keys : A → Z * Z * Z) (tie : A → string) (x y : A) : Prop :=
  triple_lt (keys x) (keys y) ∨ (keys x = keys y ∧ String.le (tie x) (tie y)).
#[export] Instance keys_le_dec {A} (keys : A → Z * Z * Z) tie : RelDecision (keys_le keys tie).
Proof. intros x y. unfold keys_le, triple_lt. apply _. Defined.
Definition order_by_keys {A} (keys : A → Z * Z * Z) (tie : A → string) : list A → list A :=
  merge_sort (keys_le keys tie).

(** [NULLS FIRST] as two sort keys. *)
Definition nulls_first (o : option Z) : Z * Z :=
  match o with None => (0, 0) | Some t => (1, t) end.

(** ** Reasoning about successful runs *)

Section runs.
Context {A B : Type}.
Implicit Types (m : tx A) (k : A → tx B) (e : env) (d : db).

Lemma tx_bind_ok m k e d b d' :
  (m ≫= k) e d = Ok (b, d') ↔ ∃ a d1, m e d = Ok (a, d1) ∧ k a e d1 = Ok (b, d').
Proof.
  unfold mbind, tx_bind. destruct (m e d) as [[a d1]|err]; split; [by eauto| |done|].
  - by intros (? & ? & [= <- <-] & ?).
  - by intros (? & ? & ? & ?).
Qed.

Lemma tx_ret_ok (a a' : A) e d d' : (mret a : tx A) e d = Ok (a', d') ↔ a' = a ∧ d' = d.
Proof. unfold mret, tx_ret. naive_solver. Qed.

Lemma query_ok (f : db → A) e d a d' : query f e d = Ok (a, d') ↔ a = f d ∧ d' = d.
Proof. unfold query. naive_solver. Qed.

Lemma asks_ok (f : env → A) e d a d' : asks f e d = Ok (a, d') ↔ a = f e ∧ d' = d.
Proof. unfold asks. naive_solver. Qed.

Lemma lift_ok (r : result A) e d a d' : lift r e d = Ok (a, d') ↔ r = Ok a ∧ d' = d.
Proof. unfold lift. destruct r; naive_solver. Qed.

Lemma wrapT_ok f args m e d r : wrapT f args m e d = Ok r ↔ m e d = Ok r.
Proof. unfold wrapT. destruct (m e d); naive_solver. Qed.

Lemma row_or_ok (o : option A) err e d a d' : row_or o err e d = Ok (a, d') ↔ o = Some a ∧ d' = d.
Proof. unfold row_or. destruct o; cbn; unfold mret, tx_ret, throw; naive_solver. Qed.
End runs.

Lemma reject_ok c err e d u d' : reject c err e d = Ok (u, d') ↔ c = false ∧ d' = d.
Proof. unfold reject. destruct c, u; cbn; unfold mret, tx_ret, throw; naive_solver. Qed.

Lemma exec_ok f e d u d' : exec f e d = Ok (u, d') ↔ d' = f e d.
Proof. unfold exec. destruct u; naive_solver. Qed.

Lemma whenT_ok c m e d u d' :
  whenT c m e d = Ok (u, d') ↔ (c = true ∧ m e d = Ok (u, d')) ∨ (c = false ∧ d' = d).
Proof. destruct u. unfold whenT, mret, tx_ret. destruct c; naive_solver. Qed.

Lemma newID_ok e d i d' :
  newID e d = Ok (i, d') ↔ ∃ ids, d_ids d = i :: ids ∧ d' = d <| d_ids := ids |>.
Proof. unfold newID. destruct (d_ids d); naive_solver. Qed.

Lemma check_all_ok cs u : check_all cs = Ok u ↔ Forall (λ c, c.2 = true) cs.
Proof.
  unfold check_all. rewrite for_each_ok. apply Forall_iff. intros c.
  rewrite fail_if_ok. apply negb_false_iff.
Qed.

(** The state after [inTransaction] is either untouched or the result of the
    successful operation. *)
Lemma inTransaction_cases {A} (op : tx A) e d :
  (∃ a d', op e d = Ok (a, d') ∧ inTransaction op e d = (Ok a, d')) ∨
  (∃ err, op e d = Err err ∧ inTransaction op e d = (Err err, d)).
Proof. unfold inTransaction. destruct (op e d) as [[a d']|err]; eauto 6. Qed.

(** A property that [f] preserves is preserved by the loop. *)
Lemma forT_preserves {S A} (P : db → Prop) (f : S → A → tx S) e :
  (∀ s x d s' d', P d → f s x e d = Ok (s', d') → P d') →
  ∀ l s d s' d', P d → forT f s l e d = Ok (s', d') → P d'.
Proof.
  intros Hf l; induction l as [|x l IH]; intros s d s' d' HP; cbn.
  - rewrite tx_ret_ok. by intros [_ ->].
  - rewrite tx_bind_ok. intros (s1 & d1 & Hx & Hl). eauto.
Qed.

Lemma forT_app {S A} (f : S → A → tx S) l1 l2 s e d :
  forT f s (l1 ++ l2) e d = (forT f s l1 ≫= λ s', forT f s' l2) e d.
Proof.
  revert s d; induction l1 as [|x l1 IH]; intros s d; cbn; [done|].
  unfold mbind, tx_bind. destruct (f s x e d) as [[s1 d1]|]; [apply IH|done].
Qed.

Lemma for_eachT_reject_ok {A} (c : A → bool) err l e d u d' :
  for_eachT (λ x, reject (c x) err) l e d = Ok (u, d') ↔ Forall (λ x, c x = false) l ∧ d' = d.
Proof.
  unfold for_eachT. destruct u. induction l as [|x l IH]; cbn.
  - rewrite tx_ret_ok. split; [intros [_ ->]; by split|]. intros [_ ->]. by split.
  - rewrite tx_bind_ok. setoid_rewrite reject_ok. rewrite Forall_cons. split.
    + intros ([] & ? & [? ->] & Hl). by apply IH in Hl as [? ->].
    + intros [[? ?] ->]. exists tt, d. split; [done|]. by apply IH.
Qed.

(** ** Laws of the statements *)

Section statement_laws.
Context {K R : Type} `{Table K R}.
Implicit Types (k : K) (row : R) (d : db).

Lemma INSERT_ok k row e d u d' :
  INSERT k row e d = Ok (u, d') ↔
  tbl d !! k = None ∧ Forall (λ c, c.2 = true) (constraints d k row) ∧
  d' = set_tbl (<[k := row]> (tbl d)) d.
Proof.
  unfold INSERT. destruct (tbl d !! k); [naive_solver|]. rewrite bind_unit_ok, check_all_ok.
  destruct u. naive_solver.
Qed.

Lemma INSERT_or_nothing_ok k row e d n d' :
  INSERT_or_nothing k row e d = Ok (n, d') ↔
  (n = 0 ∧ d' = d ∧ is_Some (tbl d !! k)) ∨
  (n = 1 ∧ tbl d !! k = None ∧ Forall (λ c, c.2 = true) (constraints d k row) ∧
   d' = set_tbl (<[k := row]> (tbl d)) d).
Proof.
  unfold INSERT_or_nothing. destruct (tbl d !! k).
  - split; [intros [= <- <-]; by left; eauto|]. intros [(-> & -> & _)|(_ & ? & _)]; [done|done].
  - rewrite bind_unit_ok, check_all_ok. split.
    + intros [? [= <- <-]]. right. eauto.
    + intros [(_ & _ & [? ?])|(-> & _ & ? & ->)]; [done|eauto].
Qed.

Lemma UPDATE_ok k p f e d n d' :
  UPDATE k p f e d = Ok (n, d') ↔
  (∃ old row, tbl d !! k = Some old ∧ p old = true ∧ row = before_update e d k old (f old) ∧
     Forall (λ c, c.2 = true) (constraints d k row) ∧ n = 1 ∧
     after_update k old row e (set_tbl (<[k := row]> (tbl d)) d) = Ok (tt, d')) ∨
  (n = 0 ∧ d' = d ∧ ∀ old, tbl d !! k = Some old → p old = false).
Proof.
  unfold UPDATE. destruct (tbl d !! k) as [old|] eqn:Hk.
  - destruct (p old) eqn:Hp.
    + rewrite bind_unit_ok, check_all_ok.
      destruct (after_update _ _ _ _ _) as [[[] d1]|] eqn:Ha; split.
      * intros [? [= <- <-]]. left. eauto 10.
      * intros [(? & ? & [= <-] & _ & -> & Hc & -> & Ha')|(_ & _ & Hf)]; [|specialize (Hf _ eq_refl); congruence].
        rewrite Ha in Ha'. by simplify_eq.
      * by intros [? ?].
      * intros [(? & ? & [= <-] & _ & -> & Hc & -> & Ha')|(_ & _ & Hf)]; [|specialize (Hf _ eq_refl); congruence].
        rewrite Ha in Ha'. done.
    + split; [intros [= <- <-]; right; split_and!; [done..|by intros ? [= <-]]|].
      intros [(? & ? & [= <-] & ? & _)|(-> & -> & _)]; [congruence|done].
  - split; [intros [= <- <-]; right; by split_and!|].
    intros [(? & ? & ? & _)|(-> & -> & _)]; [done|done].
Qed.

Lemma UPDATE__ok k p f e d u d' :
  UPDATE_ k p f e d = Ok (u, d') ↔ ∃ n, UPDATE k p f e d = Ok (n, d').
Proof.
  unfold UPDATE_. rewrite tx_bind_ok. setoid_rewrite tx_ret_ok. destruct u. naive_solver.
Qed.
End statement_laws.

(** ** Laws of the queries *)

Section query_laws.
Context {K R : Type} `{Countable K}.

Lemma elem_of_select (p : K → R → bool) (m : gmap K R) k r :
  (k, r) ∈ select p m ↔ m !! k = Some r ∧ p k r = true.
Proof. unfold select. by rewrite elem_of_map_to_list, map_lookup_filter_Some. Qed.

Lemma NoDup_select_keys (p : K → R → bool) (m : gmap K R) : NoDup (select p m).*1.
Proof. apply NoDup_fst_map_to_list. Qed.

Lemma unique_among_spec (m : gmap K R) k (p : R → bool) :
  unique_among m k p = true ↔ ∀ k' r, m !! k' = Some r → p r = true → k' = k.
Proof.
  unfold unique_among. rewrite forallb_forall. split.
  - intros Hall k' r Hk Hp. specialize (Hall (k', r)). cbn in Hall.
    rewrite Hp, orb_false_r, bool_decide_eq_true in Hall. apply Hall.
    by rewrite <-list_elem_of_In, elem_of_map_to_list.
  - intros Hall [k' r] Hin. rewrite <-list_elem_of_In, elem_of_map_to_list in Hin. cbn.
    destruct (p r) eqn:Hp; [|by rewrite orb_true_r].
    by rewrite (Hall _ _ Hin Hp), bool_decide_true.
Qed.

Lemma count_nonneg (p : R → bool) (m : gmap K R) : 0 ≤ count p m.
Proof. unfold count. lia. Qed.

Lemma count_insert_fresh (p : R → bool) (m : gmap K R) k r :
  m !! k = None → count p (<[k := r]> m) = count p m + (if p r then 1 else 0).
Proof.
  intros Hk. unfold count. destruct (p r) eqn:Hp.
  - rewrite map_filter_insert_True by done.
    rewrite map_size_insert_None; [lia|]. apply map_lookup_filter_None. by left.
  - rewrite map_filter_insert_False by (cbn; congruence). rewrite delete_id by done. lia.
Qed.

Lemma count_pos (p : R → bool) (m : gmap K R) k r : m !! k = Some r → p r = true → 0 < count p m.
Proof.
  intros Hk Hp. rewrite <-(insert_delete_id m k r) by done.
  rewrite count_insert_fresh, Hp by apply lookup_delete_eq. pose proof (count_nonneg p (delete k m)). lia.
Qed.

Lemma count_add (p q r : R → bool) (m : gmap K R) :
  (∀ k x, m !! k = Some x → Z.b2z (p x) = Z.b2z (q x) + Z.b2z (r x)) → count p m = count q m + count r m.
Proof.
  induction m as [|k x m Hk IH] using map_ind; intros Hall; [done|].
  rewrite !count_insert_fresh by done. rewrite IH.
  - specialize (Hall k x (lookup_insert_eq _ _ _)). destruct (p x), (q x), (r x); cbn in *; lia.
  - intros k' x' Hk'. apply (Hall k' x'). rewrite lookup_insert_ne; [done|congruence].
Qed.

Lemma count_zero (p : R → bool) (m : gmap K R) :
  count p m = 0 ↔ ∀ k x, m !! k = Some x → p x = false.
Proof.
  split.
  - intros Hc k x Hk. destruct (p x) eqn:Hp; [|done]. pose proof (count_pos p m k x Hk Hp). lia.
  - intros Hall. induction m as [|k x m Hk IH] using map_ind; [done|].
    rewrite count_insert_fresh by done. rewrite (Hall k x (lookup_insert_eq _ _ _)), IH; [done|].
    intros k' x' Hk'. apply (Hall k' x'). rewrite lookup_insert_ne; [done|congruence].
Qed.

Lemma count_insert (p : R → bool) (m : gmap K R) k r r' :
  m !! k = Some r →
  count p (<[k := r']> m) = count p m - (if p r then 1 else 0) + (if p r' then 1 else 0).
Proof.
  intros Hk. rewrite <-(insert_delete_id m k r) at 2 by done.
  rewrite <-insert_delete_eq. rewrite !count_insert_fresh by apply lookup_delete_eq. lia.
Qed.
End query_laws.

Lemma elem_of_order_by {A} (key : A → Z) tie l x : x ∈ order_by key tie l ↔ x ∈ l.
Proof. unfold order_by. by rewrite merge_sort_Permutation. Qed.

#[export] Instance order_le_total {A} (key : A → Z) tie : Total (order_le key tie).
Proof.
  intros x y. unfold order_le. destruct (Z.lt_trichotomy (key x) (key y)) as [?|[->|?]]; [left; by left| |right; by left].
  destruct (total String.le (tie x) (tie y)); [left|right]; by right.
Qed.
#[export] Instance order_le_trans {A} (key : A → Z) tie : Transitive (order_le key tie).
Proof.
  intros x y z. unfold order_le. intros [?|[Hxy ?]] [?|[Hyz ?]]; [left; lia|left; lia|left; lia|]. right. split; [lia|by etrans].
Qed.

(** Rows with distinct integer keys come out strictly increasing. *)
Lemma order_by_strict {A} (key : A → Z) tie l :
  NoDup (key <$> l) → StronglySorted (λ x y, key x < key y) (order_by key tie l).
Proof.
  unfold order_by. intros Hd. rewrite <-(merge_sort_Permutation (order_le key tie)) in Hd.
  pose proof (StronglySorted_merge_sort (order_le key tie) l) as Hs. induction Hs as [|x r Hs IH Hall]; [constructor|].
  rewrite fmap_cons in Hd. apply NoDup_cons in Hd as [Hx Hd]. constructor; [by apply IH|].
  rewrite Forall_forall in *. intros y Hy. destruct (Hall y Hy) as [Hlt|[Heq _]]; [done|].
  exfalso. apply Hx. rewrite Heq. by apply list_elem_of_fmap_2.
Qed.

#[export] Instance keys_le_total {A} (keys : A → Z * Z * Z) tie : Total (keys_le keys tie).
Proof.
  intros x y. unfold keys_le, triple_lt. destruct (keys x) as [[a b] c] eqn:Hx, (keys y) as [[a' b'] c'] eqn:Hy. cbn.
  destruct (Z.lt_trichotomy a a') as [?|[->|?]]; [left; left; lia| |right; left; lia].
  destruct (Z.lt_trichotomy b b') as [?|[->|?]]; [left; left; lia| |right; left; lia].
  destruct (Z.lt_trichotomy c c') as [?|[->|?]]; [left; left; lia| |right; left; lia].
  destruct (total String.le (tie x) (tie y)); [left|right]; by right.
Qed.
#[export] Instance keys_le_trans {A} (keys : A → Z * Z * Z) tie : Transitive (keys_le keys tie).
Proof.
  intros x y z. unfold keys_le, triple_lt.
  destruct (keys x) as [[a b] c], (keys y) as [[a' b'] c'], (keys z) as [[a2 b2] c2]. cbn.
  intros [?|[? ?]] [?|[? ?]]; simplify_eq; try (left; lia); [by left; lia..|]. right. split; [done|by etrans].
Qed.

(** [LIMIT 1] takes a least element. *)
Lemma head_order_by_keys {A} (keys : A → Z * Z * Z) tie l x y :
  head (order_by_keys keys tie l) = Some x → y ∈ l → y = x ∨ keys_le keys tie x y.
Proof.
  unfold order_by_keys. intros Hh Hy. rewrite <-(merge_sort_Permutation (keys_le keys tie)) in Hy.
  pose proof (StronglySorted_merge_sort (keys_le keys tie) l) as Hs.
  destruct (merge_sort (keys_le keys tie) l) as [|x' l']; [done|]. cbn in Hh. simplify_eq.
  apply elem_of_cons in Hy as [->|Hy]; [by left|right].
  apply StronglySorted_inv in Hs as [_ Hall]. rewrite Forall_forall in Hall. by apply Hall.
Qed.

Lemma elem_of_order_by_keys {A} (keys : A → Z * Z * Z) tie l x : x ∈ order_by_keys keys tie l ↔ x ∈ l.
Proof. unfold order_by_keys. by rewrite merge_sort_Permutation. Qed.

(** ** Automation *)

(** Invert a successful transaction one statement at a time. *)
Ltac tx_step :=
  match goal with
  | H : mbind _ _ _ _ = Ok (_, _) |- _ => apply tx_bind_ok in H as (? & ? & ? & ?)
  | H : mret _ _ _ = Ok (_, _) |- _ => apply tx_ret_ok in H as [? ?]
  | H : query _ _ _ = Ok (_, _) |- _ => apply query_ok in H as [? ?]
  | H : asks _ _ _ = Ok (_, _) |- _ => apply asks_ok in H as [? ?]
  | H : lift _ _ _ = Ok (_, _) |- _ => apply lift_ok in H as [? ?]
  | H : wrapT _ _ _ _ _ = Ok _ |- _ => apply wrapT_ok in H
  | H : row_or _ _ _ _ = Ok (_, _) |- _ => apply row_or_ok in H as [? ?]
  | H : reject _ _ _ _ = Ok (_, _) |- _ => apply reject_ok in H as [? ?]
  | H : exec _ _ _ = Ok (_, _) |- _ => apply exec_ok in H
  | H : throw _ _ _ = Ok _ |- _ => discriminate H
  | H : UPDATE_ _ _ _ _ _ = Ok (_, _) |- _ => apply UPDATE__ok in H as [? ?]
  | x : unit |- _ => destruct x
  | H : ?x = id ?y |- _ => change (x = y) in H
  | H : ?x = ?y |- _ => is_var x; subst x
  | H : ?x = ?y |- _ => is_var y; subst y
  end.
Ltac tx_inv := repeat tx_step.
