(* ===== verification/Ordered.v ===== *)
(** * Ordered rows

    What [ORDER BY] and [LIMIT] make of the rows of a table: the sorted list is determined by its elements,
    and the first rows of several ordered queries, merged, are the first rows of their union. *)
From S2P Require Import Prelude Regex Names Domain TargetSpec Kahn Graph Contract Records Db Tx.

Section sorted.
Context {A : Type} (key : A → Z) (tie : A → string).

Lemma order_by_sorted l : StronglySorted (order_le key tie) (order_by key tie l).
Proof. unfold order_by. apply (StronglySorted_merge_sort _). Qed.
Lemma order_by_perm l : order_by key tie l ≡ₚ l.
Proof. unfold order_by. apply merge_sort_Permutation. Qed.

Lemma order_le_antisym x y : order_le key tie x y → order_le key tie y x → key x = key y ∧ tie x = tie y.
Proof. intros [?|[? ?]] [?|[? ?]]; try lia. split; [done|]. by apply (anti_symm String.le). Qed.

(** Rows told apart by their keys come out in one order only. *)
Lemma order_by_unique l l' : (∀ x y, x ∈ l → y ∈ l → key x = key y → tie x = tie y → x = y) →
  StronglySorted (order_le key tie) l → l' ≡ₚ l → order_by key tie l' = l.
Proof.
  intros Hinj Hs Hp. apply (StronglySorted_unique_strong (order_le key tie)); [|apply order_by_sorted|done|by rewrite order_by_perm].
  intros x y Hx Hy Hxy Hyx. rewrite order_by_perm, Hp in Hx. destruct (order_le_antisym x y Hxy Hyx). by apply Hinj.
Qed.

(** [LIMIT] of an ordered query: what is left out comes after what is taken. *)
Lemma order_by_take n l x y : x ∈ take n (order_by key tie l) → y ∈ l → y ∉ take n (order_by key tie l) → order_le key tie x y.
Proof.
  intros Hx Hy Hn. pose proof (order_by_sorted l) as Hs. rewrite <-(take_drop n (order_by key tie l)) in Hs.
  rewrite <-(order_by_perm l), <-(take_drop n (order_by key tie l)), elem_of_app in Hy.
  apply StronglySorted_app in Hs as (Hc & _). destruct Hy as [Hy|Hy]; [by destruct Hn|by apply Hc].
Qed.

Lemma head_order_by l x : head (order_by key tie l) = Some x → ∀ y, y ∈ l → order_le key tie x y.
Proof.
  intros Hh y Hy. rewrite <-(order_by_perm l) in Hy. pose proof (order_by_sorted l) as Hs. destruct (order_by key tie l) as [|z r]; [done|].
  injection Hh as ->. apply elem_of_cons in Hy as [->|Hy]; [right; done|]. apply StronglySorted_inv in Hs as [_ Hall].
  rewrite Forall_forall in Hall. by apply Hall.
Qed.

(** [OFFSET] of an ordered query. *)
Lemma order_by_drop n l l' : (∀ x y, x ∈ l → y ∈ l → key x = key y → tie x = tie y → x = y) →
  l' ≡ₚ drop n (order_by key tie l) → order_by key tie l' = drop n (order_by key tie l).
Proof.
  intros Hinj Hp. apply order_by_unique; [| |done].
  - intros x y Hx Hy. apply Hinj; rewrite <-order_by_perm; by eapply subseteq_drop.
  - pose proof (order_by_sorted l) as Hs. rewrite <-(take_drop n (order_by key tie l)) in Hs. by eapply StronglySorted_app_1_r.
Qed.
End sorted.

(** A query ordered by a unique integer. *)
Section strict.
Context {A : Type} (key : A → Z).
#[local] Abbreviation lt := (λ x y, key x < key y).

Lemma sorted_le l : StronglySorted lt l → StronglySorted (order_le key (λ _, "")) l.
Proof. induction 1 as [|x l _ IH Hx]; constructor; [done|]. eapply Forall_impl; [exact Hx|]. intros y ?. by left. Qed.

Lemma sorted_inj l x y : StronglySorted lt l → x ∈ l → y ∈ l → key x = key y → x = y.
Proof.
  induction 1 as [|z l _ IH Hz]; [by intros ?%elem_of_nil|]. rewrite Forall_forall in Hz.
  intros [->|Hx]%elem_of_cons [->|Hy]%elem_of_cons E; [done| | |by apply IH].
  - specialize (Hz _ Hy). lia.
  - specialize (Hz _ Hx). lia.
Qed.

Lemma sorted_NoDup l : StronglySorted lt l → NoDup l.
Proof.
  induction 1 as [|x l _ IH Hx]; constructor; [|done]. intros Hin. rewrite Forall_forall in Hx. specialize (Hx _ Hin). lia.
Qed.

Lemma order_by_strict_eq l l' : StronglySorted lt l → l' ≡ₚ l → order_by key (λ _, "") l' = l.
Proof.
  intros Hs Hp. apply order_by_unique; [|by apply sorted_le|done]. intros x y Hx Hy E _. by eapply sorted_inj.
Qed.

Lemma sorted_filter (P : A → Prop) `{∀ x, Decision (P x)} l : StronglySorted lt l → StronglySorted lt (filter P l).
Proof.
  induction 1 as [|x l _ IH Hx]; [constructor|]. rewrite filter_cons. case_decide; [|done]. constructor; [done|].
  rewrite Forall_forall in *. intros y [_ Hy]%list_elem_of_filter. by apply Hx.
Qed.

(** What comes up to the last of the first [n] rows is those rows. *)
Lemma filter_upto_last n l x : StronglySorted lt l → last (take n l) = Some x → filter (λ y, key y ≤ key x) l = take n l.
Proof.
  intros Hs Hx. apply last_Some in Hx as [r Er]. rewrite <-(take_drop n l) in Hs. rewrite <-(take_drop n l) at 1. rewrite filter_app.
  apply StronglySorted_app in Hs as (Hcross & Hs & _). rewrite filter_all, filter_none; [by rewrite app_nil_r| |].
  - intros z Hz. specialize (Hcross x z). rewrite Er in Hcross. specialize (Hcross ltac:(set_solver) Hz). lia.
  - intros y Hy. rewrite Er in Hs, Hy. apply elem_of_app in Hy as [Hy|Hy%list_elem_of_singleton]; [|by subst].
    apply StronglySorted_app in Hs as (Hs & _). specialize (Hs y x Hy ltac:(set_solver)). lia.
Qed.

(** An interval of a sorted list is two intervals in a row. *)
Lemma filter_interval (P : A → Prop) `{!∀ x, Decision (P x)} a b c l : StronglySorted lt l → a ≤ b ≤ c →
  filter (λ x, (a < key x ∧ key x ≤ c) ∧ P x) l =
  filter (λ x, (a < key x ∧ key x ≤ b) ∧ P x) l ++ filter (λ x, (b < key x ∧ key x ≤ c) ∧ P x) l.
Proof.
  intros Hs Hab. induction Hs as [|x l _ IH Hx]; [done|]. rewrite Forall_forall in Hx. rewrite !filter_cons, IH.
  destruct (decide (key x ≤ b)) as [|?%Z.nle_gt]; [|rewrite (filter_none (λ x, (a < key x ∧ key x ≤ b) ∧ P x)) by (intros y ?%Hx [? _]; lia)];
    destruct (decide (key x ≤ c)); try lia; repeat case_decide; try done; exfalso; try assert (a < key x) by lia; intuition lia.
Qed.

(** A sorted list that lies between the first [n] elements and the whole. *)
Lemma take_between n S U : StronglySorted lt S → StronglySorted lt U → (∀ x, x ∈ U → x ∈ S) → (∀ x, x ∈ take n S → x ∈ U) →
  take n U = take n S.
Proof.
  intros HS. revert n U. induction HS as [|x S HS IH Hx]; intros n U HU Hin Hto.
  - destruct U as [|y U]; [done|]. exfalso. eapply not_elem_of_nil, (Hin y). by left.
  - destruct n as [|n]; [done|]. cbn in Hto |- *. rewrite Forall_forall in Hx.
    assert (x ∈ U) as HxU by (apply Hto; by left). destruct HU as [|y U HU Hy]; [by apply elem_of_nil in HxU|].
    rewrite Forall_forall in Hy. assert (y = x) as ->.
    { apply elem_of_cons in HxU as [|HxU]; [done|]. specialize (Hy _ HxU).
      assert (y ∈ x :: S) as [|HyS]%elem_of_cons by (apply Hin; by left); [done|]. specialize (Hx _ HyS). lia. }
    cbn. f_equal. apply IH; [done| |].
    + intros z Hz. assert (z ∈ x :: S) as [Ez|]%elem_of_cons by (apply Hin; by right); [|done]. specialize (Hy _ Hz).
      rewrite Ez in Hy. lia.
    + intros z Hz. assert (z ∈ x :: U) as [Ez|]%elem_of_cons by (apply Hto; by right); [|done].
      assert (z ∈ S) as HzS by (eapply subseteq_take; exact Hz). specialize (Hx _ HzS). rewrite Ez in Hx. lia.
Qed.

Lemma elem_of_take_filter (P : A → Prop) `{∀ x, Decision (P x)} n l x : x ∈ take n l → P x → x ∈ take n (filter P l).
Proof.
  revert n. induction l as [|y l IH]; intros n Hx HP; [by rewrite take_nil in Hx; apply elem_of_nil in Hx|].
  destruct n as [|n]; [by apply elem_of_nil in Hx|]. cbn in Hx. rewrite filter_cons. apply elem_of_cons in Hx as [<-|Hx].
  - rewrite decide_True by done. by left.
  - case_decide; [cbn; right; by apply IH|]. apply IH; [|done]. eapply elem_of_take in Hx as (i & Hi & ?).
    apply elem_of_take. exists i. split; [done|lia].
Qed.

(** [LIMIT n] of every part, merged, is [LIMIT n] of the union: the parts are told apart by [part]. *)
Lemma merged_limits {I} `{EqDecision I} (part : A → I) (parts : list I) n S : NoDup parts → StronglySorted lt S →
  take n (order_by key (λ _, "") (i ← parts; take n (filter (λ x, part x = i) S))) = take n (filter (λ x, part x ∈ parts) S).
Proof.
  intros His HS. set (L := i ← parts; _).
  assert (∀ x, x ∈ L ↔ ∃ i, i ∈ parts ∧ x ∈ take n (filter (λ x, part x = i) S)) as HL.
  { intros x. unfold L. rewrite list_elem_of_bind. naive_solver. }
  assert (∀ x, x ∈ L → x ∈ filter (λ x, part x ∈ parts) S) as Hsub.
  { intros x (i & Hi & Hx)%HL. apply subseteq_take in Hx. apply list_elem_of_filter in Hx as [<- Hx]. by apply list_elem_of_filter. }
  assert (NoDup L) as Hnd.
  { unfold L. clear HL Hsub L. induction His as [|i parts Hi _ IH]; [constructor|]. rewrite bind_cons. apply NoDup_app. split_and!.
    - apply (sublist_NoDup _ (filter (λ x, part x = i) S)); [|apply sublist_take]. by apply NoDup_filter, sorted_NoDup.
    - intros x Hx%subseteq_take%list_elem_of_filter (j & Hj & Hx')%list_elem_of_bind. destruct Hx as [<- _].
      apply subseteq_take, list_elem_of_filter in Hj as [<- _]. done.
    - exact IH. }
  apply take_between; [by apply sorted_filter| | |].
  - apply order_by_strict. apply NoDup_fmap_2_strong; [|done]. intros x y Hx%Hsub Hy%Hsub E.
    apply list_elem_of_filter in Hx as [_ Hx], Hy as [_ Hy]. by eapply sorted_inj.
  - intros x Hx. rewrite order_by_perm in Hx. by apply Hsub.
  - intros x Hx. rewrite order_by_perm. apply HL. exists (part x).
    assert (x ∈ filter (λ x, part x ∈ parts) S) as [Hp _]%list_elem_of_filter by (by eapply subseteq_take). split; [done|].
    apply (elem_of_take_filter (λ y, part y = part x)) in Hx; [|done]. rewrite list_filter_filter_l in Hx; [done|].
    by intros y ->.
Qed.
End strict.
