(* ===== verification/Constraints.v ===== *)
(** * Constraints and triggers of the schema

    The [CHECK], [UNIQUE] and [FOREIGN KEY] constraints of the migrations that
    relate columns or rows to one another, and the triggers on [jobs]:
    [record_job_lifecycle] (migration 14) and
    [enqueue_monitoring_terminal_transition] (migration 22), and on [targets]
    (migration 22).  Length and format
    constraints on single text columns are left out where the handlers validate
    the same value before the statement. *)
From stdpp Require Import pretty.
From S2P Require Import Prelude Regex Names Domain TargetSpec Kahn Graph Contract Records Db Tx.

Definition known (l : list string) (o : option string) : bool :=
  match o with None => true | Some s => slices_Contains l s end.
Definition eqs (a b : string) : bool := bool_decide (a = b).
Definition is_some {A} (o : option A) : bool := match o with Some _ => true | None => false end.
Definition exists_row {K R} `{Countable K} (m : gmap K R) (k : K) (p : R → bool) : bool :=
  match m !! k with Some r => p r | None => false end.
Definition bigint_positive (z : Z) : bool := bool_decide (0 < z ≤ max_int64).

Lemma eqs_true a b : eqs a b = true ↔ a = b.
Proof. apply bool_decide_eq_true. Qed.
Lemma eqs_false a b : eqs a b = false ↔ a ≠ b.
Proof. apply bool_decide_eq_false. Qed.
Lemma eqs_refl a : eqs a a = true.
Proof. by apply eqs_true. Qed.
Lemma is_some_true {A} (o : option A) : is_some o = true ↔ is_Some o.
Proof. destruct o; cbn; [by split; eauto|]. split; [done|]. by intros [? ?]. Qed.
Lemma is_some_false {A} (o : option A) : is_some o = false ↔ o = None.
Proof. destruct o; cbn; naive_solver. Qed.
Lemma exists_row_true {K R} `{Countable K} (m : gmap K R) k p :
  exists_row m k p = true ↔ ∃ r, m !! k = Some r ∧ p r = true.
Proof. unfold exists_row. destruct (m !! k); naive_solver. Qed.

(** Turn boolean guards into propositions. *)
Ltac bool_step :=
  match goal with
  | H : eqs _ _ = true |- _ => apply eqs_true in H
  | H : eqs _ _ = false |- _ => apply eqs_false in H
  | H : is_some _ = true |- _ => apply is_some_true in H
  | H : is_some _ = false |- _ => apply is_some_false in H
  | H : exists_row _ _ _ = true |- _ => apply exists_row_true in H as (? & ? & ?)
  | H : unique_among _ _ _ = true |- _ => rewrite unique_among_spec in H
  | H : Bool.eqb _ _ = true |- _ => apply Bool.eqb_prop in H
  | H : for_eachT (λ x, reject _ _) _ _ _ = Ok (_, _) |- _ =>
      apply for_eachT_reject_ok in H as [? ?]
  | |- eqs ?a ?a = true => apply eqs_refl
  end.
Ltac guard_inv := repeat first [progress tx_inv | bool_step | res_step].

Definition outcomes := ["success"; "failure"; "cancelled"; "timed_out"; "aborted"; "lost"].
Definition job_phases := ["accepted"; "assigning"; "accepted_execution"; "running"; "terminal"].
Definition run_phases := ["ready"; "assigning"; "accepted"; "running"; "terminal"].
Definition execution_phases := ["planned"; "accepted"; "running"; "terminal"].

(** ** Triggers on jobs *)

(** The events of the executions of a job's runs, as the triggers join them. *)
Definition job_events (d : db) (jobID : string) : list (Z * event_row) :=
  ev ← (map_to_list (d_events d)).*2;
  match d_executions d !! evt_execution_id ev with
  | Some e =>
      match d_runs d !! e_run_id e with
      | Some r => if bool_decide (r_job_id r = jobID) then [(r_run_number r, ev)] else []
      | None => []
      end
  | None => []
  end.

Definition scheduler_state (ev : event_row) : option string :=
  so_State <$> evs_Scheduler (ev_Spec (evt_document ev)).

(** [ORDER BY r.run_number DESC, ev.source_sequence LIMIT 1] over start events. *)
Definition start_observation (d : db) (jobID : string) : option event_row :=
  snd <$> head (merge_sort
    (λ x y : Z * event_row, y.1 < x.1 ∨ (x.1 = y.1 ∧ evt_source_sequence x.2 ≤ evt_source_sequence y.2))
    (filter (λ x : Z * event_row,
       evt_event_type x.2 = "process.started" ∨
       (evt_event_type x.2 ∈ ["scheduler.observed"; "scheduler.submitted"] ∧
        scheduler_state x.2 = Some "running"))
     (job_events d jobID))).

(** [ORDER BY r.run_number DESC, ev.source_sequence DESC LIMIT 1] over completions. *)
Definition completion_observation (d : db) (jobID : string) : option event_row :=
  snd <$> head (merge_sort
    (λ x y : Z * event_row, y.1 < x.1 ∨ (x.1 = y.1 ∧ evt_source_sequence y.2 ≤ evt_source_sequence x.2))
    (filter (λ x : Z * event_row, evt_event_type x.2 ∈ ["process.completed"; "scheduler.completed"])
     (job_events d jobID))).

(** [record_job_lifecycle]: the start and completion columns after the update,
    each an observation time, a recording time and a provenance. *)
Definition observation := (option timestamptz * option timestamptz * option string)%type.
Definition observed_by (ev : event_row) : observation :=
  (Some (evt_observed_at ev), Some (evt_ingested_at ev), Some (evt_event_type ev)).
Definition started_columns (e : env) (d : db) (jobID : string) (old new : job_row) : observation :=
  if negb (eqs (j_phase old) "running") && eqs (j_phase new) "running" &&
     negb (is_some (j_started_recorded_at new)) then
    match start_observation d jobID with
    | Some ev => observed_by ev
    | None => (j_started_at new, Some (transaction_timestamp e), Some "control_transition")
    end
  else (j_started_at new, j_started_recorded_at new, j_started_provenance new).
Definition completed_columns (e : env) (d : db) (jobID : string) (old new : job_row) : observation :=
  let now := Some (transaction_timestamp e) in
  if negb (eqs (j_phase old) "terminal") && eqs (j_phase new) "terminal" then
    if j_imported new then (j_completed_at new, now, Some "history_import")
    else match completion_observation d jobID with
         | Some ev => observed_by ev
         | None => (now, now, Some "control_transition")
         end
  else (j_completed_at new, j_completed_recorded_at new, j_completed_provenance new).

Definition with_lifecycle (j : job_row) (s c : observation) : job_row :=
  j <| j_started_at := s.1.1; j_started_recorded_at := s.1.2; j_started_provenance := s.2;
       j_completed_at := c.1.1; j_completed_recorded_at := c.1.2; j_completed_provenance := c.2 |>.
Definition record_job_lifecycle (e : env) (d : db) (jobID : string) (old new : job_row) : job_row :=
  with_lifecycle new (started_columns e d jobID old new) (completed_columns e d jobID old new).

#[export] Instance outbox_table : Table string outbox_row := {|
  tbl := d_outbox;
  set_tbl m d := d <| d_outbox := m |>;
  constraints d id o := [
    ("outbox_namespace_fk", is_some (d_namespaces d !! ob_namespace_id o))];
  before_update _ _ _ _ new := new;
  after_update _ _ _ := mret tt |}.

(** The run with the highest number among the runs of a job, in its namespace. *)
Definition latest_run (d : db) (namespaceID jobID : string) : option (string * run_row) :=
  head (order_by (λ x : string * run_row, - r_run_number x.2) fst
    (select (λ _ r, eqs (r_job_id r) jobID && eqs (r_namespace_id r) namespaceID) (d_runs d))).

(** A member of an object built with [jsonb_strip_nulls]. *)
Definition member {A} (name : string) (value : A → jsonb_value) (o : option A) : list (string * jsonb_value) :=
  match o with Some a => [(name, value a)] | None => [] end.

(** [enqueue_monitoring_terminal_transition]: one outbox event when, and only
    when, an update takes a job to the terminal phase. *)
Definition monitoring_topic := "monitoring.job_terminal.v1".
Definition monitoring_payload (eventID jobID oldPhase : string) (new : job_row) (current_run : option (string * run_row))
    (recordedAt : timestamptz) (recovery : bool) : list (string * jsonb_value) :=
  [("eventId", jText eventID); ("namespaceId", jText (j_namespace_id new)); ("jobId", jText jobID)] ++
  member "runId" (λ r, jText r.1) current_run ++
  member "runNumber" (λ r, jText (pretty (r_run_number r.2))) current_run ++
  [("ownerPrincipalId", jText (j_owner_principal_id new)); ("oldPhase", jText oldPhase); ("newPhase", jText (j_phase new))] ++
  member "outcome" jText (j_outcome new) ++
  [("jobRevision", jText (pretty (j_revision new)))] ++
  member "observedCompletedAt" jTime (j_completed_at new) ++
  [("recordedAt", jTime recordedAt); ("imported", jBool (j_imported new)); ("reconciliation", jBool recovery)].
Definition enqueue_monitoring_terminal_transition (jobID : string) (old new : job_row) : tx unit :=
  if eqs (j_phase old) "terminal" || negb (eqs (j_phase new) "terminal") then mret tt
  else
    original_event_id ← newID;
    d ← query id;
    now ← asks clock_timestamp;
    let current_run := latest_run d (j_namespace_id new) jobID in
    INSERT original_event_id {|
      ob_namespace_id := j_namespace_id new; ob_topic := monitoring_topic;
      ob_aggregate_type := "job"; ob_aggregate_id := jobID;
      ob_payload := monitoring_payload original_event_id jobID (j_phase old) new current_run now (d_reconciliation_hold d);
      ob_created_at := now; ob_published_at := None |}.

(** ** Constraints *)

Definition generation_matches (namespaceID targetID : string) (g : generation_row) : bool :=
  eqs (gen_namespace_id g) namespaceID && eqs (gen_target_id g) targetID.

Definition job_constraints (d : db) (id : string) (j : job_row) : list constraint := [
  ("jobs_phase_known", slices_Contains job_phases (j_phase j));
  ("jobs_desired_state_known", slices_Contains ["run"; "cancel"] (j_desired_state j));
  ("jobs_outcome_known", known outcomes (j_outcome j));
  ("jobs_terminal_consistent", Bool.eqb (eqs (j_phase j) "terminal") (is_some (j_outcome j)));
  ("jobs_revision_positive", bigint_positive (j_revision j));
  ("jobs_collection_binding_complete",
     match j_collection_id j, j_collection_index j with
     | None, None => true
     | Some _, Some i => bool_decide (0 ≤ i < 10000)
     | _, _ => false
     end);
  ("jobs_graph_binding_complete",
     match j_graph_id j, j_graph_index j with
     | None, None => negb (is_some (j_graph_disposition j))
     | Some _, Some i => bool_decide (0 ≤ i < 10000)
     | _, _ => false
     end);
  ("jobs_graph_disposition_known", known ["skipped"; "cancelled"; "blocked"] (j_graph_disposition j));
  ("jobs_grouping_exclusive", negb (is_some (j_collection_id j) && is_some (j_graph_id j)));
  ("jobs_import_consistent",
     if j_imported j then is_some (j_import_source j) && eqs (j_phase j) "terminal" && is_some (j_outcome j) &&
                          is_some (j_completed_at j)
     else negb (is_some (j_import_source j)));
  ("jobs_import_source_unique",
     negb (j_imported j) ||
     unique_among (d_jobs d) id (λ o, j_imported o && eqs (j_namespace_id o) (j_namespace_id j) &&
       bool_decide (is_store <$> j_import_source o = is_store <$> j_import_source j) &&
       bool_decide (is_jobId <$> j_import_source o = is_jobId <$> j_import_source j)));
  ("jobs_completion_consistent", negb (is_some (j_completed_at j)) || eqs (j_phase j) "terminal");
  ("jobs_namespace_fk", is_some (d_namespaces d !! j_namespace_id j));
  ("jobs_owner_fk", is_some (d_principals d !! j_owner_principal_id j));
  ("jobs_workload_revision_fk",
     is_some (d_workload_revisions d !! (j_namespace_id j, j_workload_digest j)));
  ("jobs_namespace_target_generation_fk",
     match j_target_id j, j_target_generation_id j with
     | Some t, Some g => exists_row (d_generations d) g (generation_matches (j_namespace_id j) t)
     | _, _ => true
     end);
  ("jobs_collection_fk",
     match j_collection_id j with
     | Some c => exists_row (d_collections d) c (λ c, eqs (co_namespace_id c) (j_namespace_id j))
     | None => true
     end);
  ("jobs_graph_fk",
     match j_graph_id j with
     | Some g => exists_row (d_graphs d) g (λ g, eqs (gr_namespace_id g) (j_namespace_id j))
     | None => true
     end);
  ("jobs_collection_index_unique",
     negb (is_some (j_collection_id j)) ||
     unique_among (d_jobs d) id (λ o, bool_decide (j_collection_id o = j_collection_id j) &&
                                     bool_decide (j_collection_index o = j_collection_index j)));
  ("jobs_graph_index_unique",
     negb (is_some (j_graph_id j)) ||
     unique_among (d_jobs d) id (λ o, bool_decide (j_graph_id o = j_graph_id j) &&
                                     bool_decide (j_graph_index o = j_graph_index j)))].

#[export] Instance jobs_table : Table string job_row := {|
  tbl := d_jobs;
  set_tbl m d := d <| d_jobs := m |>;
  constraints := job_constraints;
  before_update := record_job_lifecycle;
  after_update := enqueue_monitoring_terminal_transition |}.

Definition run_constraints (d : db) (id : string) (r : run_row) : list constraint := [
  ("runs_namespace_job_fk",
     exists_row (d_jobs d) (r_job_id r) (λ j, eqs (j_namespace_id j) (r_namespace_id r)));
  ("runs_job_number_unique",
     unique_among (d_runs d) id (λ o, eqs (r_job_id o) (r_job_id r) &&
                                     bool_decide (r_run_number o = r_run_number r)));
  ("runs_number_positive", bool_decide (0 < r_run_number r));
  ("runs_phase_known", slices_Contains run_phases (r_phase r));
  ("runs_desired_state_known", slices_Contains ["run"; "cancel"] (r_desired_state r));
  ("runs_outcome_known", known outcomes (r_outcome r));
  ("runs_terminal_consistent", Bool.eqb (eqs (r_phase r) "terminal") (is_some (r_outcome r)))].

#[export] Instance runs_table : Table string run_row := {|
  tbl := d_runs;
  set_tbl m d := d <| d_runs := m |>;
  constraints := run_constraints;
  before_update _ _ _ _ new := new;
  after_update _ _ _ := mret tt |}.

Definition native_states := [
  "uncertain"; "queued"; "running"; "suspended"; "completing"; "unknown";
  "completed"; "failed"; "cancelled"; "timed_out"; "preempted";
  "node_failed"; "out_of_memory"; "boot_failed"; "deadline"; "lost"].

Definition execution_constraints (d : db) (id : string) (x : execution_row) : list constraint := [
  ("executions_id_uuid", negb (eqs id ""));
  ("executions_namespace_run_fk",
     exists_row (d_runs d) (e_run_id x) (λ r, eqs (r_namespace_id r) (e_namespace_id x)));
  ("executions_one_per_run", unique_among (d_executions d) id (λ o, eqs (e_run_id o) (e_run_id x)));
  ("executions_namespace_target_generation_fk",
     exists_row (d_generations d) (e_target_generation_id x)
       (generation_matches (e_namespace_id x) (e_target_id x)));
  ("executions_namespace_agent_fk",
     exists_row (d_agents d) (e_agent_id x) (λ a, eqs (ag_namespace_id a) (e_namespace_id x)));
  ("executions_phase_known", slices_Contains execution_phases (e_phase x));
  ("executions_revision_positive", bigint_positive (e_revision x));
  ("executions_event_sequence_nonnegative",
     bool_decide (0 ≤ e_last_event_sequence x ≤ max_int64));
  ("executions_outcome_known", known outcomes (e_outcome x));
  ("executions_terminal_consistent",
     if eqs (e_phase x) "terminal" then is_some (e_outcome x) && is_some (e_process_result x)
     else negb (is_some (e_outcome x)) && negb (is_some (e_process_result x)));
  ("executions_native_backend_known", known ["slurm"] (e_native_backend x));
  ("executions_native_state_known", known native_states (e_native_state x));
  ("executions_native_scheduler_consistent",
     if is_some (e_native_backend x) then is_some (e_native_state x) && is_some (e_native_observed_at x)
     else negb (is_some (e_native_state x)) && negb (is_some (e_native_reason x)) &&
          negb (is_some (e_native_cluster x)) && negb (is_some (e_native_observed_at x)));
  ("executions_observation_confidence_known",
     slices_Contains ["current"; "stale"; "uncertain"; "lost"] (e_observation_confidence x))].

#[export] Instance executions_table : Table string execution_row := {|
  tbl := d_executions;
  set_tbl m d := d <| d_executions := m |>;
  constraints := execution_constraints;
  before_update _ _ _ _ new := new;
  after_update _ _ _ := mret tt |}.

Definition assignment_constraints (d : db) (id : string) (a : assignment_row) : list constraint := [
  ("assignments_namespace_execution_fk",
     exists_row (d_executions d) (a_execution_id a) (λ x, eqs (e_namespace_id x) (a_namespace_id a)));
  ("assignments_execution_unique",
     unique_among (d_assignments d) id (λ o, eqs (a_execution_id o) (a_execution_id a)));
  ("assignments_namespace_agent_fk",
     exists_row (d_agents d) (a_agent_id a) (λ g, eqs (ag_namespace_id g) (a_namespace_id a)));
  ("assignments_state_known",
     slices_Contains ["offered"; "accepted"; "rejected"; "withdrawn"] (a_state a));
  ("assignments_delivery_count_nonnegative", bool_decide (0 ≤ a_delivery_count a < 2 ^ 31));
  ("assignments_decision_consistent",
     (eqs (a_state a) "offered" && negb (is_some (a_accepted_at a)) && negb (is_some (a_rejected_at a)) &&
        negb (is_some (a_acceptance_digest a)) && negb (is_some (a_acceptance_document a))) ||
     (eqs (a_state a) "accepted" && is_some (a_accepted_at a) && negb (is_some (a_rejected_at a)) &&
        is_some (a_acceptance_digest a) && is_some (a_acceptance_document a)) ||
     (eqs (a_state a) "rejected" && negb (is_some (a_accepted_at a)) && is_some (a_rejected_at a) &&
        is_some (a_rejection_code a)) ||
     (eqs (a_state a) "withdrawn" && negb (is_some (a_accepted_at a))))].

#[export] Instance assignments_table : Table string assignment_row := {|
  tbl := d_assignments;
  set_tbl m d := d <| d_assignments := m |>;
  constraints := assignment_constraints;
  before_update _ _ _ _ new := new;
  after_update _ _ _ := mret tt |}.

Definition event_types := [
  "process.started"; "process.completed"; "scheduler.uncertain"; "scheduler.submitted";
  "scheduler.observed"; "scheduler.completed"].

#[export] Instance events_table : Table string event_row := {|
  tbl := d_events;
  set_tbl m d := d <| d_events := m |>;
  constraints d id ev := [
    ("execution_events_namespace_execution_fk",
       exists_row (d_executions d) (evt_execution_id ev) (λ x, eqs (e_namespace_id x) (evt_namespace_id ev)));
    ("execution_events_namespace_agent_fk",
       exists_row (d_agents d) (evt_agent_id ev) (λ g, eqs (ag_namespace_id g) (evt_namespace_id ev)));
    ("execution_events_source_sequence_unique",
       unique_among (d_events d) id (λ o, eqs (evt_execution_id o) (evt_execution_id ev) &&
         eqs (evt_agent_id o) (evt_agent_id ev) &&
         bool_decide (evt_source_sequence o = evt_source_sequence ev)));
    ("execution_events_sequence_positive", bigint_positive (evt_source_sequence ev));
    ("execution_events_type_known", slices_Contains event_types (evt_event_type ev));
    ("execution_events_digest_format", MatchString digestPattern (evt_document_digest ev))];
  before_update _ _ _ _ new := new;
  after_update _ _ _ := mret tt |}.

#[export] Instance artifacts_table : Table (string * string) artifact_row := {|
  tbl := d_artifacts;
  set_tbl m d := d <| d_artifacts := m |>;
  constraints d id ar := [
    ("execution_artifacts_namespace_execution_fk",
       exists_row (d_executions d) id.1 (λ x, eqs (e_namespace_id x) (ar_namespace_id ar)));
    ("execution_artifacts_store_version_positive", bigint_positive (ar_store_version ar));
    ("execution_artifacts_byte_length_nonnegative", bool_decide (0 ≤ ar_byte_length ar ≤ max_int64));
    ("execution_artifacts_checksum_format", MatchString digestPattern (ar_checksum ar))];
  before_update _ _ _ _ new := new;
  after_update _ _ _ := mret tt |}.

#[export] Instance actions_table : Table string action_row := {|
  tbl := d_actions;
  set_tbl m d := d <| d_actions := m |>;
  constraints d id a := [
    ("desired_actions_namespace_execution_fk",
       exists_row (d_executions d) (act_execution_id a) (λ x, eqs (e_namespace_id x) (act_namespace_id a)));
    ("desired_actions_namespace_agent_fk",
       exists_row (d_agents d) (act_agent_id a) (λ g, eqs (ag_namespace_id g) (act_namespace_id a)));
    ("desired_actions_execution_type_unique",
       unique_among (d_actions d) id (λ o, eqs (act_execution_id o) (act_execution_id a) &&
         eqs (act_action_type o) (act_action_type a)));
    ("desired_actions_revision_positive", bigint_positive (act_revision a));
    ("desired_actions_type_known", eqs (act_action_type a) "cancel");
    ("desired_actions_state_known", slices_Contains ["pending"; "acknowledged"] (act_state a));
    ("desired_actions_delivery_count_nonnegative", bool_decide (0 ≤ act_delivery_count a < 2 ^ 31));
    ("desired_actions_acknowledgement_consistent",
       Bool.eqb (eqs (act_state a) "acknowledged") (is_some (act_acknowledged_at a)))];
  before_update _ _ _ _ new := new;
  after_update _ _ _ := mret tt |}.

#[export] Instance collections_table : Table string collection_row := {|
  tbl := d_collections;
  set_tbl m d := d <| d_collections := m |>;
  constraints d id c := [
    ("collections_namespace_fk", is_some (d_namespaces d !! co_namespace_id c));
    ("collections_owner_fk", is_some (d_principals d !! co_owner_principal_id c));
    ("collections_request_digest_format", MatchString digestPattern (co_request_digest c));
    ("collections_max_active_bounded", bool_decide (1 ≤ co_max_active c ≤ 10000));
    ("collections_failure_policy_known", slices_Contains ["continue"; "fail-fast"] (co_failure_policy c));
    ("collections_array_policy_known", slices_Contains ["never"; "prefer"; "require"] (co_array_policy c));
    ("collections_array_mode_known", slices_Contains ["individual"; "slurm-array"] (co_array_mode c));
    ("collections_revision_positive", bigint_positive (co_revision c))];
  before_update _ _ _ _ new := new;
  after_update _ _ _ := mret tt |}.

#[export] Instance collection_items_table : Table (string * Z) collection_item_row := {|
  tbl := d_collection_items;
  set_tbl m d := d <| d_collection_items := m |>;
  constraints d id i := [
    ("collection_items_collection_fk", is_some (d_collections d !! id.1));
    ("collection_items_job_fk", is_some (d_jobs d !! cit_job_id i));
    ("collection_items_name_unique",
       forallb (λ kr : (string * Z) * collection_item_row,
         bool_decide (kr.1 = id) || negb (eqs kr.1.1 id.1 && eqs (cit_item_name kr.2) (cit_item_name i)))
         (map_to_list (d_collection_items d)));
    ("collection_items_job_unique",
       unique_among (d_collection_items d) id (λ o, eqs (cit_job_id o) (cit_job_id i)));
    ("collection_items_index_bounded", bool_decide (0 ≤ id.2 < 10000))];
  before_update _ _ _ _ new := new;
  after_update _ _ _ := mret tt |}.

#[export] Instance graphs_table : Table string graph_row := {|
  tbl := d_graphs;
  set_tbl m d := d <| d_graphs := m |>;
  constraints d id g := [
    ("graphs_namespace_fk", is_some (d_namespaces d !! gr_namespace_id g));
    ("graphs_owner_fk", is_some (d_principals d !! gr_owner_principal_id g));
    ("graphs_request_digest_format", MatchString digestPattern (gr_request_digest g));
    ("graphs_max_active_bounded", bool_decide (1 ≤ gr_max_active g ≤ 10000));
    ("graphs_unsatisfied_policy_known",
       slices_Contains ["skip"; "cancel"; "blocked"] (gr_unsatisfied_policy g));
    ("graphs_revision_positive", bigint_positive (gr_revision g))];
  before_update _ _ _ _ new := new;
  after_update _ _ _ := mret tt |}.

#[export] Instance graph_nodes_table : Table (string * Z) graph_node_row := {|
  tbl := d_graph_nodes;
  set_tbl m d := d <| d_graph_nodes := m |>;
  constraints d id i := [
    ("graph_nodes_graph_fk", is_some (d_graphs d !! id.1));
    ("graph_nodes_job_fk", is_some (d_jobs d !! nod_job_id i));
    ("graph_nodes_name_unique",
       forallb (λ kr : (string * Z) * graph_node_row,
         bool_decide (kr.1 = id) || negb (eqs kr.1.1 id.1 && eqs (nod_node_name kr.2) (nod_node_name i)))
         (map_to_list (d_graph_nodes d)));
    ("graph_nodes_job_unique",
       unique_among (d_graph_nodes d) id (λ o, eqs (nod_job_id o) (nod_job_id i)));
    ("graph_nodes_index_bounded", bool_decide (0 ≤ id.2 < 10000))];
  before_update _ _ _ _ new := new;
  after_update _ _ _ := mret tt |}.

#[export] Instance graph_edges_table : Table (string * string * string) graph_edge_row := {|
  tbl := d_graph_edges;
  set_tbl m d := d <| d_graph_edges := m |>;
  constraints d id g := [
    ("graph_edges_graph_fk", is_some (d_graphs d !! id.1.1));
    ("graph_edges_upstream_fk", is_some (d_jobs d !! id.1.2));
    ("graph_edges_downstream_fk", is_some (d_jobs d !! id.2));
    ("graph_edges_no_self_reference", negb (eqs id.1.2 id.2));
    ("graph_edges_predicate_known",
       slices_Contains ["success"; "failure"; "any-terminal"; "outcomes"] (ed_predicate g));
    ("graph_edges_outcomes_known",
       forallb (slices_Contains outcomes) (ed_outcomes g) &&
       Bool.eqb (eqs (ed_predicate g) "outcomes") (bool_decide (0 < slice_len (ed_outcomes g))))];
  before_update _ _ _ _ new := new;
  after_update _ _ _ := mret tt |}.

#[export] Instance workload_revisions_table : Table (string * string) workload_revision_row := {|
  tbl := d_workload_revisions;
  set_tbl m d := d <| d_workload_revisions := m |>;
  constraints d id w := [
    ("workload_revisions_namespace_fk", is_some (d_namespaces d !! id.1));
    ("workload_revisions_created_by_fk", is_some (d_principals d !! wr_created_by w));
    ("workload_revisions_digest_format", MatchString digestPattern id.2)];
  before_update _ _ _ _ new := new;
  after_update _ _ _ := mret tt |}.

#[export] Instance idempotency_table :
    Table (string * string * string * string) idempotency_row := {|
  tbl := d_idempotency;
  set_tbl m d := d <| d_idempotency := m |>;
  constraints d id r := [
    ("idempotency_records_namespace_fk", is_some (d_namespaces d !! id.1.1.1));
    ("idempotency_records_principal_fk", is_some (d_principals d !! id.1.1.2));
    ("idempotency_records_request_digest_format", MatchString digestPattern (id_request_digest r));
    ("idempotency_records_completion_consistent",
       Bool.eqb (is_some (id_resource_id r)) (is_some (id_response_status r)) &&
       Bool.eqb (is_some (id_resource_id r)) (is_some (id_completed_at r)))];
  before_update _ _ _ _ new := new;
  after_update _ _ _ := mret tt |}.

(** [bump_log_manifest_revision] (migration 18). *)
Definition bump_log_manifest_revision (old new : log_stream_row) : log_stream_row :=
  new <| ls_manifest_revision := ls_manifest_revision old + 1 |>.

#[export] Instance log_streams_table : Table (string * string) log_stream_row := {|
  tbl := d_log_streams;
  set_tbl m d := d <| d_log_streams := m |>;
  constraints d id s := [
    ("log_streams_namespace_execution_fk",
       exists_row (d_executions d) id.1 (λ x, eqs (e_namespace_id x) (ls_namespace_id s)));
    ("log_streams_namespace_agent_fk",
       exists_row (d_agents d) (ls_agent_id s) (λ g, eqs (ag_namespace_id g) (ls_namespace_id s)));
    ("log_streams_stream_known", slices_Contains ["stdout"; "stderr"] id.2);
    ("log_streams_store_name_format", MatchString logStorePattern (ls_store_name s));
    ("log_streams_store_version_positive", bigint_positive (ls_store_version s));
    ("log_streams_state_known", slices_Contains ["capturing"; "complete"] (ls_state s));
    ("log_streams_length_nonnegative", bool_decide (0 ≤ ls_byte_length s ≤ max_int64));
    ("log_streams_sequence_nonnegative", bool_decide (0 ≤ ls_last_sequence s ≤ max_int64));
    ("log_streams_completion_consistent",
       (eqs (ls_state s) "capturing" && negb (is_some (ls_completed_at s)) && negb (ls_truncated s)) ||
       (eqs (ls_state s) "complete" && is_some (ls_completed_at s)));
    ("log_streams_manifest_revision_check", bigint_positive (ls_manifest_revision s))];
  before_update _ _ _ old new := bump_log_manifest_revision old new;
  after_update _ _ _ := mret tt |}.

#[export] Instance log_chunks_table : Table (string * string * Z) log_chunk_row := {|
  tbl := d_log_chunks;
  set_tbl m d := d <| d_log_chunks := m |>;
  constraints d id c := [
    ("log_chunks_stream_fk", is_some (d_log_streams d !! id.1));
    ("log_chunks_namespace_execution_fk",
       exists_row (d_executions d) id.1.1 (λ x, eqs (e_namespace_id x) (ch_namespace_id c)));
    ("log_chunks_namespace_agent_fk",
       exists_row (d_agents d) (ch_agent_id c) (λ g, eqs (ag_namespace_id g) (ch_namespace_id c)));
    ("log_chunks_stream_known", slices_Contains ["stdout"; "stderr"] id.1.2);
    ("log_chunks_sequence_positive", bigint_positive id.2);
    ("log_chunks_store_version_positive", bigint_positive (ch_store_version c));
    ("log_chunks_store_name_format", MatchString logStorePattern (ch_store_name c));
    ("log_chunks_object_key_length", bool_decide (1 ≤ len (ch_object_key c) ≤ 1024));
    ("log_chunks_offset_nonnegative", bool_decide (0 ≤ ch_byte_offset c ≤ max_int64));
    ("log_chunks_length_bounded", bool_decide (0 ≤ ch_byte_length c ≤ 262144));
    ("log_chunks_empty_only_terminal", bool_decide (0 < ch_byte_length c) || ch_complete c);
    ("log_chunks_terminal_consistent", negb (ch_truncated c) || ch_complete c);
    ("log_chunks_checksum_format", MatchString digestPattern (ch_checksum c));
    ("log_chunks_document_digest_format", MatchString digestPattern (ch_document_digest c));
    ("log_chunks_store_object_unique",
       unique_among (d_log_chunks d) id (λ o, eqs (ch_store_name o) (ch_store_name c) &&
         bool_decide (ch_store_version o = ch_store_version c) &&
         eqs (ch_object_key o) (ch_object_key c)))];
  before_update _ _ _ _ new := new;
  after_update _ _ _ := mret tt |}.

#[export] Instance policies_table : Table string policy_row := {|
  tbl := d_policies;
  set_tbl m d := d <| d_policies := m |>;
  constraints d id p := [
    ("namespace_policies_limits_positive",
       bool_decide (0 < po_max_active_jobs p) && bool_decide (0 < po_max_queued_jobs p) &&
       bool_decide (0 < po_max_collection_items p) && bool_decide (0 < po_max_graph_nodes p));
    ("namespace_policies_group_limits_bounded",
       bool_decide (po_max_collection_items p ≤ 10000) && bool_decide (po_max_graph_nodes p ≤ 10000));
    ("namespace_policies_integer_range",
       bool_decide (po_max_active_jobs p < 2 ^ 31) && bool_decide (po_max_queued_jobs p < 2 ^ 31));
    ("namespace_policies_revision_positive", bigint_positive (po_revision p))];
  before_update _ _ _ _ new := new;
  after_update _ _ _ := mret tt |}.

(** ** Agents and targets *)

(** [stamp_target_catalog_creation] on insert (migration 22): creation instants of the targets of a
    namespace strictly increase. *)
Definition stamp_target_catalog_creation (namespaceID : string) : tx timestamptz :=
  now ← asks clock_timestamp;
  d ← query id;
  let created := match d_target_clocks d !! namespaceID with
                 | Some last => Z.max (last + 1) now
                 | None => now
                 end in
  exec (λ _ d, d <| d_target_clocks := <[namespaceID := created]> (d_target_clocks d) |>);;
  mret created.

#[export] Instance targets_table : Table string target_row := {|
  tbl := d_targets;
  set_tbl m d := d <| d_targets := m |>;
  constraints d id t := [
    ("targets_namespace_fk", is_some (d_namespaces d !! tg_namespace_id t));
    ("targets_namespace_name_unique",
       unique_among (d_targets d) id (λ o, eqs (tg_namespace_id o) (tg_namespace_id t) && eqs (tg_name o) (tg_name t)));
    ("targets_name_format", ValidName (tg_name t));
    ("targets_kind_known", slices_Contains ["host"; "slurm"] (tg_kind t));
    ("targets_state_known", slices_Contains ["active"; "draining"; "disabled"; "retired"] (tg_state t));
    ("targets_revision_positive", bigint_positive (tg_revision t));
    ("targets_current_generation_fk",
       match tg_current_generation_id t with
       | Some g => exists_row (d_generations d) g (λ g, eqs (gen_target_id g) id)
       | None => true
       end)];
  before_update _ _ _ _ new := new;
  after_update _ _ _ := mret tt |}.

#[export] Instance generations_table : Table string generation_row := {|
  tbl := d_generations;
  set_tbl m d := d <| d_generations := m |>;
  constraints d id g := [
    ("target_generations_namespace_target_fk",
       exists_row (d_targets d) (gen_target_id g) (λ t, eqs (tg_namespace_id t) (gen_namespace_id g)));
    ("target_generations_number_unique",
       unique_among (d_generations d) id (λ o, eqs (gen_target_id o) (gen_target_id g) &&
         bool_decide (gen_generation o = gen_generation g)));
    ("target_generations_backend_known", slices_Contains ["subprocess"; "slurm"] (gen_execution_backend g));
    ("target_generations_transport_known", eqs (gen_control_transport g) "agent-api");
    ("target_generations_generation_positive", bigint_positive (gen_generation g));
    ("target_generations_runtimes_known",
       bool_decide (0 < slice_len (gen_runtimes g)) &&
       forallb (slices_Contains ["native"; "container"]) (gen_runtimes g));
    ("target_generations_log_store_consistent",
       match gen_log_store_name g, gen_log_store_version g with
       | None, None => true
       | Some name, Some version => MatchString logStorePattern name && bigint_positive version
       | _, _ => false
       end);
    ("target_generations_provider_object",
       slices_Contains ["on-prem"; "aws-parallelcluster"] (tp_Kind (gen_provider g)))];
  before_update _ _ _ _ new := new;
  after_update _ _ _ := mret tt |}.

#[export] Instance partitions_table : Table (string * string) partition_row := {|
  tbl := d_partitions;
  set_tbl m d := d <| d_partitions := m |>;
  constraints d id p := [
    ("partitions_pkey", unique_among (d_partitions d) id (λ o, eqs (part_id o) (part_id p)));
    ("partitions_namespace_generation_fk",
       exists_row (d_generations d) id.1 (λ g, eqs (gen_namespace_id g) (part_namespace_id p)));
    ("partitions_name_format", ValidName id.2);
    ("partitions_state_known", slices_Contains ["active"; "draining"; "disabled"; "retired"] (part_state p));
    ("partitions_one_default_index",
       negb (part_is_default p) ||
       forallb (λ kr : (string * string) * partition_row,
         bool_decide (kr.1 = id) || negb (eqs kr.1.1 id.1 && part_is_default kr.2))
         (map_to_list (d_partitions d)))];
  before_update _ _ _ _ new := new;
  after_update _ _ _ := mret tt |}.

#[export] Instance agents_table : Table string agent_row := {|
  tbl := d_agents;
  set_tbl m d := d <| d_agents := m |>;
  constraints d id a := [
    ("agents_id_uuid", negb (eqs id ""));
    ("agents_namespace_target_generation_fk",
       exists_row (d_generations d) (ag_target_generation_id a) (generation_matches (ag_namespace_id a) (ag_target_id a)));
    ("agents_principal_fk", is_some (d_principals d !! ag_principal_id a));
    ("agents_status_known", slices_Contains ["active"; "draining"; "disabled"; "retired"] (ag_status a));
    ("agents_registration_digest_format", MatchString digestPattern (ag_registration_digest a));
    ("agents_capability_revision_nonnegative", bool_decide (0 ≤ ag_capability_revision a ≤ max_int64))];
  before_update _ _ _ _ new := new;
  after_update _ _ _ := mret tt |}.

#[export] Instance sessions_table : Table string session_row := {|
  tbl := d_sessions;
  set_tbl m d := d <| d_sessions := m |>;
  constraints d id s := [
    ("agent_sessions_namespace_agent_fk",
       exists_row (d_agents d) (se_agent_id s) (λ a, eqs (ag_namespace_id a) (se_namespace_id s)));
    ("agent_sessions_token_hash_key",
       unique_among (d_sessions d) id (λ o, bool_decide (se_token_hash o = se_token_hash s)));
    ("agent_sessions_replaced_by_fk",
       match se_replaced_by_session_id s with Some r => is_some (d_sessions d !! r) | None => true end)];
  before_update _ _ _ _ new := new;
  after_update _ _ _ := mret tt |}.

#[export] Instance enrollments_table : Table string enrollment_row := {|
  tbl := d_enrollments;
  set_tbl m d := d <| d_enrollments := m |>;
  constraints d id t := [
    ("agent_enrollment_namespace_target_generation_fk",
       exists_row (d_generations d) (en_target_generation_id t) (generation_matches (en_namespace_id t) (en_target_id t)));
    ("agent_enrollment_principal_fk",
       is_some (d_principals d !! en_principal_id t) && is_some (d_principals d !! en_created_by_principal_id t));
    ("agent_enrollment_namespace_used_agent_fk",
       match en_used_by_agent_id t with
       | Some g => exists_row (d_agents d) g (λ a, eqs (ag_namespace_id a) (en_namespace_id t))
       | None => true
       end);
    ("agent_enrollment_token_hash_key",
       unique_among (d_enrollments d) id (λ o, bool_decide (en_token_hash o = en_token_hash t)));
    ("agent_enrollment_request_digest_format", MatchString digestPattern (en_request_digest t));
    ("agent_enrollment_use_consistent", Bool.eqb (is_some (en_used_at t)) (is_some (en_used_by_agent_id t)))];
  before_update _ _ _ _ new := new;
  after_update _ _ _ := mret tt |}.

#[export] Instance certificates_table : Table string certificate_row := {|
  tbl := d_certificates;
  set_tbl m d := d <| d_certificates := m |>;
  constraints d id c := [
    ("agent_certificates_namespace_agent_fk",
       exists_row (d_agents d) (crt_agent_id c) (λ a, eqs (ag_namespace_id a) (crt_namespace_id c)));
    ("agent_certificates_serial_length", bool_decide (1 ≤ len id ≤ 64));
    ("agent_certificates_public_key_digest_format", MatchString digestPattern (crt_public_key_digest c));
    ("agent_certificates_replaced_by_fk",
       match crt_replaced_by_serial c with Some r => is_some (d_certificates d !! r) | None => true end)];
  before_update _ _ _ _ new := new;
  after_update _ _ _ := mret tt |}.

#[export] Instance capability_snapshots_table : Table (string * Z) capability_row := {|
  tbl := d_capability_snapshots;
  set_tbl m d := d <| d_capability_snapshots := m |>;
  constraints d id c := [
    ("agent_capability_snapshots_namespace_agent_fk",
       exists_row (d_agents d) id.1 (λ a, eqs (ag_namespace_id a) (cap_namespace_id c)));
    ("agent_capability_snapshots_digest_unique",
       forallb (λ kr : (string * Z) * capability_row,
         bool_decide (kr.1 = id) || negb (eqs kr.1.1 id.1 && eqs (cap_document_digest kr.2) (cap_document_digest c)))
         (map_to_list (d_capability_snapshots d)));
    ("agent_capability_snapshots_revision_positive", bigint_positive id.2);
    ("agent_capability_snapshots_digest_format", MatchString digestPattern (cap_document_digest c))];
  before_update _ _ _ _ new := new;
  after_update _ _ _ := mret tt |}.

(** ** Evidence *)

(** [INSERT INTO audit_events]: the identity column is the position in the log. *)
Definition insert_audit (row : audit_row) : tx unit := λ e d,
  check_all [
    ("audit_events_namespace_fk", is_some (d_namespaces d !! au_namespace_id row));
    ("audit_events_actor_consistent",
       (eqs (au_actor_kind row) "principal" && is_some (au_actor_principal_id row) &&
          negb (is_some (au_actor_agent_id row))) ||
       (eqs (au_actor_kind row) "agent" && negb (is_some (au_actor_principal_id row)) &&
          is_some (au_actor_agent_id row)) ||
       (eqs (au_actor_kind row) "system" && negb (is_some (au_actor_principal_id row)) &&
          negb (is_some (au_actor_agent_id row))));
    ("audit_events_namespace_agent_fk",
       match au_actor_agent_id row with
       | Some g => exists_row (d_agents d) g (λ g, eqs (ag_namespace_id g) (au_namespace_id row))
       | None => true
       end)] ≫= λ _,
  Ok (tt, d <| d_audit := d_audit d ++ [row] |>).

Definition audit_system (namespaceID action resourceType resourceID : string)
    (details : list (string * string)) : tx unit :=
  now ← asks transaction_timestamp;
  insert_audit {| au_namespace_id := namespaceID; au_actor_kind := "system";
    au_actor_principal_id := None; au_actor_agent_id := None; au_action := action;
    au_resource_type := resourceType; au_resource_id := resourceID;
    au_request_digest := None; au_idempotency_key := None; au_details := details;
    au_occurred_at := now |}.

Definition audit_agent (namespaceID agentID action resourceType resourceID requestDigest : string)
    (details : list (string * string)) : tx unit :=
  now ← asks transaction_timestamp;
  insert_audit {| au_namespace_id := namespaceID; au_actor_kind := "agent";
    au_actor_principal_id := None; au_actor_agent_id := Some agentID; au_action := action;
    au_resource_type := resourceType; au_resource_id := resourceID;
    au_request_digest := Some requestDigest; au_idempotency_key := None; au_details := details;
    au_occurred_at := now |}.

Definition audit_principal (namespaceID principalID action resourceType resourceID : string)
    (requestDigest idempotencyKey : option string) (details : list (string * string)) : tx unit :=
  now ← asks transaction_timestamp;
  insert_audit {| au_namespace_id := namespaceID; au_actor_kind := "principal";
    au_actor_principal_id := Some principalID; au_actor_agent_id := None; au_action := action;
    au_resource_type := resourceType; au_resource_id := resourceID;
    au_request_digest := requestDigest; au_idempotency_key := idempotencyKey; au_details := details;
    au_occurred_at := now |}.

(** [jsonb_build_object] of text members. *)
Definition text_members : list (string * string) → list (string * jsonb_value) := fmap (prod_map id jText).

Definition insert_outbox (id namespaceID topic aggregateType aggregateID : string)
    (payload : list (string * string)) : tx unit :=
  now ← asks transaction_timestamp;
  INSERT id {| ob_namespace_id := namespaceID; ob_topic := topic;
    ob_aggregate_type := aggregateType; ob_aggregate_id := aggregateID; ob_payload := text_members payload;
    ob_created_at := now; ob_published_at := None |}.
