(* ===== verification/Auth.v ===== *)
(** * Namespace authorization

    [authorizeNamespace] ([internal/store/postgres/authorization.go]) with the
    identity resolution it calls ([delegation.go]), the view
    [authorized_memberships] (migration 16), the service-only monitoring
    authority ([monitoring_authorization.go]) and the assertion ledger. *)
From S2P Require Import Prelude Regex Names Domain TargetSpec Kahn Graph Contract Records Db Tx Constraints.

(** ** Lookups *)

Definition find_principal (d : db) (issuer subject : string) : option (string * principal_row) :=
  head (select (λ _ p, eqs (prn_issuer p) issuer && eqs (prn_subject p) subject) (d_principals d)).
Definition find_namespace (d : db) (name : string) : option (string * namespace_row) :=
  head (select (λ _ n, eqs (ns_name n) name) (d_namespaces d)).
Definition account_of (d : db) (principalID : string) : option (string * directory_account_row) :=
  head (select (λ _ a, eqs (dir_principal_id a) principalID) (d_directory_accounts d)).

(** ** The view [authorized_memberships] *)

(** A contribution counts in an unmanaged namespace when it is not revoked; in a
    directory-managed one it must also come from an enabled role binding, for an
    enabled account. *)
Definition contributes (d : db) (namespaceID principalID : string) (g : membership_grant_row) : bool :=
  eqs (mgr_namespace_id g) namespaceID && eqs (mgr_principal_id g) principalID &&
  negb (is_some (mgr_revoked_at g)) &&
  (negb (is_some (d_directory_state d !! namespaceID)) ||
   (eqs (mgr_provenance g) "directory" &&
    existsb (λ a : string * directory_account_row,
       eqs (dir_principal_id a.2) principalID && dir_enabled a.2) (map_to_list (d_directory_accounts d)) &&
    exists_row (d_role_bindings d) (mgr_source_key g)
      (λ b, eqs (rb_namespace_id b) namespaceID && eqs (rb_role b) (mgr_role g) && rb_enabled b))).

(** [array_agg(DISTINCT role ORDER BY role)]; no row when there is no contribution. *)
Definition authorized_roles (d : db) (namespaceID principalID : string) : list string :=
  sort_strings (remove_dups
    (mgr_role <$> (select (λ _, contributes d namespaceID principalID) (d_membership_grants d)).*2)).

(** ** Delegated identities *)

Record verifiedDirectoryPrincipal := {
  vd_principalID : string; vd_canonical : Principal; vd_verifiedAt : timestamptz }.

(** [queryDelegationKey] *)
Definition queryDelegationKey (serviceID keyID : string) : tx delegation_key_row :=
  d ← query id;
  row_or (d_delegation_keys d !! (serviceID, keyID)) ErrNotFound.

(** [interval '5 seconds'] and [interval '120 seconds'] in microseconds. *)
Definition seconds (n : Z) : Z := n * 1000000.

(** A directory verification instant is fresh: at most 120 seconds old and at
    most 5 seconds ahead of the statement. *)
Definition proof_fresh (now : timestamptz) (verified : option timestamptz) : bool :=
  match verified with
  | Some t => bool_decide (now - seconds 120 < t) && bool_decide (t ≤ now + seconds 5)
  | None => false
  end.

(** The alias of an issuer and subject inside one directory, joined with its
    account and principal. *)
Definition delegated_row (d : db) (issuer subject directoryID : string) :
    option (string * directory_account_row * principal_row) :=
  alias ← d_principal_aliases d !! (issuer, subject);
  if eqs (pal_directory_id alias) directoryID then
    account ← d_directory_accounts d !! pal_directory_id alias;
    if eqs (dir_principal_id account) (pal_principal_id alias) then
      p ← d_principals d !! dir_principal_id account;
      Some (dir_principal_id account, account, p)
    else None
  else None.

(** [resolveDelegatedPrincipal] *)
Definition resolveDelegatedPrincipal (principal : Principal) : tx verifiedDirectoryPrincipal :=
  match p_Delegation principal with
  | None => throw ErrForbidden
  | Some actor =>
      reject (da_ServiceOnly actor || negb (IsID (da_DirectoryID actor)) ||
              negb (DelegationReadOperation (da_Operation actor)) ||
              bool_decide (slice_len (da_NamespaceIDs actor) = 0) ||
              bool_decide (320 < slice_len (da_NamespaceIDs actor))) ErrForbidden;;
      d ← query id;
      key ← row_or (d_delegation_keys d !! (da_ServiceID actor, da_KeyID actor)) ErrForbidden;
      reject (negb (dk_enabled key) || negb (eqs (da_Audience actor) (dk_audience key)) ||
              negb (slices_Contains (dk_certificate_thumbprints key) (da_CertificateThumbprint actor)) ||
              negb (slices_Contains (dk_operations key) (da_Operation actor))) ErrForbidden;;
      for_eachT (λ id, reject (negb (IsID id) || negb (slices_Contains (dk_namespace_ids key) id))
                         ErrForbidden) (da_NamespaceIDs actor);;
      now ← asks statement_timestamp;
      '(principalID, account, p) ←
        row_or (delegated_row d (p_Issuer principal) (p_Subject principal) (da_DirectoryID actor))
          ErrForbidden;
      let issued := to_timestamptz (da_IssuedAt actor) in
      let expires := to_timestamptz (da_ExpiresAt actor) in
      let validTime := bool_decide (issued ≤ now + seconds 5) && bool_decide (now - seconds 5 < expires) &&
                       bool_decide (d_delegation_issued_after d < issued) in
      reject (negb validTime) ErrAuthorizationUnavailable;;
      reject (negb (dir_enabled account)) ErrForbidden;;
      reject (negb (proof_fresh now (dir_last_verified_at account))) ErrAuthorizationUnavailable;;
      mret {| vd_principalID := principalID;
              vd_canonical := {| p_Delegation := Some actor; p_Issuer := prn_issuer p;
                                 p_Subject := prn_subject p |};
              vd_verifiedAt := default 0 (dir_last_verified_at account) |}
  end.

(** ** [authorizeNamespace] *)

Record namespaceAuthorization := {
  na_principalID : string; na_namespaceID : string;
  na_capabilities : list string; na_canonical : Principal }.

(** An ordinary client whose identity is an operator-verified alias acts as the
    aliased principal. *)
Definition resolve_alias (d : db) (principal : Principal) : Principal :=
  match d_principal_aliases d !! (p_Issuer principal, p_Subject principal) with
  | Some alias =>
      match d_principals d !! pal_principal_id alias with
      | Some p => {| p_Delegation := p_Delegation principal; p_Issuer := prn_issuer p;
                     p_Subject := prn_subject p |}
      | None => principal
      end
  | None => principal
  end.

(** The identity under which the request is authorized. *)
Definition canonicalPrincipal (principal : Principal) (capabilities : list string) : tx Principal :=
  match p_Delegation principal with
  | Some actor =>
      reject (negb (bool_decide (slice_len capabilities = 1)) ||
              negb (DelegationReadOperation (default "" (head capabilities))) ||
              negb (eqs (da_Operation actor) (default "" (head capabilities)))) ErrForbidden;;
      identity ← resolveDelegatedPrincipal principal;
      mret (vd_canonical identity)
  | None => query (λ d, resolve_alias d principal)
  end.

Definition authorizeNamespace (principal : Principal) (namespace : string)
    (capabilities : list string) : tx namespaceAuthorization :=
  principal ← canonicalPrincipal principal capabilities;
  d ← query id;
  now ← asks statement_timestamp;
  '(principalID, _) ← row_or (find_principal d (p_Issuer principal) (p_Subject principal)) ErrForbidden;
  '(namespaceID, _) ← row_or (find_namespace d namespace) ErrForbidden;
  let roles := authorized_roles d namespaceID principalID in
  reject (bool_decide (roles = [])) ErrForbidden;;
  let managed := d_directory_state d !! namespaceID in
  let account := snd <$> account_of d principalID in
  let fresh := proof_fresh now (managed ≫= dst_last_verified_at) &&
               proof_fresh now (account ≫= dir_last_verified_at) &&
               from_option dir_enabled false account in
  reject (match p_Delegation principal with
          | Some actor => negb (is_some managed) ||
                          negb (slices_Contains (da_NamespaceIDs actor) namespaceID)
          | None => false
          end) ErrForbidden;;
  reject (is_some managed && negb fresh) ErrAuthorizationUnavailable;;
  reject (is_some managed && slices_Contains capabilities CapabilityMembershipsManage) ErrForbidden;;
  let effective := EffectiveCapabilities roles in
  for_eachT (λ capability, reject (negb (slices_Contains effective capability)) ErrForbidden)
    capabilities;;
  mret {| na_principalID := principalID; na_namespaceID := namespaceID;
          na_capabilities := effective; na_canonical := principal |}.

(** [permits] *)
Definition permits (authorization : namespaceAuthorization) (capability : string) : bool :=
  slices_Contains (na_capabilities authorization) capability.

(** ** The service-only monitoring authority and the assertion ledger *)

(** [authorizeMonitoringService]; [seen] is the map of the loop. *)
Definition authorizeMonitoringService (principal : Principal) : tx unit :=
  match p_Delegation principal with
  | None => throw ErrForbidden
  | Some actor =>
      reject (negb (da_ServiceOnly actor) || negb (eqs (da_Operation actor) CapabilityEventsRead) ||
              negb (eqs (da_Mode actor) "worker") || negb (eqs (da_DirectoryID actor) "") ||
              negb (eqs (p_Issuer principal) "") || negb (eqs (p_Subject principal) "") ||
              bool_decide (slice_len (da_NamespaceIDs actor) = 0) ||
              bool_decide (320 < slice_len (da_NamespaceIDs actor))) ErrForbidden;;
      d ← query id;
      key ← row_or (d_delegation_keys d !! (da_ServiceID actor, da_KeyID actor)) ErrForbidden;
      reject (negb (dk_enabled key) || negb (eqs (dk_audience key) (da_Audience actor)) ||
              negb (slices_Contains (dk_operations key) CapabilityEventsRead) ||
              negb (slices_Contains (dk_certificate_thumbprints key) (da_CertificateThumbprint actor)))
        ErrForbidden;;
      forT (λ (seen : gset string) id,
        reject (negb (IsID id) || bool_decide (id ∈ seen) || negb (slices_Contains (dk_namespace_ids key) id))
          ErrForbidden;;
        mret ({[id]} ∪ seen)) ∅ (da_NamespaceIDs actor);;
      now ← asks statement_timestamp;
      let issued := to_timestamptz (da_IssuedAt actor) in
      let expires := to_timestamptz (da_ExpiresAt actor) in
      reject (negb (bool_decide (issued ≤ now + seconds 5) && bool_decide (now - seconds 5 < expires) &&
                    bool_decide (issued < expires) && bool_decide (expires - issued ≤ seconds 60) &&
                    bool_decide (d_delegation_issued_after d < issued))) ErrAuthorizationUnavailable;;
      reject (negb (bool_decide
        (slice_len (filter (λ id, is_Some (d_namespaces d !! id)) (remove_dups (da_NamespaceIDs actor))) =
         slice_len (da_NamespaceIDs actor)))) ErrForbidden
  end.

#[export] Instance assertions_table : Table (string * string) assertion_row := {|
  tbl := d_assertions;
  set_tbl m d := d <| d_assertions := m |>;
  constraints d id a := [
    ("delegation_assertions_service_key_fk", is_some (d_delegation_keys d !! (id.1, das_key_id a)));
    ("delegation_assertion_identity_shape",
       if eqs (das_operation a) CapabilityEventsRead then
         eqs (das_mode a) "worker" && negb (is_some (das_principal_id a)) &&
         negb (is_some (das_directory_id a)) && negb (is_some (das_actor_issuer a)) &&
         negb (is_some (das_actor_subject a))
       else is_some (das_principal_id a) && is_some (das_directory_id a) &&
            is_some (das_actor_issuer a) && is_some (das_actor_subject a))];
  before_update _ _ _ _ new := new;
  after_update _ _ _ := mret tt |}.

(** [acceptServiceAssertion] *)
Definition acceptServiceAssertion (principal : Principal) (actor : DelegatedActor) : tx unit :=
  authorizeMonitoringService principal;;
  now ← asks transaction_timestamp;
  n ← wrapT "record monitoring service assertion" [] (INSERT_or_nothing (da_ServiceID actor, da_AssertionID actor)
    {| das_key_id := da_KeyID actor; das_principal_id := None; das_directory_id := None;
       das_actor_issuer := None; das_actor_subject := None; das_operation := da_Operation actor;
       das_namespace_ids := da_NamespaceIDs actor; das_mode := da_Mode actor;
       das_assertion_digest := da_AssertionDigest actor;
       das_issued_at := to_timestamptz (da_IssuedAt actor);
       das_expires_at := to_timestamptz (da_ExpiresAt actor); das_accepted_at := now |});
  reject (negb (bool_decide (n = 1))) ErrUnauthenticated.

(** [AcceptDelegationAssertion] *)
Definition AcceptDelegationAssertion (principal : Principal) : tx unit :=
  match p_Delegation principal with
  | Some actor =>
      if da_ServiceOnly actor then acceptServiceAssertion principal actor
      else
        identity ← resolveDelegatedPrincipal principal;
        now ← asks transaction_timestamp;
        n ← wrapT "record delegated assertion" [] (INSERT_or_nothing (da_ServiceID actor, da_AssertionID actor)
          {| das_key_id := da_KeyID actor; das_principal_id := Some (vd_principalID identity);
             das_directory_id := Some (da_DirectoryID actor);
             das_actor_issuer := Some (p_Issuer principal); das_actor_subject := Some (p_Subject principal);
             das_operation := da_Operation actor; das_namespace_ids := da_NamespaceIDs actor;
             das_mode := da_Mode actor; das_assertion_digest := da_AssertionDigest actor;
             das_issued_at := to_timestamptz (da_IssuedAt actor);
             das_expires_at := to_timestamptz (da_ExpiresAt actor); das_accepted_at := now |});
        reject (negb (bool_decide (n = 1))) ErrUnauthenticated
  | None => resolveDelegatedPrincipal principal;; mret tt
  end.

(** [PruneDelegationAudits]: delete at most [limit] of the oldest retained rows
    that are past the retention and whose validity window has closed. *)
Definition PruneDelegationAudits (limit retention : Z) : tx Z :=
  reject (bool_decide (limit < 1) || bool_decide (10000 < limit) ||
          bool_decide (retention < 90 * 24 * Hour) || bool_decide (3650 * 24 * Hour < retention))
    (Errorf "delegation audit retention bounds are invalid" []);;
  now ← asks statement_timestamp;
  d ← query id;
  let expired := select (λ _ a, bool_decide (das_accepted_at a < now - seconds (retention / Second)) &&
                                bool_decide (das_expires_at a < now - seconds 5)) (d_assertions d) in
  let victims := take (Z.to_nat limit) (order_by (λ kr, das_accepted_at kr.2) (λ _, "") expired) in
  exec (λ _ d, d <| d_assertions ::= λ m, foldr (λ kr, delete kr.1) m victims |>);;
  mret (slice_len victims).

(** ** What a successful authorization means *)

Lemma elem_of_authorized_roles d ns p role :
  role ∈ authorized_roles d ns p ↔
  ∃ gid g, d_membership_grants d !! gid = Some g ∧ contributes d ns p g = true ∧ mgr_role g = role.
Proof.
  unfold authorized_roles. rewrite elem_of_sort_strings, elem_of_remove_dups, list_elem_of_fmap.
  setoid_rewrite list_elem_of_fmap. split.
  - intros (g & -> & ([gid g'] & -> & Hin)). apply elem_of_select in Hin as [??]. eauto.
  - intros (gid & g & Hg & Hc & <-). exists g. split; [done|]. exists (gid, g).
    split; [done|]. by apply elem_of_select.
Qed.

Lemma find_principal_some d issuer subject pid p :
  find_principal d issuer subject = Some (pid, p) →
  d_principals d !! pid = Some p ∧ prn_issuer p = issuer ∧ prn_subject p = subject.
Proof.
  unfold find_principal. intros Hh%head_Some_elem_of. apply elem_of_select in Hh as [? ?]. guard_inv. done.
Qed.

Lemma find_namespace_some d name nid n :
  find_namespace d name = Some (nid, n) → d_namespaces d !! nid = Some n ∧ ns_name n = name.
Proof.
  unfold find_namespace. intros Hh%head_Some_elem_of. apply elem_of_select in Hh as [? ?]. guard_inv. done.
Qed.

(** Authority proved by the directory within the last two minutes. *)
Definition directory_proved (now : timestamptz) (d : db) (namespaceID principalID : string) : Prop :=
  ∃ s did acct, d_directory_state d !! namespaceID = Some s ∧
    d_directory_accounts d !! did = Some acct ∧ dir_principal_id acct = principalID ∧
    dir_enabled acct = true ∧ proof_fresh now (dst_last_verified_at s) = true ∧
    proof_fresh now (dir_last_verified_at acct) = true.

Lemma resolveDelegatedPrincipal_ok principal e d v d' :
  resolveDelegatedPrincipal principal e d = Ok (v, d') →
  d' = d ∧ p_Delegation (vd_canonical v) = p_Delegation principal ∧
  ∃ actor key, p_Delegation principal = Some actor ∧ da_ServiceOnly actor = false ∧
    d_delegation_keys d !! (da_ServiceID actor, da_KeyID actor) = Some key ∧ dk_enabled key = true ∧
    da_Operation actor ∈ dk_operations key ∧
    (∀ n, n ∈ da_NamespaceIDs actor → n ∈ dk_namespace_ids key) ∧
    statement_timestamp e - seconds 5 < to_timestamptz (da_ExpiresAt actor) ∧
    d_delegation_issued_after d < to_timestamptz (da_IssuedAt actor).
Proof.
  unfold resolveDelegatedPrincipal. destruct (p_Delegation principal) as [actor|] eqn:Ha; [|done].
  intros Hrun. guard_inv.
  match goal with H : (let '(_, _) := ?x in _) _ _ = _ |- _ => destruct x as [[pid acct] p] end.
  guard_inv. cbn. split; [done|]. split; [done|]. eexists actor, _. split_and!; try done.
  intros n Hn. match goal with H : Forall _ (da_NamespaceIDs actor) |- _ => rewrite Forall_forall in H; specialize (H n Hn) end.
  cbn in *. guard_inv. done.
Qed.

Lemma canonicalPrincipal_ok principal caps e d p d' :
  canonicalPrincipal principal caps e d = Ok (p, d') →
  d' = d ∧ p_Delegation p = p_Delegation principal ∧
  (∀ actor, p_Delegation principal = Some actor →
     caps = [da_Operation actor] ∧ DelegationReadOperation (da_Operation actor) = true ∧
     ∃ v, resolveDelegatedPrincipal principal e d = Ok (v, d)).
Proof.
  unfold canonicalPrincipal. destruct (p_Delegation principal) as [actor|] eqn:Ha.
  - intros Hrun. guard_inv. destruct caps as [|c [|? ?]]; try (unfold slice_len in *; cbn in *; lia).
    cbn in *. subst. match goal with H : resolveDelegatedPrincipal _ _ _ = Ok _ |- _ =>
      pose proof H as Hr; apply resolveDelegatedPrincipal_ok in Hr as (-> & Hd & _) end.
    split; [done|]. split; [congruence|]. intros ? [= <-]. eauto.
  - intros Hrun. guard_inv. split; [done|]. split; [|done].
    unfold resolve_alias. repeat case_match; cbn; congruence.
Qed.

(** What a successful authorization establishes. *)
Record authorized (e : env) (d : db) (principal : Principal) (namespace : string)
    (capabilities : list string) (a : namespaceAuthorization) : Prop := {
  az_namespace : ∃ n, d_namespaces d !! na_namespaceID a = Some n ∧ ns_name n = namespace;
  az_principal : ∃ p, d_principals d !! na_principalID a = Some p ∧
    prn_issuer p = p_Issuer (na_canonical a) ∧ prn_subject p = p_Subject (na_canonical a);
  az_effective : ∀ c, c ∈ na_capabilities a ↔
    ∃ gid g, d_membership_grants d !! gid = Some g ∧
      contributes d (na_namespaceID a) (na_principalID a) g = true ∧ c ∈ role_capabilities (mgr_role g);
  az_requested : ∀ c, c ∈ capabilities → c ∈ na_capabilities a;
  az_managed : is_Some (d_directory_state d !! na_namespaceID a) →
    directory_proved (statement_timestamp e) d (na_namespaceID a) (na_principalID a) ∧
    (CapabilityMembershipsManage ∉ capabilities);
  az_delegated : ∀ actor, p_Delegation principal = Some actor →
    capabilities = [da_Operation actor] ∧ DelegationReadOperation (da_Operation actor) = true ∧
    na_namespaceID a ∈ da_NamespaceIDs actor ∧ is_Some (d_directory_state d !! na_namespaceID a) }.

Lemma authorizeNamespace_authorized principal namespace caps e d a d' :
  authorizeNamespace principal namespace caps e d = Ok (a, d') →
  d' = d ∧ authorized e d principal namespace caps a.
Proof.
  unfold authorizeNamespace. intros Hrun. guard_inv.
  match goal with H : canonicalPrincipal _ _ _ _ = Ok (?q, _) |- _ =>
    apply canonicalPrincipal_ok in H as (-> & Hdel & Hactor); rename q into can end.
  match goal with H : (let '(_, _) := ?x in _) _ _ = _ |- _ => destruct x as [pid prow] end. guard_inv.
  match goal with H : (let '(_, _) := ?x in _) _ _ = _ |- _ => destruct x as [nid nrow] end. guard_inv.
  cbn in *.
  match goal with H : find_principal _ _ _ = Some _ |- _ => apply find_principal_some in H as (Hp & Hi & Hs) end.
  match goal with H : find_namespace _ _ = Some _ |- _ => apply find_namespace_some in H as (Hn & Hname) end.
  split; [done|]. constructor; cbn.
  - eauto.
  - eauto.
  - intros c. rewrite elem_of_EffectiveCapabilities. setoid_rewrite elem_of_authorized_roles. naive_solver.
  - intros c Hc. match goal with H : Forall _ caps |- _ => rewrite Forall_forall in H; specialize (H c Hc) end.
    cbn in *. guard_inv. done.
  - intros [st Hst]. rewrite Hst in *. cbn in *. guard_inv. split.
    + destruct (account_of d pid) as [[did acct]|] eqn:Hacct; cbn in *; [|done].
      unfold account_of in Hacct. apply head_Some_elem_of, elem_of_select in Hacct as [??]. guard_inv.
      by exists st, did, acct.
    + match goal with H : slices_Contains caps _ = false |- _ => rename H into Hno end.
      intros Hin. apply slices_Contains_spec in Hin. congruence.
  - intros actor Ha. destruct (Hactor actor Ha) as (-> & ? & _).
    rewrite Hdel, Ha in *. guard_inv. done.
Qed.

(** C33: soundness of [authorizeNamespace].  A request is admitted only for an
    existing namespace and principal, every capability it asks for is conferred by
    a contribution that is current in that namespace, a directory-managed
    namespace needs directory proof less than two minutes old and never admits
    membership management, and a delegated request is confined to the one read
    operation and the namespaces its assertion names.  Authorization itself
    changes nothing. *)
Theorem authorizeNamespace_sound principal namespace caps e d a d' :
  authorizeNamespace principal namespace caps e d = Ok (a, d') →
  d' = d ∧ authorized e d principal namespace caps a.
Proof. apply authorizeNamespace_authorized. Qed.

(** A delegated identity is refused whatever is not one read operation. *)
Lemma authorizeNamespace_delegated_refused principal actor namespace caps e d :
  p_Delegation principal = Some actor →
  (∀ c, caps = [c] → DelegationReadOperation c = false) →
  authorizeNamespace principal namespace caps e d = Err ErrForbidden.
Proof.
  intros Ha Hcaps. unfold authorizeNamespace, canonicalPrincipal. rewrite Ha.
  unfold mbind, tx_bind, reject.
  destruct caps as [|c [|c' l]]; cbn.
  - done.
  - by rewrite (Hcaps c eq_refl).
  - rewrite bool_decide_false by (unfold slice_len; cbn; lia). done.
Qed.

(** ** The assertion ledger *)

Lemma authorizeMonitoringService_ok principal e d u d' :
  authorizeMonitoringService principal e d = Ok (u, d') →
  d' = d ∧ ∃ actor, p_Delegation principal = Some actor ∧
    statement_timestamp e - seconds 5 < to_timestamptz (da_ExpiresAt actor).
Proof.
  unfold authorizeMonitoringService. destruct (p_Delegation principal) as [actor|] eqn:Ha; [|done].
  intros Hrun. guard_inv.
  match goal with H : forT _ _ _ _ _ = Ok _ |- _ =>
    eapply (forT_preserves (λ x, x = d)) in H; [|intros; guard_inv; done|done] end. subst.
  split; [done|]. eauto.
Qed.

(** An accepted assertion was unused before, is recorded, and had not expired. *)
Lemma AcceptDelegationAssertion_ok principal e d u d' :
  AcceptDelegationAssertion principal e d = Ok (u, d') →
  ∃ actor, p_Delegation principal = Some actor ∧
    d_assertions d !! (da_ServiceID actor, da_AssertionID actor) = None ∧
    statement_timestamp e - seconds 5 < to_timestamptz (da_ExpiresAt actor) ∧
    ∃ row, d_assertions d' = <[(da_ServiceID actor, da_AssertionID actor) := row]> (d_assertions d) ∧
      das_expires_at row = to_timestamptz (da_ExpiresAt actor).
Proof.
  unfold AcceptDelegationAssertion, acceptServiceAssertion.
  destruct (p_Delegation principal) as [actor|] eqn:Ha.
  - destruct (da_ServiceOnly actor); intros Hrun; guard_inv.
    + match goal with H : authorizeMonitoringService _ _ _ = Ok _ |- _ =>
        apply authorizeMonitoringService_ok in H as (-> & actor' & Ha' & Hexp) end. simplify_eq.
      match goal with H : INSERT_or_nothing _ _ _ _ = Ok _ |- _ =>
        apply INSERT_or_nothing_ok in H as [(? & _)|(_ & Hnone & _ & ->)]; [done|] end.
      exists actor. split_and!; [done..|]. eexists. split; [reflexivity|done].
    + match goal with H : resolveDelegatedPrincipal _ _ _ = Ok _ |- _ =>
        apply resolveDelegatedPrincipal_ok in H as (-> & _ & actor' & key & Ha' & _ & _ & _ & _ & _ & Hexp & _) end.
      simplify_eq.
      match goal with H : INSERT_or_nothing _ _ _ _ = Ok _ |- _ =>
        apply INSERT_or_nothing_ok in H as [(? & _)|(_ & Hnone & _ & ->)]; [done|] end.
      exists actor. split_and!; [done..|]. eexists. split; [reflexivity|done].
  - intros Hrun. guard_inv.
    match goal with H : resolveDelegatedPrincipal _ _ _ = Ok _ |- _ =>
        apply resolveDelegatedPrincipal_ok in H as (_ & _ & ? & ? & ? & _) end. congruence.
Qed.

(** The pruned rows are retained rows whose validity window has closed. *)
Lemma PruneDelegationAudits_ok limit retention e d n d' :
  PruneDelegationAudits limit retention e d = Ok (n, d') →
  (∀ k row, d_assertions d' !! k = Some row → d_assertions d !! k = Some row) ∧
  (∀ k row, d_assertions d !! k = Some row → d_assertions d' !! k = None →
     das_expires_at row < statement_timestamp e - seconds 5) ∧
  0 ≤ n ≤ limit.
Proof.
  unfold PruneDelegationAudits. intros Hrun. guard_inv. cbn.
  match goal with |- context [take ?k ?l] => set (victims := take k l) end.
  assert (∀ kr, kr ∈ victims → d_assertions d !! kr.1 = Some kr.2 ∧
            das_expires_at kr.2 < statement_timestamp e - seconds 5) as Hv.
  { intros [k row] Hin. apply elem_of_take in Hin as (i & Hi & _). apply list_elem_of_lookup_2 in Hi.
    apply elem_of_order_by, elem_of_select in Hi as [? ?]. guard_inv. done. }
  assert (∀ k, foldr (λ kr, delete kr.1) (d_assertions d) victims !! k =
            if bool_decide (k ∈ victims.*1) then None else d_assertions d !! k) as Hf.
  { clear Hv. intros k. induction victims as [|kr l IH]; [done|]. rewrite fmap_cons.
    change (foldr (λ kr, delete kr.1) (d_assertions d) (kr :: l)) with
      (delete kr.1 (foldr (λ kr, delete kr.1) (d_assertions d) l)).
    destruct (decide (k = kr.1)) as [->|Hne].
    - rewrite lookup_delete_eq. by rewrite bool_decide_true by (by left).
    - rewrite lookup_delete_ne, IH by done.
      erewrite bool_decide_ext; [done|]. rewrite elem_of_cons. naive_solver. }
  split_and!.
  - intros k row. rewrite Hf. by case_bool_decide.
  - intros k row Hk. rewrite Hf. case_bool_decide as Hin; [intros _|congruence].
    apply list_elem_of_fmap in Hin as (kr & -> & Hin). destruct (Hv _ Hin) as [Hk' ?].
    rewrite Hk in Hk'. by simplify_eq.
  - unfold slice_len. lia.
  - subst victims. unfold slice_len. rewrite length_take. lia.
Qed.

(** Time passes and assertions are accepted and pruned. *)
Inductive ledger_step : (timestamptz * db) → (timestamptz * db) → Prop :=
  | ledger_accept principal e d d' now :
      now ≤ statement_timestamp e → AcceptDelegationAssertion principal e d = Ok (tt, d') →
      ledger_step (now, d) (statement_timestamp e, d')
  | ledger_prune limit retention e d n d' now :
      now ≤ statement_timestamp e → PruneDelegationAudits limit retention e d = Ok (n, d') →
      ledger_step (now, d) (statement_timestamp e, d').

(** An assertion that was accepted is still recorded, or it has expired. *)
Lemma ledger_remembers k expires s s' :
  rtc ledger_step s s' →
  ((∃ row, d_assertions s.2 !! k = Some row ∧ das_expires_at row = expires) ∨ expires < s.1 - seconds 5) →
  ((∃ row, d_assertions s'.2 !! k = Some row ∧ das_expires_at row = expires) ∨ expires < s'.1 - seconds 5).
Proof.
  induction 1 as [s|s1 s2 s3 Hstep _ IH]; [done|]. intros Hs1. apply IH. clear IH s3.
  destruct Hstep as [principal e d d' now Hle Hrun|limit retention e d n d' now Hle Hrun]; cbn in *;
    (destruct Hs1 as [(row & Hk & Hx)|?]; [|right; lia]).
  - apply AcceptDelegationAssertion_ok in Hrun as (actor & _ & Hnone & _ & row' & -> & _).
    left. exists row. split; [|done]. rewrite lookup_insert_ne; [done|]. congruence.
  - apply PruneDelegationAudits_ok in Hrun as (Hkept & Hgone & _).
    destruct (d_assertions d' !! k) as [row'|] eqn:Hk'.
    + left. exists row. split; [|done]. apply Hkept in Hk'. congruence.
    + right. specialize (Hgone _ _ Hk Hk'). congruence.
Qed.

(** C39: an assertion is accepted at most once.  Once accepted, whatever other
    assertions are accepted and however the ledger is pruned, presenting the same
    assertion again at any later time is refused, because the record is either
    still there or the assertion has expired. *)
Theorem assertion_accepted_once principal d0 e1 d1 t2 d2 e3 d3 :
  AcceptDelegationAssertion principal e1 d0 = Ok (tt, d1) →
  rtc ledger_step (statement_timestamp e1, d1) (t2, d2) →
  t2 ≤ statement_timestamp e3 →
  AcceptDelegationAssertion principal e3 d2 ≠ Ok (tt, d3).
Proof.
  intros H1 Hsteps Ht H3.
  apply AcceptDelegationAssertion_ok in H1 as (actor & Ha & _ & _ & row & Hd1 & Hx).
  apply AcceptDelegationAssertion_ok in H3 as (actor' & Ha' & Hnone & Hfresh & _). simplify_eq.
  eapply (ledger_remembers (da_ServiceID actor, da_AssertionID actor) (to_timestamptz (da_ExpiresAt actor)))
    in Hsteps; [|left; exists row; split; [|done]; cbn; by rewrite Hd1, lookup_insert_eq].
  cbn in Hsteps. destruct Hsteps as [(row' & Hr & _)|?]; [congruence|lia].
Qed.
