(* ===== verification/Delegation.v ===== *)
(** * The delegation registry

    [RegisterDelegationKeys] and [validateDelegationKey] ([internal/store/postgres/delegation.go]): the operator
    replaces the whole registry of services that may act for users.  A service that is left out is disabled, and
    from then on neither [resolveDelegatedPrincipal] nor [authorizeMonitoringService] of [Auth.v] lets it in. *)
From S2P Require Import Prelude Regex Names Domain TargetSpec Kahn Graph Contract Url Json Utf8 Number Tokens Cursors Records Db Tx Constraints Auth.

(** [domain.DelegationKey]; the key material is a byte string. *)
Record DelegationKey := {
  dky_ServiceID : string; dky_KeyID : string; dky_Audience : string; dky_PublicKey : string;
  dky_CertificateThumbprints : list string; dky_NamespaceIDs : list string; dky_Operations : list string; dky_Enabled : bool }.

(** ** Validation *)

Definition PublicKeySize : Z := 32.
Definition thumbprint_size (thumbprint : string) : option Z := slice_len <$> DecodeString false (bytes_of thumbprint).

Definition validateDelegationKey (key : DelegationKey) : result unit :=
  fail_if (eqs (dky_ServiceID key) "" || (128 <? len (dky_ServiceID key)) || eqs (dky_KeyID key) "" ||
           (128 <? len (dky_KeyID key)) || eqs (dky_Audience key) "" || (512 <? len (dky_Audience key)) ||
           negb (bool_decide (len (dky_PublicKey key) = PublicKeySize)) ||
           bool_decide (slice_len (dky_CertificateThumbprints key) = 0) || (8 <? slice_len (dky_CertificateThumbprints key)) ||
           bool_decide (slice_len (dky_NamespaceIDs key) = 0) || (320 <? slice_len (dky_NamespaceIDs key)) ||
           bool_decide (slice_len (dky_Operations key) = 0) || (8 <? slice_len (dky_Operations key)))
    (Errorf "delegation service registration is invalid" []);;
  for_each (λ thumbprint, fail_if (negb (bool_decide (thumbprint_size thumbprint = Some 32)))
    (Errorf "delegation certificate thumbprint is invalid" [])) (dky_CertificateThumbprints key);;
  for_each (λ namespaceID, fail_if (negb (IsID namespaceID)) (Errorf "delegation namespace ID is invalid" []))
    (dky_NamespaceIDs key);;
  for_each (λ operation, fail_if (negb (DelegationOperation operation))
    (Errorf "delegation permits only explicit monitoring reads" [])) (dky_Operations key).

(** [key.ServiceID + "\x00" + key.KeyID] *)
Definition registry_id (key : DelegationKey) : bytes := bytes_of (dky_ServiceID key) ++ Ascii.zero :: bytes_of (dky_KeyID key).

(** The loop over the keys; [seen] is its map. *)
Fixpoint validate_registry (seen : gset bytes) (keys : list DelegationKey) : result unit :=
  match keys with
  | [] => Ok tt
  | key :: keys =>
      validateDelegationKey key;;
      fail_if (bool_decide (registry_id key ∈ seen)) (Errorf "duplicate delegation service key" []);;
      validate_registry ({[registry_id key]} ∪ seen) keys
  end.

(** ** The table *)

(** A [text] value is valid UTF-8 without NUL; [length] counts its characters. *)
Definition text_value (s : string) : bool := utf8_Valid (bytes_of s) && negb (contains_nul s).
Definition characters (s : string) : Z := slice_len (runes (bytes_of s)).
Definition within (lo hi n : Z) : bool := (lo <=? n) && (n <=? hi).

#[export] Instance delegation_keys_table : Table (string * string) delegation_key_row := {|
  tbl := d_delegation_keys;
  set_tbl m d := d <| d_delegation_keys := m |>;
  constraints _ id k := [
    ("text", text_value id.1 && text_value id.2 && text_value (dk_audience k));
    ("service_id_check", within 1 128 (characters id.1)); ("key_id_check", within 1 128 (characters id.2));
    ("audience_check", within 1 512 (characters (dk_audience k)));
    ("public_key_check", bool_decide (len (dk_public_key k) = 32));
    ("certificate_thumbprints_check", within 1 8 (slice_len (dk_certificate_thumbprints k)));
    ("namespace_ids_check", within 1 320 (slice_len (dk_namespace_ids k)));
    ("delegation_service_keys_operations_check", within 1 8 (slice_len (dk_operations k)))];
  before_update _ _ _ _ new := new;
  after_update _ _ _ := mret tt |}.

(** ** [RegisterDelegationKeys] *)

Definition key_id (key : DelegationKey) : string * string := (dky_ServiceID key, dky_KeyID key).
Definition key_row (now : timestamptz) (key : DelegationKey) : delegation_key_row :=
  {| dk_audience := dky_Audience key; dk_public_key := dky_PublicKey key;
     dk_certificate_thumbprints := dky_CertificateThumbprints key; dk_namespace_ids := dky_NamespaceIDs key;
     dk_operations := dky_Operations key; dk_enabled := dky_Enabled key; dk_updated_at := now |}.

(** [UPDATE ... SET enabled = false, updated_at = transaction_timestamp() WHERE enabled] *)
Definition disable (now : timestamptz) (row : delegation_key_row) : delegation_key_row :=
  if dk_enabled row then row <| dk_enabled := false |> <| dk_updated_at := now |> else row.

(** [ON CONFLICT (service_id, key_id) DO UPDATE]: the key material stays. *)
Definition reregister (now : timestamptz) (key : DelegationKey) (row : delegation_key_row) : delegation_key_row :=
  (key_row now key) <| dk_public_key := dk_public_key row |>.

(** Key material under an existing identifier that is not the given one. *)
Definition replaces_material (d : db) (key : DelegationKey) : bool :=
  match d_delegation_keys d !! key_id key with
  | Some row => (0 <? len (dk_public_key row)) && negb (eqs (dk_public_key row) (dky_PublicKey key))
  | None => false
  end.

Definition register_key (key : DelegationKey) : tx unit :=
  now ← asks transaction_timestamp;
  conflict ← query (λ d, replaces_material d key);
  reject conflict ErrConflict;;
  d ← query id;
  wrapT "register delegation service" []
    match d_delegation_keys d !! key_id key with
    | None => INSERT (key_id key) (key_row now key)
    | Some _ => UPDATE_ (key_id key) (λ _, true) (reregister now key)
    end.

Definition RegisterDelegationKeys (keys : list DelegationKey) : tx unit :=
  reject (64 <? slice_len keys) (Errorf "too many delegation service keys" []);;
  lift (validate_registry ∅ keys);;
  exec (λ e d, d <| d_delegation_keys ::= fmap (disable (transaction_timestamp e)) |>);;
  for_eachT register_key keys.

(** ** What is accepted *)

Record well_formed_key (key : DelegationKey) : Prop := {
  wk_service : 1 ≤ len (dky_ServiceID key) ≤ 128;
  wk_key : 1 ≤ len (dky_KeyID key) ≤ 128;
  wk_audience : 1 ≤ len (dky_Audience key) ≤ 512;
  wk_public_key : len (dky_PublicKey key) = 32;
  wk_thumbprints : 1 ≤ slice_len (dky_CertificateThumbprints key) ≤ 8 ∧
    Forall (λ t, thumbprint_size t = Some 32) (dky_CertificateThumbprints key);
  wk_namespaces : 1 ≤ slice_len (dky_NamespaceIDs key) ≤ 320 ∧ Forall (λ n, IsID n = true) (dky_NamespaceIDs key);
  wk_operations : 1 ≤ slice_len (dky_Operations key) ≤ 8 ∧ Forall (λ o, DelegationOperation o = true) (dky_Operations key) }.

Definition storable (key : DelegationKey) : Prop :=
  text_value (dky_ServiceID key) = true ∧ text_value (dky_KeyID key) = true ∧ text_value (dky_Audience key) = true.

(** A registry that is accepted unless it replaces key material. *)
Definition admissible (keys : list DelegationKey) : Prop :=
  slice_len keys ≤ 64 ∧ Forall well_formed_key keys ∧ Forall storable keys ∧ NoDup (registry_id <$> keys).

Lemma len_nonempty s : s ≠ "" ↔ 1 ≤ len s.
Proof. destruct s; unfold len; cbn; split; try done; lia. Qed.
Lemma slice_len_nonempty {A} (l : list A) : slice_len l ≠ 0 ↔ 1 ≤ slice_len l.
Proof. unfold slice_len. lia. Qed.

Lemma validateDelegationKey_ok key : validateDelegationKey key = Ok tt ↔ well_formed_key key.
Proof.
  unfold validateDelegationKey, PublicKeySize. chain_iff. rewrite !for_each_ok, !orb_false_iff, !eqs_false, !bool_decide_eq_false.
  rewrite !negb_false_iff, bool_decide_eq_true, !Z.ltb_ge, !len_nonempty, !slice_len_nonempty.
  assert (∀ (p : string → bool) err l, Forall (λ x, fail_if (negb (p x)) err = Ok tt) l ↔ Forall (λ x, p x = true) l) as Hf.
  { intros p err l. apply Forall_iff. intros x. by rewrite fail_if_ok, negb_false_iff. }
  rewrite !Hf. setoid_rewrite bool_decide_eq_true. split.
  - intros. destruct_and?. by constructor.
  - intros [[] [] [] ? [[] ?] [[] ?] [[] ?]]. split_and!; done.
Qed.

Lemma validate_registry_ok seen keys : validate_registry seen keys = Ok tt ↔
  Forall well_formed_key keys ∧ NoDup (registry_id <$> keys) ∧ ∀ key, key ∈ keys → registry_id key ∉ seen.
Proof.
  revert seen. induction keys as [|key keys IH]; intros seen; cbn.
  - split; [intros _; split_and!; [constructor..|by intros ? ?%elem_of_nil]|done].
  - rewrite !bind_unit_ok, validateDelegationKey_ok, fail_if_ok, bool_decide_eq_false, IH, Forall_cons, NoDup_cons.
    setoid_rewrite elem_of_cons. set_solver.
Qed.

(** ** One key *)

(** What the CHECK constraint says of the rows. *)
Definition registry_rows (d : db) : Prop := map_Forall (λ _ row, len (dk_public_key row) = 32) (d_delegation_keys d).
Definition conflicting (d : db) (key : DelegationKey) : Prop :=
  ∃ row, d_delegation_keys d !! key_id key = Some row ∧ dk_public_key row ≠ dky_PublicKey key.

Lemma replaces_material_spec d key : registry_rows d → replaces_material d key = true ↔ conflicting d key.
Proof.
  intros Hr. unfold replaces_material, conflicting. destruct (d_delegation_keys d !! key_id key) as [row|] eqn:Hk; [|naive_solver].
  apply Hr in Hk. cbn in Hk. rewrite (proj2 (Z.ltb_lt _ _)) by lia. cbn. rewrite negb_true_iff, eqs_false. naive_solver.
Qed.

Lemma runes_bound s : (length (runes s) ≤ length s ∧ (s ≠ [] → 1 ≤ length (runes s)))%nat.
Proof.
  induction s as [s IH] using (induction_ltof1 _ length). unfold ltof in IH.
  destruct (runes_step s) as [->|[(r & t & -> & Hr & ->)|(a & t & -> & _ & ->)]]; [done| |]; cbn [length].
  - assert (1 ≤ length r)%nat by (destruct r; [done|cbn; lia]). rewrite length_app in *. destruct (IH t) as [? _]; [lia|]. split; intros; lia.
  - destruct (IH t) as [? _]; [cbn; lia|]. split; intros; lia.
Qed.
Lemma characters_bound s n : 1 ≤ len s ≤ n → within 1 n (characters s) = true.
Proof.
  unfold within, characters, slice_len, len. intros Hs. destruct (runes_bound (bytes_of s)) as [Hle Hge].
  unfold bytes_of in *. rewrite length_list_ascii in Hle. rewrite andb_true_iff, !Z.leb_le.
  destruct s; [cbn in Hs; lia|]. specialize (Hge ltac:(done)). lia.
Qed.

Lemma key_constraints d key row : well_formed_key key → storable key →
  dk_audience row = dky_Audience key → len (dk_public_key row) = 32 → dk_certificate_thumbprints row = dky_CertificateThumbprints key →
  dk_namespace_ids row = dky_NamespaceIDs key → dk_operations row = dky_Operations key →
  Forall (λ c, c.2 = true) (constraints d (key_id key) row).
Proof.
  intros [? ? ? ? [? _] [? _] [? _]] (T1 & T2 & T3) Ea Hp Et En Eo.
  cbn [constraints delegation_keys_table fst snd key_id]. rewrite Ea, Et, En, Eo.
  repeat apply List.Forall_cons; try (by apply List.Forall_nil); cbn [snd];
    try (by apply characters_bound); try (unfold within; rewrite andb_true_iff, !Z.leb_le; lia).
  - by rewrite T1, T2, T3.
  - by apply bool_decide_eq_true.
Qed.

(** The registry with one key written. *)
Definition with_key (now : timestamptz) (d : db) (key : DelegationKey) : db :=
  d <| d_delegation_keys := <[key_id key := key_row now key]> (d_delegation_keys d) |>.

Lemma with_key_rows now d key : registry_rows d → len (dky_PublicKey key) = 32 → registry_rows (with_key now d key).
Proof. intros Hr Hk. by apply map_Forall_insert_2. Qed.

(** Material that is not replaced is that of the key. *)
Lemma reregister_row now d key row : registry_rows d → replaces_material d key = false → d_delegation_keys d !! key_id key = Some row →
  reregister now key row = key_row now key.
Proof.
  intros Hr Hc Hk. assert (dk_public_key row = dky_PublicKey key) as E.
  { apply dec_stable. intros Hne. assert (replaces_material d key = true) as Ht by (apply replaces_material_spec; [done|by exists row]). congruence. }
  unfold reregister. by rewrite E.
Qed.

Lemma register_key_ok key e d u d' : registry_rows d → register_key key e d = Ok (u, d') →
  replaces_material d key = false ∧ storable key ∧ len (dky_PublicKey key) = 32 ∧ d' = with_key (transaction_timestamp e) d key.
Proof.
  intros Hr Hrun. unfold register_key in Hrun. tx_inv. split; [done|].
  assert (∀ row, Forall (λ c, c.2 = true) (constraints d (key_id key) row) → dk_audience row = dky_Audience key →
    dk_public_key row = dky_PublicKey key → storable key ∧ len (dky_PublicKey key) = 32) as Hc.
  { intros row Hc Ha Hp. cbn in Hc. rewrite !Forall_cons in Hc. cbn in Hc. rewrite Ha, Hp, bool_decide_eq_true, !andb_true_iff in Hc.
    unfold storable. naive_solver. }
  destruct (d_delegation_keys d !! key_id key) as [row|] eqn:Hk; tx_inv.
  - match goal with H : UPDATE _ _ _ _ _ = _ |- _ => apply UPDATE_ok in H as [(old & row' & Ho & _ & -> & Hf & _ & Ha)|(_ & _ & H)] end.
    + cbn [tbl before_update after_update delegation_keys_table] in Ho, Ha, Hf. rewrite Hk in Ho. injection Ho as <-.
      rewrite (reregister_row _ d) in Ha, Hf by done. tx_inv. by destruct (Hc _ Hf).
    + by specialize (H row Hk).
  - match goal with H : INSERT _ _ _ _ = _ |- _ => apply INSERT_ok in H as (_ & Hf & ->) end. by destruct (Hc _ Hf).
Qed.

Lemma register_key_runs key e d : registry_rows d → well_formed_key key → storable key →
  register_key key e d = if replaces_material d key then Err ErrConflict else Ok (tt, with_key (transaction_timestamp e) d key).
Proof.
  intros Hr Hw Hs. unfold register_key, mbind, tx_bind, asks, query, reject.
  destruct (replaces_material d key) eqn:Hc; [done|]. cbn. unfold wrapT.
  destruct (d_delegation_keys d !! key_id key) as [row|] eqn:Hk.
  - unfold UPDATE_, mbind, tx_bind, UPDATE. cbn [tbl delegation_keys_table]. rewrite Hk. cbn [before_update delegation_keys_table].
    rewrite (reregister_row _ d) by done. rewrite (proj2 (check_all_ok _ tt)); [done|]. apply (key_constraints d); try done. by apply Hw.
  - unfold INSERT. cbn [tbl delegation_keys_table]. rewrite Hk. rewrite (proj2 (check_all_ok _ tt)); [done|].
    apply (key_constraints d); try done. by apply Hw.
Qed.

(** ** All keys *)

Definition with_keys (now : timestamptz) (keys : list DelegationKey) (d : db) : db := foldl (with_key now) d keys.

Lemma conflicting_other now d key key' : key_id key' ≠ key_id key → conflicting (with_key now d key) key' ↔ conflicting d key'.
Proof. intros Hne. unfold conflicting. cbn. by rewrite lookup_insert_ne. Qed.
Lemma conflicting_others now d key keys : key_id key ∉ key_id <$> keys →
  Forall (λ key', conflicting (with_key now d key) key' ↔ conflicting d key') keys.
Proof.
  intros Hn. apply Forall_forall. intros key' Hin. apply conflicting_other. intros E. apply Hn. rewrite <-E. by apply list_elem_of_fmap_2.
Qed.

Lemma register_keys_ok keys e d u d' : registry_rows d → NoDup (key_id <$> keys) → for_eachT register_key keys e d = Ok (u, d') →
  Forall (λ key, ¬ conflicting d key) keys ∧ Forall storable keys ∧ d' = with_keys (transaction_timestamp e) keys d ∧ registry_rows d'.
Proof.
  unfold for_eachT. destruct u. revert d. induction keys as [|key keys IH]; intros d Hr Hnd Hrun; cbn in Hrun.
  - tx_inv. by split_and!.
  - apply NoDup_cons in Hnd as [Hn Hnd]. apply tx_bind_ok in Hrun as ([] & d1 & (Hc & Hs & Hl & ->)%register_key_ok & Hrun); [|done].
    apply IH in Hrun as (Hcs & Hss & -> & Hr'); [|by apply with_key_rows|done]. split_and!; [|by constructor|done|done]. constructor.
    + rewrite <-replaces_material_spec by done. congruence.
    + pose proof (conflicting_others (transaction_timestamp e) d key keys Hn) as Ho. rewrite Forall_forall in *.
      intros key' Hin. rewrite <-(Ho key' Hin). by apply Hcs.
Qed.

Lemma register_keys_runs keys e d : registry_rows d → NoDup (key_id <$> keys) → Forall well_formed_key keys → Forall storable keys →
  (∃ d', for_eachT register_key keys e d = Ok (tt, d')) ∨
  (for_eachT register_key keys e d = Err ErrConflict ∧ Exists (conflicting d) keys).
Proof.
  unfold for_eachT. revert d. induction keys as [|key keys IH]; intros d Hr Hnd Hw Hs; cbn; [left; by eexists|].
  apply NoDup_cons in Hnd as [Hn Hnd]. apply Forall_cons in Hw as [Hw1 Hw], Hs as [Hs1 Hs]. unfold mbind, tx_bind.
  rewrite register_key_runs by done. destruct (replaces_material d key) eqn:Hc.
  - right. split; [done|]. apply Exists_cons. left. by apply replaces_material_spec.
  - destruct (IH (with_key (transaction_timestamp e) d key)) as [?|[He Hex]]; [by apply with_key_rows, Hw1|done..|by left|].
    right. split; [done|]. apply Exists_cons. right. apply Exists_exists in Hex as (key' & Hin & Hk). apply Exists_exists. exists key'.
    split; [done|]. pose proof (conflicting_others (transaction_timestamp e) d key keys Hn) as Ho. rewrite Forall_forall in Ho. by apply (Ho key').
Qed.

(** The registry after the loop. *)
Lemma with_keys_other now keys d id : id ∉ key_id <$> keys → d_delegation_keys (with_keys now keys d) !! id = d_delegation_keys d !! id.
Proof.
  unfold with_keys. revert d. induction keys as [|key keys IH]; intros d Hn; cbn; [done|].
  apply not_elem_of_cons in Hn as [Hn1 Hn]. rewrite IH by done. cbn. by rewrite lookup_insert_ne.
Qed.
Lemma with_keys_given now keys d key : NoDup (key_id <$> keys) → key ∈ keys →
  d_delegation_keys (with_keys now keys d) !! key_id key = Some (key_row now key).
Proof.
  unfold with_keys. revert d. induction keys as [|key' keys IH]; intros d Hnd Hin; cbn; [by apply not_elem_of_nil in Hin|].
  apply NoDup_cons in Hnd as [Hn Hnd]. apply elem_of_cons in Hin as [<-|Hin]; [|by apply IH].
  etrans; [by apply (with_keys_other now keys)|]. cbn. by rewrite lookup_insert_eq.
Qed.
Lemma with_keys_frame now keys d : with_keys now keys d = d <| d_delegation_keys := d_delegation_keys (with_keys now keys d) |>.
Proof.
  unfold with_keys. revert d. induction keys as [|key keys IH]; intros d; cbn; [by destruct d|]. rewrite IH at 1. done.
Qed.

Lemma registry_ids keys : NoDup (registry_id <$> keys) → NoDup (key_id <$> keys).
Proof.
  intros Hnd. apply (NoDup_fmap_1 (λ id : string * string, bytes_of id.1 ++ Ascii.zero :: bytes_of id.2)).
  by rewrite <-list_fmap_compose.
Qed.

(** Disabling keeps the key material. *)
Lemma disable_key now row : dk_public_key (disable now row) = dk_public_key row ∧ dk_enabled (disable now row) = false.
Proof. unfold disable. by destruct (dk_enabled row) eqn:E. Qed.
Definition disabled (now : timestamptz) (d : db) : db := d <| d_delegation_keys := disable now <$> d_delegation_keys d |>.
Lemma disabled_rows now d : registry_rows d → registry_rows (disabled now d).
Proof. intros Hr. apply map_Forall_fmap. intros id row Hk. cbn. rewrite (proj1 (disable_key _ _)). by eapply Hr. Qed.
Lemma disabled_conflicting now d key : conflicting (disabled now d) key ↔ conflicting d key.
Proof.
  unfold conflicting. cbn. setoid_rewrite lookup_fmap. split.
  - intros (row & (old & Hk & ->)%fmap_Some & Hne). exists old. split; [done|]. by rewrite (proj1 (disable_key _ _)) in Hne.
  - intros (row & Hk & Hne). exists (disable now row). rewrite Hk. by rewrite (proj1 (disable_key _ _)).
Qed.

(** ** Authority *)

(** A service whose key is missing or disabled has no authority. *)
Lemma disabled_forbidden principal actor e d : p_Delegation principal = Some actor →
  (∀ row, d_delegation_keys d !! (da_ServiceID actor, da_KeyID actor) = Some row → dk_enabled row = false) →
  resolveDelegatedPrincipal principal e d = Err ErrForbidden ∧ authorizeMonitoringService principal e d = Err ErrForbidden.
Proof.
  intros Ha Hk. unfold resolveDelegatedPrincipal, authorizeMonitoringService. rewrite Ha.
  unfold mbind, tx_bind, reject, query, row_or. split.
  - destruct (_ || _); [done|]. cbn. destruct (d_delegation_keys d !! _) as [row|]; [|done]. cbn. by rewrite (Hk row).
  - destruct (_ || _); [done|]. cbn. destruct (d_delegation_keys d !! _) as [row|]; [|done]. cbn. by rewrite (Hk row).
Qed.

(** ** The registry *)

(** C38: the operator's registry is applied as a whole or not at all.  A registry of at most 64 well-formed,
    distinct keys that leaves the material under every known identifier as it is takes effect, and no other
    does; a refused registry changes nothing.  Afterwards every given key stands as given, every other key is
    disabled, no key material has changed and nothing else in the database has; and an actor whose key was left
    out or given as disabled has no authority, neither for a represented user nor for the monitoring feed. *)
Theorem registry_replaced keys e d :
  registry_rows d →
  match inTransaction (RegisterDelegationKeys keys) e d with
  | (Ok _, d') =>
      admissible keys ∧ Forall (λ key, ¬ conflicting d key) keys ∧ registry_rows d' ∧
      d' = d <| d_delegation_keys := d_delegation_keys d' |> ∧
      (∀ key, key ∈ keys → d_delegation_keys d' !! key_id key = Some (key_row (transaction_timestamp e) key)) ∧
      (∀ id, id ∉ key_id <$> keys →
         d_delegation_keys d' !! id = disable (transaction_timestamp e) <$> d_delegation_keys d !! id) ∧
      (∀ id row, d_delegation_keys d !! id = Some row →
         ∃ row', d_delegation_keys d' !! id = Some row' ∧ dk_public_key row' = dk_public_key row) ∧
      (∀ principal actor e', p_Delegation principal = Some actor →
         (∀ key, key ∈ keys → key_id key = (da_ServiceID actor, da_KeyID actor) → dky_Enabled key = false) →
         resolveDelegatedPrincipal principal e' d' = Err ErrForbidden ∧
         authorizeMonitoringService principal e' d' = Err ErrForbidden)
  | (Err err, d') => d' = d ∧ (admissible keys → err = ErrConflict ∧ Exists (conflicting d) keys)
  end.
Proof.
  intros Hr. set (now := transaction_timestamp e). pose proof (disabled_rows now d Hr) as Hr0.
  destruct (inTransaction_cases (RegisterDelegationKeys keys) e d) as [([] & d' & Hrun & ->)|(err & Hrun & ->)].
  - unfold RegisterDelegationKeys in Hrun. tx_inv.
    match goal with H : validate_registry _ _ = _ |- _ => apply validate_registry_ok in H as (Hw & Hids & _) end.
    match goal with H : (64 <? _) = false |- _ => apply Z.ltb_ge in H as Hlen end.
    match goal with H : for_eachT _ _ _ ?d0 = _ |- _ => change d0 with (disabled now d) in H;
      apply register_keys_ok in H as (Hc & Hs & -> & Hr'); [|done|by apply registry_ids] end.
    fold now in Hr' |- *. pose proof (registry_ids _ Hids) as Hnd.
    assert (Forall (λ key, ¬ conflicting d key) keys) as Hnc by (eapply Forall_impl; [exact Hc|]; intros key Hk Hx; by apply Hk, disabled_conflicting).
    assert (∀ key, key ∈ keys → d_delegation_keys (with_keys now keys (disabled now d)) !! key_id key = Some (key_row now key)) as Hg
      by (intros; by apply with_keys_given).
    assert (∀ id, id ∉ key_id <$> keys → d_delegation_keys (with_keys now keys (disabled now d)) !! id = disable now <$> d_delegation_keys d !! id) as Ho
      by (intros; rewrite with_keys_other by done; apply lookup_fmap).
    split_and!; [done|done|done|by rewrite with_keys_frame at 1|done|done| |].
    + intros id row Hk. destruct (decide (id ∈ key_id <$> keys)) as [(key & -> & Hin)%list_elem_of_fmap|Hn].
      * exists (key_row now key). split; [by apply Hg|]. rewrite Forall_forall in Hnc. apply dec_stable. intros Hne.
        apply (Hnc key Hin). exists row. split; [done|]. by apply not_eq_sym.
      * exists (disable now row). rewrite Ho, Hk by done. split; [done|apply disable_key].
    + intros principal actor e' Ha Hoff. apply (disabled_forbidden _ actor); [done|]. intros row Hk.
      destruct (decide ((da_ServiceID actor, da_KeyID actor) ∈ key_id <$> keys)) as [(key & E & Hin)%list_elem_of_fmap|Hn].
      * rewrite E, Hg in Hk by done. injection Hk as <-. cbn. by apply Hoff.
      * rewrite Ho in Hk by done. apply fmap_Some in Hk as (old & _ & ->). apply disable_key.
  - split; [done|]. intros (Hlen & Hw & Hs & Hids). pose proof (registry_ids _ Hids) as Hnd. revert Hrun.
    unfold RegisterDelegationKeys, mbind, tx_bind, reject, lift, exec. rewrite (proj2 (Z.ltb_ge _ _)) by done. cbn.
    rewrite (proj2 (validate_registry_ok _ _)) by (split_and!; [done..|set_solver]).
    change (d <| d_delegation_keys ::= _ |>) with (disabled now d).
    destruct (register_keys_runs keys e (disabled now d) Hr0 Hnd Hw Hs) as [[d' ->]|[-> Hex]]; [done|].
    intros [= <-]. split; [done|]. eapply Exists_impl; [exact Hex|]. intros key Hk. by apply disabled_conflicting in Hk.
Qed.
