(* ===== verification/Monitoring.v ===== *)
(** * The monitoring feed

    [internal/store/postgres/monitoring_publisher.go] and [monitoring_feed.go].  The trigger on [jobs]
    ([Constraints.v]) leaves one event in the outbox for every transition of a job to the terminal phase;
    the publisher moves pending events to consecutive positions of the feed, pruning retires a prefix of
    the feed, and an authorized service reads the namespaces of its assertion page by page.  The row lock
    on [monitoring_feed_state] makes publication and pruning transactions follow one another. *)
From S2P Require Import Prelude Regex Names Domain TargetSpec Kahn Graph Contract Url Number Records Json Tokens Cursors Db Tx Constraints Auth.

(** ** Data ([internal/domain/monitoring_events.go]) *)

Record MonitoringEvent := {
  me_EventID : string;
  me_Position : Z;
  me_NamespaceID : string;
  me_JobID : string;
  me_RunID : string;
  me_RunNumber : string;
  me_OwnerPrincipalID : string;
  me_OldPhase : string;
  me_NewPhase : string;
  me_Outcome : string;
  me_JobRevision : string;
  me_ObservedCompletedAt : option timestamptz;
  me_RecordedAt : option timestamptz;
  me_Imported : bool;
  me_Reconciliation : bool }.
#[export] Instance MonitoringEvent_settable : Settable MonitoringEvent := λ x,
  Build_MonitoringEvent (me_EventID x) (me_Position x) (me_NamespaceID x) (me_JobID x) (me_RunID x) (me_RunNumber x)
    (me_OwnerPrincipalID x) (me_OldPhase x) (me_NewPhase x) (me_Outcome x) (me_JobRevision x)
    (me_ObservedCompletedAt x) (me_RecordedAt x) (me_Imported x) (me_Reconciliation x).

Record MonitoringCheckpoint := {
  mc_ControlInstanceID : string;
  mc_RecoveryEpoch : Z;
  mc_AsOf : timestamptz;
  mc_HeadCursor : string;
  mc_OldestCursor : string;
  mc_RetentionSeconds : Z;
  mc_BacklogCount : Z;
  mc_OldestUnpublishedRecordedAt : option timestamptz }.
Record MonitoringEventPage := {
  mep_Checkpoint : MonitoringCheckpoint;
  mep_Items : list MonitoringEvent;
  mep_NextCursor : string;
  mep_HasMore : bool }.

(** ** Publication *)

(** [ConfigureMonitoringRetention]; Go durations are nanoseconds. *)
Definition ConfigureMonitoringRetention (retention : Z) : tx unit :=
  reject ((retention <? 24 * Hour) || (365 * 24 * Hour <? retention) || negb (retention mod Second =? 0))
    (Errorf "monitoring retention must be whole seconds between one and 365 days" []);;
  exec (λ _ d, d <| d_monitoring_state ::= λ s, s <| fs_retention_seconds := retention / Second |> |>).

(** The unpublished events of the topic, [ORDER BY created_at, id]. *)
Definition pending_event (o : outbox_row) : bool :=
  eqs (ob_topic o) monitoring_topic && negb (is_some (ob_published_at o)).
Definition pending_events (d : db) : list (string * outbox_row) :=
  order_by (λ io, ob_created_at io.2) fst (select (λ _, pending_event) (d_outbox d)).

(** [EXISTS(SELECT 1 FROM monitoring_feed WHERE event_id=...)] *)
Definition in_feed (d : db) (eventID : string) : bool :=
  existsb (λ pf : Z * monitoring_feed_row, eqs (mf_event_id pf.2) eventID) (map_to_list (d_monitoring_feed d)).

#[export] Instance monitoring_feed_table : Table Z monitoring_feed_row := {|
  tbl := d_monitoring_feed;
  set_tbl m d := d <| d_monitoring_feed := m |>;
  constraints d position f := [
    ("monitoring_feed_position_check", bool_decide (0 < position ≤ max_int64));
    ("monitoring_feed_event_id_key", unique_among (d_monitoring_feed d) position (λ o, eqs (mf_event_id o) (mf_event_id f)));
    ("monitoring_feed_namespace_id_fkey", is_some (d_namespaces d !! mf_namespace_id f))];
  before_update _ _ _ _ new := new;
  after_update _ _ _ := mret tt |}.

(** One round of the publication loop; the head is its state. *)
Definition publish_event (publishedAt : timestamptz) (head : Z) (io : string * outbox_row) : tx Z :=
  let '(id, o) := io in
  exists_ ← query (λ d, in_feed d id);
  head ← (if exists_ : bool then mret head
          else
            reject (head =? max_int64) (Errorf "monitoring feed position exhausted" []);;
            wrapT "append monitoring event" [] (INSERT (head + 1) {|
              mf_event_id := id; mf_namespace_id := ob_namespace_id o; mf_payload := ob_payload o;
              mf_published_at := publishedAt |});;
            mret (head + 1));
  UPDATE_ id (λ _, true) (λ o, o <| ob_published_at := Some publishedAt |>);;
  mret head.

(** [PublishMonitoringEvents] *)
Definition PublishMonitoringEvents (limit : Z) : tx Z :=
  reject ((limit <? 1) || (1000 <? limit)) (Errorf "monitoring publication limit must be between one and 1000" []);;
  d ← query id;
  let s := d_monitoring_state d in
  let pending := take (Z.to_nat limit) (pending_events d) in
  now ← asks clock_timestamp;
  let publishedAt := Z.max now (fs_last_published_at s) in
  head ← forT (publish_event publishedAt) (fs_head_position s) pending;
  whenT (bool_decide (0 < slice_len pending))
    (exec (λ _ d, d <| d_monitoring_state ::= λ s, s <| fs_head_position := head; fs_last_published_at := publishedAt |> |>));;
  mret (slice_len pending).

(** ** Retention *)

(** [ORDER BY position] *)
Definition feed_rows (p : Z → monitoring_feed_row → bool) (d : db) : list (Z * monitoring_feed_row) :=
  order_by fst (λ _, "") (select p (d_monitoring_feed d)).

(** [max(position)], [NULL] without rows. *)
Definition max_position (l : list (Z * monitoring_feed_row)) : option Z :=
  foldr (λ pf o, Some (match o with Some m => Z.max pf.1 m | None => pf.1 end)) None l.

(** [PruneMonitoringEvents] *)
Definition PruneMonitoringEvents (limit : Z) : tx Z :=
  reject ((limit <? 1) || (10000 <? limit)) (Errorf "monitoring retention limit must be between one and 10000" []);;
  d ← query id;
  now ← asks clock_timestamp;
  let retention := fs_retention_seconds (d_monitoring_state d) in
  let prefix := take (Z.to_nat limit) (feed_rows (λ _ _, true) d) in
  let through := max_position (filter (λ pf, mf_published_at pf.2 < now - seconds retention) prefix) in
  match through with
  | None => mret 0
  | Some through =>
      let deleted := select (λ position _, position <=? through) (d_monitoring_feed d) in
      exec (λ _ d, d <| d_monitoring_feed ::= filter (λ pf : Z * monitoring_feed_row, through < pf.1) |>);;
      exec (λ _ d, d <| d_monitoring_state ::= λ s, s <| fs_retired_through ::= Z.max through |> |>);;
      mret (slice_len deleted)
  end.

(** ** The publisher ([internal/app/monitoring.go]) *)

(** What a call leaves in the database: a transaction that fails is rolled back, and its error logged. *)
Definition committed {A} (m : tx A) (e : env) (d : db) : db := match m e d with Ok (_, d') => d' | Err _ => d end.
Definition publisher_cycle (d : db) (now : env * env) : db :=
  committed (PruneMonitoringEvents 1000) now.2 (committed (PublishMonitoringEvents 256) now.1 d).
(** [runMonitoringPublisher], for as many ticks as there are times. *)
Definition runMonitoringPublisher (ticks : list (env * env)) (d : db) : db := foldl publisher_cycle d ticks.

(** ** Reading *)

Section feed.
Context (tokenKey : bytes).

(** The least [created_at], [NULL] without rows. *)
Definition min_created (l : list (string * outbox_row)) : option timestamptz :=
  foldr (λ io o, Some (match o with Some m => Z.min (ob_created_at io.2) m | None => ob_created_at io.2 end)) None l.

(** [readMonitoringCheckpoint]: the checkpoint, the head and the floor. *)
Definition readMonitoringCheckpoint (principal : Principal) : tx (MonitoringCheckpoint * Z * Z) :=
  reject (short_key tokenKey) ErrAuthorizationUnavailable;;
  asOf ← asks statement_timestamp;
  authorizeMonitoringService principal;;
  d ← query id;
  match p_Delegation principal with
  | None => throw ErrForbidden
  | Some actor =>
      let s := d_monitoring_state d in
      let backlog := select (λ _ o, pending_event o && slices_Contains (da_NamespaceIDs actor) (ob_namespace_id o)) (d_outbox d) in
      let cursor position := encodeMonitoringCursor tokenKey {|
        mcu_Instance := d_control_instance d; mcu_Epoch := d_restore_epoch d; mcu_Scope := monitoringScope actor;
        mcu_Position := position |} in
      mret ({| mc_ControlInstanceID := d_control_instance d; mc_RecoveryEpoch := d_restore_epoch d; mc_AsOf := asOf;
               mc_HeadCursor := cursor (fs_head_position s); mc_OldestCursor := cursor (fs_retired_through s);
               mc_RetentionSeconds := fs_retention_seconds s; mc_BacklogCount := slice_len backlog;
               mc_OldestUnpublishedRecordedAt := min_created backlog |},
            fs_head_position s, fs_retired_through s)
  end.

(** [MonitoringCheckpoint] *)
Definition store_MonitoringCheckpoint (principal : Principal) : tx MonitoringCheckpoint :=
  '(result, _, _) ← readMonitoringCheckpoint principal;
  mret result.

(** [json.Unmarshal] of a stored payload into an event: members that name no field are ignored. *)
Definition set_event_member (event : MonitoringEvent) (m : string * jsonb_value) : option MonitoringEvent :=
  let text (f : string → MonitoringEvent) := match m.2 with jText s => Some (f s) | _ => None end in
  let boolean (f : bool → MonitoringEvent) := match m.2 with jBool b => Some (f b) | _ => None end in
  let instant (f : timestamptz → MonitoringEvent) := match m.2 with jTime t => Some (f t) | _ => None end in
  if eqs m.1 "eventId" then text (λ s, event <| me_EventID := s |>)
  else if eqs m.1 "position" then match m.2 with
                                  | jText s => z ← ParseInt (bytes_of s); Some (event <| me_Position := z |>)
                                  | _ => None
                                  end
  else if eqs m.1 "namespaceId" then text (λ s, event <| me_NamespaceID := s |>)
  else if eqs m.1 "jobId" then text (λ s, event <| me_JobID := s |>)
  else if eqs m.1 "runId" then text (λ s, event <| me_RunID := s |>)
  else if eqs m.1 "runNumber" then text (λ s, event <| me_RunNumber := s |>)
  else if eqs m.1 "ownerPrincipalId" then text (λ s, event <| me_OwnerPrincipalID := s |>)
  else if eqs m.1 "oldPhase" then text (λ s, event <| me_OldPhase := s |>)
  else if eqs m.1 "newPhase" then text (λ s, event <| me_NewPhase := s |>)
  else if eqs m.1 "outcome" then text (λ s, event <| me_Outcome := s |>)
  else if eqs m.1 "jobRevision" then text (λ s, event <| me_JobRevision := s |>)
  else if eqs m.1 "observedCompletedAt" then instant (λ t, event <| me_ObservedCompletedAt := Some t |>)
  else if eqs m.1 "recordedAt" then instant (λ t, event <| me_RecordedAt := Some t |>)
  else if eqs m.1 "imported" then boolean (λ b, event <| me_Imported := b |>)
  else if eqs m.1 "reconciliation" then boolean (λ b, event <| me_Reconciliation := b |>)
  else Some event.
Definition event_at (position : Z) : MonitoringEvent := {|
  me_EventID := ""; me_Position := position; me_NamespaceID := ""; me_JobID := ""; me_RunID := ""; me_RunNumber := "";
  me_OwnerPrincipalID := ""; me_OldPhase := ""; me_NewPhase := ""; me_Outcome := ""; me_JobRevision := "";
  me_ObservedCompletedAt := None; me_RecordedAt := None; me_Imported := false; me_Reconciliation := false |}.
Definition decode_event (position : Z) (payload : list (string * jsonb_value)) : option MonitoringEvent :=
  foldl (λ o m, event ← o; set_event_member event m) (Some (event_at position)) payload.

(** [selected_positions] joined with the feed: each namespace in its own index, then merged. *)
Definition selected_rows (d : db) (namespaceIDs : list string) (after head limit : Z) : list (Z * monitoring_feed_row) :=
  take (Z.to_nat limit) (order_by fst (λ _, "")
    (ns ← namespaceIDs;
     take (Z.to_nat limit)
       (feed_rows (λ position f, eqs (mf_namespace_id f) ns && (after <? position) && (position <=? head)) d))).

(** The scan loop stops after [limit] rows. *)
Fixpoint scan_events (limit : Z) (items : list MonitoringEvent) (rows : list (Z * monitoring_feed_row)) :
    result (list MonitoringEvent * bool) :=
  match rows with
  | [] => Ok (items, false)
  | (position, f) :: rows =>
      if bool_decide (slice_len items = limit) then Ok (items, true)
      else match decode_event position (mf_payload f) with
           | Some event => scan_events limit (items ++ [event]) rows
           | None => Err (Errorf "decode monitoring event" [])
           end
  end.

(** [ReadMonitoringEvents] *)
Definition ReadMonitoringEvents (principal : Principal) (value : string) (limit : Z) : tx MonitoringEventPage :=
  reject ((limit <? 1) || (200 <? limit)) ErrEventCursorInvalid;;
  cursor ← lift (decodeMonitoringCursor tokenKey value);
  '(checkpoint, head, floor) ← readMonitoringCheckpoint principal;
  match p_Delegation principal with
  | None => throw ErrForbidden
  | Some actor =>
      reject (negb (eqs (mcu_Instance cursor) (mc_ControlInstanceID checkpoint)) ||
              negb (bool_decide (mcu_Epoch cursor = mc_RecoveryEpoch checkpoint))) ErrEventRecoveryChanged;;
      reject (negb (eqs (mcu_Scope cursor) (monitoringScope actor))) ErrEventScopeChanged;;
      reject (mcu_Position cursor <? floor) ErrEventCursorExpired;;
      reject (head <? mcu_Position cursor) ErrEventCursorInvalid;;
      d ← query id;
      let rows := selected_rows d (da_NamespaceIDs actor) (mcu_Position cursor) head (limit + 1) in
      '(items, hasMore) ← lift (scan_events limit [] rows);
      let position := if hasMore : bool then from_option me_Position 0 (last items) else head in
      mret {| mep_Checkpoint := checkpoint; mep_Items := items;
              mep_NextCursor := encodeMonitoringCursor tokenKey (cursor <| mcu_Position := position |>);
              mep_HasMore := hasMore |}
  end.
End feed.
