(* ===== verification/MonitoringLog.v ===== *)
(** * The feed as a log

    The feed and its singleton state implement one append-only log: positions are consecutive, the table
    holds the log without a retired prefix, and times of publication do not decrease.  [feed_log] is the
    correspondence; publication appends the oldest pending events to the log, and pruning advances the
    retired prefix over events whose retention has ended, and over no others. *)
From S2P Require Import Prelude Regex Names Domain TargetSpec Kahn Graph Contract Url Number Records Json Tokens Cursors Db Tx Ordered Constraints Auth Monitoring.

#[local] Abbreviation row := monitoring_feed_row.

(** ** The correspondence *)

(** The rows of a log from position [F + 1] on. *)
Definition numbered (F : Z) (l : list row) : list (Z * row) := imap (λ i f, (F + 1 + Z.of_nat i, f)) l.

Definition floor (d : db) : Z := fs_retired_through (d_monitoring_state d).
Definition event_ids (L : list row) : list string := mf_event_id <$> L.

Definition rows_of (F : Z) (L : list row) (m : gmap Z row) : Prop :=
  ∀ p f, m !! p = Some f ↔ F < p ∧ L !! Z.to_nat (p - 1) = Some f.

Record feed_log (L : list row) (d : db) : Prop := {
  fl_head : fs_head_position (d_monitoring_state d) = slice_len L;
  fl_bound : slice_len L ≤ max_int64;
  fl_floor : 0 ≤ floor d ≤ slice_len L;
  fl_rows : rows_of (floor d) L (d_monitoring_feed d);
  fl_times : StronglySorted (λ f g, mf_published_at f ≤ mf_published_at g) L;
  fl_last : Forall (λ f, mf_published_at f ≤ fs_last_published_at (d_monitoring_state d)) L }.

(** What the log promises to its readers: rows are appended and a prefix is retired, nothing else. *)
Inductive log_step : list row * Z → list row * Z → Prop :=
  | log_append L new F : log_step (L, F) (L ++ new, F)
  | log_retire L F F' : F ≤ F' ≤ slice_len L → log_step (L, F) (L, F').

Lemma numbered_lookup F l i : numbered F l !! i = (λ f, (F + 1 + Z.of_nat i, f)) <$> l !! i.
Proof. unfold numbered. by rewrite list_lookup_imap. Qed.
Lemma numbered_app F l l' : numbered F (l ++ l') = numbered F l ++ numbered (F + slice_len l) l'.
Proof.
  unfold numbered. rewrite imap_app. f_equal. apply imap_ext. intros i x _. unfold slice_len. cbn. apply (f_equal (., x)). lia.
Qed.
Lemma numbered_snd F l : (numbered F l).*2 = l.
Proof. unfold numbered. rewrite fmap_imap. rewrite <-(list_fmap_id l) at 2. rewrite <-imap_const. by apply imap_ext. Qed.
Lemma length_numbered F l : length (numbered F l) = length l.
Proof. apply length_imap. Qed.
Lemma elem_of_numbered F l p f : (p, f) ∈ numbered F l ↔ F < p ∧ l !! Z.to_nat (p - F - 1) = Some f.
Proof.
  rewrite list_elem_of_lookup. split.
  - intros [i Hi]. rewrite numbered_lookup in Hi. apply fmap_Some in Hi as (g & Hg & [= -> ->]). split; [lia|].
    by replace (Z.to_nat (F + 1 + Z.of_nat i - F - 1)) with i by lia.
  - intros [Hp Hf]. exists (Z.to_nat (p - F - 1)). rewrite numbered_lookup, Hf. cbn. do 2 f_equal. lia.
Qed.
Lemma numbered_sorted F l : StronglySorted (λ x y : Z * row, x.1 < y.1) (numbered F l).
Proof.
  revert F. induction l as [|f l IH] using rev_ind; intros F; [constructor|]. rewrite numbered_app.
  apply StronglySorted_app_2; [|apply IH|repeat constructor]. intros [p g] [p' g'] Hx Hy.
  apply elem_of_numbered in Hx as [_ Hx%lookup_lt_Some], Hy as [Hy _]. cbn. unfold slice_len in *. lia.
Qed.
Lemma numbered_drop F l : 0 ≤ F ≤ slice_len l → numbered F (drop (Z.to_nat F) l) = filter (λ x, F < x.1) (numbered 0 l).
Proof.
  intros HF. rewrite <-(take_drop (Z.to_nat F) l) at 2. rewrite numbered_app, filter_app.
  assert (slice_len (take (Z.to_nat F) l) = F) as E by (unfold slice_len in *; rewrite length_take; lia). rewrite E.
  replace (0 + F) with F by lia.
  rewrite filter_none, filter_all; [done| |].
  - intros [p f] [Hp _]%elem_of_numbered. done.
  - intros [p f] [Hp Hl%lookup_lt_Some]%elem_of_numbered. cbn. unfold slice_len in *. lia.
Qed.

(** The retained rows, in order of position. *)
Lemma feed_rows_log (L : list row) (d : db) (p : Z → row → bool) : rows_of (floor d) L (d_monitoring_feed d) →
  0 ≤ floor d ≤ slice_len L →
  feed_rows p d = filter (λ x, p x.1 x.2 = true) (numbered (floor d) (drop (Z.to_nat (floor d)) L)).
Proof.
  intros Hrows HF. unfold feed_rows. apply (order_by_strict_eq fst); [apply sorted_filter, numbered_sorted|].
  apply NoDup_Permutation; [apply NoDup_fmap_1 with (f := fst), NoDup_select_keys|apply (sorted_NoDup fst), sorted_filter, numbered_sorted|].
  intros [k f]. rewrite elem_of_select, list_elem_of_filter, elem_of_numbered, lookup_drop. rewrite (Hrows k f). cbn.
  split; intros (? & ?); destruct_and?; split_and?; try done; [|].
  all: match goal with H : ?l !! ?i = Some _ |- ?l !! ?j = Some _ => replace j with i by lia; done end.
Qed.
Lemma feed_rows_all L d : rows_of (floor d) L (d_monitoring_feed d) → 0 ≤ floor d ≤ slice_len L →
  feed_rows (λ _ _, true) d = numbered (floor d) (drop (Z.to_nat (floor d)) L).
Proof. intros Hr HF. rewrite (feed_rows_log L) by done. by apply filter_all. Qed.

(** ** Publication *)

(** The row that publication makes of a pending event. *)
Definition entry (t : timestamptz) (io : string * outbox_row) : row :=
  {| mf_event_id := io.1; mf_namespace_id := ob_namespace_id io.2; mf_payload := ob_payload io.2; mf_published_at := t |}.

Definition mark (t : timestamptz) (o : outbox_row) : outbox_row := o <| ob_published_at := Some t |>.
Definition acknowledge (t : timestamptz) (ids : list string) (m : gmap string outbox_row) : gmap string outbox_row :=
  foldl (λ m id, alter (mark t) id m) m ids.

Lemma lookup_acknowledge t ids m k : acknowledge t ids m !! k = if decide (k ∈ ids) then mark t <$> m !! k else m !! k.
Proof.
  unfold acknowledge. revert m. induction ids as [|i ids IH]; intros m; cbn [foldl]; [by rewrite decide_False by apply not_elem_of_nil|].
  rewrite IH. destruct (decide (k = i)) as [->|Hne].
  - rewrite lookup_alter_eq, (decide_True (P := i ∈ i :: ids)) by set_solver. case_decide; [|done]. by destruct (m !! i).
  - rewrite lookup_alter_ne by done. destruct (decide (k ∈ ids)); [rewrite decide_True by set_solver|rewrite decide_False by set_solver]; done.
Qed.

Lemma UPDATE_outbox k f e d n d' : UPDATE k (λ _ : outbox_row, true) f e d = Ok (n, d') →
  d' = d <| d_outbox := alter f k (d_outbox d) |>.
Proof.
  intros Hr. apply UPDATE_ok in Hr as [(old & row' & Hk & _ & -> & _ & _ & Hr)|(_ & -> & Hk)].
  - cbn in Hk, Hr. apply tx_ret_ok in Hr as [_ ->]. cbn. enough (<[k := f old]> (d_outbox d) = alter f k (d_outbox d)) as -> by done.
    apply map_eq. intros i. destruct (decide (i = k)) as [->|]; [by rewrite lookup_insert_eq, lookup_alter_eq, Hk|by rewrite lookup_insert_ne, lookup_alter_ne].
  - cbn in Hk. enough (alter f k (d_outbox d) = d_outbox d) as -> by by destruct d.
    destruct (d_outbox d !! k) eqn:Ho; [by specialize (Hk _ eq_refl)|]. apply map_eq. intros i.
    destruct (decide (i = k)) as [->|]; [by rewrite lookup_alter_eq, Ho|by rewrite lookup_alter_ne].
Qed.

Lemma in_feed_spec d id : in_feed d id = true ↔ ∃ p f, d_monitoring_feed d !! p = Some f ∧ mf_event_id f = id.
Proof.
  unfold in_feed. rewrite existsb_exists. split.
  - intros ([p f] & Hin%list_elem_of_In & He%eqs_true). exists p, f. by rewrite <-elem_of_map_to_list.
  - intros (p & f & Hk & He). exists (p, f). rewrite <-list_elem_of_In, elem_of_map_to_list. split; [done|]. by apply eqs_true.
Qed.
Lemma not_in_feed F L (d : db) id : rows_of F L (d_monitoring_feed d) → id ∉ event_ids L → in_feed d id = false.
Proof.
  intros Hr Hid. apply not_true_iff_false. intros (p & f & Hk & <-)%in_feed_spec. apply Hid. apply Hr in Hk as [_ Hk].
  by apply list_elem_of_lookup_2, (list_elem_of_fmap_2 mf_event_id) in Hk.
Qed.

Lemma rows_of_append F L m f : rows_of F L m → 0 ≤ F ≤ slice_len L → rows_of F (L ++ [f]) (<[slice_len L + 1 := f]> m).
Proof.
  intros Hr HF p g. unfold slice_len in *. rewrite lookup_insert_Some, (Hr p g), lookup_app_Some, list_lookup_singleton_Some. split.
  - intros [[<- <-]|[Hne [Hp Hl]]]; [split; [lia|]; right; split_and!; [lia|lia|done]|]. split; [done|by left].
  - intros [Hp [Hl|(Hlen & Hz & <-)]]; [right; split; [|done]; apply lookup_lt_Some in Hl; lia|left; split; [lia|done]].
Qed.

Lemma publish_event_ok F L t head id o e d head' d' :
  publish_event t head (id, o) e d = Ok (head', d') → head = slice_len L → 0 ≤ F ≤ head → head ≤ max_int64 →
  rows_of F L (d_monitoring_feed d) → id ∉ event_ids L →
  head' = head + 1 ∧ head' ≤ max_int64 ∧
  d' = d <| d_monitoring_feed := <[head + 1 := entry t (id, o)]> (d_monitoring_feed d) |> <| d_outbox := alter (mark t) id (d_outbox d) |>.
Proof.
  intros Hr -> HF Hmax Hrows Hid. unfold publish_event in Hr. tx_inv. rewrite (not_in_feed F L) in * by done. tx_inv.
  match goal with H : _ =? _ = false |- _ => apply Z.eqb_neq in H end.
  match goal with H : INSERT _ _ _ _ = Ok _ |- _ => apply INSERT_ok in H as (_ & _ & ->) end.
  match goal with H : UPDATE _ _ _ _ _ = Ok _ |- _ => apply UPDATE_outbox in H as -> end.
  split_and!; [done|unfold slice_len in *; lia|done].
Qed.

Lemma publish_batch_ok F t l : ∀ L head e d head' d',
  forT (publish_event t) head l e d = Ok (head', d') → head = slice_len L → 0 ≤ F ≤ head → head ≤ max_int64 →
  rows_of F L (d_monitoring_feed d) → (∀ io, io ∈ l → io.1 ∉ event_ids L) → NoDup l.*1 →
  head' = slice_len (L ++ (entry t <$> l)) ∧ head' ≤ max_int64 ∧
  ∃ m, d' = d <| d_monitoring_feed := m |> <| d_outbox := acknowledge t l.*1 (d_outbox d) |> ∧ rows_of F (L ++ (entry t <$> l)) m.
Proof.
  induction l as [|[id o] l IH]; intros L head e d head' d' Hr -> HF Hmax Hrows Hfresh Hnd.
  - injection Hr as <- <-. cbn. rewrite app_nil_r. split; [done|]. split; [done|]. exists (d_monitoring_feed d). split; [by destruct d|done].
  - cbn [forT] in Hr. apply tx_bind_ok in Hr as (h1 & d1 & Hr1 & Hr).
    apply (publish_event_ok F L) in Hr1 as (-> & Hb & ->); [|done..|by apply (Hfresh (id, o)); left].
    apply NoDup_cons in Hnd as [Hid Hnd].
    apply (IH (L ++ [entry t (id, o)])) in Hr as (-> & Hb' & m & -> & Hm); [| | | | | |done].
    + rewrite <-app_assoc in *. split; [done|]. split; [done|]. exists m. by split.
    + unfold slice_len. rewrite length_app. cbn. lia.
    + lia.
    + done.
    + cbn. by apply rows_of_append.
    + intros io Hio. unfold event_ids. rewrite fmap_app, elem_of_app. intros [Hin|Hin%list_elem_of_singleton]; [by apply (Hfresh io); [by right|]|].
      apply Hid. cbn in Hin |- *. rewrite <-Hin. by apply (list_elem_of_fmap_2 fst).
Qed.

(** The queue of pending events. *)
Lemma elem_of_pending d id o : (id, o) ∈ pending_events d ↔ d_outbox d !! id = Some o ∧ pending_event o = true.
Proof. unfold pending_events. by rewrite elem_of_order_by, elem_of_select. Qed.
Lemma NoDup_pending d : NoDup (pending_events d).*1.
Proof. unfold pending_events. rewrite order_by_perm. apply NoDup_select_keys. Qed.

Lemma pending_event_mark t o : pending_event (mark t o) = false.
Proof. unfold pending_event, mark. cbn. apply andb_false_r. Qed.

(** Acknowledging the oldest events leaves the queue without them. *)
Lemma pending_acknowledged t n (d d' : db) :
  d_outbox d' = acknowledge t (take n (pending_events d)).*1 (d_outbox d) → pending_events d' = drop n (pending_events d).
Proof.
  intros Ho. unfold pending_events. apply order_by_drop.
  - intros [k o] [k' o'] [Hx _]%elem_of_select [Hy _]%elem_of_select _ E. cbn in E. subst. by simplify_eq.
  - apply NoDup_Permutation.
    + apply NoDup_fmap_1 with (f := fst), NoDup_select_keys.
    + apply (sublist_NoDup _ (pending_events d)); [apply NoDup_fmap_1 with (f := fst), NoDup_pending|apply sublist_drop].
    + intros [k o]. change (order_by _ _ _) with (pending_events d). rewrite elem_of_select, Ho, lookup_acknowledge.
      pose proof (NoDup_pending d) as Hnd. rewrite <-(take_drop n (pending_events d)), fmap_app, NoDup_app in Hnd.
      destruct Hnd as (_ & Hdis & _). case_decide as Hk.
      * split; [intros [(o' & _ & ->)%fmap_Some Hp]; by rewrite pending_event_mark in Hp|].
        intros Hin. exfalso. apply (Hdis _ Hk). by apply (list_elem_of_fmap_2 fst) in Hin.
      * rewrite <-elem_of_pending. rewrite <-(take_drop n (pending_events d)) at 1. rewrite elem_of_app.
        split; [intros [Hin|]; [|done]|by right]. by apply (list_elem_of_fmap_2 fst) in Hin.
Qed.

(** [d'] differs from [d] in the feed alone: its rows, its state and the acknowledgements. *)
Definition feed_only (d d' : db) : Prop :=
  ∃ m o s, d' = d <| d_monitoring_feed := m |> <| d_outbox := o |> <| d_monitoring_state := s |>.

(** Events that wait are not in the log. *)
Definition unpublished (L : list row) (d : db) : Prop := ∀ io, io ∈ pending_events d → io.1 ∉ event_ids L.

Definition publication_time (e : env) (d : db) : timestamptz :=
  Z.max (clock_timestamp e) (fs_last_published_at (d_monitoring_state d)).

Lemma sorted_append_entries t L l : StronglySorted (λ f g, mf_published_at f ≤ mf_published_at g) L →
  Forall (λ f, mf_published_at f ≤ t) L → StronglySorted (λ f g, mf_published_at f ≤ mf_published_at g) (L ++ (entry t <$> l)).
Proof.
  intros Hs Hl. apply StronglySorted_app_2; [|done|].
  - intros f g Hf (io & -> & _)%list_elem_of_fmap. rewrite Forall_forall in Hl. by apply Hl.
  - clear. induction l as [|io l IH]; constructor; [done|]. apply Forall_forall. by intros g (io' & -> & _)%list_elem_of_fmap.
Qed.

Lemma PublishMonitoringEvents_log L limit e d n d' :
  feed_log L d → unpublished L d → PublishMonitoringEvents limit e d = Ok (n, d') →
  let batch := take (Z.to_nat limit) (pending_events d) in
  1 ≤ limit ≤ 1000 ∧ n = slice_len batch ∧ feed_log (L ++ (entry (publication_time e d) <$> batch)) d' ∧
  pending_events d' = drop (Z.to_nat limit) (pending_events d) ∧ floor d' = floor d ∧ feed_only d d' ∧
  d_outbox d' = acknowledge (publication_time e d) batch.*1 (d_outbox d).
Proof.
  intros [Hh Hb HF Hrows Ht Hlast] Hun Hr batch. unfold PublishMonitoringEvents in Hr. tx_inv.
  repeat match goal with H : _ || _ = false |- _ => apply orb_false_iff in H as [?%Z.ltb_ge ?%Z.ltb_ge] end.
  fold batch in H2, H3 |- *. fold (publication_time e d) in H2, H3. set (t := publication_time e d) in *.
  assert (NoDup batch.*1) as Hnd.
  { eapply sublist_NoDup; [apply NoDup_pending|]. apply fmap_sublist, sublist_take. }
  assert (∀ io, io ∈ batch → io.1 ∉ event_ids L) as Hfresh by (intros io Hio; apply Hun; by eapply subseteq_take).
  rewrite Hh in H2. destruct (publish_batch_ok (floor d) t batch L _ _ _ _ _ H2 eq_refl HF Hb Hrows Hfresh Hnd) as (-> & Hmax & m & -> & Hm).
  assert (Forall (λ f, mf_published_at f ≤ t) L) as Hlt.
  { eapply Forall_impl; [exact Hlast|]. intros f Hf. etrans; [exact Hf|apply Z.le_max_r]. }
  split; [done|]. split; [done|]. apply whenT_ok in H3 as [[Hpos ->%exec_ok]|[Hzero ->]]; unfold floor in *; cbn.
  - split; [|split; [by apply (pending_acknowledged t)|split; [done|split; [by eexists _, _, _|done]]]].
    constructor; cbn; [done|done|unfold slice_len in *; rewrite length_app in *; lia|done|by apply sorted_append_entries|].
    apply Forall_app_2; [done|]. apply Forall_forall. by intros g (io & -> & _)%list_elem_of_fmap.
  - apply bool_decide_eq_false in Hzero. assert (batch = []) as Hnil by (destruct batch; [done|unfold slice_len in Hzero; cbn in Hzero; lia]).
    rewrite Hnil in *. cbn in Hm, Hmax |- *. rewrite app_nil_r in *. split; [by constructor|]. split; [|split; [done|split; [by exists m, (d_outbox d), (d_monitoring_state d)|done]]].
    rewrite (pending_acknowledged t (Z.to_nat limit) d); [done|]. cbn. fold batch. by rewrite Hnil.
Qed.

Lemma bind_returns {A C} (m : tx A) (f : A → tx C) e d a d1 :
  m e d = Ok (a, d1) → (∃ r d', f a e d1 = Ok (r, d')) → ∃ r d', (m ≫= f) e d = Ok (r, d').
Proof. intros Hm (r & d' & Hf). exists r, d'. apply tx_bind_ok. by exists a, d1. Qed.

(** Every row of the outbox names a namespace that exists. *)
Definition outbox_referenced (d : db) : Prop :=
  ∀ id o, d_outbox d !! id = Some o → is_Some (d_namespaces d !! ob_namespace_id o).

Lemma publish_event_runs F L t head id o e d :
  head = slice_len L → 0 ≤ F ≤ head → head < max_int64 → rows_of F L (d_monitoring_feed d) → id ∉ event_ids L →
  d_outbox d !! id = Some o ∨ (∃ o', d_outbox d !! id = Some o' ∧ ob_namespace_id o' = ob_namespace_id o) →
  is_Some (d_namespaces d !! ob_namespace_id o) → ∃ r d', publish_event t head (id, o) e d = Ok (r, d').
Proof.
  intros -> HF Hmax Hrows Hid Ho Hns. assert (∃ o', d_outbox d !! id = Some o' ∧ ob_namespace_id o' = ob_namespace_id o) as (o' & Ho' & Ens).
  { destruct Ho as [|]; eauto. } clear Ho.
  assert (INSERT (slice_len L + 1) (entry t (id, o)) e d = Ok (tt, d <| d_monitoring_feed ::= <[slice_len L + 1 := entry t (id, o)]> |>)) as Hins.
  { apply INSERT_ok. split; [|split; [|done]].
    - cbn. destruct (d_monitoring_feed d !! _) as [f|] eqn:Hf; [|done]. apply Hrows in Hf as [_ Hf%lookup_lt_Some]. unfold slice_len in *. lia.
    - cbn. repeat constructor; cbn.
      + apply bool_decide_eq_true. lia.
      + apply unique_among_spec. intros p f Hf He%eqs_true. exfalso. apply Hid. rewrite <-He.
        apply Hrows in Hf as [_ Hf]. by apply list_elem_of_lookup_2, (list_elem_of_fmap_2 mf_event_id) in Hf.
      + by apply is_some_true. }
  set (d1 := d <| d_monitoring_feed ::= _ |>) in Hins.
  assert (∃ n, UPDATE id (λ _ : outbox_row, true) (mark t) e d1 = Ok (n, d1 <| d_outbox ::= <[id := mark t o']> |>)) as [n Hupd].
  { exists 1. apply UPDATE_ok. left. exists o', (mark t o'). split_and!; [done..| |done|done].
    cbn. repeat constructor. cbn. rewrite Ens. by apply is_some_true. }
  unfold publish_event. eapply bind_returns; [reflexivity|]. eapply bind_returns.
  - cbv beta. rewrite (not_in_feed F L) by done. rewrite (proj2 (Z.eqb_neq _ _)) by lia. unfold wrapT. cbn. unfold mbind, tx_bind. cbn.
    change (INSERT _ _ e d) with (INSERT (slice_len L + 1) (entry t (id, o)) e d). rewrite Hins. reflexivity.
  - eapply (bind_returns _ _ _ _ tt); [|by eexists _, _]. apply UPDATE__ok. by exists n.
Qed.

Lemma publish_batch_runs F t l : ∀ L head e d,
  head = slice_len L → 0 ≤ F ≤ head → head + slice_len l ≤ max_int64 → rows_of F L (d_monitoring_feed d) →
  (∀ io, io ∈ l → io.1 ∉ event_ids L) → NoDup l.*1 →
  (∀ io, io ∈ l → is_Some (d_namespaces d !! ob_namespace_id io.2) ∧
     ∃ o, d_outbox d !! io.1 = Some o ∧ ob_namespace_id o = ob_namespace_id io.2) →
  ∃ r d', forT (publish_event t) head l e d = Ok (r, d').
Proof.
  induction l as [|[id o] l IH]; intros L head e d -> HF Hmax Hrows Hfresh Hnd Hrow; [by eexists _, _|].
  assert (slice_len ((id, o) :: l) = slice_len l + 1) as El by (unfold slice_len; cbn; lia). rewrite El in Hmax.
  assert (0 ≤ slice_len l) by (unfold slice_len; lia). apply NoDup_cons in Hnd as [Hid Hnd].
  assert (id ∉ event_ids L) as Hidl by (apply (Hfresh (id, o)); by left). destruct (Hrow (id, o)) as [Hns Ho]; [by left|].
  destruct (publish_event_runs F L t (slice_len L) id o e d) as (r & d1 & Hr1); [done|done|lia|done|done|by right|done|].
  pose proof Hr1 as (-> & _ & ->)%(publish_event_ok F L); [|done..|lia|done|done].
  cbn [forT]. eapply bind_returns; [exact Hr1|]. apply (IH (L ++ [entry t (id, o)])).
  - unfold slice_len. rewrite length_app. cbn. lia.
  - lia.
  - lia.
  - cbn. by apply rows_of_append.
  - intros io Hio. unfold event_ids. rewrite fmap_app, elem_of_app. intros [Hin|Hin%list_elem_of_singleton]; [by apply (Hfresh io); [right|]|].
    apply Hid. cbn in Hin |- *. rewrite <-Hin. by apply (list_elem_of_fmap_2 fst).
  - done.
  - intros io Hio. destruct (Hrow io) as [Hns' (o' & Ho' & En)]; [by right|]. split; [done|]. cbn.
    assert (io.1 ≠ id) by (intros E; apply Hid; cbn; rewrite <-E; by apply (list_elem_of_fmap_2 fst)).
    exists o'. by rewrite lookup_alter_ne.
Qed.

(** With positions left, publication succeeds. *)
Lemma PublishMonitoringEvents_runs L limit e d :
  feed_log L d → unpublished L d → outbox_referenced d → 1 ≤ limit ≤ 1000 →
  slice_len L + slice_len (pending_events d) ≤ max_int64 → ∃ n d', PublishMonitoringEvents limit e d = Ok (n, d').
Proof.
  intros [Hh Hb HF Hrows _ _] Hun Href Hlim Hroom. set (batch := take (Z.to_nat limit) (pending_events d)).
  assert (slice_len batch ≤ slice_len (pending_events d)) by (unfold batch, slice_len; rewrite length_take; lia).
  destruct (publish_batch_runs (floor d) (publication_time e d) batch L (slice_len L) e d) as (r & d1 & Hr); [done|done|lia|done| | | |].
  - intros io Hio. apply Hun. by eapply subseteq_take.
  - eapply sublist_NoDup; [apply NoDup_pending|]. apply fmap_sublist, sublist_take.
  - intros [id o] Hio. apply subseteq_take, elem_of_pending in Hio as [Ho _]. split; [by apply (Href id)|by exists o].
  - unfold PublishMonitoringEvents. eapply (bind_returns _ _ _ _ tt d).
    { apply reject_ok. split; [|done]. apply orb_false_iff. rewrite !Z.ltb_ge. lia. }
    do 2 (eapply bind_returns; [reflexivity|]). cbv beta zeta. change (id d) with d. fold batch. rewrite Hh. eapply bind_returns; [exact Hr|]. cbv beta.
    unfold whenT. case_bool_decide; (eapply (bind_returns _ _ _ _ tt); [reflexivity|by eexists _, _]).
Qed.

(** ** Retention *)

Lemma max_position_None l : max_position l = None ↔ l = [].
Proof. by destruct l. Qed.
Lemma max_position_numbered F l : l ≠ [] → max_position (numbered F l) = Some (F + slice_len l).
Proof.
  revert F. induction l as [|f l IH]; intros F Hne; [done|]. change (f :: l) with ([f] ++ l). rewrite numbered_app. cbn [numbered imap app].
  destruct l as [|g l]; [cbn; f_equal; unfold slice_len; cbn; lia|]. cbn [max_position foldr].
  fold (max_position (numbered (F + slice_len [f]) (g :: l))). rewrite IH by done. f_equal. unfold slice_len. cbn. lia.
Qed.

(** The events whose retention has ended. *)
Definition expired (e : env) (d : db) (f : row) : Prop :=
  mf_published_at f < clock_timestamp e - seconds (fs_retention_seconds (d_monitoring_state d)).
#[export] Instance expired_dec e d f : Decision (expired e d f).
Proof. unfold expired. apply _. Defined.

(** The rows of the table, in order of position. *)
Definition retained (L : list row) (d : db) : list row := drop (Z.to_nat (floor d)) L.

Lemma seq_filter_numbered (P : row → Prop) `{!∀ x, Decision (P x)} F l : StronglySorted (λ f g, P g → P f) l →
  filter (λ x, P x.2) (numbered F l) = numbered F (take_while P l).
Proof.
  intros Hs. revert F. induction Hs as [|f l _ IH Hf]; intros F; [done|]. change (f :: l) with ([f] ++ l). rewrite numbered_app.
  cbn [numbered imap app]. rewrite filter_cons. cbn [take_while]. cbn. case_decide as Hd.
  - change (f :: take_while P l) with ([f] ++ take_while P l). rewrite numbered_app. cbn. f_equal. apply IH.
  - apply filter_none. intros [p g] [_ Hg%list_elem_of_lookup_2]%elem_of_numbered Hp. rewrite Forall_forall in Hf. by apply Hd, (Hf g).
Qed.

(** Deleting the rows up to a position retires them. *)
Lemma rows_of_retire F F' L m : rows_of F L m → F ≤ F' → rows_of F' L (filter (λ pf : Z * row, F' < pf.1) m).
Proof. intros Hr HF p f. rewrite map_lookup_filter_Some, (Hr p f). cbn. intuition lia. Qed.

Lemma numbered_take n F l : take n (numbered F l) = numbered F (take n l).
Proof.
  rewrite <-(take_drop n l) at 1. rewrite numbered_app.
  destruct (decide (n ≤ length l)%nat).
  - rewrite take_app_length'; [done|]. rewrite length_numbered, length_take. lia.
  - rewrite drop_ge, app_nil_r by lia. apply take_ge. rewrite length_numbered, length_take. lia.
Qed.

(** The rows up to the last one of a prefix are that prefix. *)
Lemma deleted_rows L d k : rows_of (floor d) L (d_monitoring_feed d) → 0 ≤ floor d →
  slice_len (select (λ position (_ : row), position <=? floor d + slice_len (take k (retained L d))) (d_monitoring_feed d)) =
  slice_len (take k (retained L d)).
Proof.
  intros Hr HF. unfold slice_len. f_equal. trans (length (numbered (floor d) (take k (retained L d)))); [apply Permutation_length|apply length_numbered].
  apply NoDup_Permutation; [apply NoDup_fmap_1 with (f := fst), NoDup_select_keys|apply (sorted_NoDup fst), numbered_sorted|].
  intros [p f]. rewrite elem_of_select, (Hr p f), elem_of_numbered, Z.leb_le. unfold retained. split.
  - intros [[Hp Hl] Hle]. split; [done|]. rewrite length_take in Hle. rewrite lookup_take_lt by lia. rewrite lookup_drop. rewrite <-Hl. f_equal. lia.
  - intros [Hp Hl]. apply lookup_lt_Some in Hl as Hlt. apply lookup_take_Some in Hl as [Hl _]. rewrite lookup_drop in Hl.
    split; [|lia]. split; [done|]. rewrite <-Hl. f_equal. lia.
Qed.

Lemma retained_times e L d n : StronglySorted (λ f g, mf_published_at f ≤ mf_published_at g) L →
  StronglySorted (λ f g, expired e d g → expired e d f) (take n (retained L d)).
Proof.
  intros Hs. unfold retained. rewrite <-(take_drop (Z.to_nat (floor d)) L) in Hs. apply StronglySorted_app_1_r in Hs.
  rewrite <-(take_drop n (drop _ L)) in Hs. apply StronglySorted_app_1_l in Hs.
  induction Hs as [|f l _ IH Hf]; constructor; [done|]. eapply Forall_impl; [exact Hf|]. unfold expired. cbn. lia.
Qed.

Lemma PruneMonitoringEvents_log L limit e d n d' :
  feed_log L d → PruneMonitoringEvents limit e d = Ok (n, d') →
  n = slice_len (take_while (expired e d) (take (Z.to_nat limit) (retained L d))) ∧
  feed_log L d' ∧ floor d' = floor d + n ∧ 1 ≤ limit ≤ 10000 ∧ feed_only d d' ∧ d_outbox d' = d_outbox d.
Proof.
  intros [Hh Hb HF Hrows Ht Hlast] Hr. unfold PruneMonitoringEvents in Hr. tx_inv.
  repeat match goal with H : _ || _ = false |- _ => apply orb_false_iff in H as [?%Z.ltb_ge ?%Z.ltb_ge] end.
  rewrite (feed_rows_all L), numbered_take in H2 by done. fold (retained L d) in H2.
  set (X := take_while (expired e d) (take (Z.to_nat limit) (retained L d))) in *.
  match type of H2 with context [max_position ?l] => assert (l = numbered (floor d) X) as E end.
  { unfold X. rewrite <-(seq_filter_numbered (expired e d)) by by apply retained_times. by apply list_filter_iff. }
  rewrite E in H2. clear E.
  destruct (decide (X = [])) as [Hnil|Hne].
  - rewrite Hnil in *. cbn in H2. injection H2 as <- <-. split; [done|]. split; [by constructor|].
    split; [unfold slice_len; cbn; lia|]. split; [done|]. split; [|done]. exists (d_monitoring_feed d), (d_outbox d), (d_monitoring_state d). by destruct d.
  - rewrite max_position_numbered in H2 by done. tx_inv. assert (∃ k, X = take k (retained L d)) as [k HX].
    { unfold X. rewrite take_while_prefix, take_take. by eexists. }
    rewrite HX, deleted_rows, <-HX by (done || lia).
    assert (slice_len X ≤ slice_len L - floor d) as Hlen.
    { rewrite HX. unfold retained, slice_len in *. rewrite length_take, length_drop. lia. }
    assert (0 ≤ slice_len X) by (unfold slice_len; lia).
    assert (fs_retired_through (d_monitoring_state d) = floor d) as Ef by done.
    split; [done|]. split; [|split; [unfold floor; cbn; rewrite Ef; lia|split; [done|split; [by eexists _, _, _|done]]]].
    constructor; unfold floor; cbn; rewrite ?Ef, ?Z.max_l by lia; try done; [lia|]. by apply (rows_of_retire (floor d)); [|lia].
Qed.
