(* ===== verification/Jobs.v ===== *)
(** * Job submission

    [internal/store/postgres/jobs.go], with [enforceNamespaceQuota] of
    [production.go] and the snapshot query of [monitoring.go]: validation,
    idempotency reservation, quota, placement, insertion and evidence, composed
    by [SubmitJob] into one transaction. *)
From stdpp Require Import pretty.
From S2P Require Import Prelude Regex Names Domain TargetSpec Kahn Graph Contract Records Db Tx Constraints Auth.

(** ** Validation *)

Definition validateSubmission (s : JobSubmission) : result unit :=
  fail_if (eqs (js_Namespace s) "" || eqs (js_Name s) "" || eqs (js_Target s) "")
    (Errorf "submission identity and target must not be empty" []);;
  fail_if (eqs (js_WorkloadDigest s) "" || eqs (js_RequestDigest s) "")
    (Errorf "submission digests must not be empty" []);;
  fail_if (negb (json_Valid (js_WorkloadDocument s)) || negb (json_Valid (js_RequestDocument s)))
    (Errorf "submission documents must be valid JSON" []).

(** ** Job snapshots *)

(** The columns of [current_execution]: the run with the highest number and its
    execution, if any. *)
Definition current_run (d : db) (jobID : string) : option (string * run_row) :=
  head (order_by (λ x : string * run_row, - r_run_number x.2) fst
    (select (λ _ r, eqs (r_job_id r) jobID) (d_runs d))).
Definition execution_of_run (d : db) (runID : string) : option (string * execution_row) :=
  head (select (λ _ x, eqs (e_run_id x) runID) (d_executions d)).

(** [jobSelect] restricted to one job, and [scanJob]. *)
Definition scanJob (e : env) (d : db) (jobID : string) (j : job_row) : option Job :=
  n ← d_namespaces d !! j_namespace_id j;
  owner ← d_principals d !! j_owner_principal_id j;
  let backend := from_option gen_execution_backend "" (j_target_generation_id j ≫= λ g, d_generations d !! g) in
  let run := current_run d jobID in
  let execution := run ≫= λ r, execution_of_run d r.1 in
  let column (f : execution_row → option string) := default "" (execution ≫= λ x, f x.2) in
  let observed := execution ≫= λ x, e_native_observed_at x.2 in
  Some {|
    job_Execution := None;
    job_ExecutionUnavailableReason := "";
    job_AsOf := UTC (transaction_timestamp e);
    job_NamespaceID := j_namespace_id j;
    job_Owner := if j_imported j then None
                 else Some {| jo_ID := j_owner_principal_id j; jo_Issuer := prn_issuer owner;
                              jo_Subject := prn_subject owner; jo_DisplayName := prn_display_name owner |};
    job_Imported := j_imported j;
    job_Lifecycle := {|
      jl_StartedAt := UTC <$> j_started_at j;
      jl_StartedRecordedAt := UTC <$> j_started_recorded_at j;
      jl_StartedProvenance := default "" (j_started_provenance j);
      jl_CompletedAt := UTC <$> j_completed_at j;
      jl_CompletedRecordedAt := UTC <$> j_completed_recorded_at j;
      jl_CompletedProvenance := default "" (j_completed_provenance j) |};
    job_CurrentRun := (λ r : string * run_row, {|
      rr_ID := r.1; rr_Number := pretty (r_run_number r.2);
      rr_ExecutionID := default "" (fst <$> execution) |}) <$> run;
    job_Group := {|
      jg_CollectionID := default "" (j_collection_id j);
      jg_CollectionIndex := j_collection_index j;
      jg_GraphID := default "" (j_graph_id j);
      jg_GraphIndex := j_graph_index j;
      jg_GraphDisposition := default "" (j_graph_disposition j) |};
    job_ID := jobID;
    job_Namespace := ns_name n;
    job_Name := j_name j;
    job_Labels := j_labels j;
    job_Phase := j_phase j;
    job_DesiredState := j_desired_state j;
    job_Outcome := default "" (j_outcome j);
    job_Target := j_placement_target j;
    job_Partition := default "" (j_placement_partition j);
    job_TargetID := default "" (j_target_id j);
    job_TargetGenerationID := default "" (j_target_generation_id j);
    job_ExecutionBackend := backend;
    job_NativeID := column e_native_id;
    job_ObservationConfidence := default "" ((λ x : string * execution_row, e_observation_confidence x.2) <$> execution);
    job_ConfidenceUpdatedAt :=
      from_option (λ x : string * execution_row, UTC (e_confidence_updated_at x.2)) zero_time execution;
    job_Scheduler :=
      if eqs (column e_native_backend) "" then None
      else (λ t, {| ss_Backend := column e_native_backend; ss_State := column e_native_state;
                    ss_Reason := column e_native_reason; ss_Cluster := column e_native_cluster;
                    ss_ObservedAt := UTC t |}) <$> observed;
    job_WorkloadDigest := j_workload_digest j;
    job_RequestDigest := j_request_digest j;
    job_Revision := j_revision j;
    job_CreatedAt := UTC (j_created_at j);
    job_UpdatedAt := UTC (j_updated_at j) |}.

Definition ErrNoRows : error := Errorf "no rows in result set" [].

(** [getJobByID] *)
Definition getJobByID (namespaceID jobID : string) : tx Job := λ e d,
  match d_jobs d !! jobID with
  | Some j =>
      if eqs (j_namespace_id j) namespaceID then row_or (scanJob e d jobID j) ErrNoRows e d
      else Err ErrNoRows
  | None => Err ErrNoRows
  end.

(** ** Quota *)

(** [enforceNamespaceQuota] *)
Definition enforceNamespaceQuota (namespaceID : string)
    (additionalJobs collectionItems graphNodes : Z) : tx unit :=
  d ← query id;
  policy ← wrapT "lock namespace quota" [] (row_or (d_policies d !! namespaceID) ErrNoRows);
  let current := count (λ j, eqs (j_namespace_id j) namespaceID && negb (eqs (j_phase j) "terminal"))
                   (d_jobs d) in
  reject (bool_decide (additionalJobs < 1) || bool_decide (po_max_queued_jobs policy < current + additionalJobs))
    (Wrapf "queued job limit" [pretty (po_max_queued_jobs policy)] ErrQuotaExceeded);;
  reject (bool_decide (po_max_collection_items policy < collectionItems))
    (Wrapf "collection item limit" [pretty (po_max_collection_items policy)] ErrQuotaExceeded);;
  reject (bool_decide (po_max_graph_nodes policy < graphNodes))
    (Wrapf "graph node limit" [pretty (po_max_graph_nodes policy)] ErrQuotaExceeded).

(** ** Placement *)

Record resolvedPlacement := {
  rp_targetID : string; rp_targetGenerationID : string; rp_partition : string;
  rp_executionBackend : string; rp_artifactStores : list ArtifactStoreSpec }.

Definition invalidPlacement (reason : string) : error := Wrapf reason [] ErrInvalidPlacement.

(** [containsAll] *)
Definition containsAll (available required : list string) : bool :=
  forallb (slices_Contains available) required.

(** [validateExecutionFeatures] *)
Definition validateExecutionFeatures (backend : string) (features : ExecutionFeatures) : result unit :=
  fail_if (negb (ef_DirectCommand features))
    (invalidPlacement "this execution slice supports only direct executable commands");;
  fail_if (ef_Extensions features)
    (invalidPlacement "this execution slice does not yet support extensions");;
  fail_if (ef_EnvironmentProfile features || ef_Secrets features)
    (invalidPlacement "this execution slice does not yet support environment profiles or secrets");;
  fail_if (negb (bool_decide (ef_RetryMaxRuns features = 1)))
    (invalidPlacement "this execution slice does not yet support retries");;
  if eqs backend "subprocess" then
    fail_if (ef_Resources features)
      (invalidPlacement "subprocess targets do not yet support resource requests")
  else if eqs backend "slurm" then
    fail_if (ef_TemporaryStorage features)
      (invalidPlacement "Slurm targets do not yet support temporary storage requests");;
    fail_if (ef_SchedulerEnvironmentOverride features)
      (invalidPlacement "Slurm targets reserve scheduler-provided environment variables")
  else Err (invalidPlacement "target execution backend is not implemented").

(** [resolveArtifactStores]: one loop iteration looks the requested name up. *)
Definition resolveArtifactStore (configured : list ArtifactStoreSpec)
    (acc : list ArtifactStoreSpec) (name : string) : result (list ArtifactStoreSpec) :=
  match List.find (λ store, eqs (as_Name store) name) configured with
  | Some store => Ok (acc ++ [store])
  | None => Err (Wrapf "artifact store is not approved by the target" [name] ErrInvalidPlacement)
  end.
Definition resolveArtifactStores (configured : list ArtifactStoreSpec) (requested : list string) :
    result (list ArtifactStoreSpec) :=
  fail_if (bool_decide (1 < slice_len requested))
    (invalidPlacement "this execution slice supports one artifact store per workload");;
  for_range (resolveArtifactStore configured) [] requested.

(** [resolvePartition] *)
Definition resolvePartition (generationID requested : string) : tx string :=
  d ← query id;
  if negb (eqs requested "") then
    match d_partitions d !! (generationID, requested) with
    | Some p => if eqs (part_state p) "active" then mret requested
                else throw (invalidPlacement "partition is not active on the selected target")
    | None => throw (invalidPlacement "partition is not active on the selected target")
    end
  else
    mret (default "" ((λ kr : (string * string) * partition_row, kr.1.2) <$>
      head (select (λ k p, eqs k.1 generationID && part_is_default p && eqs (part_state p) "active")
              (d_partitions d)))).

(** The joined row of [resolveTarget]'s query. *)
Definition current_target (d : db) (namespaceID name : string) :
    option (string * target_row * string * generation_row) :=
  '(targetID, t) ← head (select (λ _ t, eqs (tg_namespace_id t) namespaceID && eqs (tg_name t) name)
                           (d_targets d));
  generationID ← tg_current_generation_id t;
  g ← d_generations d !! generationID;
  Some (targetID, t, generationID, g).

(** [resolveTarget] *)
Definition resolveTarget (namespaceID : string) (s : JobSubmission) : tx resolvedPlacement :=
  d ← query id;
  '(targetID, t, generationID, g) ←
    row_or (current_target d namespaceID (js_Target s)) (invalidPlacement "target is not registered");
  reject (negb (eqs (tg_state t) "active")) (invalidPlacement "target is not active");;
  reject (negb (slices_Contains (gen_runtimes g) (js_RuntimeKind s)) ||
          negb (containsAll (gen_operating_systems g) (js_OperatingSystems s)) ||
          negb (containsAll (gen_architectures g) (js_Architectures s)) ||
          negb (containsAll (gen_capabilities g) (js_Capabilities s)))
    (invalidPlacement "target capabilities do not satisfy the workload");;
  artifactStores ← lift (resolveArtifactStores (gen_artifact_stores g) (js_ArtifactStores s));
  lift (validateExecutionFeatures (gen_execution_backend g) (js_ExecutionFeatures s));;
  partition ← resolvePartition generationID (js_Partition s);
  mret {| rp_targetID := targetID; rp_targetGenerationID := generationID; rp_partition := partition;
          rp_executionBackend := gen_execution_backend g; rp_artifactStores := artifactStores |}.

(** ** Idempotency *)

(** [reserveIdempotency]: reserve the key, or report the resource an earlier
    identical request produced. *)
Definition reserveIdempotency (authorization : namespaceAuthorization)
    (operation resourceTypeExpected key requestDigest : string) (responseStatusExpected : Z) :
    tx (option string) :=
  let k := (na_namespaceID authorization, na_principalID authorization, operation, key) in
  inserted ← wrapT "reserve idempotency key" [] (INSERT_or_nothing k
    {| id_request_digest := requestDigest; id_resource_type := resourceTypeExpected;
       id_resource_id := None; id_response_status := None; id_completed_at := None |});
  if bool_decide (inserted = 1) then mret None
  else
    d ← query id;
    row ← wrapT "read idempotency key" [] (row_or (d_idempotency d !! k) ErrNoRows);
    reject (negb (eqs (id_request_digest row) requestDigest)) ErrIdempotencyConflict;;
    match id_resource_id row, id_response_status row with
    | Some resourceID, Some responseStatus =>
        reject (negb (eqs (id_resource_type row) resourceTypeExpected) ||
                negb (bool_decide (responseStatus = responseStatusExpected)))
          (Errorf "idempotency record is incomplete" []);;
        mret (Some resourceID)
    | _, _ => throw (Errorf "idempotency record is incomplete" [])
    end.

(** [completeIdempotency] *)
Definition completeIdempotency (authorization : namespaceAuthorization)
    (operation key resourceID : string) (responseStatus : Z) : tx unit :=
  now ← asks transaction_timestamp;
  n ← wrapT "complete idempotency key" [] (UPDATE
    (na_namespaceID authorization, na_principalID authorization, operation, key)
    (λ r, negb (is_some (id_resource_id r)))
    (λ r, r <| id_resource_id := Some resourceID; id_response_status := Some responseStatus;
               id_completed_at := Some now |>));
  reject (negb (bool_decide (n = 1))) (Errorf "idempotency reservation was lost" []).

(** ** Insertion *)

(** [insertWorkloadRevision] *)
Definition insertWorkloadRevision (authorization : namespaceAuthorization) (s : JobSubmission) : tx unit :=
  document ← lift (json_Unmarshal (js_WorkloadDocument s));
  let k := (na_namespaceID authorization, js_WorkloadDigest s) in
  wrapT "insert workload revision" [] (INSERT_or_nothing k
    {| wr_document := document; wr_created_by := na_principalID authorization |});;
  d ← query id;
  row ← wrapT "verify workload revision" [] (row_or (d_workload_revisions d !! k) ErrNoRows);
  reject (negb (bool_decide (wr_document row = document))) (Errorf "workload digest collision" []).

Definition JobPhaseAccepted := "accepted".
Definition JobDesiredStateRun := "run".

(** [insertJob] *)
Definition insertJob (authorization : namespaceAuthorization) (jobID : string)
    (s : JobSubmission) (placement : resolvedPlacement) : tx Job :=
  document ← lift (json_Unmarshal (js_RequestDocument s));
  now ← asks transaction_timestamp;
  wrapT "insert job" [] (INSERT jobID {|
    j_namespace_id := na_namespaceID authorization;
    j_owner_principal_id := na_principalID authorization;
    j_name := js_Name s;
    j_labels := js_Labels s;
    j_phase := JobPhaseAccepted;
    j_desired_state := JobDesiredStateRun;
    j_outcome := None;
    j_placement_target := js_Target s;
    j_placement_partition := if eqs (rp_partition placement) "" then None else Some (rp_partition placement);
    j_workload_digest := js_WorkloadDigest s;
    j_request_digest := js_RequestDigest s;
    j_request_document := document;
    j_target_id := Some (rp_targetID placement);
    j_target_generation_id := Some (rp_targetGenerationID placement);
    j_resolved_artifact_stores := rp_artifactStores placement;
    j_collection_id := None;
    j_collection_index := None;
    j_graph_id := None;
    j_graph_index := None;
    j_graph_disposition := None;
    j_imported := false; j_import_source := None;
    j_started_at := None;
    j_started_recorded_at := None;
    j_started_provenance := None;
    j_completed_at := None;
    j_completed_recorded_at := None;
    j_completed_provenance := None;
    j_revision := 1;
    j_created_at := now;
    j_updated_at := now |});;
  getJobByID (na_namespaceID authorization) jobID.

(** [insertAcceptanceEvidence] *)
Definition insertAcceptanceEvidence (authorization : namespaceAuthorization)
    (idempotencyKey outboxID : string) (job : Job) : tx unit :=
  wrapT "insert job audit event" [] (audit_principal (na_namespaceID authorization)
    (na_principalID authorization) "job.accepted" "job" (job_ID job)
    (Some (job_RequestDigest job)) (Some idempotencyKey)
    [("phase", job_Phase job); ("placementTarget", job_Target job); ("workloadDigest", job_WorkloadDigest job)]);;
  wrapT "insert job outbox event" [] (insert_outbox outboxID (na_namespaceID authorization)
    "job.accepted" "job" (job_ID job)
    [("apiVersion", "jobman.control/v1alpha1"); ("kind", "JobAccepted"); ("jobId", job_ID job);
     ("namespace", job_Namespace job); ("revision", pretty (job_Revision job));
     ("requestDigest", job_RequestDigest job); ("workloadDigest", job_WorkloadDigest job)]).

(** ** [SubmitJob] *)

Definition submitJobOperation := "jobs.create".

(** [authorizeSubmission] *)
Definition authorizeSubmission (principal : Principal) (namespace : string) : tx namespaceAuthorization :=
  authorizeNamespace principal namespace [CapabilityJobsSubmit].

Definition SubmitJob (principal : Principal) (idempotencyKey : string) (s : JobSubmission) :
    tx SubmitResult :=
  reject (negb (ValidIdempotencyKey idempotencyKey)) (Errorf "invalid idempotency key" []);;
  lift (validateSubmission s);;
  jobID ← newID;
  outboxID ← newID;
  wrapT "submit job" [] (
    authorization ← authorizeSubmission principal (js_Namespace s);
    replayed ← reserveIdempotency authorization submitJobOperation "job" idempotencyKey
                 (js_RequestDigest s) 201;
    match replayed with
    | Some replayedJobID =>
        job ← wrapT "load idempotent job" [] (getJobByID (na_namespaceID authorization) replayedJobID);
        mret {| sr_Job := job; sr_Replayed := true |}
    | None =>
        enforceNamespaceQuota (na_namespaceID authorization) 1 0 0;;
        placement ← resolveTarget (na_namespaceID authorization) s;
        insertWorkloadRevision authorization s;;
        job ← insertJob authorization jobID s placement;
        completeIdempotency authorization submitJobOperation idempotencyKey (job_ID job) 201;;
        insertAcceptanceEvidence authorization idempotencyKey outboxID job;;
        mret {| sr_Job := job; sr_Replayed := false |}
    end).
