(* ===== verification/HistoryImport.v ===== *)
(** * Import of completed history

    [ImportCompletedHistory] ([internal/store/postgres/history.go]): a job that ended elsewhere is inserted and
    made terminal in one transaction, with its provenance and without a run.  It is an ordinary submission in
    every other respect, and the triggers on [jobs] fire as for any other job. *)
From stdpp Require Import pretty.
From S2P Require Import Prelude Regex Names Domain TargetSpec Kahn Graph Contract Records Url Kahn Graph Contract Json Utf8 Number Db Tx Constraints Auth Jobs.

(** [domain.CompletedHistoryImport] and [domain.HistoryImportResult]; without a job, the zero [Job]. *)
Record CompletedHistoryImport := {
  chi_Job : JobSubmission; chi_Outcome : string; chi_CompletedAt : time; chi_SourceStore : string;
  chi_SourceSchema : Z; chi_SourceJobID : string; chi_RequestDigest : string; chi_RequestDocument : raw string }.
Record HistoryImportResult := { hir_Job : option Job; hir_DryRun : bool; hir_Replayed : bool }.

(** [strings.TrimSpace(s) == ""]: every rune is white space, by [unicode.IsSpace]. *)
Definition space_runes : list bytes :=
  ((λ n, [byte n]) <$> [9; 10; 11; 12; 13; 32]) ++ [[byte 194; byte 133]; [byte 194; byte 160]; [byte 225; byte 154; byte 128]] ++
  ((λ n, [byte 226; byte 128; byte n]) <$> (seqZ 128 11 ++ [168; 169; 175])) ++
  [[byte 226; byte 129; byte 159]; [byte 227; byte 128; byte 128]].
Definition is_blank (s : string) : bool :=
  forallb (λ c, match c with Rune r => bool_decide (r ∈ space_runes) | Bad _ => false end) (runes (bytes_of s)).

Definition validateCompletedHistoryImport (request : CompletedHistoryImport) : result unit :=
  fail_if (negb (is_ok (validateSubmission (chi_Job request))) || eqs (chi_RequestDigest request) "" ||
           negb (json_Valid (chi_RequestDocument request)) ||
           negb (slices_Contains ["success"; "failure"; "cancelled"; "timed_out"; "aborted"; "lost"] (chi_Outcome request)) ||
           IsZero (chi_CompletedAt request) || negb (eqs (chi_SourceStore request) "sqlite") || (chi_SourceSchema request <? 1) ||
           is_blank (chi_SourceJobID request) || (128 <? len (chi_SourceJobID request)))
    (Errorf "completed history import is invalid" []).

Definition provenance (request : CompletedHistoryImport) : import_source :=
  {| is_store := chi_SourceStore request; is_schema := chi_SourceSchema request; is_jobId := chi_SourceJobID request |}.

(** The source job was imported into the namespace before. *)
Definition imported_before (d : db) (namespaceID : string) (request : CompletedHistoryImport) : bool :=
  bool_decide (0 < count (λ j, eqs (j_namespace_id j) namespaceID && j_imported j &&
    bool_decide (is_store <$> j_import_source j = Some (chi_SourceStore request)) &&
    bool_decide (is_jobId <$> j_import_source j = Some (chi_SourceJobID request))) (d_jobs d)).

Definition imported_job (now : timestamptz) (request : CompletedHistoryImport) (j : job_row) : job_row :=
  j <| j_phase := "terminal"; j_outcome := Some (chi_Outcome request); j_imported := true;
       j_import_source := Some (provenance request); j_completed_at := Some (to_timestamptz (chi_CompletedAt request));
       j_revision := j_revision j + 1; j_updated_at := now |>.

Definition ImportCompletedHistory (principal : Principal) (idempotencyKey : string) (dryRun : bool)
    (request : CompletedHistoryImport) : tx HistoryImportResult :=
  lift (validateCompletedHistoryImport request);;
  reject (negb dryRun && negb (ValidIdempotencyKey idempotencyKey)) (Errorf "invalid idempotency key" []);;
  jobID ← newID;
  outboxID ← newID;
  wrapT "import completed history" [] (
    authorization ← authorizeSubmission principal (js_Namespace (chi_Job request));
    let namespaceID := na_namespaceID authorization in
    placement ← resolveTarget namespaceID (chi_Job request);
    if dryRun then mret {| hir_Job := None; hir_DryRun := true; hir_Replayed := false |}
    else
      replayed ← reserveIdempotency authorization "history.import" "job" idempotencyKey (chi_RequestDigest request) 201;
      match replayed with
      | Some resourceID =>
          job ← getJobByID namespaceID resourceID;
          mret {| hir_Job := Some job; hir_DryRun := false; hir_Replayed := true |}
      | None =>
          existing ← query (λ d, imported_before d namespaceID request);
          reject existing ErrConflict;;
          insertWorkloadRevision authorization (chi_Job request);;
          insertJob authorization jobID (chi_Job request) placement;;
          now ← asks transaction_timestamp;
          wrapT "terminalize imported history" [] (UPDATE_ jobID (λ j, eqs (j_phase j) "accepted") (imported_job now request));;
          completeIdempotency authorization "history.import" idempotencyKey jobID 201;;
          wrapT "audit history import" [] (
            reject (2147483647 <? chi_SourceSchema request) (Errorf "integer out of range" []);;
            audit_principal namespaceID (na_principalID authorization) "history.imported" "job" jobID
              (Some (chi_RequestDigest request)) (Some idempotencyKey)
            [("sourceStore", chi_SourceStore request); ("sourceSchema", pretty (chi_SourceSchema request));
             ("sourceJobId", chi_SourceJobID request); ("outcome", chi_Outcome request)]);;
          wrapT "insert history outbox event" [] (insert_outbox outboxID namespaceID "history.imported" "job" jobID
            [("jobId", jobID); ("sourceStore", chi_SourceStore request); ("sourceJobId", chi_SourceJobID request)]);;
          job ← getJobByID namespaceID jobID;
          mret {| hir_Job := Some job; hir_DryRun := false; hir_Replayed := false |}
      end).
