(* ===== verification/Groups.v ===== *)
(** * Collections

    [internal/store/postgres/collections.go]: bounded groups of independent
    jobs.  A group never runs anything itself; it inserts jobs, restricts when
    they may be dispatched ([Coordinator.v]) and, when one of them completes,
    cancels or terminalizes others through the ordinary job transitions. *)
From stdpp Require Import pretty.
From S2P Require Import Prelude Regex Names Domain TargetSpec Kahn Graph Contract Records Db Tx Constraints Auth Jobs.

(** [make([]string, n)] filled with [store.newID()]. *)
Fixpoint newIDs (n : nat) : tx (list string) :=
  match n with
  | O => mret []
  | S n => i ← newID; rest ← newIDs n; mret (i :: rest)
  end.

(** [getJobWithQuerier] *)
Definition getJobWithQuerier (namespace jobID : string) : tx Job := λ e d,
  match d_jobs d !! jobID with
  | Some j =>
      match scanJob e d jobID j with
      | Some job => if eqs (job_Namespace job) namespace then Ok (job, d) else Err ErrNoRows
      | None => Err ErrNoRows
      end
  | None => Err ErrNoRows
  end.

(** ** Collections: validation and array mode *)

(** One iteration of the item loop of [validateCollectionSubmission]. *)
Definition validateCollectionItem (namespace : string) (seen : gset string) (item : JobSubmission) :
    result (gset string) :=
  fail_if (negb (ValidName (js_Name item))) (Errorf "collection item name is invalid" []);;
  fail_if (bool_decide (js_Name item ∈ seen)) (Errorf "collection item name is duplicated" []);;
  fail_if (negb (eqs (js_Namespace item) namespace) || negb (is_ok (validateSubmission item)))
    (Errorf "collection item submission is invalid" []);;
  Ok ({[js_Name item]} ∪ seen).

(** [validateCollectionSubmission] *)
Definition validateCollectionSubmission (s : CollectionSubmission) : result unit :=
  fail_if (negb (ValidName (cs_Namespace s)) || negb (ValidName (cs_Name s)) ||
           bool_decide (slice_len (cs_Items s) = 0) || bool_decide (10000 < slice_len (cs_Items s)) ||
           bool_decide (cs_MaxActive s < 1) || bool_decide (slice_len (cs_Items s) < cs_MaxActive s) ||
           negb (slices_Contains ["continue"; "fail-fast"] (cs_FailurePolicy s)) ||
           negb (slices_Contains ["never"; "prefer"; "require"] (cs_ArrayPolicy s)) ||
           negb (json_Valid (cs_RequestDocument s)) || eqs (cs_RequestDigest s) "")
    (Errorf "collection submission is invalid" []);;
  for_range (validateCollectionItem (cs_Namespace s)) ∅ (cs_Items s);;
  Ok tt.

(** The loop of [resolveCollectionArrayMode] from the element [index] on; the
    encoded resources are compared through the resources themselves. *)
Fixpoint array_compatible (first : resolvedPlacement) (resources : option (option Resources))
    (l : list (resolvedPlacement * JobSubmission)) : result bool :=
  match l with
  | [] => Ok true
  | (placement, item) :: l =>
      if negb (eqs (rp_executionBackend placement) "slurm") ||
         negb (eqs (rp_targetGenerationID placement) (rp_targetGenerationID first)) ||
         negb (eqs (rp_partition placement) (rp_partition first)) then Ok false
      else
        workload ← wrap "decode collection item resources" [] (json_Unmarshal (js_WorkloadDocument item));
        let encoded := ws_Resources (w_Spec workload) in
        match resources with
        | None => array_compatible first (Some encoded) l
        | Some r => if bool_decide (encoded = r) then array_compatible first resources l else Ok false
        end
  end.

(** [resolveCollectionArrayMode] *)
Definition resolveCollectionArrayMode (s : CollectionSubmission) (placements : list resolvedPlacement) :
    result string :=
  if eqs (cs_ArrayPolicy s) "never" then Ok "individual"
  else
    compatible ← match placements with
                 | first :: _ :: _ => array_compatible first None (zip placements (cs_Items s))
                 | _ => Ok false
                 end;
    if compatible : bool then Ok "slurm-array"
    else
      fail_if (eqs (cs_ArrayPolicy s) "require")
        (Wrapf "collection cannot be compiled as one Slurm array" [] ErrInvalidPlacement);;
      Ok "individual".

(** ** Collections: snapshots *)

(** The counts of [collectionSelect]. *)
Definition in_collection (id : string) (j : job_row) : bool := bool_decide (j_collection_id j = Some id).
Definition is_active (j : job_row) : bool := negb (slices_Contains ["accepted"; "terminal"] (j_phase j)).
Definition is_terminal (j : job_row) : bool := eqs (j_phase j) "terminal".
Definition has_outcome (l : list string) (j : job_row) : bool :=
  match j_outcome j with Some o => slices_Contains l o | None => false end.
Definition lacks_outcome (l : list string) (j : job_row) : bool :=
  match j_outcome j with Some o => negb (slices_Contains l o) | None => false end.

(** [collectionSelect] and [scanCollection], without the items. *)
Definition scanCollection (d : db) (id : string) (c : collection_row) : option Collection :=
  n ← d_namespaces d !! co_namespace_id c;
  let counting p := count (λ j, in_collection id j && p j) (d_jobs d) in
  let total := counting (λ _, true) in
  let active := counting is_active in
  let terminal := counting is_terminal in
  let succeeded := counting (λ j, is_terminal j && has_outcome ["success"] j) in
  let canceled := counting (λ j, is_terminal j && has_outcome ["cancelled"] j) in
  let failed := counting (λ j, is_terminal j && lacks_outcome ["success"; "cancelled"] j) in
  let '(phase, outcome) :=
    if bool_decide (0 < total) && bool_decide (terminal = total) then
      ("terminal", if bool_decide (0 < failed) then "failure"
                   else if bool_decide (0 < canceled) then "cancelled" else "success")
    else if bool_decide (0 < active) then ("running", "") else ("accepted", "") in
  Some {| col_ID := id; col_Namespace := ns_name n; col_Name := co_name c; col_Labels := co_labels c;
    col_MaxActive := co_max_active c; col_FailurePolicy := co_failure_policy c;
    col_ArrayPolicy := co_array_policy c; col_ArrayMode := co_array_mode c;
    col_Phase := phase; col_Outcome := outcome; col_Revision := co_revision c;
    col_Total := total; col_Active := active; col_Terminal := terminal;
    col_Succeeded := succeeded; col_Failed := failed; col_Canceled := canceled; col_Items := [];
    col_CreatedAt := UTC (co_created_at c); col_UpdatedAt := UTC (co_updated_at c) |}.

#[export] Instance Collection_settable : Settable Collection := λ x,
  Build_Collection (col_ID x) (col_Namespace x) (col_Name x) (col_Labels x) (col_MaxActive x)
    (col_FailurePolicy x) (col_ArrayPolicy x) (col_ArrayMode x) (col_Phase x) (col_Outcome x)
    (col_Revision x) (col_Total x) (col_Active x) (col_Terminal x) (col_Succeeded x) (col_Failed x)
    (col_Canceled x) (col_Items x) (col_CreatedAt x) (col_UpdatedAt x).

(** [loadCollectionItems] *)
Definition loadCollectionItems (c : Collection) : tx Collection :=
  d ← query id;
  let rows := order_by (λ kr : (string * Z) * collection_item_row, kr.1.2) (λ _, "")
                (select (λ k _, eqs k.1 (col_ID c)) (d_collection_items d)) in
  items ← forT (λ acc (kr : (string * Z) * collection_item_row),
    job ← wrapT "load collection item" [cit_item_name kr.2] (getJobWithQuerier (col_Namespace c) (cit_job_id kr.2));
    mret (acc ++ [{| coi_ArrayTaskIndex := None; coi_Index := kr.1.2;
                     coi_Name := cit_item_name kr.2; coi_Job := job |}])) [] rows;
  mret (c <| col_Items := items |>).

(** [getCollectionByID] *)
Definition getCollectionByID (namespaceID collectionID : string) : tx Collection :=
  d ← query id;
  row ← row_or (d_collections d !! collectionID) ErrNoRows;
  reject (negb (eqs (co_namespace_id row) namespaceID)) ErrNoRows;;
  c ← row_or (scanCollection d collectionID row) ErrNoRows;
  loadCollectionItems c.

(** ** Collections: submission *)

(** [insertCollection] *)
Definition insertCollection (authorization : namespaceAuthorization) (collectionID : string)
    (s : CollectionSubmission) (arrayMode : string) : tx unit :=
  document ← lift (json_Unmarshal (cs_RequestDocument s));
  now ← asks transaction_timestamp;
  wrapT "insert collection" [] (INSERT collectionID {|
    co_namespace_id := na_namespaceID authorization;
    co_owner_principal_id := na_principalID authorization;
    co_name := cs_Name s; co_labels := cs_Labels s;
    co_request_digest := cs_RequestDigest s; co_request_document := document;
    co_max_active := cs_MaxActive s; co_failure_policy := cs_FailurePolicy s;
    co_array_policy := cs_ArrayPolicy s; co_array_mode := arrayMode;
    co_revision := 1; co_created_at := now; co_updated_at := now |}).

(** [insertCollectionAcceptanceEvidence] *)
Definition insertCollectionAcceptanceEvidence (authorization : namespaceAuthorization)
    (collectionID outboxID idempotencyKey : string) (s : CollectionSubmission) : tx unit :=
  wrapT "audit collection acceptance" [] (audit_principal (na_namespaceID authorization)
    (na_principalID authorization) "collection.accepted" "collection" collectionID
    (Some (cs_RequestDigest s)) (Some idempotencyKey)
    [("items", pretty (slice_len (cs_Items s))); ("maxActive", pretty (cs_MaxActive s));
     ("failurePolicy", cs_FailurePolicy s); ("arrayPolicy", cs_ArrayPolicy s)]);;
  wrapT "insert collection outbox event" [] (insert_outbox outboxID (na_namespaceID authorization)
    "collection.accepted" "collection" collectionID
    [("collectionId", collectionID); ("items", pretty (slice_len (cs_Items s)))]).

(** Resolve the placement of every item, in order. *)
Definition resolvePlacements (namespaceID context : string) (items : list JobSubmission) :
    tx (list resolvedPlacement) :=
  forT (λ acc item,
    placement ← wrapT context [js_Name item] (resolveTarget namespaceID item);
    mret (acc ++ [placement])) [] items.

(** One iteration of the insertion loop of [SubmitCollection]. *)
Definition insertCollectionItem (authorization : namespaceAuthorization)
    (collectionID idempotencyKey : string)
    (row : Z * JobSubmission * resolvedPlacement * string * string) : tx unit :=
  let '(index, item, placement, jobID, outboxID) := row in
  wrapT "insert collection item" [js_Name item] (insertWorkloadRevision authorization item);;
  job ← wrapT "insert collection item" [js_Name item] (insertJob authorization jobID item placement);
  wrapT "bind collection item" [js_Name item] (UPDATE_ (job_ID job) (λ _, true)
    (λ j, j <| j_collection_id := Some collectionID; j_collection_index := Some index |>));;
  wrapT "index collection item" [js_Name item] (INSERT (collectionID, index)
    {| cit_item_name := js_Name item; cit_job_id := job_ID job |});;
  wrapT "record collection item" [js_Name item]
    (insertAcceptanceEvidence authorization idempotencyKey outboxID job).

(** The rows of the insertion loop: index, item, placement, job and outbox ids. *)
Definition loop_rows (items : list JobSubmission) (placements : list resolvedPlacement)
    (jobIDs outboxIDs : list string) : list (Z * JobSubmission * resolvedPlacement * string * string) :=
  zip (zip (zip (zip (seqZ 0 (slice_len items)) items) placements) jobIDs) outboxIDs.

Definition submitCollectionOperation := "collections.create".

(** [SubmitCollection] *)
Definition SubmitCollection (principal : Principal) (idempotencyKey : string) (s : CollectionSubmission) :
    tx CollectionResult :=
  reject (negb (ValidIdempotencyKey idempotencyKey)) (Errorf "invalid idempotency key" []);;
  lift (validateCollectionSubmission s);;
  collectionID ← newID;
  jobIDs ← newIDs (length (cs_Items s));
  outboxIDs ← newIDs (length (cs_Items s) + 1);
  wrapT "submit collection" [] (
    authorization ← authorizeSubmission principal (cs_Namespace s);
    replayed ← reserveIdempotency authorization submitCollectionOperation "collection"
                 idempotencyKey (cs_RequestDigest s) 201;
    match replayed with
    | Some resourceID =>
        collection ← getCollectionByID (na_namespaceID authorization) resourceID;
        mret {| cres_Collection := collection; cres_Replayed := true |}
    | None =>
        enforceNamespaceQuota (na_namespaceID authorization)
          (slice_len (cs_Items s)) (slice_len (cs_Items s)) 0;;
        placements ← resolvePlacements (na_namespaceID authorization) "resolve collection item" (cs_Items s);
        arrayMode ← lift (resolveCollectionArrayMode s placements);
        insertCollection authorization collectionID s arrayMode;;
        for_eachT (insertCollectionItem authorization collectionID idempotencyKey)
          (loop_rows (cs_Items s) placements jobIDs (tail outboxIDs));;
        completeIdempotency authorization submitCollectionOperation idempotencyKey collectionID 201;;
        insertCollectionAcceptanceEvidence authorization collectionID (default "" (head outboxIDs))
          idempotencyKey s;;
        collection ← getCollectionByID (na_namespaceID authorization) collectionID;
        mret {| cres_Collection := collection; cres_Replayed := false |}
    end).

(** ** Cancelling one member of a group *)

Record collectionSibling := {
  sib_jobID : string; sib_phase : string; sib_executionID : string; sib_runID : string;
  sib_agentID : string; sib_executionPhase : string }.

(** The execution of a job, as the [LEFT JOIN]s of the sibling queries find it. *)
Definition execution_of_job (d : db) (jobID : string) : option (string * run_row * string * execution_row) :=
  '(runID, r) ← head (select (λ _ r, eqs (r_job_id r) jobID) (d_runs d));
  '(executionID, x) ← execution_of_run d runID;
  Some (runID, r, executionID, x).

(** [COALESCE(..., '')] of the joined columns. *)
Definition sibling_of (d : db) (kr : string * job_row) : collectionSibling :=
  let run := head (select (λ _ r, eqs (r_job_id r) kr.1) (d_runs d)) in
  let execution := run ≫= λ r, execution_of_run d r.1 in
  {| sib_jobID := kr.1; sib_phase := j_phase kr.2;
     sib_executionID := default "" (fst <$> execution);
     sib_runID := default "" (fst <$> run);
     sib_agentID := from_option (λ x : string * execution_row, e_agent_id x.2) "" execution;
     sib_executionPhase := from_option (λ x : string * execution_row, e_phase x.2) "" execution |}.

Definition cancelledBeforeLaunch : ProcessResult :=
  {| pr_Outcome := "cancelled"; pr_ExitCode := None; pr_Signal := "";
     pr_FailureCode := "cancelled_before_launch" |}.

(** [INSERT INTO desired_actions ... ON CONFLICT (execution_id, action_type) DO NOTHING] *)
Definition insert_cancel_action (actionID namespaceID executionID agentID : string)
    (document : Contract.DesiredAction) : tx unit :=
  now ← asks transaction_timestamp;
  d ← query id;
  if existsb (λ kr : string * action_row,
       eqs (act_execution_id kr.2) executionID && eqs (act_action_type kr.2) "cancel")
       (map_to_list (d_actions d))
  then mret tt
  else INSERT actionID {|
    act_namespace_id := namespaceID; act_execution_id := executionID; act_agent_id := agentID;
    act_revision := 1; act_action_type := "cancel"; act_state := "pending"; act_document := document;
    act_delivery_count := 0; act_last_delivered_at := None; act_acknowledged_at := None;
    act_created_at := now |}.

(** The cancel document both [CancelJob] and [cancelCollectionSibling] build. *)
Definition cancelAction (actionID executionID agentID : string) (requestedAt : time) : Contract.DesiredAction :=
  {| dact_APIVersion := V1Alpha1; dact_Kind := DesiredActionKind;
     dact_Metadata := {| dam_ActionID := actionID; dam_ExecutionID := executionID; dam_AgentID := agentID;
                         dam_Revision := 1; dam_RequestedAt := requestedAt |};
     dact_Spec := {| das_Type := "cancel" |} |}.

(** The updates [CancelJob] and [cancelCollectionSibling] share, statement by statement. *)
Definition cancel_job_row (now : timestamptz) (j : job_row) : job_row :=
  j <| j_phase := "terminal"; j_desired_state := "cancel"; j_outcome := Some "cancelled";
       j_revision ::= Z.succ; j_updated_at := now |>.
Definition cancel_run_row (now : timestamptz) (r : run_row) : run_row :=
  r <| r_phase := "terminal"; r_desired_state := "cancel"; r_outcome := Some "cancelled";
       r_updated_at := now |>.
Definition cancel_execution_row (now : timestamptz) (x : execution_row) : execution_row :=
  x <| e_phase := "terminal"; e_outcome := Some "cancelled";
       e_process_result := Some cancelledBeforeLaunch; e_revision ::= Z.succ; e_updated_at := now |>.
Definition withdraw_assignment (executionID : string) : tx unit :=
  d ← query id;
  for_eachT (λ k : string, UPDATE_ k (λ a : assignment_row, eqs (a_state a) "offered")
      (λ a, a <| a_state := "withdrawn" |>))
    (select (λ _ a, eqs (a_execution_id a) executionID && eqs (a_state a) "offered") (d_assignments d)).*1.
Definition desire_cancel_run (now : timestamptz) (r : run_row) : run_row :=
  r <| r_desired_state := "cancel"; r_updated_at := now |>.
Definition desire_cancel_job (now : timestamptz) (j : job_row) : job_row :=
  j <| j_desired_state := "cancel"; j_revision ::= Z.succ; j_updated_at := now |>.

(** [cancelCollectionSibling] *)
Definition cancelCollectionSibling (namespaceID : string) (sibling : collectionSibling) : tx unit :=
  now ← asks transaction_timestamp;
  if eqs (sib_executionID sibling) "" then
    wrapT "cancel undispatched collection sibling" []
      (UPDATE_ (sib_jobID sibling) (λ _, true) (cancel_job_row now))
  else if eqs (sib_executionPhase sibling) "planned" then
    wrapT "withdraw collection sibling assignment" [] (withdraw_assignment (sib_executionID sibling));;
    wrapT "cancel planned collection sibling execution" []
      (UPDATE_ (sib_executionID sibling) (λ _, true) (cancel_execution_row now));;
    wrapT "cancel planned collection sibling run" []
      (UPDATE_ (sib_runID sibling) (λ _, true) (cancel_run_row now));;
    wrapT "cancel planned collection sibling job" []
      (UPDATE_ (sib_jobID sibling) (λ _, true) (cancel_job_row now))
  else
    actionID ← wrapT "create collection cancellation identity" [] newID;
    requestedAt ← asks time_Now;
    wrapT "request collection sibling cancellation" []
      (insert_cancel_action actionID namespaceID (sib_executionID sibling) (sib_agentID sibling)
         (cancelAction actionID (sib_executionID sibling) (sib_agentID sibling) requestedAt));;
    wrapT "update collection sibling run desire" []
      (UPDATE_ (sib_runID sibling) (λ _, true) (desire_cancel_run now));;
    wrapT "update collection sibling job desire" []
      (UPDATE_ (sib_jobID sibling) (λ _, true) (desire_cancel_job now)).

(** The siblings a failed job takes with it, [ORDER BY j.collection_index]. *)
Definition open_siblings (d : db) (collectionID completedJobID : string) : list collectionSibling :=
  sibling_of d <$> order_by (λ kr : string * job_row, default 0 (j_collection_index kr.2)) (λ _, "")
    (select (λ k j, in_collection collectionID j && negb (eqs k completedJobID) && negb (is_terminal j))
       (d_jobs d)).

(** [applyCollectionCompletion] *)
Definition applyCollectionCompletion (namespaceID completedJobID outcome : string) : tx unit :=
  d ← query id;
  now ← asks transaction_timestamp;
  match d_jobs d !! completedJobID with
  | None => mret tt
  | Some j =>
      match (if eqs (j_namespace_id j) namespaceID then j_collection_id j else None) with
      | None => mret tt
      | Some collectionID =>
          match d_collections d !! collectionID with
          | None => mret tt
          | Some c =>
              whenT (eqs (co_failure_policy c) "fail-fast" && negb (eqs outcome "success"))
                (for_eachT (cancelCollectionSibling namespaceID) (open_siblings d collectionID completedJobID));;
              wrapT "update completed collection" [] (UPDATE_ collectionID (λ _, true)
                (λ c : collection_row, c <| co_revision ::= Z.succ; co_updated_at := now |>))
          end
      end
  end.
