(* ===== verification/GraphStore.v ===== *)
(** * Dependency graphs in the store

    [internal/store/postgres/graphs.go]: submission of an immutable graph, its
    snapshots, cancellation, and the resolution of nodes whose dependencies can no
    longer be satisfied.  The resolution loop runs until no candidate is left; its
    fuel is the number of waiting jobs, which every iteration lowers. *)
From stdpp Require Import pretty.
From S2P Require Import Prelude Regex Names Domain TargetSpec Kahn Graph Contract Records Db Tx Constraints Auth Jobs Groups.

(** ** Validation *)

Definition validateGraphNodeSubmission (namespace : string) (names : gset string) (node : JobSubmission) :
    result (gset string) :=
  fail_if (negb (ValidName (js_Name node)) || negb (eqs (js_Namespace node) namespace) ||
           negb (is_ok (validateSubmission node))) (Errorf "graph node submission is invalid" []);;
  fail_if (bool_decide (js_Name node ∈ names)) (Errorf "graph node name is duplicated" []);;
  Ok ({[js_Name node]} ∪ names).

(** [edge.From + "\x00" + edge.To] *)
Definition submission_edge_key (edge : GraphEdgeSubmission) : string :=
  String.append (ges_From edge) (String Ascii.zero (ges_To edge)).

Definition validateGraphEdgeSubmission (names : gset string) (seenEdges : gset string)
    (edge : GraphEdgeSubmission) : result (gset string) :=
  fail_if (negb (bool_decide (ges_From edge ∈ names)) || negb (bool_decide (ges_To edge ∈ names)) ||
           eqs (ges_From edge) (ges_To edge) ||
           negb (slices_Contains ["success"; "failure"; "any-terminal"; "outcomes"] (ges_Predicate edge)))
    (Errorf "graph edge is invalid" []);;
  fail_if (bool_decide (submission_edge_key edge ∈ seenEdges)) (Errorf "graph edge is duplicated" []);;
  Ok ({[submission_edge_key edge]} ∪ seenEdges).

(** [validateGraphSubmission] *)
Definition validateGraphSubmission (s : GraphSubmission) : result unit :=
  fail_if (negb (ValidName (gs_Namespace s)) || negb (ValidName (gs_Name s)) ||
           bool_decide (slice_len (gs_Nodes s) = 0) || bool_decide (10000 < slice_len (gs_Nodes s)) ||
           bool_decide (gs_MaxActive s < 1) || bool_decide (slice_len (gs_Nodes s) < gs_MaxActive s) ||
           negb (slices_Contains ["skip"; "cancel"; "blocked"] (gs_UnsatisfiedPolicy s)) ||
           negb (json_Valid (gs_RequestDocument s)) || eqs (gs_RequestDigest s) "")
    (Errorf "graph submission is invalid" []);;
  names ← for_range (validateGraphNodeSubmission (gs_Namespace s)) ∅ (gs_Nodes s);
  for_range (validateGraphEdgeSubmission names) ∅ (gs_Edges s);;
  Ok tt.

(** ** Edge predicates *)

(** The readiness predicate of an edge on the outcome of its terminal upstream. *)
Definition predicate_holds (edge : graph_edge_row) (outcome : string) : bool :=
  eqs (ed_predicate edge) "any-terminal" ||
  (eqs (ed_predicate edge) "success" && eqs outcome "success") ||
  (eqs (ed_predicate edge) "failure" && slices_Contains ["failure"; "timed_out"; "aborted"; "lost"] outcome) ||
  (eqs (ed_predicate edge) "outcomes" && slices_Contains (ed_outcomes edge) outcome).

(** [upstream.phase = 'terminal' AND (predicate)] *)
Definition edge_satisfied (edge : graph_edge_row) (upstream : job_row) : bool :=
  is_terminal upstream && from_option (predicate_holds edge) false (j_outcome upstream).

(** [NOT (predicate)], which is not true of a null outcome. *)
Definition edge_refuted (edge : graph_edge_row) (upstream : job_row) : bool :=
  from_option (λ o, negb (predicate_holds edge o)) false (j_outcome upstream).

(** The incoming edges of a job joined with their upstream jobs. *)
Definition incoming (d : db) (jobID : string) : list ((string * string * string) * graph_edge_row * job_row) :=
  kr ← select (λ k _, eqs k.2 jobID) (d_graph_edges d);
  match d_jobs d !! kr.1.1.2 with
  | Some upstream => [(kr.1, kr.2, upstream)]
  | None => []
  end.

(** The dependency condition of the dispatch query: no incoming edge whose
    upstream is not terminal or whose predicate fails. *)
Definition dependencies_met (d : db) (jobID : string) : bool :=
  forallb (λ t : (string * string * string) * graph_edge_row * job_row,
    is_terminal t.2 && negb (edge_refuted t.1.2 t.2)) (incoming d jobID).

(** The candidate condition of [applyGraphCompletion]. *)
Definition unsatisfiable (d : db) (graphID jobID : string) (j : job_row) : bool :=
  bool_decide (j_graph_id j = Some graphID) && eqs (j_phase j) "accepted" &&
  bool_decide (select (λ k (_ : graph_edge_row), eqs k.2 jobID) (d_graph_edges d) ≠ []) &&
  forallb (λ t : (string * string * string) * graph_edge_row * job_row, is_terminal t.2) (incoming d jobID) &&
  existsb (λ t : (string * string * string) * graph_edge_row * job_row, edge_refuted t.1.2 t.2) (incoming d jobID).

(** ** Resolution of unsatisfiable nodes *)

(** [ORDER BY candidate.graph_index LIMIT 1 FOR UPDATE OF candidate SKIP LOCKED] *)
Definition next_unsatisfiable (e : env) (d : db) (graphID : string) : option string :=
  fst <$> head (order_by (λ kr : string * job_row, default 0 (j_graph_index kr.2)) fst
    (select (λ k j, unsatisfiable d graphID k j && negb (row_locked e k)) (d_jobs d))).

(** The disposition, outcome and desired state a policy assigns. *)
Definition disposition_of (policy : string) : string * string * string :=
  if eqs policy "cancel" then ("cancelled", "cancelled", "cancel")
  else ((if eqs policy "skip" then "skipped" else policy), "aborted", "run").

Definition terminalize_node (namespaceID graphID policy jobID : string) : tx unit :=
  now ← asks transaction_timestamp;
  let '(disposition, outcome, desiredState) := disposition_of policy in
  wrapT "terminalize unsatisfied graph node" [] (UPDATE_ jobID (λ _, true)
    (λ j, j <| j_phase := "terminal"; j_desired_state := desiredState; j_outcome := Some outcome;
               j_graph_disposition := Some disposition; j_revision ::= Z.succ; j_updated_at := now |>));;
  wrapT "audit unsatisfied graph node" [] (audit_system namespaceID "graph.node.unsatisfied" "job" jobID
    [("graphId", graphID); ("disposition", disposition)]).

(** The [for] loop; running out of fuel is an error of the model only, which
    [resolve_nodes_bounded] excludes. *)
Definition loop_bound_error : error := Errorf "loop bound exceeded" [].
Fixpoint resolve_nodes (fuel : nat) (namespaceID graphID policy : string) : tx unit :=
  match fuel with
  | O => throw loop_bound_error
  | S fuel =>
      e ← asks id;
      d ← query id;
      match next_unsatisfiable e d graphID with
      | None => mret tt
      | Some jobID =>
          terminalize_node namespaceID graphID policy jobID;;
          resolve_nodes fuel namespaceID graphID policy
      end
  end.

Definition waiting_count (d : db) : nat :=
  Z.to_nat (count (λ j, eqs (j_phase j) "accepted") (d_jobs d)).

(** [applyGraphCompletion] *)
Definition applyGraphCompletion (namespaceID completedJobID : string) : tx unit :=
  d ← query id;
  now ← asks transaction_timestamp;
  match d_jobs d !! completedJobID with
  | None => mret tt
  | Some j =>
      match (if eqs (j_namespace_id j) namespaceID then j_graph_id j else None) with
      | None => mret tt
      | Some graphID =>
          match d_graphs d !! graphID with
          | None => mret tt
          | Some g =>
              resolve_nodes (S (waiting_count d)) namespaceID graphID (gr_unsatisfied_policy g);;
              wrapT "update completed graph" [] (UPDATE_ graphID (λ _, true)
                (λ g : graph_row, g <| gr_revision ::= Z.succ; gr_updated_at := now |>))
          end
      end
  end.

(** ** Snapshots *)

Definition in_graph (id : string) (j : job_row) : bool := bool_decide (j_graph_id j = Some id).
Definition has_disposition (l : list string) (j : job_row) : bool :=
  match j_graph_disposition j with Some o => slices_Contains l o | None => false end.

(** [graphSelect] and [scanGraph], without the items. *)
Definition scanGraph (d : db) (id : string) (g : graph_row) : option Records.Graph :=
  n ← d_namespaces d !! gr_namespace_id g;
  let counting p := count (λ j, in_graph id j && p j) (d_jobs d) in
  let total := counting (λ _, true) in
  let waiting := counting (λ j, eqs (j_phase j) "accepted") in
  let active := counting is_active in
  let terminal := counting is_terminal in
  let succeeded := counting (λ j, is_terminal j && has_outcome ["success"] j) in
  let canceled := counting (λ j, is_terminal j && has_outcome ["cancelled"] j) in
  let skipped := counting (λ j, is_terminal j && has_disposition ["skipped"] j) in
  let blocked := counting (λ j, is_terminal j && has_disposition ["blocked"] j) in
  let failed := counting (λ j, is_terminal j && lacks_outcome ["success"; "cancelled"] j &&
                               negb (is_some (j_graph_disposition j))) in
  let '(phase, outcome) :=
    if bool_decide (0 < total) && bool_decide (terminal = total) then
      ("terminal", if bool_decide (0 < failed + skipped + blocked) then "failure"
                   else if bool_decide (0 < canceled) then "cancelled" else "success")
    else if bool_decide (0 < active) then ("running", "") else ("accepted", "") in
  Some {| g_ID := id; g_Namespace := ns_name n; g_Name := gr_name g; g_Labels := gr_labels g;
    g_MaxActive := gr_max_active g; g_UnsatisfiedPolicy := gr_unsatisfied_policy g;
    g_Phase := phase; g_Outcome := outcome; g_Revision := gr_revision g;
    g_Total := total; g_Waiting := waiting; g_Active := active; g_Terminal := terminal;
    g_Succeeded := succeeded; g_Failed := failed; g_Canceled := canceled;
    g_Skipped := skipped; g_Blocked := blocked; g_Items := [];
    g_CreatedAt := UTC (gr_created_at g); g_UpdatedAt := UTC (gr_updated_at g) |}.

#[export] Instance Graph_settable : Settable Records.Graph := λ x,
  Build_Graph (g_ID x) (g_Namespace x) (g_Name x) (g_Labels x) (g_MaxActive x)
    (g_UnsatisfiedPolicy x) (g_Phase x) (g_Outcome x) (g_Revision x) (g_Total x) (g_Waiting x)
    (g_Active x) (g_Terminal x) (g_Succeeded x) (g_Failed x) (g_Canceled x) (g_Skipped x)
    (g_Blocked x) (g_Items x) (g_CreatedAt x) (g_UpdatedAt x).

(** The node of a job: [graph_nodes] has a unique row per job. *)
Definition node_of_job (d : db) (jobID : string) : option ((string * Z) * graph_node_row) :=
  head (select (λ _ n, eqs (nod_job_id n) jobID) (d_graph_nodes d)).

(** [loadGraphDependencies] *)
Definition loadGraphDependencies (d : db) (graphID downstreamID : string) : list GraphDependency :=
  let rows := t ← incoming d downstreamID;
              if eqs t.1.1.1.1 graphID then
                match node_of_job d t.1.1.1.2 with
                | Some node => [(node, t)]
                | None => []
                end
              else [] in
  (λ r : ((string * Z) * graph_node_row) * ((string * string * string) * graph_edge_row * job_row),
     {| gd_From := nod_node_name r.1.2; gd_Predicate := ed_predicate r.2.1.2;
        gd_Outcomes := ed_outcomes r.2.1.2; gd_Satisfied := edge_satisfied r.2.1.2 r.2.2 |}) <$>
  order_by (λ r : ((string * Z) * graph_node_row) * ((string * string * string) * graph_edge_row * job_row),
              r.1.1.2) (λ _, "") rows.

(** [loadGraphItems] *)
Definition loadGraphItems (g : Records.Graph) : tx Records.Graph :=
  d ← query id;
  let rows := order_by (λ kr : (string * Z) * graph_node_row, kr.1.2) (λ _, "")
                (select (λ k n, eqs k.1 (g_ID g) && is_some (d_jobs d !! nod_job_id n)) (d_graph_nodes d)) in
  items ← forT (λ acc (kr : (string * Z) * graph_node_row),
    job ← wrapT "load graph node" [nod_node_name kr.2] (getJobWithQuerier (g_Namespace g) (nod_job_id kr.2));
    mret (acc ++ [{| gi_Index := kr.1.2; gi_Name := nod_node_name kr.2;
                     gi_Disposition := default "" (d_jobs d !! nod_job_id kr.2 ≫= j_graph_disposition);
                     gi_Dependencies := loadGraphDependencies d (g_ID g) (nod_job_id kr.2);
                     gi_Job := job |}])) [] rows;
  mret (g <| g_Items := items |>).

(** [getGraphByID] *)
Definition getGraphByID (namespaceID graphID : string) : tx Records.Graph :=
  d ← query id;
  row ← row_or (d_graphs d !! graphID) ErrNoRows;
  reject (negb (eqs (gr_namespace_id row) namespaceID)) ErrNoRows;;
  g ← row_or (scanGraph d graphID row) ErrNoRows;
  loadGraphItems g.

(** ** Submission *)

(** [insertGraph] *)
Definition insertGraph (authorization : namespaceAuthorization) (graphID : string) (s : GraphSubmission) :
    tx unit :=
  document ← lift (json_Unmarshal (gs_RequestDocument s));
  now ← asks transaction_timestamp;
  wrapT "insert graph" [] (INSERT graphID {|
    gr_namespace_id := na_namespaceID authorization;
    gr_owner_principal_id := na_principalID authorization;
    gr_name := gs_Name s; gr_labels := gs_Labels s;
    gr_request_digest := gs_RequestDigest s; gr_request_document := document;
    gr_max_active := gs_MaxActive s; gr_unsatisfied_policy := gs_UnsatisfiedPolicy s;
    gr_revision := 1; gr_created_at := now; gr_updated_at := now |}).

(** [insertGraphAcceptanceEvidence] *)
Definition insertGraphAcceptanceEvidence (authorization : namespaceAuthorization)
    (graphID outboxID idempotencyKey : string) (s : GraphSubmission) : tx unit :=
  wrapT "audit graph acceptance" [] (audit_principal (na_namespaceID authorization)
    (na_principalID authorization) "graph.accepted" "graph" graphID
    (Some (gs_RequestDigest s)) (Some idempotencyKey)
    [("nodes", pretty (slice_len (gs_Nodes s))); ("edges", pretty (slice_len (gs_Edges s)));
     ("maxActive", pretty (gs_MaxActive s)); ("unsatisfiedPolicy", gs_UnsatisfiedPolicy s)]);;
  wrapT "insert graph outbox event" [] (insert_outbox outboxID (na_namespaceID authorization)
    "graph.accepted" "graph" graphID
    [("graphId", graphID); ("nodes", pretty (slice_len (gs_Nodes s)));
     ("edges", pretty (slice_len (gs_Edges s)))]).

(** One iteration of the node loop of [SubmitGraph]; the map is [jobsByName]. *)
Definition insertGraphNode (authorization : namespaceAuthorization) (graphID idempotencyKey : string)
    (jobsByName : gmap string string) (row : Z * JobSubmission * resolvedPlacement * string * string) :
    tx (gmap string string) :=
  let '(index, node, placement, jobID, outboxID) := row in
  wrapT "insert graph node" [js_Name node] (insertWorkloadRevision authorization node);;
  job ← wrapT "insert graph node" [js_Name node] (insertJob authorization jobID node placement);
  wrapT "bind graph node" [js_Name node] (UPDATE_ (job_ID job) (λ _, true)
    (λ j, j <| j_graph_id := Some graphID; j_graph_index := Some index |>));;
  wrapT "index graph node" [js_Name node] (INSERT (graphID, index)
    {| nod_node_name := js_Name node; nod_job_id := job_ID job |});;
  wrapT "record graph node" [js_Name node]
    (insertAcceptanceEvidence authorization idempotencyKey outboxID job);;
  mret (<[js_Name node := job_ID job]> jobsByName).

(** One iteration of the edge loop; a missing map entry reads as [""]. *)
Definition insertGraphEdge (graphID : string) (jobsByName : gmap string string) (edge : GraphEdgeSubmission) :
    tx unit :=
  wrapT "insert graph edge" [ges_From edge; ges_To edge] (INSERT
    (graphID, default "" (jobsByName !! ges_From edge), default "" (jobsByName !! ges_To edge))
    {| ed_predicate := ges_Predicate edge; ed_outcomes := ges_Outcomes edge |}).

Definition submitGraphOperation := "graphs.create".

(** [SubmitGraph] *)
Definition SubmitGraph (principal : Principal) (idempotencyKey : string) (s : GraphSubmission) :
    tx GraphResult :=
  reject (negb (ValidIdempotencyKey idempotencyKey)) (Errorf "invalid idempotency key" []);;
  lift (validateGraphSubmission s);;
  graphID ← newID;
  jobIDs ← newIDs (length (gs_Nodes s));
  outboxIDs ← newIDs (length (gs_Nodes s) + 1);
  wrapT "submit graph" [] (
    authorization ← authorizeSubmission principal (gs_Namespace s);
    replayed ← reserveIdempotency authorization submitGraphOperation "graph"
                 idempotencyKey (gs_RequestDigest s) 201;
    match replayed with
    | Some resourceID =>
        graph ← getGraphByID (na_namespaceID authorization) resourceID;
        mret {| gres_Graph := graph; gres_Replayed := true |}
    | None =>
        enforceNamespaceQuota (na_namespaceID authorization) (slice_len (gs_Nodes s)) 0 (slice_len (gs_Nodes s));;
        placements ← resolvePlacements (na_namespaceID authorization) "resolve graph node" (gs_Nodes s);
        insertGraph authorization graphID s;;
        jobsByName ← forT (insertGraphNode authorization graphID idempotencyKey) ∅
          (loop_rows (gs_Nodes s) placements jobIDs (tail outboxIDs));
        for_eachT (insertGraphEdge graphID jobsByName) (gs_Edges s);;
        completeIdempotency authorization submitGraphOperation idempotencyKey graphID 201;;
        insertGraphAcceptanceEvidence authorization graphID (default "" (head outboxIDs)) idempotencyKey s;;
        graph ← getGraphByID (na_namespaceID authorization) graphID;
        mret {| gres_Graph := graph; gres_Replayed := false |}
    end).

(** ** Cancellation *)

(** The non-terminal nodes, [ORDER BY j.graph_index]. *)
Definition open_nodes (d : db) (graphID : string) : list collectionSibling :=
  sibling_of d <$> order_by (λ kr : string * job_row, default 0 (j_graph_index kr.2)) (λ _, "")
    (select (λ _ j, in_graph graphID j && negb (is_terminal j)) (d_jobs d)).

(** [CancelGraph] *)
Definition CancelGraph (principal : Principal) (namespace graphID idempotencyKey requestDigest : string) :
    tx Records.Graph :=
  wrapT "cancel graph" [] (
    authorization ← authorizeNamespace principal namespace [];
    d ← query id;
    now ← asks transaction_timestamp;
    row ← row_or (d_graphs d !! graphID) ErrNotFound;
    reject (negb (eqs (gr_namespace_id row) (na_namespaceID authorization))) ErrNotFound;;
    reject (negb (eqs (gr_owner_principal_id row) (na_principalID authorization)) &&
            negb (permits authorization CapabilityJobsCancelAny)) ErrForbidden;;
    replayed ← reserveIdempotency authorization "graphs.cancel" "graph" idempotencyKey requestDigest 200;
    match replayed with
    | Some resourceID =>
        reject (negb (eqs resourceID graphID)) ErrIdempotencyConflict;;
        getGraphByID (na_namespaceID authorization) graphID
    | None =>
        nodes ← query (λ d, open_nodes d graphID);
        for_eachT (λ node, wrapT "cancel graph node" []
          (cancelCollectionSibling (na_namespaceID authorization) node)) nodes;;
        wrapT "update canceled graph" [] (UPDATE_ graphID (λ _, true)
          (λ g : graph_row, g <| gr_revision ::= Z.succ; gr_updated_at := now |>));;
        wrapT "audit graph cancellation" [] (audit_principal (na_namespaceID authorization)
          (na_principalID authorization) "graph.cancelled" "graph" graphID
          (Some requestDigest) (Some idempotencyKey) [("nodes", pretty (slice_len nodes))]);;
        completeIdempotency authorization "graphs.cancel" idempotencyKey graphID 200;;
        getGraphByID (na_namespaceID authorization) graphID
    end).
