(* ===== verification/Executions.v ===== *)
(** * Executions

    [internal/store/postgres/executions.go]: acceptance of an offered execution,
    ordered execution events, desired actions and their acknowledgement, and
    cancellation of one job; and [ReconcileStaleExecutions]
    ([reconciliation.go]). *)
From stdpp Require Import pretty.
From S2P Require Import Prelude Regex Names Domain TargetSpec Kahn Graph Contract Records Url Db Tx Constraints Auth Jobs Groups GraphStore.

(** ** Acceptance *)

(** [launchAuthorization] *)
Definition launchAuthorization (authorizationID executionID agentID generationID digest : string)
    (revision : Z) (acceptedAt : timestamptz) (replayed : bool) : LaunchAuthorization :=
  {| lau_AuthorizationID := authorizationID; lau_ExecutionID := executionID; lau_AgentID := agentID;
     lau_TargetGenerationID := generationID; lau_EffectiveExecutionDigest := digest;
     lau_Revision := revision; lau_AcceptedAt := UTC acceptedAt; lau_Replayed := replayed |}.

(** The joined row that [AcceptAssignment] locks. *)
Definition assignment_row_of (d : db) (deliveryID namespaceID : string) :
    option (assignment_row * execution_row * run_row * job_row) :=
  a ← d_assignments d !! deliveryID;
  if eqs (a_namespace_id a) namespaceID then
    x ← d_executions d !! a_execution_id a;
    r ← d_runs d !! e_run_id x;
    j ← d_jobs d !! r_job_id r;
    Some (a, x, r, j)
  else None.

(** The four updates of a first acceptance. *)
Definition accept_rows (acceptance : Acceptance) (document : AgentAcceptance)
    (executionID runID jobID : string) (revision : Z) : tx unit :=
  now ← asks transaction_timestamp;
  wrapT "accept assignment" [] (UPDATE_ (acc_DeliveryID acceptance) (λ a, eqs (a_state a) "offered")
    (λ a, a <| a_state := "accepted"; a_accepted_at := Some now;
               a_acceptance_digest := Some (acc_RequestDigest acceptance);
               a_acceptance_document := Some document |>));;
  wrapT "advance accepted execution" [] (UPDATE_ executionID (λ x, eqs (e_phase x) "planned")
    (λ x, x <| e_phase := "accepted"; e_revision := revision; e_accepted_at := Some now;
               e_updated_at := now |>));;
  wrapT "advance accepted work" [] (UPDATE_ runID (λ r, eqs (r_phase r) "assigning")
    (λ r, r <| r_phase := "accepted"; r_updated_at := now |>));;
  wrapT "advance accepted job" [] (UPDATE_ jobID (λ j, eqs (j_phase j) "assigning")
    (λ j, j <| j_phase := "accepted_execution"; j_revision ::= Z.succ; j_updated_at := now |>)).

(** [AcceptAssignment] *)
Definition AcceptAssignment (identity : AgentIdentity) (acceptance : Acceptance) :
    tx LaunchAuthorization :=
  wrapT "accept assignment" [] (
    d ← query id;
    '(a, x, r, j) ← row_or (assignment_row_of d (acc_DeliveryID acceptance) (ai_NamespaceID identity))
                      ErrNotFound;
    reject (negb (eqs (a_execution_id a) (acc_ExecutionID acceptance)) ||
            negb (eqs (a_agent_id a) (ai_AgentID identity)) ||
            negb (eqs (acc_AgentID acceptance) (ai_AgentID identity)) ||
            negb (eqs (e_target_generation_id x) (ai_TargetGenerationID identity)) ||
            negb (eqs (acc_TargetGenerationID acceptance) (e_target_generation_id x)) ||
            negb (eqs (acc_EffectiveExecutionDigest acceptance) (e_effective_spec_digest x))) ErrForbidden;;
    if eqs (a_state a) "accepted" then
      match a_accepted_at a with
      | Some acceptedAt =>
          reject (negb (eqs (default "" (a_acceptance_digest a)) (acc_RequestDigest acceptance)))
            ErrIdempotencyConflict;;
          mret (launchAuthorization (acc_DeliveryID acceptance) (a_execution_id a) (a_agent_id a)
                  (e_target_generation_id x) (e_effective_spec_digest x) (e_revision x) acceptedAt true)
      | None => throw ErrIdempotencyConflict
      end
    else
      reject (negb (eqs (a_state a) "offered")) ErrConflict;;
      reject (negb (eqs (j_desired_state j) "run")) ErrConflict;;
      committedAt ← asks transaction_timestamp;
      document ← lift (json_Unmarshal (acc_RequestDocument acceptance));
      let revision := e_revision x + 1 in
      accept_rows acceptance document (a_execution_id a) (e_run_id x) (r_job_id r) revision;;
      wrapT "audit execution acceptance" [] (audit_agent (ai_NamespaceID identity) (ai_AgentID identity)
        "execution.accepted" "execution" (a_execution_id a) (acc_RequestDigest acceptance)
        [("deliveryId", acc_DeliveryID acceptance); ("revision", pretty revision)]);;
      mret (launchAuthorization (acc_DeliveryID acceptance) (a_execution_id a) (a_agent_id a)
              (e_target_generation_id x) (e_effective_spec_digest x) revision committedAt false)).

(** ** Event validation *)

(** [validEventTransition] *)
Definition validEventTransition (phase eventType : string) : bool :=
  if eqs eventType "process.started" then eqs phase "accepted"
  else if slices_Contains ["process.completed"; "scheduler.completed"] eventType then
    eqs phase "accepted" || eqs phase "running"
  else if slices_Contains ["scheduler.uncertain"; "scheduler.submitted"] eventType then eqs phase "accepted"
  else if eqs eventType "scheduler.observed" then eqs phase "accepted" || eqs phase "running"
  else false.

(** [schedulerEvent] *)
Definition schedulerEvent (eventType : string) : bool :=
  slices_Contains ["scheduler.uncertain"; "scheduler.submitted"; "scheduler.observed"; "scheduler.completed"]
    eventType.

(** [event.Type == "process.completed" || event.Type == "scheduler.completed"] *)
Definition completionEvent (eventType : string) : bool :=
  slices_Contains ["process.completed"; "scheduler.completed"] eventType.

(** The [outputs] and [bindings] maps of [validateArtifactPublication]; a later
    entry of the same name replaces an earlier one. *)
Definition declared_outputs (effective : EffectiveExecution) : gmap string OutputArtifact :=
  foldl (λ m o, <[oa_Name o := o]> m) ∅
    (from_option art_Outputs [] (ws_Artifacts (w_Spec (wb_Document (ees_Workload (ee_Spec effective)))))).
Definition store_bindings (effective : EffectiveExecution) : gmap string Z :=
  foldl (λ m b, <[asb_Name b := asb_Version b]> m) ∅ (ees_ArtifactStores (ee_Spec effective)).

(** One published artifact matches its declared destination; a missing binding
    reads as version 0. *)
Definition publish_artifact (outputs : gmap string OutputArtifact) (bindings : gmap string Z)
    (published : gset string) (artifact : PublishedArtifact) : result (gset string) :=
  match outputs !! pa_Name artifact with
  | None => Err (Errorf "published artifact was not declared" [])
  | Some output =>
      let mismatch := Err (Errorf "published artifact does not match resolved destination" []) in
      match url_Parse (oa_Destination output) with
      | None => mismatch
      | Some destination =>
          if negb (eqs (u_Host destination) (pa_StoreName artifact)) ||
             negb (eqs (trim_slash (u_Path destination)) (pa_ObjectKey artifact)) ||
             negb (bool_decide (default 0 (bindings !! pa_StoreName artifact) = pa_StoreVersion artifact))
          then mismatch
          else Ok ({[pa_Name artifact]} ∪ published)
      end
  end.

(** [validateArtifactPublication] *)
Definition validateArtifactPublication (effective : EffectiveExecution) (eventDocument : raw ExecutionEvent) :
    result unit :=
  event ← json_Unmarshal eventDocument;
  let outputs := declared_outputs effective in
  published ← for_range (publish_artifact outputs (store_bindings effective)) ∅ (evs_Artifacts (ev_Spec event));
  for_each (λ no : string * OutputArtifact,
    fail_if (oa_Required no.2 && negb (bool_decide (no.1 ∈ published)) &&
             from_option (λ r, eqs (pr_Outcome r) "success") false (evs_Result (ev_Spec event)))
      (Errorf "required output was not published" [])) (map_to_list outputs).

(** ** Event effects *)

(** [NULLIF(s, '')] *)
Definition nullif (s : string) : option string := if eqs s "" then None else Some s.

(** The artifacts of a completion, one row each. *)
Definition insert_artifacts (identity : AgentIdentity) (event : ExecutionObservation)
    (document : ExecutionEvent) : tx unit :=
  for_eachT (λ artifact, INSERT (eo_ExecutionID event, pa_Name artifact)
    {| ar_namespace_id := ai_NamespaceID identity; ar_store_name := pa_StoreName artifact;
       ar_store_version := pa_StoreVersion artifact; ar_object_key := pa_ObjectKey artifact;
       ar_byte_length := pa_ByteLength artifact; ar_checksum := pa_Checksum artifact;
       ar_published_at := to_timestamptz (eo_ObservedAt event) |}) (evs_Artifacts (ev_Spec document)).

(** [case "process.started"] *)
Definition record_process_start (event : ExecutionObservation) (runID jobID : string) : tx unit :=
  now ← asks transaction_timestamp;
  wrapT "record process start" [] (UPDATE_ (eo_ExecutionID event) (λ _, true)
    (λ x, x <| e_phase := "running"; e_native_id := Some (eo_NativeID event);
               e_last_event_sequence := eo_Sequence event; e_revision ::= Z.succ; e_updated_at := now |>));;
  wrapT "record running run" [] (UPDATE_ runID (λ _, true)
    (λ r, r <| r_phase := "running"; r_updated_at := now |>));;
  wrapT "record running job" [] (UPDATE_ jobID (λ _, true)
    (λ j, j <| j_phase := "running"; j_revision ::= Z.succ; j_updated_at := now |>)).

(** The run and job updates that both completion cases execute. *)
Definition complete_run_and_job (event : ExecutionObservation) (runID jobID : string) : tx unit :=
  now ← asks transaction_timestamp;
  wrapT "record terminal run" [] (UPDATE_ runID (λ _, true)
    (λ r, r <| r_phase := "terminal"; r_outcome := Some (eo_Outcome event); r_updated_at := now |>));;
  wrapT "record terminal job" [] (UPDATE_ jobID (λ _, true)
    (λ j, j <| j_phase := "terminal"; j_outcome := Some (eo_Outcome event); j_revision ::= Z.succ;
               j_updated_at := now |>)).

(** [case "process.completed"] *)
Definition record_process_completion (event : ExecutionObservation) (document : ExecutionEvent)
    (runID jobID : string) : tx unit :=
  now ← asks transaction_timestamp;
  wrapT "record process completion" [] (UPDATE_ (eo_ExecutionID event) (λ _, true)
    (λ x, x <| e_phase := "terminal"; e_outcome := Some (eo_Outcome event);
               e_process_result := evs_Result (ev_Spec document);
               e_last_event_sequence := eo_Sequence event; e_revision ::= Z.succ; e_updated_at := now |>));;
  complete_run_and_job event runID jobID.

(** [case "scheduler.uncertain", "scheduler.submitted", "scheduler.observed"] *)
Definition record_scheduler_observation (event : ExecutionObservation) (runID jobID : string) : tx unit :=
  now ← asks transaction_timestamp;
  wrapT "record scheduler observation" [] (UPDATE_ (eo_ExecutionID event) (λ _, true)
    (λ x, x <| e_phase := if eqs (eo_SchedulerState event) "running" then "running" else e_phase x;
               e_native_id := if eqs (eo_NativeID event) "" then e_native_id x else Some (eo_NativeID event);
               e_native_backend := Some (eo_SchedulerBackend event);
               e_native_state := Some (eo_SchedulerState event);
               e_native_reason := nullif (eo_SchedulerReason event);
               e_native_cluster := nullif (eo_SchedulerCluster event);
               e_native_observed_at := Some (to_timestamptz (eo_ObservedAt event));
               e_last_event_sequence := eo_Sequence event; e_revision ::= Z.succ; e_updated_at := now |>));;
  if eqs (eo_SchedulerState event) "running" then
    wrapT "record scheduler running run" [] (UPDATE_ runID (λ r, eqs (r_phase r) "accepted")
      (λ r, r <| r_phase := "running"; r_updated_at := now |>));;
    wrapT "record scheduler running job" [] (UPDATE_ jobID (λ _, true)
      (λ j, j <| j_phase := "running"; j_revision ::= Z.succ; j_updated_at := now |>))
  else
    wrapT "record scheduler job observation" [] (UPDATE_ jobID (λ _, true)
      (λ j, j <| j_revision ::= Z.succ; j_updated_at := now |>)).

(** [case "scheduler.completed"] *)
Definition record_scheduler_completion (event : ExecutionObservation) (document : ExecutionEvent)
    (runID jobID : string) : tx unit :=
  now ← asks transaction_timestamp;
  wrapT "record scheduler completion" [] (UPDATE_ (eo_ExecutionID event) (λ _, true)
    (λ x, x <| e_phase := "terminal"; e_outcome := Some (eo_Outcome event);
               e_process_result := evs_Result (ev_Spec document);
               e_native_id := Some (eo_NativeID event);
               e_native_backend := Some (eo_SchedulerBackend event);
               e_native_state := Some (eo_SchedulerState event);
               e_native_reason := nullif (eo_SchedulerReason event);
               e_native_cluster := nullif (eo_SchedulerCluster event);
               e_native_observed_at := Some (to_timestamptz (eo_ObservedAt event));
               e_last_event_sequence := eo_Sequence event; e_revision ::= Z.succ; e_updated_at := now |>));;
  complete_run_and_job event runID jobID.

(** [switch event.Type]; [validEventTransition] has excluded other types. *)
Definition apply_event (event : ExecutionObservation) (document : ExecutionEvent) (runID jobID : string) : tx unit :=
  if eqs (eo_Type event) "process.started" then record_process_start event runID jobID
  else if eqs (eo_Type event) "process.completed" then record_process_completion event document runID jobID
  else if slices_Contains ["scheduler.uncertain"; "scheduler.submitted"; "scheduler.observed"] (eo_Type event)
  then record_scheduler_observation event runID jobID
  else if eqs (eo_Type event) "scheduler.completed" then record_scheduler_completion event document runID jobID
  else mret tt.

(** The confidence the event leaves behind. *)
Definition event_confidence (event : ExecutionObservation) : string :=
  if eqs (eo_Type event) "scheduler.uncertain" then "uncertain"
  else if eqs (eo_Outcome event) "lost" || eqs (eo_SchedulerState event) "lost" then "lost"
  else "current".

(** ** [RecordExecutionEvent] *)

(** The joined row that [RecordExecutionEvent] locks: execution, run, target
    generation and an event already recorded under the same identifier. *)
Definition event_row_of (d : db) (executionID namespaceID eventID : string) :
    option (execution_row * run_row * generation_row * option event_row) :=
  x ← d_executions d !! executionID;
  if eqs (e_namespace_id x) namespaceID then
    r ← d_runs d !! e_run_id x;
    tg ← d_generations d !! e_target_generation_id x;
    Some (x, r, tg, ev ← d_events d !! eventID;
                    if eqs (evt_execution_id ev) executionID then Some ev else None)
  else None.

(** Complete log streams of an execution. *)
Definition complete_streams (d : db) (executionID : string) : Z :=
  slice_len (select (λ k s, eqs k.1 executionID && eqs (ls_state s) "complete") (d_log_streams d)).

(** The guards that a new event must pass. *)
Definition admit_event (event : ExecutionObservation) (x : execution_row) (tg : generation_row) : tx unit :=
  reject (negb (bool_decide (eo_Sequence event = e_last_event_sequence x + 1))) ErrConflict;;
  reject (negb (Bool.eqb (eqs (gen_execution_backend tg) "slurm") (schedulerEvent (eo_Type event))) ||
          (schedulerEvent (eo_Type event) && negb (eqs (eo_SchedulerBackend event) "slurm"))) ErrConflict;;
  reject (negb (validEventTransition (e_phase x) (eo_Type event))) ErrConflict;;
  reject (completionEvent (eo_Type event) &&
          negb (is_ok (validateArtifactPublication (e_effective_spec x) (eo_Document event)))) ErrConflict;;
  d ← query id;
  reject (completionEvent (eo_Type event) && is_some (gen_log_store_name tg) &&
          negb (bool_decide (complete_streams d (eo_ExecutionID event) = 2))) ErrConflict.

(** [RecordExecutionEvent]: whether the event was a replay. *)
Definition RecordExecutionEvent (identity : AgentIdentity) (event : ExecutionObservation) : tx bool :=
  wrapT "record execution event" [] (
    d ← query id;
    now ← asks transaction_timestamp;
    '(x, r, tg, existing) ←
      row_or (event_row_of d (eo_ExecutionID event) (ai_NamespaceID identity) (eo_EventID event)) ErrNotFound;
    reject (negb (eqs (e_agent_id x) (ai_AgentID identity)) ||
            negb (eqs (eo_AgentID event) (ai_AgentID identity))) ErrForbidden;;
    let priorDigest := from_option evt_document_digest "" existing in
    if negb (eqs priorDigest "") then
      reject (negb (eqs priorDigest (eo_DocumentDigest event))) ErrIdempotencyConflict;;
      mret true
    else
      admit_event event x tg;;
      document ← wrapT "insert execution event" [] (lift (json_Unmarshal (eo_Document event)));
      wrapT "insert execution event" [] (INSERT (eo_EventID event) {|
        evt_namespace_id := ai_NamespaceID identity; evt_execution_id := eo_ExecutionID event;
        evt_agent_id := ai_AgentID identity; evt_source_sequence := eo_Sequence event;
        evt_event_type := eo_Type event; evt_observed_at := to_timestamptz (eo_ObservedAt event);
        evt_ingested_at := now; evt_document_digest := eo_DocumentDigest event;
        evt_document := document |});;
      whenT (completionEvent (eo_Type event))
        (wrapT "record published artifacts" [] (insert_artifacts identity event document));;
      apply_event event document (e_run_id x) (r_job_id r);;
      whenT (completionEvent (eo_Type event))
        (applyCollectionCompletion (ai_NamespaceID identity) (r_job_id r) (eo_Outcome event);;
         applyGraphCompletion (ai_NamespaceID identity) (r_job_id r));;
      wrapT "update observation confidence" [] (UPDATE_ (eo_ExecutionID event) (λ _, true)
        (λ x, x <| e_observation_confidence := event_confidence event; e_confidence_updated_at := now |>));;
      mret false).

(** ** Desired actions *)

(** [ListDesiredActions]: redeliver the oldest pending actions of an agent. *)
Definition ListDesiredActions (identity : AgentIdentity) (limit : Z) : tx (list DesiredAction) :=
  reject (bool_decide (limit < 1) || bool_decide (100 < limit))
    (Errorf "action limit must be between 1 and 100" []);;
  now ← asks transaction_timestamp;
  e ← asks id;
  d ← query id;
  let selected := take (Z.to_nat limit) (order_by (λ kr : string * action_row, act_created_at kr.2) fst
    (select (λ k a, eqs (act_agent_id a) (ai_AgentID identity) &&
                    eqs (act_namespace_id a) (ai_NamespaceID identity) &&
                    eqs (act_state a) "pending" && negb (row_locked e k)) (d_actions d))) in
  wrapT "list desired actions" [] (for_eachT (λ kr : string * action_row, UPDATE_ kr.1 (λ _, true)
    (λ a, a <| act_delivery_count ::= Z.succ; act_last_delivered_at := Some now |>)) selected);;
  mret ((λ kr : string * action_row, {| da_ActionID := kr.1; da_ExecutionID := act_execution_id kr.2;
           da_AgentID := act_agent_id kr.2; da_Revision := act_revision kr.2;
           da_Document := act_document kr.2; da_CreatedAt := UTC (act_created_at kr.2) |}) <$> selected).

Definition action_matches (identity : AgentIdentity) (ack : ActionAcknowledgement) (a : action_row) : bool :=
  eqs (act_namespace_id a) (ai_NamespaceID identity) && eqs (act_execution_id a) (aka_ExecutionID ack) &&
  eqs (act_agent_id a) (ai_AgentID identity) && bool_decide (act_revision a = aka_Revision ack).

(** [AcknowledgeDesiredAction]: whether the acknowledgement was a replay.  The
    two statements run outside a transaction; the second only reads. *)
Definition AcknowledgeDesiredAction (identity : AgentIdentity) (ack : ActionAcknowledgement) : tx bool :=
  n ← wrapT "acknowledge desired action" [] (UPDATE (aka_ActionID ack)
    (λ a, action_matches identity ack a && eqs (act_state a) "pending")
    (λ a, a <| act_state := "acknowledged"; act_acknowledged_at := Some (to_timestamptz (aka_ObservedAt ack)) |>));
  if bool_decide (n = 1) then mret false
  else
    d ← query id;
    a ← row_or (d_actions d !! aka_ActionID ack) ErrNotFound;
    reject (negb (action_matches identity ack a)) ErrNotFound;;
    mret (eqs (act_state a) "acknowledged").

(** ** Cancellation of one job *)

(** The [switch] of [CancelJob]: no execution yet, an execution that is only
    planned, or one an agent has accepted. *)
Definition cancel_by_phase (namespaceID jobID actionID : string) : tx unit :=
  now ← asks transaction_timestamp;
  d ← query id;
  match execution_of_job d jobID with
  | None => UPDATE_ jobID (λ _, true) (cancel_job_row now)
  | Some (runID, r, executionID, x) =>
      if eqs (e_phase x) "planned" then
        withdraw_assignment executionID;;
        UPDATE_ executionID (λ _, true) (cancel_execution_row now);;
        UPDATE_ runID (λ _, true) (cancel_run_row now);;
        UPDATE_ jobID (λ _, true) (cancel_job_row now)
      else
        insert_cancel_action actionID namespaceID executionID (e_agent_id x)
          (cancelAction actionID executionID (e_agent_id x) (UTC now));;
        UPDATE_ runID (λ _, true) (desire_cancel_run now);;
        UPDATE_ jobID (λ _, true) (desire_cancel_job now)
  end.

(** [CancelJob] *)
Definition CancelJob (principal : Principal) (namespace jobID idempotencyKey requestDigest : string) : tx Job :=
  actionID ← newID;
  wrapT "cancel job" [] (
    authorization ← authorizeNamespace principal namespace [];
    d ← query id;
    j ← row_or (d_jobs d !! jobID) ErrNotFound;
    reject (negb (eqs (j_namespace_id j) (na_namespaceID authorization))) ErrNotFound;;
    reject (negb (eqs (j_owner_principal_id j) (na_principalID authorization)) &&
            negb (permits authorization CapabilityJobsCancelAny)) ErrForbidden;;
    replayed ← reserveIdempotency authorization "jobs.cancel" "job" idempotencyKey requestDigest 200;
    match replayed with
    | Some replayedJobID =>
        reject (negb (eqs replayedJobID jobID)) ErrIdempotencyConflict;;
        getJobByID (na_namespaceID authorization) jobID
    | None =>
        if eqs (j_phase j) "terminal" || eqs (j_desired_state j) "cancel" then
          completeIdempotency authorization "jobs.cancel" idempotencyKey jobID 200;;
          getJobByID (na_namespaceID authorization) jobID
        else
          wrapT "apply job cancellation" [] (cancel_by_phase (na_namespaceID authorization) jobID actionID);;
          completeIdempotency authorization "jobs.cancel" idempotencyKey jobID 200;;
          job ← getJobByID (na_namespaceID authorization) jobID;
          whenT (eqs (job_Phase job) "terminal")
            (applyGraphCompletion (na_namespaceID authorization) jobID);;
          mret job
    end).

(** ** Stale observations *)

(** The execution [ReconcileStaleExecutions] claims: live, still current, and its
    agent not seen for [staleAfter]. *)
Definition last_contact (a : agent_row) : timestamptz := default (ag_updated_at a) (ag_last_seen_at a).
Definition stale_candidates (e : env) (d : db) (staleAfter : Z) : list (timestamptz * string * execution_row * run_row) :=
  kr ← map_to_list (d_executions d);
  match d_runs d !! e_run_id kr.2, d_agents d !! e_agent_id kr.2 with
  | Some r, Some a =>
      if slices_Contains ["accepted"; "running"] (e_phase kr.2) &&
         eqs (e_observation_confidence kr.2) "current" &&
         bool_decide (last_contact a < transaction_timestamp e - staleAfter / 1000) &&
         negb (row_locked e kr.1)
      then [(last_contact a, kr.1, kr.2, r)] else []
  | _, _ => []
  end.

(** The transaction of one iteration of [ReconcileStaleExecutions]. *)
Definition reconcileOneStale (staleAfter : Z) (outboxID : string) : tx bool :=
  now ← asks transaction_timestamp;
  e ← asks id;
  d ← query id;
  match head (order_by (λ t : timestamptz * string * execution_row * run_row, t.1.1.1) (λ t, t.1.1.2)
                (stale_candidates e d staleAfter)) with
  | None => mret false
  | Some (_, executionID, x, r) =>
      wrapT "mark execution stale" [] (UPDATE_ executionID (λ x, eqs (e_observation_confidence x) "current")
        (λ x, x <| e_observation_confidence := "stale"; e_revision ::= Z.succ;
                   e_confidence_updated_at := now; e_updated_at := now |>));;
      wrapT "project stale job observation" [] (UPDATE_ (r_job_id r) (λ _, true)
        (λ j, j <| j_revision ::= Z.succ; j_updated_at := now |>));;
      wrapT "audit stale execution" [] (audit_system (e_namespace_id x) "execution.observation_stale"
        "execution" executionID [("agentId", e_agent_id x); ("staleAfter", pretty staleAfter)]);;
      wrapT "insert stale execution outbox event" [] (insert_outbox outboxID (e_namespace_id x)
        "execution.observation_stale" "execution" executionID
        [("executionId", executionID); ("agentId", e_agent_id x)]);;
      mret true
  end.

(** The loop: each iteration is its own transaction with its own environment; the
    count and the error that ended it, if any. *)
Fixpoint stale_loop (n : nat) (staleAfter : Z) (es : nat → env) (d : db) (updated : Z) :
    Z * option error * db :=
  match n with
  | O => (updated, None, d)
  | S n =>
      match inTransaction (outboxID ← newID; reconcileOneStale staleAfter outboxID) (es n) d with
      | (Ok true, d') => stale_loop n staleAfter es d' (updated + 1)
      | (Ok false, d') => (updated, None, d')
      | (Err err, d') => (updated, Some (Wrapf "reconcile stale execution" [] err), d')
      end
  end.

(** [ReconcileStaleExecutions] *)
Definition ReconcileStaleExecutions (staleAfter limit : Z) (es : nat → env) (d : db) : Z * option error * db :=
  if bool_decide (staleAfter < Minute) || bool_decide (24 * Hour < staleAfter) then
    (0, Some (Errorf "stale execution threshold must be between one minute and 24 hours" []), d)
  else if bool_decide (limit < 1) || bool_decide (1000 < limit) then
    (0, Some (Errorf "stale execution reconciliation limit must be between 1 and 1000" []), d)
  else stale_loop (Z.to_nat limit) staleAfter es d 0.
