(* ===== verification/Coordinator.v ===== *)
(** * The coordinator

    [internal/store/postgres/coordinator.go]: the claim of one dispatchable job,
    the documents it is offered under, and the loop that materializes up to a
    limit of inert assignments. *)
From stdpp Require Import pretty.
From S2P Require Import Prelude Regex Names Domain TargetSpec Kahn Graph Contract Records Url Db Tx Constraints Auth Jobs Groups GraphStore Executions.

Record assignmentCandidate := {
  ca_jobID : string;
  ca_namespaceID : string;
  ca_namespace : string;
  ca_targetID : string;
  ca_targetGenerationID : string;
  ca_targetName : string;
  ca_partition : string;
  ca_executionBackend : string;
  ca_agentID : string;
  ca_workloadDigest : string;
  ca_workloadDocument : Workload;
  ca_artifactStores : list ArtifactStoreSpec;
  ca_collectionID : string;
  ca_collectionIndex : Z;
  ca_collectionCount : Z;
  ca_collectionArrayMode : string;
  ca_collectionMaxActive : Z }.

(** ** Agent eligibility *)

(** [jsonb_array_length(COALESCE(list, '[]')) = 0 OR value IN (list)] *)
Definition unconstrained_or_in (l : list string) (value : string) : bool :=
  bool_decide (l = []) || slices_Contains l value.

Definition requirement (f : Requirements → list string) (w : Workload) : list string :=
  from_option f [] (ws_Requirements (w_Spec w)).

(** A session that is neither revoked nor expired. *)
Definition live_session (e : env) (d : db) (agentID : string) : bool :=
  existsb (λ kr : string * session_row, eqs (se_agent_id kr.2) agentID &&
    negb (is_some (se_revoked_at kr.2)) && bool_decide (transaction_timestamp e < se_expires_at kr.2))
    (map_to_list (d_sessions d)).

(** The agent of the first execution of a collection. *)
Definition array_agent (d : db) (collectionID : string) : option string :=
  (λ kr : string * execution_row, e_agent_id kr.2) <$>
  head (order_by (λ kr : string * execution_row, e_created_at kr.2) fst
    (select (λ _ x, match d_runs d !! e_run_id x with
                    | Some r => exists_row (d_jobs d) (r_job_id r) (in_collection collectionID)
                    | None => false
                    end) (d_executions d))).

(** The conditions on [candidate_agent]. *)
Definition agent_eligible (e : env) (d : db) (j : job_row) (tg : generation_row) (w : Workload)
    (collection : option collection_row) (agentID : string) (a : agent_row) : bool :=
  eqs (ag_namespace_id a) (j_namespace_id j) &&
  bool_decide (Some (ag_target_id a) = j_target_id j) &&
  bool_decide (Some (ag_target_generation_id a) = j_target_generation_id j) &&
  eqs (ag_principal_id a) (j_owner_principal_id j) &&
  eqs (ag_status a) "active" &&
  ag_accepting_assignments a &&
  match ag_last_capability_at a with
  | Some t => bool_decide (transaction_timestamp e - seconds 600 < t)
  | None => false
  end &&
  slices_Contains (ag_execution_backends a) (gen_execution_backend tg) &&
  slices_Contains (ag_runtimes a) (rt_Kind (ws_Runtime (w_Spec w))) &&
  unconstrained_or_in (requirement req_OperatingSystems w) (ag_operating_system a) &&
  unconstrained_or_in (requirement req_Architectures w) (ag_architecture a) &&
  forallb (slices_Contains (ag_capabilities a)) (requirement req_Capabilities w) &&
  live_session e d agentID &&
  match collection with
  | Some c =>
      negb (eqs (co_array_mode c) "slurm-array") ||
      eqs agentID (default agentID (j_collection_id j ≫= array_agent d))
  | None => true
  end.

(** [ORDER BY candidate_agent.created_at, candidate_agent.id LIMIT 1] *)
Definition chosen_agent (e : env) (d : db) (j : job_row) (tg : generation_row) (w : Workload)
    (collection : option collection_row) : option string :=
  fst <$> head (order_by (λ kr : string * agent_row, ag_created_at kr.2) fst
    (select (agent_eligible e d j tg w collection) (d_agents d))).

(** ** Dispatch conditions *)

(** A group row that another transaction has locked is skipped. *)
Definition unlocked {R} (e : env) (m : gmap string R) (k : option string) : option R :=
  id ← k; if row_locked e id then None else m !! id.

Definition active_in (d : db) (p : job_row → bool) : Z := count (λ j, p j && is_active j) (d_jobs d).

(** The [WHERE] clause: no recovery hold, the job waits and is wanted, and the
    namespace, collection and graph limits leave room. *)
Definition dispatchable (e : env) (d : db) (jobID : string) (j : job_row) (policy : policy_row) : bool :=
  negb (d_reconciliation_hold d) &&
  eqs (j_phase j) "accepted" && eqs (j_desired_state j) "run" &&
  bool_decide (active_in d (λ o, eqs (j_namespace_id o) (j_namespace_id j)) < po_max_active_jobs policy) &&
  match j_collection_id j with
  | None => true
  | Some c =>
      match unlocked e (d_collections d) (Some c) with
      | None => false
      | Some row => eqs (co_array_mode row) "slurm-array" ||
                    bool_decide (active_in d (in_collection c) < co_max_active row)
      end
  end &&
  match j_graph_id j with
  | None => true
  | Some g =>
      match unlocked e (d_graphs d) (Some g) with
      | None => false
      | Some row => bool_decide (active_in d (in_graph g) < gr_max_active row) && dependencies_met d jobID
      end
  end.

(** The joined row of one job, when every inner join matches. *)
Definition candidate_of (e : env) (d : db) (jobID : string) (j : job_row) :
    option (policy_row * assignmentCandidate) :=
  n ← d_namespaces d !! j_namespace_id j;
  policy ← d_policies d !! j_namespace_id j;
  targetID ← j_target_id j;
  t ← d_targets d !! targetID;
  if negb (eqs (tg_state t) "active") then None else
  generationID ← j_target_generation_id j;
  tg ← d_generations d !! generationID;
  w ← d_workload_revisions d !! (j_namespace_id j, j_workload_digest j);
  let collection := unlocked e (d_collections d) (j_collection_id j) in
  agentID ← chosen_agent e d j tg (wr_document w) collection;
  Some (policy, {|
    ca_jobID := jobID; ca_namespaceID := j_namespace_id j; ca_namespace := ns_name n;
    ca_targetID := targetID; ca_targetGenerationID := generationID;
    ca_targetName := j_placement_target j; ca_partition := default "" (j_placement_partition j);
    ca_executionBackend := gen_execution_backend tg; ca_agentID := agentID;
    ca_workloadDigest := j_workload_digest j; ca_workloadDocument := wr_document w;
    ca_artifactStores := j_resolved_artifact_stores j;
    ca_collectionID := default "" (j_collection_id j);
    ca_collectionIndex := default (-1) (j_collection_index j);
    ca_collectionCount := match j_collection_id j with
                          | None => 0
                          | Some c => count (in_collection c) (d_jobs d)
                          end;
    ca_collectionArrayMode := from_option co_array_mode "" collection;
    ca_collectionMaxActive := from_option co_max_active 0 collection |}).

(** All dispatchable candidates with their sort keys: jobs and policies that
    another transaction has locked are skipped. *)
Definition dispatch_candidates (e : env) (d : db) : list (Z * Z * Z * assignmentCandidate) :=
  kr ← map_to_list (d_jobs d);
  match candidate_of e d kr.1 kr.2 with
  | Some (policy, c) =>
      if dispatchable e d kr.1 kr.2 policy && negb (row_locked e kr.1) &&
         negb (row_locked e (j_namespace_id kr.2))
      then [(nulls_first (po_last_dispatched_at policy), j_created_at kr.2, c)] else []
  | None => []
  end.

(** [claimAssignmentCandidate] *)
Definition claimAssignmentCandidate : tx (option assignmentCandidate) := λ e d,
  Ok (snd <$> head (order_by_keys (fst : Z * Z * Z * assignmentCandidate → Z * Z * Z) (λ c, ca_jobID c.2)
                      (dispatch_candidates e d)), d).

(** ** Offers *)

Section coordinator.
Context `{Sealer}.

(** [buildAssignmentDocument] *)
Definition buildAssignmentDocument (candidate : assignmentCandidate) (runID executionID deliveryID : string) :
  result (SealedAgentAssignment * string) :=
let slurmArray :=
  if eqs (ca_collectionArrayMode candidate) "slurm-array" then
    Some {| sab_CollectionID := ca_collectionID candidate; sab_TaskIndex := ca_collectionIndex candidate;
            sab_TaskCount := ca_collectionCount candidate;
            sab_MaxParallel := ca_collectionMaxActive candidate |}
  else None in
effective ← wrap "seal effective execution" [] (SealEffectiveExecution {|
  ee_APIVersion := V1Alpha1; ee_Kind := EffectiveExecutionKind;
  ee_Metadata := {| eem_ExecutionID := executionID; eem_RunID := runID; eem_JobID := ca_jobID candidate;
                    eem_Namespace := ca_namespace candidate; eem_SlurmArray := slurmArray |};
  ee_Spec := {|
    ees_Workload := {| wb_Digest := ca_workloadDigest candidate; wb_Document := ca_workloadDocument candidate |};
    ees_Placement := {| epl_TargetID := ca_targetID candidate;
                        epl_TargetGenerationID := ca_targetGenerationID candidate;
                        epl_Target := ca_targetName candidate; epl_Partition := ca_partition candidate;
                        epl_ExecutionBackend := ca_executionBackend candidate |};
    ees_ArtifactStores := (λ s, {| asb_Name := as_Name s; asb_Version := as_Version s |}) <$>
                            ca_artifactStores candidate |} |});
assignment ← wrap "seal agent assignment" [] (SealAgentAssignment {|
  aa_APIVersion := V1Alpha1; aa_Kind := AgentAssignmentKind;
  aa_Metadata := {| aam_DeliveryID := deliveryID; aam_AgentID := ca_agentID candidate |};
  aa_Spec := {| aas_EffectiveExecutionDigest := see_Digest effective;
                aas_EffectiveExecution := see_Document effective |} |});
Ok (assignment, see_Digest effective).

(** The run, execution and assignment rows of an offer. *)
Definition insert_offer (candidate : assignmentCandidate) (runID executionID deliveryID digest : string)
  (assignment : AgentAssignment) : tx unit :=
now ← asks transaction_timestamp;
wrapT "insert run" [] (INSERT runID {|
  r_namespace_id := ca_namespaceID candidate; r_job_id := ca_jobID candidate; r_run_number := 1;
  r_phase := "assigning"; r_desired_state := "run"; r_outcome := None;
  r_created_at := now; r_updated_at := now |});;
wrapT "insert execution" [] (INSERT executionID {|
  e_namespace_id := ca_namespaceID candidate; e_run_id := runID; e_target_id := ca_targetID candidate;
  e_target_generation_id := ca_targetGenerationID candidate; e_agent_id := ca_agentID candidate;
  e_phase := "planned"; e_effective_spec_digest := digest;
  e_effective_spec := aas_EffectiveExecution (aa_Spec assignment);
  e_revision := 1; e_accepted_at := None; e_last_event_sequence := 0; e_native_id := None;
  e_outcome := None; e_process_result := None; e_native_backend := None; e_native_state := None;
  e_native_reason := None; e_native_cluster := None; e_native_observed_at := None;
  e_observation_confidence := "current"; e_confidence_updated_at := now;
  e_created_at := now; e_updated_at := now |});;
wrapT "insert assignment" [] (INSERT deliveryID {|
  a_namespace_id := ca_namespaceID candidate; a_execution_id := executionID;
  a_agent_id := ca_agentID candidate; a_state := "offered"; a_document := assignment;
  a_delivery_count := 0; a_last_delivered_at := None; a_accepted_at := None; a_rejected_at := None;
  a_rejection_code := None; a_acceptance_digest := None; a_acceptance_document := None;
  a_created_at := now |}).

(** [reconcileOneAssignment] *)
Definition reconcileOneAssignment (runID executionID deliveryID outboxID : string) : tx bool :=
now ← asks transaction_timestamp;
claimed ← claimAssignmentCandidate;
match claimed with
| None => mret false
| Some candidate =>
    '(document, digest) ← lift (buildAssignmentDocument candidate runID executionID deliveryID);
    insert_offer candidate runID executionID deliveryID digest (saa_Document document);;
    n ← wrapT "advance assigned job" [] (UPDATE (ca_jobID candidate)
      (λ j, eqs (j_phase j) "accepted" && eqs (j_desired_state j) "run")
      (λ j, j <| j_phase := "assigning"; j_revision ::= Z.succ; j_updated_at := now |>));
    reject (negb (bool_decide (n = 1))) (Errorf "assignment candidate transition was lost" []);;
    wrapT "advance namespace fairness cursor" [] (UPDATE_ (ca_namespaceID candidate) (λ _, true)
      (λ p : policy_row, p <| po_last_dispatched_at := Some now; po_updated_at := now |>));;
    wrapT "audit assignment" [] (audit_system (ca_namespaceID candidate) "assignment.offered" "execution"
      executionID [("agentId", ca_agentID candidate); ("deliveryId", deliveryID);
                   ("effectiveExecutionDigest", digest)]);;
    wrapT "insert assignment outbox event" [] (insert_outbox outboxID (ca_namespaceID candidate)
      "assignment.offered" "execution" executionID
      [("apiVersion", "jobman.control/v1alpha1"); ("kind", "AssignmentOffered");
       ("executionId", executionID); ("deliveryId", deliveryID); ("agentId", ca_agentID candidate);
       ("effectiveExecutionDigest", digest)]);;
    mret true
end.

(** One iteration: four identifiers, then the transaction. *)
Definition reconcile_iteration : tx bool :=
identifiers ← newIDs 4;
match identifiers with
| [runID; executionID; deliveryID; outboxID] =>
    wrapT "reconcile assignment" [] (reconcileOneAssignment runID executionID deliveryID outboxID)
| _ => throw (Errorf "identifiers" [])
end.

Fixpoint reconcile_loop (n : nat) (es : nat → env) (d : db) (created : Z) : Z * option error * db :=
match n with
| O => (created, None, d)
| S n =>
    match inTransaction reconcile_iteration (es n) d with
    | (Ok true, d') => reconcile_loop n es d' (created + 1)
    | (Ok false, d') => (created, None, d')
    | (Err err, d') => (created, Some err, d')
    end
end.

(** [ReconcileAssignments] *)
Definition ReconcileAssignments (limit : Z) (es : nat → env) (d : db) : Z * option error * db :=
if bool_decide (limit < 1) || bool_decide (1000 < limit) then
  (0, Some (Errorf "coordinator assignment limit must be between 1 and 1000" []), d)
else reconcile_loop (Z.to_nat limit) es d 0.
End coordinator.
