(* ===== verification/Agents.v ===== *)
(** * Agents

    [internal/store/postgres/agents.go] and [capabilities.go]: enrollment tokens, agents, their sessions
    and certificates, capability observations, and the delivery of offered assignments.  The token key is
    a parameter of the store.  A statement outside [inTransaction] commits by itself, so it is a
    transaction of one statement. *)
From stdpp Require Import pretty.
From S2P Require Import Prelude Regex Names Domain TargetSpec Kahn Graph Contract Records Url Json Tokens Db Tx Constraints Auth Jobs.

(** ** Data ([internal/domain/control.go]) *)

Record EnrollmentToken := {
  et_ID : string;
  et_Namespace : string;
  et_Target : string;
  et_TargetGenerationID : string;
  et_Principal : Principal;
  et_ExpectedUser : string;
  et_Token : string;
  et_ExpiresAt : time;
  et_Replayed : bool }.
Record AgentSession := {
  ags_AgentID : string; ags_SessionID : string; ags_Token : string; ags_ExpiresAt : time; ags_Replayed : bool }.
Record AgentCertificate := {
  cert_Serial : string; cert_PublicKeyDigest : string; cert_ExpiresAt : time }.
Record AgentCapabilitySnapshot := {
  acs_AgentCapabilities : AgentCapabilities; acs_Revision : Z; acs_Replayed : bool }.
Record Assignment := {
  asg_DeliveryID : string;
  asg_ExecutionID : string;
  asg_EffectiveExecutionDigest : string;
  asg_Document : AgentAssignment;
  asg_CreatedAt : time }.

(** ** Lookups *)

(** Go durations are nanoseconds. *)
Definition time_Minute : Z := 60000000000.
Definition time_Hour : Z := 60 * time_Minute.

(** [$n::interval] of the text of a [time.Duration]: PostgreSQL keeps microseconds, rounded. *)
Definition to_interval (duration : Z) : Z :=
  let q := duration / 1000 in
  let r := duration mod 1000 in
  if bool_decide (r < 500) || (bool_decide (r = 500) && Z.even q) then q else q + 1.

Definition validSessionLifetime (value : Z) : bool := bool_decide (time_Minute ≤ value ≤ 24 * time_Hour).
Definition allowsValue (allowed : list string) (value : string) : bool :=
  bool_decide (slice_len allowed = 0) || slices_Contains allowed value.
(** The loop of [isSubset] returns at the first value that is missing. *)
Definition isSubset (values allowed : list string) : bool := forallb (slices_Contains allowed) values.

Definition present_states := ["active"; "draining"].
(** [a.status IN (...) AND t.state IN (...)] for the target of the agent. *)
Definition agent_present (d : db) (a : agent_row) : bool :=
  slices_Contains present_states (ag_status a) &&
  exists_row (d_targets d) (ag_target_id a) (λ t, slices_Contains present_states (tg_state t)).

(** The session rows a token can authenticate: hash, revocation, expiry, agent and target. *)
Definition authenticates (now : timestamptz) (d : db) (hash : list Z) (s : session_row) : bool :=
  bool_decide (se_token_hash s = hash) && negb (is_some (se_revoked_at s)) &&
  bool_decide (now < se_expires_at s) && exists_row (d_agents d) (se_agent_id s) (agent_present d).
Definition session_of_token (now : timestamptz) (d : db) (hash : list Z) : option (string * session_row * agent_row) :=
  '(sessionID, s) ← head (select (λ _, authenticates now d hash) (d_sessions d));
  a ← d_agents d !! se_agent_id s;
  Some (sessionID, s, a).

(** ** Enrollment tokens *)

Record enrollmentBinding := {
  eb_enrollmentID : string;
  eb_namespaceID : string;
  eb_targetID : string;
  eb_generationID : string;
  eb_principalID : string;
  eb_expectedUser : string;
  eb_usedAgentID : string;
  eb_targetState : string;
  eb_executionBackend : string;
  eb_operatingSystems : list string;
  eb_architectures : list string;
  eb_expired : bool }.

Definition binding_of (now : timestamptz) (enrollmentID : string) (t : enrollment_row) (target : target_row)
    (g : generation_row) : enrollmentBinding :=
  {| eb_enrollmentID := enrollmentID; eb_namespaceID := en_namespace_id t; eb_targetID := en_target_id t;
     eb_generationID := en_target_generation_id t; eb_principalID := en_principal_id t;
     eb_expectedUser := en_expected_user t; eb_usedAgentID := default "" (en_used_by_agent_id t);
     eb_targetState := tg_state target; eb_executionBackend := gen_execution_backend g;
     eb_operatingSystems := gen_operating_systems g; eb_architectures := gen_architectures g;
     eb_expired := bool_decide (en_expires_at t ≤ now) |}.

(** The joins and conditions of the query of [lookupEnrollmentForUpdate]. *)
Definition enrollment_binding (now : timestamptz) (d : db) (hash : list Z) (enrollmentID : string) (t : enrollment_row) :
    option enrollmentBinding :=
  target ← d_targets d !! en_target_id t;
  g ← d_generations d !! en_target_generation_id t;
  if bool_decide (en_token_hash t = hash) && bool_decide (tg_current_generation_id target = Some (en_target_generation_id t))
  then Some (binding_of now enrollmentID t target g) else None.

Definition lookupEnrollmentForUpdate (token : string) : tx enrollmentBinding :=
  d ← query id;
  now ← asks transaction_timestamp;
  row_or (head (omap (λ kt : string * enrollment_row, enrollment_binding now d (hashToken token) kt.1 kt.2)
            (map_to_list (d_enrollments d)))) ErrUnauthenticated.

Section agents.
Context (tokenKey : bytes).

Definition getEnrollmentToken (namespaceID enrollmentID : string) : tx EnrollmentToken :=
  d ← query id;
  row_or (
    t ← d_enrollments d !! enrollmentID;
    n ← d_namespaces d !! en_namespace_id t;
    target ← d_targets d !! en_target_id t;
    p ← d_principals d !! en_principal_id t;
    if eqs (en_namespace_id t) namespaceID then
      Some {| et_ID := enrollmentID; et_Namespace := ns_name n; et_Target := tg_name target;
              et_TargetGenerationID := en_target_generation_id t;
              et_Principal := {| p_Delegation := None; p_Issuer := prn_issuer p; p_Subject := prn_subject p |};
              et_ExpectedUser := en_expected_user t;
              et_Token := if is_some (en_used_at t) then "" else deriveToken tokenKey "jme" enrollmentID;
              et_ExpiresAt := UTC (en_expires_at t); et_Replayed := false |}
    else None) ErrNoRows.

Definition auditEnrollment (authorization : namespaceAuthorization) (enrollmentID generationID idempotencyKey requestDigest : string)
    (request : EnrollmentRequest) : tx unit :=
  wrapT "audit enrollment token" [] (audit_principal (na_namespaceID authorization) (na_principalID authorization)
    "agent.enrollment-token.created" "agent_enrollment_token" enrollmentID (Some requestDigest) (Some idempotencyKey)
    [("targetGenerationId", generationID); ("principalIssuer", p_Issuer (er_Principal request));
     ("principalSubject", p_Subject (er_Principal request)); ("expectedUser", er_ExpectedUser request)]).

Definition createEnrollmentOperation := "agent-enrollment-tokens.create".

(** The recipient must be able to read the namespace; a recipient who cannot is reported as missing. *)
Definition authorizeRecipient (principal : Principal) (namespace : string) : tx namespaceAuthorization := λ e d,
  match authorizeNamespace principal namespace [CapabilityNamespaceRead] e d with
  | Ok r => Ok r
  | Err err => Err (if errors_Is err ErrForbidden then ErrNotFound else err)
  end.

Definition CreateEnrollmentToken (actor : Principal) (namespace targetName idempotencyKey requestDigest : string)
    (request : EnrollmentRequest) : tx EnrollmentToken :=
  reject (negb (ValidIdempotencyKey idempotencyKey)) (Errorf "invalid idempotency key" []);;
  lift (ValidateEnrollmentRequest request);;
  enrollmentID ← newID;
  wrapT "create enrollment token" [] (
    authorization ← authorizeNamespace actor namespace [CapabilityEnrollmentCreateOwn];
    recipient ← authorizeRecipient (er_Principal request) namespace;
    reject (negb (permits authorization CapabilityEnrollmentCreateAny) &&
            negb (eqs (na_principalID recipient) (na_principalID authorization))) ErrForbidden;;
    replayed ← reserveIdempotency authorization createEnrollmentOperation "agent_enrollment_token"
                 idempotencyKey requestDigest 201;
    match replayed with
    | Some resourceID =>
        token ← getEnrollmentToken (na_namespaceID authorization) resourceID;
        mret {| et_ID := et_ID token; et_Namespace := et_Namespace token; et_Target := et_Target token;
                et_TargetGenerationID := et_TargetGenerationID token; et_Principal := et_Principal token;
                et_ExpectedUser := et_ExpectedUser token; et_Token := et_Token token;
                et_ExpiresAt := et_ExpiresAt token; et_Replayed := true |}
    | None =>
        d ← query id;
        now ← asks transaction_timestamp;
        '(targetID, target, generationID, _) ← row_or (current_target d (na_namespaceID authorization) targetName) ErrNotFound;
        reject (negb (eqs (tg_state target) "active")) ErrConflict;;
        let clearToken := deriveToken tokenKey "jme" enrollmentID in
        let expiresAt := now + to_interval (er_Lifetime request) in
        wrapT "insert agent enrollment token" [] (INSERT enrollmentID {|
          en_namespace_id := na_namespaceID authorization; en_target_id := targetID;
          en_target_generation_id := generationID; en_principal_id := na_principalID recipient;
          en_created_by_principal_id := na_principalID authorization; en_expected_user := er_ExpectedUser request;
          en_token_hash := hashToken clearToken; en_request_digest := requestDigest; en_expires_at := expiresAt;
          en_used_at := None; en_used_by_agent_id := None; en_created_at := now |});;
        completeIdempotency authorization createEnrollmentOperation idempotencyKey enrollmentID 201;;
        auditEnrollment authorization enrollmentID generationID idempotencyKey requestDigest request;;
        mret {| et_ID := enrollmentID; et_Namespace := namespace; et_Target := targetName;
                et_TargetGenerationID := generationID; et_Principal := er_Principal request;
                et_ExpectedUser := er_ExpectedUser request; et_Token := clearToken;
                et_ExpiresAt := UTC expiresAt; et_Replayed := false |}
    end).

(** ** Enrollment *)

(** [ORDER BY s.created_at DESC LIMIT 1] among the live sessions of the agent. *)
Definition live_sessions_of (now : timestamptz) (d : db) (agentID : string) : list (string * session_row) :=
  select (λ _ s, eqs (se_agent_id s) agentID && negb (is_some (se_revoked_at s)) && bool_decide (now < se_expires_at s))
    (d_sessions d).
Definition latest_session (l : list (string * session_row)) : option (string * session_row) :=
  head (order_by (λ ks : string * session_row, - se_created_at ks.2) fst l).

Definition replayEnrollment (binding : enrollmentBinding) (registrationDigest : string) : tx AgentSession :=
  d ← query id;
  now ← asks transaction_timestamp;
  '(sessionID, s, a) ← row_or (
    '(sessionID, s) ← latest_session (live_sessions_of now d (eb_usedAgentID binding));
    a ← d_agents d !! eb_usedAgentID binding;
    Some (sessionID, s, a)) ErrConflict;
  reject (negb (eqs (ag_registration_digest a) registrationDigest)) ErrIdempotencyConflict;;
  mret {| ags_AgentID := eb_usedAgentID binding; ags_SessionID := sessionID;
          ags_Token := deriveToken tokenKey "jms" sessionID; ags_ExpiresAt := UTC (se_expires_at s);
          ags_Replayed := true |}.

Definition new_agent (binding : enrollmentBinding) (registration : AgentRegistration) (now : timestamptz) : agent_row :=
  {| ag_namespace_id := eb_namespaceID binding; ag_target_id := eb_targetID binding;
     ag_target_generation_id := eb_generationID binding; ag_principal_id := eb_principalID binding;
     ag_status := "active"; ag_agent_version := ar_AgentVersion registration;
     ag_protocol_versions := ar_ProtocolVersions registration;
     ag_operating_system := ar_OperatingSystem registration; ag_architecture := ar_Architecture registration;
     ag_hostname := ar_Hostname registration; ag_execution_user := ar_ExecutionUser registration;
     ag_execution_backends := ar_ExecutionBackends registration; ag_runtimes := ar_Runtimes registration;
     ag_capabilities := ar_Capabilities registration; ag_registration_digest := ar_RequestDigest registration;
     ag_accepting_assignments := true; ag_capability_revision := 0; ag_last_capability_at := Some now;
     ag_last_seen_at := Some now; ag_created_at := now; ag_updated_at := now |}.

Definition new_session (namespaceID agentID sessionID : string) (lifetime : Z) (now : timestamptz) : session_row :=
  {| se_namespace_id := namespaceID; se_agent_id := agentID;
     se_token_hash := hashToken (deriveToken tokenKey "jms" sessionID); se_expires_at := now + to_interval lifetime;
     se_last_seen_at := None; se_revoked_at := None; se_replaced_by_session_id := None; se_created_at := now |}.

(** The first use of a token: the agent, its session and the consumption of the token. *)
Definition consume_enrollment (binding : enrollmentBinding) (registration : AgentRegistration) (lifetime : Z)
    (agentID sessionID : string) : tx AgentSession :=
  reject (eb_expired binding || negb (eqs (eb_targetState binding) "active") ||
          negb (eqs (eb_generationID binding) (ar_TargetGenerationID registration))) ErrConflict;;
  reject (negb (eqs (eb_expectedUser binding) (ar_ExecutionUser registration)) ||
          negb (slices_Contains (ar_ExecutionBackends registration) (eb_executionBackend binding)) ||
          negb (allowsValue (eb_operatingSystems binding) (ar_OperatingSystem registration)) ||
          negb (allowsValue (eb_architectures binding) (ar_Architecture registration))) ErrForbidden;;
  now ← asks transaction_timestamp;
  wrapT "insert agent" [] (INSERT agentID (new_agent binding registration now));;
  let s := new_session (eb_namespaceID binding) agentID sessionID lifetime now in
  wrapT "insert agent session" [] (INSERT sessionID s);;
  n ← wrapT "consume enrollment token" [] (UPDATE (eb_enrollmentID binding) (λ t, negb (is_some (en_used_at t)))
    (λ t, t <| en_used_at := Some now; en_used_by_agent_id := Some agentID |>));
  reject (negb (bool_decide (n = 1))) (Errorf "enrollment token consumption was lost" []);;
  wrapT "audit agent enrollment" [] (audit_principal (eb_namespaceID binding) (eb_principalID binding) "agent.enrolled"
    "agent" agentID (Some (ar_RequestDigest registration)) None [("targetGenerationId", eb_generationID binding)]);;
  mret {| ags_AgentID := agentID; ags_SessionID := sessionID; ags_Token := deriveToken tokenKey "jms" sessionID;
          ags_ExpiresAt := UTC (se_expires_at s); ags_Replayed := false |}.

Definition EnrollAgent (enrollmentToken : string) (registration : AgentRegistration) (lifetime : Z) : tx AgentSession :=
  lift (ValidateAgentRegistration registration);;
  reject (negb (validSessionLifetime lifetime)) (Errorf "agent session lifetime is invalid" []);;
  agentID ← newID;
  sessionID ← newID;
  wrapT "enroll agent" [] (
    binding ← lookupEnrollmentForUpdate enrollmentToken;
    if negb (eqs (eb_usedAgentID binding) "") then replayEnrollment binding (ar_RequestDigest registration)
    else consume_enrollment binding registration lifetime agentID sessionID).

(** ** Sessions *)

Definition RenewAgentSession (currentToken : string) (lifetime : Z) : tx AgentSession :=
  reject (negb (validSessionLifetime lifetime)) (Errorf "agent session lifetime is invalid" []);;
  newSessionID ← newID;
  wrapT "renew agent session" [] (
    d ← query id;
    now ← asks transaction_timestamp;
    '(sessionID, s, a) ← row_or (session_of_token now d (hashToken currentToken)) ErrUnauthenticated;
    let agentID := se_agent_id s in
    let row := new_session (ag_namespace_id a) agentID newSessionID lifetime now in
    wrapT "insert renewed agent session" [] (INSERT newSessionID row);;
    wrapT "revoke replaced agent session" [] (UPDATE_ sessionID (λ _, true)
      (λ s, s <| se_revoked_at := Some now; se_replaced_by_session_id := Some newSessionID |>));;
    mret {| ags_AgentID := agentID; ags_SessionID := newSessionID; ags_Token := deriveToken tokenKey "jms" newSessionID;
            ags_ExpiresAt := UTC (se_expires_at row); ags_Replayed := false |}).

Definition identity_of (d : db) (agentID : string) (a : agent_row) (serial : string) : option AgentIdentity :=
  n ← d_namespaces d !! ag_namespace_id a;
  Some {| ai_AgentID := agentID; ai_NamespaceID := ag_namespace_id a; ai_Namespace := ns_name n;
          ai_PrincipalID := ag_principal_id a; ai_TargetID := ag_target_id a;
          ai_TargetGenerationID := ag_target_generation_id a; ai_CertificateSerial := serial |}.

(** One [UPDATE ... RETURNING]: no row is updated unless all the joined rows exist. *)
Definition AuthenticateAgent (token : string) : tx AgentIdentity :=
  d ← query id;
  now ← asks transaction_timestamp;
  '(sessionID, identity) ← row_or (
    '(sessionID, s, a) ← session_of_token now d (hashToken token);
    identity ← identity_of d (se_agent_id s) a "";
    Some (sessionID, identity)) ErrUnauthenticated;
  wrapT "authenticate agent" [] (UPDATE_ sessionID (λ _, true) (λ s, s <| se_last_seen_at := Some now |>));;
  mret identity.

End agents.

(** ** Certificates *)

Definition new_certificate (namespaceID agentID : string) (certificate : AgentCertificate) (now : timestamptz) : certificate_row :=
  {| crt_namespace_id := namespaceID; crt_agent_id := agentID;
     crt_public_key_digest := cert_PublicKeyDigest certificate;
     crt_not_after := to_timestamptz (cert_ExpiresAt certificate); crt_revoked_at := None;
     crt_replaced_by_serial := None; crt_created_at := now |}.

(** [INSERT ... SELECT FROM agents ... ON CONFLICT (serial) DO UPDATE ... WHERE]: the update writes the
    serial it found, so a repeated call leaves the row as it is. *)
Definition RecordAgentCertificate (agentID : string) (certificate : AgentCertificate) : tx unit :=
  d ← query id;
  now ← asks transaction_timestamp;
  n ← wrapT "record agent certificate" [] (
    match d_agents d !! agentID with
    | Some a =>
        if eqs (ag_status a) "active" then
          let row := new_certificate (ag_namespace_id a) agentID certificate now in
          match d_certificates d !! cert_Serial certificate with
          | None => INSERT (cert_Serial certificate) row;; mret 1
          | Some c =>
              UPDATE (cert_Serial certificate)
                (λ c, eqs (crt_agent_id c) (crt_agent_id row) &&
                      eqs (crt_public_key_digest c) (crt_public_key_digest row) &&
                      bool_decide (crt_not_after c = crt_not_after row)) (λ c, c)
          end
        else mret 0
    | None => mret 0
    end);
  reject (negb (bool_decide (n = 1))) ErrConflict.

(** An [INSERT] of one row that succeeds affects one row. *)
Definition RotateAgentCertificate (identity : AgentIdentity) (certificate : AgentCertificate) : tx unit :=
  wrapT "rotate agent certificate" [] (
    now ← asks transaction_timestamp;
    wrapT "insert rotated agent certificate" [] (INSERT (cert_Serial certificate)
      (new_certificate (ai_NamespaceID identity) (ai_AgentID identity) certificate now));;
    n ← wrapT "revoke replaced agent certificate" [] (UPDATE (ai_CertificateSerial identity)
      (λ c, eqs (crt_agent_id c) (ai_AgentID identity) && negb (is_some (crt_revoked_at c)) &&
            bool_decide (now < crt_not_after c))
      (λ c, c <| crt_revoked_at := Some now; crt_replaced_by_serial := Some (cert_Serial certificate) |>));
    reject (negb (bool_decide (n = 1))) ErrUnauthenticated).

Definition certificate_valid (now : timestamptz) (agentID publicKeyDigest : string) (a : agent_row) (c : certificate_row) : bool :=
  eqs (crt_public_key_digest c) publicKeyDigest && eqs (crt_agent_id c) agentID &&
  eqs (crt_namespace_id c) (ag_namespace_id a) && negb (is_some (crt_revoked_at c)) &&
  bool_decide (now < crt_not_after c).

Definition AuthenticateAgentCertificate (agentID serial publicKeyDigest : string) : tx AgentIdentity :=
  d ← query id;
  now ← asks transaction_timestamp;
  identity ← row_or (
    a ← d_agents d !! agentID;
    c ← d_certificates d !! serial;
    if certificate_valid now agentID publicKeyDigest a c && agent_present d a
    then identity_of d agentID a serial else None) ErrUnauthenticated;
  wrapT "authenticate agent certificate" [] (UPDATE_ agentID (λ _, true)
    (λ a, a <| ag_updated_at := now; ag_last_seen_at := Some now |>));;
  mret identity.

(** ** Capability observations *)

Definition capability_snapshot (identity : AgentIdentity) (c : AgentCapabilities) (document : string) (now : timestamptz) :
    capability_row :=
  {| cap_namespace_id := ai_NamespaceID identity; cap_observed_at := to_timestamptz (ac_ObservedAt c);
     cap_accepting_assignments := ac_AcceptingAssignments c; cap_agent_version := ac_AgentVersion c;
     cap_operating_system := ac_OperatingSystem c; cap_architecture := ac_Architecture c;
     cap_hostname := ac_Hostname c; cap_execution_user := ac_ExecutionUser c;
     cap_execution_backends := ac_ExecutionBackends c; cap_runtimes := ac_Runtimes c;
     cap_capabilities := ac_Capabilities c; cap_document_digest := ac_DocumentDigest c; cap_document := document;
     cap_created_at := now |}.

(** The columns of [agents] that show the latest observation. *)
Definition project_capabilities (c : AgentCapabilities) (revision : Z) (now : timestamptz) (a : agent_row) : agent_row :=
  a <| ag_agent_version := ac_AgentVersion c; ag_execution_backends := ac_ExecutionBackends c;
       ag_runtimes := ac_Runtimes c; ag_capabilities := ac_Capabilities c;
       ag_accepting_assignments := ac_AcceptingAssignments c; ag_capability_revision := revision;
       ag_last_capability_at := Some (to_timestamptz (ac_ObservedAt c)); ag_updated_at := now |>.

Definition capability_agent (d : db) (identity : AgentIdentity) : option (agent_row * generation_row) :=
  a ← d_agents d !! ai_AgentID identity;
  g ← d_generations d !! ag_target_generation_id a;
  if eqs (ag_namespace_id a) (ai_NamespaceID identity) &&
     eqs (ag_target_generation_id a) (ai_TargetGenerationID identity) && agent_present d a
  then Some (a, g) else None.

(** The revision an identical document already has. *)
Definition recorded_revision (d : db) (agentID digest : string) : option Z :=
  (λ kc : (string * Z) * capability_row, kc.1.2) <$>
  head (select (λ k c, eqs k.1 agentID && eqs (cap_document_digest c) digest) (d_capability_snapshots d)).

Definition RecordAgentCapabilities (identity : AgentIdentity) (capabilities : AgentCapabilities) : tx AgentCapabilitySnapshot :=
  lift (ValidateAgentCapabilities capabilities);;
  reject (negb (eqs (ac_AgentID capabilities) (ai_AgentID identity))) ErrForbidden;;
  wrapT "record agent capabilities" [] (
    d ← query id;
    now ← asks transaction_timestamp;
    '(a, g) ← row_or (capability_agent d identity) ErrConflict;
    match recorded_revision d (ai_AgentID identity) (ac_DocumentDigest capabilities) with
    | Some replayRevision =>
        mret {| acs_AgentCapabilities := capabilities; acs_Revision := replayRevision; acs_Replayed := true |}
    | None =>
        reject (negb (eqs (ag_operating_system a) (ac_OperatingSystem capabilities)) ||
                negb (eqs (ag_architecture a) (ac_Architecture capabilities)) ||
                negb (eqs (ag_hostname a) (ac_Hostname capabilities)) ||
                negb (eqs (ag_execution_user a) (ac_ExecutionUser capabilities))) ErrConflict;;
        reject (negb (slices_Contains (ac_ExecutionBackends capabilities) (gen_execution_backend g)) ||
                negb (isSubset (ac_Runtimes capabilities) (gen_runtimes g))) ErrConflict;;
        let revision := wrap64 (ag_capability_revision a + 1) in
        wrapT "insert capability snapshot" [] (document ← lift (json_Unmarshal (ac_Document capabilities));
          INSERT (ai_AgentID identity, revision) (capability_snapshot identity capabilities document now));;
        wrapT "update agent capability projection" [] (UPDATE_ (ai_AgentID identity) (λ _, true)
          (project_capabilities capabilities revision now));;
        wrapT "audit capability snapshot" [] (audit_agent (ai_NamespaceID identity) (ai_AgentID identity)
          "agent.capabilities_reported" "agent" (ai_AgentID identity) (ac_DocumentDigest capabilities)
          [("revision", pretty revision);
           ("acceptingAssignments", if ac_AcceptingAssignments capabilities then "true" else "false")]);;
        mret {| acs_AgentCapabilities := capabilities; acs_Revision := revision; acs_Replayed := false |}
    end).

(** ** Delivery *)

Definition capability_window : Z := seconds 600.

(** The agent may be given work: it accepts assignments and reported its capabilities recently. *)
Definition accepting_agent (now : timestamptz) (d : db) (e : env) (a : agent_row) : bool :=
  eqs (ag_status a) "active" && ag_accepting_assignments a &&
  from_option (λ t, bool_decide (now - capability_window < t)) false (ag_last_capability_at a) &&
  exists_row (d_targets d) (ag_target_id a) (λ t, eqs (tg_state t) "active") && negb (row_locked e (ag_target_id a)).

Definition deliverable (now : timestamptz) (e : env) (d : db) (identity : AgentIdentity) (assignmentID : string) (a : assignment_row) : bool :=
  eqs (a_agent_id a) (ai_AgentID identity) && eqs (a_namespace_id a) (ai_NamespaceID identity) &&
  eqs (a_state a) "offered" &&
  exists_row (d_agents d) (a_agent_id a) (accepting_agent now d e) &&
  negb (row_locked e assignmentID) && negb (row_locked e (a_agent_id a)).

Definition selected_assignments (now : timestamptz) (e : env) (d : db) (identity : AgentIdentity) (limit : Z) :
    list (string * assignment_row) :=
  take (Z.to_nat limit) (order_by (λ ka : string * assignment_row, a_created_at ka.2) fst
    (select (deliverable now e d identity) (d_assignments d))).

(** The rows [RETURNING] of the update, for the selected rows whose execution exists. *)
Definition returned_assignment (d : db) (ka : string * assignment_row) : option Assignment :=
  x ← d_executions d !! a_execution_id ka.2;
  Some {| asg_DeliveryID := ka.1; asg_ExecutionID := a_execution_id ka.2;
          asg_EffectiveExecutionDigest := e_effective_spec_digest x; asg_Document := a_document ka.2;
          asg_CreatedAt := UTC (a_created_at ka.2) |}.

Definition record_delivery (now : timestamptz) (a : assignment_row) : assignment_row :=
  a <| a_delivery_count ::= Z.succ; a_last_delivered_at := Some now |>.

(** The order of the rows an [UPDATE ... RETURNING] returns is not defined; here it is that of the selection. *)
Definition ListAssignments (identity : AgentIdentity) (limit : Z) : tx (list Assignment) :=
  reject (bool_decide (limit < 1) || bool_decide (100 < limit)) (Errorf "assignment limit must be between 1 and 100" []);;
  now ← asks transaction_timestamp;
  e ← asks id;
  d ← query id;
  let selected := filter (λ ka : string * assignment_row, is_Some (d_executions d !! a_execution_id ka.2))
                    (selected_assignments now e d identity limit) in
  wrapT "iterate agent assignments" [] (for_eachT (λ ka : string * assignment_row,
    UPDATE_ ka.1 (λ _, true) (record_delivery now)) selected);;
  mret (omap (returned_assignment d) selected).
