(* ===== verification/Targets.v ===== *)
(** * Targets

    [internal/store/postgres/targets.go]: creation of targets, immutable target generations, revision-checked
    changes of state, and reading.  A target row selects one of its generations; partitions belong to a
    generation. *)
From stdpp Require Import pretty.
From S2P Require Import Prelude Regex Names Domain TargetSpec Kahn Graph Contract Records Db Tx Constraints Auth Jobs.

(** ** Data ([internal/domain/control.go]) *)

Record Target := {
  tgt_ID : string;
  tgt_GenerationID : string;
  tgt_Generation : Z;
  tgt_Namespace : string;
  tgt_Name : string;
  tgt_Kind : string;
  tgt_State : string;
  tgt_ExecutionBackend : string;
  tgt_Transport : string;
  tgt_Runtimes : list string;
  tgt_OperatingSystems : list string;
  tgt_Architectures : list string;
  tgt_Capabilities : list string;
  tgt_Partitions : list PartitionSpec;
  tgt_LogStoreName : string;
  tgt_LogStoreVersion : Z;
  tgt_ArtifactStores : list ArtifactStoreSpec;
  tgt_Provider : TargetProvider;
  tgt_Revision : Z;
  tgt_CreatedAt : time;
  tgt_UpdatedAt : time }.

Record CreateResult (T : Type) := { cr_Value : T; cr_Replayed : bool }.
Arguments cr_Value {T} _.
Arguments cr_Replayed {T} _.
Arguments Build_CreateResult {T} _ _.

(** ** Reading *)

(** [loadPartitionsWithQuerier]: the names are unique in a generation, so the final sort by name decides
    the order. *)
Definition loadPartitions (d : db) (generationID : string) : list PartitionSpec :=
  (λ kp : (string * string) * partition_row, {| ps_Name := kp.1.2; ps_IsDefault := part_is_default kp.2 |}) <$>
  order_by (λ _, 0) (λ kp : (string * string) * partition_row, kp.1.2)
    (select (λ k p, eqs k.1 generationID && negb (eqs (part_state p) "retired")) (d_partitions d)).

(** A row of [targetSelect] and [scanTarget], with the partitions loaded. *)
Definition scanTarget (d : db) (targetID : string) (t : target_row) : option Target :=
  n ← d_namespaces d !! tg_namespace_id t;
  generationID ← tg_current_generation_id t;
  g ← d_generations d !! generationID;
  Some {|
    tgt_ID := targetID;
    tgt_GenerationID := generationID;
    tgt_Generation := gen_generation g;
    tgt_Namespace := ns_name n;
    tgt_Name := tg_name t;
    tgt_Kind := tg_kind t;
    tgt_State := tg_state t;
    tgt_ExecutionBackend := gen_execution_backend g;
    tgt_Transport := gen_control_transport g;
    tgt_Runtimes := gen_runtimes g;
    tgt_OperatingSystems := gen_operating_systems g;
    tgt_Architectures := gen_architectures g;
    tgt_Capabilities := gen_capabilities g;
    tgt_Partitions := loadPartitions d generationID;
    tgt_LogStoreName := default "" (gen_log_store_name g);
    tgt_LogStoreVersion := default 0 (gen_log_store_version g);
    tgt_ArtifactStores := gen_artifact_stores g;
    tgt_Provider := gen_provider g;
    tgt_Revision := tg_revision t;
    tgt_CreatedAt := UTC (tg_created_at t);
    tgt_UpdatedAt := UTC (tg_updated_at t) |}.

Definition getTargetByID (namespaceID targetID : string) : tx Target :=
  d ← query id;
  row_or (
    t ← d_targets d !! targetID;
    if eqs (tg_namespace_id t) namespaceID then scanTarget d targetID t else None) ErrNoRows.

(** The join of [authorized_memberships] and [principals]. *)
Definition authorized_member (d : db) (namespaceID : string) (principal : Principal) : bool :=
  match find_principal d (p_Issuer principal) (p_Subject principal) with
  | Some (principalID, _) => negb (bool_decide (authorized_roles d namespaceID principalID = []))
  | None => false
  end.

(** The targets of the namespace with this name that a member may read. *)
Definition visible_targets (d : db) (principal : Principal) (namespace : string) (p : target_row → bool) :
    list (string * target_row) :=
  select (λ _ t, p t && exists_row (d_namespaces d) (tg_namespace_id t) (λ n, eqs (ns_name n) namespace) &&
                 authorized_member d (tg_namespace_id t) principal) (d_targets d).

Definition GetTarget (principal : Principal) (namespace name : string) : tx Target := λ e d,
  match authorizeNamespace principal namespace [CapabilityTargetsRead] e d with
  | Err err =>
      if negb (is_some (p_Delegation principal)) && errors_Is err ErrForbidden then Err ErrNotFound else Err err
  | Ok (authorization, d) =>
      row_or (head (omap (λ kt : string * target_row, scanTarget d kt.1 kt.2)
        (visible_targets d (na_canonical authorization) namespace (λ t, eqs (tg_name t) name)))) ErrNotFound e d
  end.

(** [ORDER BY t.name] in the byte order of the [C] collation. *)
Definition ListTargets (principal : Principal) (namespace : string) : tx (list Target) :=
  authorization ← authorizeNamespace principal namespace [CapabilityTargetsRead];
  d ← query id;
  let principal := na_canonical authorization in
  reject (negb (existsb (λ kn : string * namespace_row,
    eqs (ns_name kn.2) namespace && authorized_member d kn.1 principal) (map_to_list (d_namespaces d)))) ErrForbidden;;
  mret (take 1000 (omap (λ kt : string * target_row, scanTarget d kt.1 kt.2)
    (order_by (λ _, 0) (λ kt : string * target_row, tg_name kt.2)
      (visible_targets d principal namespace (λ _, true))))).

(** ** Insertion *)

(** [NULLIF($10, '')] and [NULLIF($11::bigint, 0)] *)
Definition nullif_text (s : string) : option string := if eqs s "" then None else Some s.
Definition nullif_zero (z : Z) : option Z := if bool_decide (z = 0) then None else Some z.

Definition new_generation (namespaceID targetID : string) (generation : Z) (spec : TargetSpec) : generation_row :=
  {| gen_namespace_id := namespaceID; gen_target_id := targetID; gen_generation := generation;
     gen_execution_backend := ts_ExecutionBackend spec; gen_control_transport := "agent-api";
     gen_runtimes := ts_Runtimes spec; gen_operating_systems := ts_OperatingSystems spec;
     gen_architectures := ts_Architectures spec; gen_capabilities := ts_Capabilities spec;
     gen_artifact_stores := ts_ArtifactStores spec;
     gen_log_store_name := nullif_text (ts_LogStoreName spec);
     gen_log_store_version := nullif_zero (ts_LogStoreVersion spec);
     gen_provider := NormalizeTargetProvider (ts_Provider spec) |}.
Definition new_partition (namespaceID partitionID : string) (partition : PartitionSpec) : partition_row :=
  {| part_id := partitionID; part_namespace_id := namespaceID; part_is_default := ps_IsDefault partition;
     part_state := "active" |}.
Definition insert_partitions (namespaceID generationID : string) : list (string * PartitionSpec) → tx unit :=
  for_eachT (λ ip, wrapT "insert target partition" [] (INSERT (generationID, ps_Name ip.2) (new_partition namespaceID ip.1 ip.2))).

Definition insertTargetGeneration (namespaceID targetID generationID : string) (generation : Z)
    (partitionIDs : list string) (spec : TargetSpec) : tx unit :=
  wrapT "insert target generation" [] (INSERT generationID (new_generation namespaceID targetID generation spec));;
  insert_partitions namespaceID generationID (zip partitionIDs (ts_Partitions spec)).

(** PostgreSQL error 23505, [unique_violation], of an insert into [targets]. *)
Definition unique_violation (err : error) : bool :=
  slices_Contains ["primary key"; "targets_namespace_name_unique"]
    match err with Errorf _ [name] => name | _ => "" end.

(** The row after the trigger on insert, which stamps it with [created]. *)
Definition new_target (namespaceID : string) (spec : TargetSpec) (created now : timestamptz) : target_row :=
  {| tg_namespace_id := namespaceID; tg_name := ts_Name spec; tg_kind := ts_Kind spec; tg_state := "active";
     tg_current_generation_id := None; tg_revision := 1; tg_created_at := created;
     tg_updated_at := Z.max now created |}.

Definition insertTarget (authorization : namespaceAuthorization) (targetID generationID : string)
    (partitionIDs : list string) (spec : TargetSpec) : tx unit :=
  now ← asks transaction_timestamp;
  created ← stamp_target_catalog_creation (na_namespaceID authorization);
  (λ e d, match INSERT targetID (new_target (na_namespaceID authorization) spec created now) e d with
          | Ok r => Ok r
          | Err err => Err (if unique_violation err then ErrConflict else Wrapf "insert target" [] err)
          end);;
  insertTargetGeneration (na_namespaceID authorization) targetID generationID 1 partitionIDs spec;;
  wrapT "select target generation" [] (UPDATE_ targetID (λ _, true) (λ t, t <| tg_current_generation_id := Some generationID |>)).

Definition auditTargetCreation (authorization : namespaceAuthorization) (targetID generationID idempotencyKey requestDigest : string)
    (spec : TargetSpec) : tx unit :=
  let provider := NormalizeTargetProvider (ts_Provider spec) in
  wrapT "insert target audit event" [] (audit_principal (na_namespaceID authorization) (na_principalID authorization)
    "target.created" "target" targetID (Some requestDigest) (Some idempotencyKey)
    [("generationId", generationID); ("kind", ts_Kind spec); ("executionBackend", ts_ExecutionBackend spec);
     ("provider.kind", tp_Kind provider); ("provider.region", tp_Region provider);
     ("provider.clusterName", tp_ClusterName provider)]).

(** ** [CreateTarget] *)

Definition createTargetOperation := "targets.create".
Definition updateTargetStateOperation := "targets.state".
Definition createTargetGenerationOperation := "targets.generations.create".

(** One identifier per element of a slice. *)
Fixpoint makeIDs {A} (l : list A) : tx (list string) :=
  match l with
  | [] => mret []
  | _ :: l => id ← newID; ids ← makeIDs l; mret (id :: ids)
  end.

Definition CreateTarget (principal : Principal) (namespace idempotencyKey requestDigest : string) (spec : TargetSpec) :
    tx (CreateResult Target) :=
  reject (negb (ValidIdempotencyKey idempotencyKey)) (Errorf "invalid idempotency key" []);;
  lift (ValidateTargetSpec spec);;
  targetID ← newID;
  generationID ← newID;
  partitionIDs ← makeIDs (ts_Partitions spec);
  wrapT "create target" [] (
    authorization ← authorizeNamespace principal namespace [CapabilityTargetsManage];
    replayed ← reserveIdempotency authorization createTargetOperation "target" idempotencyKey requestDigest 201;
    match replayed with
    | Some resourceID =>
        target ← getTargetByID (na_namespaceID authorization) resourceID;
        mret {| cr_Value := target; cr_Replayed := true |}
    | None =>
        insertTarget authorization targetID generationID partitionIDs spec;;
        completeIdempotency authorization createTargetOperation idempotencyKey targetID 201;;
        auditTargetCreation authorization targetID generationID idempotencyKey requestDigest spec;;
        target ← getTargetByID (na_namespaceID authorization) targetID;
        mret {| cr_Value := target; cr_Replayed := false |}
    end).

(** ** [CreateTargetGeneration] *)

Definition CreateTargetGeneration (principal : Principal) (namespace name idempotencyKey requestDigest : string)
    (change : TargetGenerationChange) : tx (CreateResult Target) :=
  reject (negb (ValidIdempotencyKey idempotencyKey) || negb (ValidName name) ||
          negb (eqs (ts_Name (tgc_Spec change)) name)) (Errorf "invalid target generation request identity" []);;
  lift (ValidateTargetGenerationChange change);;
  generationID ← newID;
  partitionIDs ← makeIDs (ts_Partitions (tgc_Spec change));
  outboxID ← newID;
  wrapT "create target generation" [] (
    authorization ← authorizeNamespace principal namespace [CapabilityTargetsManage];
    d ← query id;
    '(targetID, t, _, g) ← row_or (current_target d (na_namespaceID authorization) name) ErrNotFound;
    let operation := createTargetGenerationOperation +:+ ":" +:+ name in
    replayed ← reserveIdempotency authorization operation "target" idempotencyKey requestDigest 200;
    match replayed with
    | Some resourceID =>
        target ← getTargetByID (na_namespaceID authorization) resourceID;
        mret {| cr_Value := target; cr_Replayed := true |}
    | None =>
        reject (eqs (tg_state t) "retired" || negb (bool_decide (tg_revision t = tgc_ExpectedRevision change)) ||
                negb (eqs (tg_kind t) (ts_Kind (tgc_Spec change)))) ErrConflict;;
        let generation := wrap64 (gen_generation g + 1) in
        insertTargetGeneration (na_namespaceID authorization) targetID generationID generation partitionIDs (tgc_Spec change);;
        now ← asks transaction_timestamp;
        wrapT "select target generation" [] (UPDATE_ targetID (λ t, eqs (tg_namespace_id t) (na_namespaceID authorization))
          (λ t, t <| tg_current_generation_id := Some generationID; tg_revision ::= Z.succ; tg_updated_at := now |>));;
        completeIdempotency authorization operation idempotencyKey targetID 200;;
        wrapT "audit target generation" [] (audit_principal (na_namespaceID authorization) (na_principalID authorization)
          "target.generation_created" "target" targetID (Some requestDigest) (Some idempotencyKey)
          [("generationId", generationID); ("generation", pretty generation)]);;
        wrapT "insert target generation outbox event" [] (insert_outbox outboxID (na_namespaceID authorization)
          "target.generation_created" "target" targetID
          [("targetId", targetID); ("generationId", generationID); ("generation", pretty generation)]);;
        target ← getTargetByID (na_namespaceID authorization) targetID;
        mret {| cr_Value := target; cr_Replayed := false |}
    end).

(** ** [UpdateTargetState] *)

(** The map [allowed]; a state that is not a key has no successors. *)
Definition allowed_states (current : string) : list string :=
  if eqs current "active" then ["draining"; "disabled"]
  else if eqs current "draining" then ["active"; "disabled"; "retired"]
  else if eqs current "disabled" then ["active"; "retired"]
  else [].
Definition validTargetStateTransition (current requested : string) : bool :=
  eqs current requested || slices_Contains (allowed_states current) requested.

Definition UpdateTargetState (principal : Principal) (namespace name idempotencyKey requestDigest : string)
    (change : TargetStateChange) : tx (CreateResult Target) :=
  reject (negb (ValidIdempotencyKey idempotencyKey) || negb (ValidName name))
    (Errorf "invalid target state request identity" []);;
  lift (ValidateTargetStateChange change);;
  outboxID ← newID;
  wrapT "update target state" [] (
    authorization ← authorizeNamespace principal namespace [CapabilityTargetsOperate];
    d ← query id;
    '(targetID, t) ← row_or (head (select (λ _ t, eqs (tg_namespace_id t) (na_namespaceID authorization) && eqs (tg_name t) name)
                               (d_targets d))) ErrNotFound;
    let operation := updateTargetStateOperation +:+ ":" +:+ name in
    replayed ← reserveIdempotency authorization operation "target" idempotencyKey requestDigest 200;
    match replayed with
    | Some resourceID =>
        target ← getTargetByID (na_namespaceID authorization) resourceID;
        mret {| cr_Value := target; cr_Replayed := true |}
    | None =>
        reject (negb (bool_decide (tg_revision t = tsc_ExpectedRevision change)) ||
                negb (validTargetStateTransition (tg_state t) (tsc_State change))) ErrConflict;;
        now ← asks transaction_timestamp;
        wrapT "update target state" [] (UPDATE_ targetID (λ t, eqs (tg_namespace_id t) (na_namespaceID authorization))
          (λ t, t <| tg_state := tsc_State change; tg_revision ::= Z.succ; tg_updated_at := now |>));;
        completeIdempotency authorization operation idempotencyKey targetID 200;;
        wrapT "audit target state" [] (audit_principal (na_namespaceID authorization) (na_principalID authorization)
          "target.state_changed" "target" targetID (Some requestDigest) (Some idempotencyKey)
          [("from", tg_state t); ("to", tsc_State change)]);;
        wrapT "insert target state outbox event" [] (insert_outbox outboxID (na_namespaceID authorization)
          "target.state_changed" "target" targetID [("targetId", targetID); ("state", tsc_State change)]);;
        target ← getTargetByID (na_namespaceID authorization) targetID;
        mret {| cr_Value := target; cr_Replayed := false |}
    end).
