(* ===== verification/Lifecycle.v ===== *)
(** * The lifecycle invariant

    How the rows of [jobs], [runs], [executions] and [assignments] fit together.
    A job has at most one run, a run exactly one execution, an execution exactly
    one assignment, and the four phases move in step.  The invariant is stated on
    the four maps alone; this file shows which simultaneous row updates keep it.
    [LifecycleOps.v] shows that every repository method performs only such
    updates. *)
From S2P Require Import Prelude Regex Names Domain TargetSpec Kahn Graph Contract Records Db Tx Constraints.

(** ** Coupling *)

(** Phases of the job, the run, the execution and the assignment that may occur
    together. *)
Inductive stages : string → string → string → string → Prop :=
  | st_offered : stages "assigning" "assigning" "planned" "offered"
  | st_accepted : stages "accepted_execution" "accepted" "accepted" "accepted"
  | st_running : stages "running" "running" "running" "accepted"
  | st_done : stages "terminal" "terminal" "terminal" "accepted"
  | st_withdrawn : stages "terminal" "terminal" "terminal" "withdrawn".

Record coupled (j : job_row) (r : run_row) (x : execution_row) (a : assignment_row) : Prop := {
  cp_stages : stages (j_phase j) (r_phase r) (e_phase x) (a_state a);
  cp_desired : j_desired_state j = r_desired_state r;
  cp_outcome_run : r_outcome r = j_outcome j;
  cp_outcome_execution : e_outcome x = j_outcome j;
  cp_offered : e_phase x = "planned" → j_desired_state j = "run" ∧ e_last_event_sequence x = 0;
  cp_withdrawn : a_state a = "withdrawn" → e_outcome x = Some "cancelled" ∧ e_last_event_sequence x = 0;
  cp_agent : a_agent_id a = e_agent_id x;
  cp_namespace : r_namespace_id r = j_namespace_id j ∧ e_namespace_id x = j_namespace_id j ∧
                 a_namespace_id a = j_namespace_id j;
  cp_terminal : j_phase j = "terminal" → is_Some (j_outcome j) }.

(** A job that was never dispatched waits to run or is over. *)
Definition idle_wf (j : job_row) : Prop :=
  (j_phase j = "accepted" ∧ j_desired_state j = "run" ∧ j_outcome j = None) ∨
  (j_phase j = "terminal" ∧ is_Some (j_outcome j)).

Section invariant.
Implicit Types (jobs : gmap string job_row) (runs : gmap string run_row)
  (executions : gmap string execution_row) (assignments : gmap string assignment_row).

(** The rows of one dispatched job. *)
Record quad jobs runs executions assignments (jid rid eid aid : string)
    (j : job_row) (r : run_row) (x : execution_row) (a : assignment_row) : Prop := {
  q_job : jobs !! jid = Some j;
  q_run : runs !! rid = Some r;
  q_execution : executions !! eid = Some x;
  q_assignment : assignments !! aid = Some a;
  q_run_job : r_job_id r = jid;
  q_execution_run : e_run_id x = rid;
  q_assignment_execution : a_execution_id a = eid }.

Record lc_inv jobs runs executions assignments : Prop := {
  lc_run : ∀ rid r, runs !! rid = Some r → r_run_number r = 1 ∧
    ∃ j eid x aid a, quad jobs runs executions assignments (r_job_id r) rid eid aid j r x a ∧ coupled j r x a;
  lc_execution : ∀ eid x, executions !! eid = Some x → is_Some (runs !! e_run_id x);
  lc_assignment : ∀ aid a, assignments !! aid = Some a → is_Some (executions !! a_execution_id a);
  lc_one_run : ∀ rid rid' r r', runs !! rid = Some r → runs !! rid' = Some r' →
    r_job_id r = r_job_id r' → rid = rid';
  lc_one_execution : ∀ eid eid' x x', executions !! eid = Some x → executions !! eid' = Some x' →
    e_run_id x = e_run_id x' → eid = eid';
  lc_one_assignment : ∀ aid aid' a a', assignments !! aid = Some a → assignments !! aid' = Some a' →
    a_execution_id a = a_execution_id a' → aid = aid';
  lc_execution_id : executions !! "" = None;
  lc_idle : ∀ jid j, jobs !! jid = Some j →
    (∀ rid r, runs !! rid = Some r → r_job_id r ≠ jid) → idle_wf j }.

Definition has_no_run runs (jid : string) : Prop := ∀ rid r, runs !! rid = Some r → r_job_id r ≠ jid.

Lemma lc_empty : lc_inv ∅ ∅ ∅ ∅.
Proof. constructor; intros *; rewrite ?lookup_empty; naive_solver. Qed.

(** ** Reading the invariant *)

Lemma quad_of_execution jobs runs executions assignments eid x :
  lc_inv jobs runs executions assignments → executions !! eid = Some x →
  ∃ jid rid aid j r a, quad jobs runs executions assignments jid rid eid aid j r x a ∧ coupled j r x a.
Proof.
  intros I Hx. destruct (lc_execution _ _ _ _ I _ _ Hx) as [r Hr].
  destruct (lc_run _ _ _ _ I _ _ Hr) as (_ & j & eid' & x' & aid & a & Hq & Hc).
  assert (eid' = eid) as ->.
  { eapply (lc_one_execution _ _ _ _ I); [apply Hq|done|by rewrite (q_execution_run _ _ _ _ _ _ _ _ _ _ _ _ Hq)]. }
  assert (x' = x) as -> by (pose proof (q_execution _ _ _ _ _ _ _ _ _ _ _ _ Hq); congruence).
  eauto 10.
Qed.

Lemma quad_of_assignment jobs runs executions assignments aid a :
  lc_inv jobs runs executions assignments → assignments !! aid = Some a →
  ∃ jid rid j r x, quad jobs runs executions assignments jid rid (a_execution_id a) aid j r x a ∧ coupled j r x a.
Proof.
  intros I Ha. destruct (lc_assignment _ _ _ _ I _ _ Ha) as [x Hx].
  destruct (quad_of_execution _ _ _ _ _ _ I Hx) as (jid & rid & aid' & j & r & a' & Hq & Hc).
  assert (aid' = aid) as ->.
  { eapply (lc_one_assignment _ _ _ _ I); [apply Hq|done|by rewrite (q_assignment_execution _ _ _ _ _ _ _ _ _ _ _ _ Hq)]. }
  assert (a' = a) as -> by (pose proof (q_assignment _ _ _ _ _ _ _ _ _ _ _ _ Hq); congruence).
  eauto 10.
Qed.

Lemma quad_of_job jobs runs executions assignments jid rid r :
  lc_inv jobs runs executions assignments → runs !! rid = Some r → r_job_id r = jid →
  ∃ eid aid j x a, quad jobs runs executions assignments jid rid eid aid j r x a ∧ coupled j r x a.
Proof.
  intros I Hr <-. destruct (lc_run _ _ _ _ I _ _ Hr) as (_ & j & eid & x & aid & a & Hq & Hc). eauto 10.
Qed.

(** The chain from an execution to its job determines the rest. *)
Lemma quad_complete jobs runs executions assignments eid x r j :
  lc_inv jobs runs executions assignments →
  executions !! eid = Some x → runs !! e_run_id x = Some r → jobs !! r_job_id r = Some j →
  ∃ aid a, quad jobs runs executions assignments (r_job_id r) (e_run_id x) eid aid j r x a ∧ coupled j r x a.
Proof.
  intros I Hx Hr Hj. destruct (quad_of_execution _ _ _ _ _ _ I Hx) as (jid & rid & aid & j' & r' & a & Hq & Hc).
  destruct Hq. simplify_eq. exists aid, a. split; [|done]. by constructor.
Qed.

(** The rows of a dispatched job are coupled. *)
Lemma quad_coupled jobs runs executions assignments jid rid eid aid j r x a :
  lc_inv jobs runs executions assignments →
  quad jobs runs executions assignments jid rid eid aid j r x a → coupled j r x a.
Proof.
  intros I [Hj Hr Hx Ha ? ? ?].
  destruct (quad_of_assignment _ _ _ _ _ _ I Ha) as (jid' & rid' & j' & r' & x' & [] & Hc). by simplify_eq.
Qed.

(** ** Updates that keep the invariant *)

(** Replace the rows of one dispatched job, keeping the links. *)
Lemma lc_update jobs runs executions assignments jid rid eid aid j r x a j' r' x' a' :
  lc_inv jobs runs executions assignments →
  quad jobs runs executions assignments jid rid eid aid j r x a →
  r_job_id r' = jid → r_run_number r' = r_run_number r → e_run_id x' = rid → a_execution_id a' = eid →
  coupled j' r' x' a' →
  lc_inv (<[jid := j']> jobs) (<[rid := r']> runs) (<[eid := x']> executions) (<[aid := a']> assignments).
Proof.
  intros I Hq Hrj Hnum Hxr Hax Hc. pose proof Hq as [Hj Hr Hx Ha ? ? ?]. subst jid.
  constructor.
  - intros rid0 r0. destruct (decide (rid0 = rid)) as [->|Hne].
    + rewrite lookup_insert_eq. intros [= <-]. split; [by destruct (lc_run _ _ _ _ I _ _ Hr); congruence|].
      exists j', eid, x', aid, a'. split; [|done]. constructor; rewrite ?lookup_insert_eq; done.
    + rewrite lookup_insert_ne by done. intros Hr0.
      destruct (lc_run _ _ _ _ I _ _ Hr0) as (Hn & j0 & eid0 & x0 & aid0 & a0 & Hq0 & Hc0).
      pose proof Hq0 as [Hj0 _ Hx0 Ha0 _ ? ?]. split; [done|]. exists j0, eid0, x0, aid0, a0. split; [|done].
      assert (r_job_id r0 ≠ r_job_id r') as Hjne.
      { intros Heq. apply Hne. apply (lc_one_run _ _ _ _ I _ _ _ _ Hr0 Hr). congruence. }
      assert (eid0 ≠ eid) as Hene by (intros ->; congruence).
      assert (aid0 ≠ aid) as Hane by (intros ->; congruence).
      constructor; rewrite ?lookup_insert_ne; try done; congruence.
  - intros eid0 x0. destruct (decide (eid0 = eid)) as [->|Hne].
    + rewrite lookup_insert_eq. intros [= <-]. rewrite Hxr, lookup_insert_eq. eauto.
    + rewrite lookup_insert_ne by done. intros Hx0. apply lookup_insert_is_Some'. right.
      eapply (lc_execution _ _ _ _ I); eauto.
  - intros aid0 a0. destruct (decide (aid0 = aid)) as [->|Hne].
    + rewrite lookup_insert_eq. intros [= <-]. rewrite Hax, lookup_insert_eq. eauto.
    + rewrite lookup_insert_ne by done. intros Ha0. apply lookup_insert_is_Some'. right.
      eapply (lc_assignment _ _ _ _ I); eauto.
  - intros r1 r2 v1 v2 H1 H2 Heq.
    apply lookup_insert_Some in H1 as [[<- <-]|[? H1]], H2 as [[<- <-]|[? H2]]; try done.
    + eapply (lc_one_run _ _ _ _ I); [exact Hr|exact H2|congruence].
    + eapply (lc_one_run _ _ _ _ I); [exact H1|exact Hr|congruence].
    + eapply (lc_one_run _ _ _ _ I); eauto.
  - intros r1 r2 v1 v2 H1 H2 Heq.
    apply lookup_insert_Some in H1 as [[<- <-]|[? H1]], H2 as [[<- <-]|[? H2]]; try done.
    + eapply (lc_one_execution _ _ _ _ I); [exact Hx|exact H2|congruence].
    + eapply (lc_one_execution _ _ _ _ I); [exact H1|exact Hx|congruence].
    + eapply (lc_one_execution _ _ _ _ I); eauto.
  - intros r1 r2 v1 v2 H1 H2 Heq.
    apply lookup_insert_Some in H1 as [[<- <-]|[? H1]], H2 as [[<- <-]|[? H2]]; try done.
    + eapply (lc_one_assignment _ _ _ _ I); [exact Ha|exact H2|congruence].
    + eapply (lc_one_assignment _ _ _ _ I); [exact H1|exact Ha|congruence].
    + eapply (lc_one_assignment _ _ _ _ I); eauto.
  - rewrite lookup_insert_ne; [apply I|]. intros ->. rewrite (lc_execution_id _ _ _ _ I) in Hx. done.
  - intros jid0 j0 Hj0 Hnone.
    assert (jid0 ≠ r_job_id r') as Hne.
    { intros ->. apply (Hnone rid r'); [by rewrite lookup_insert_eq|done]. }
    rewrite lookup_insert_ne in Hj0 by done. apply (lc_idle _ _ _ _ I _ _ Hj0).
    intros rid0 r0 Hr0. destruct (decide (rid0 = rid)) as [->|?]; [congruence|].
    apply (Hnone rid0 r0). by rewrite lookup_insert_ne.
Qed.

(** Insert or replace a job that has no run. *)
Lemma lc_set_idle jobs runs executions assignments jid j' :
  lc_inv jobs runs executions assignments → has_no_run runs jid → idle_wf j' →
  lc_inv (<[jid := j']> jobs) runs executions assignments.
Proof.
  intros I Hnone Hwf. constructor; try apply I.
  - intros rid r Hr. destruct (lc_run _ _ _ _ I _ _ Hr) as (Hn & j & eid & x & aid & a & Hq & Hc).
    split; [done|]. exists j, eid, x, aid, a. split; [|done]. destruct Hq. constructor; try done.
    rewrite lookup_insert_ne; [done|]. intros Heq. by apply (Hnone rid r).
  - intros jid0 j0 Hj0 Hno. apply lookup_insert_Some in Hj0 as [[<- <-]|[? Hj0]]; [done|].
    eapply (lc_idle _ _ _ _ I); eauto.
Qed.

(** A fresh identifier names no run's job. *)
Lemma lc_fresh_no_run jobs runs executions assignments jid :
  lc_inv jobs runs executions assignments → jobs !! jid = None → has_no_run runs jid.
Proof.
  intros I Hj rid r Hr <-. destruct (lc_run _ _ _ _ I _ _ Hr) as (_ & j & ? & ? & ? & ? & Hq & _).
  destruct Hq. congruence.
Qed.

(** Offer an idle job under fresh identifiers. *)
Lemma lc_offer jobs runs executions assignments jid rid eid aid j' r' x' a' :
  lc_inv jobs runs executions assignments →
  has_no_run runs jid → is_Some (jobs !! jid) →
  runs !! rid = None → executions !! eid = None → eid ≠ "" → assignments !! aid = None →
  r_job_id r' = jid → r_run_number r' = 1 → e_run_id x' = rid → a_execution_id a' = eid →
  coupled j' r' x' a' →
  lc_inv (<[jid := j']> jobs) (<[rid := r']> runs) (<[eid := x']> executions) (<[aid := a']> assignments).
Proof.
  intros I Hnone [j Hj] Hrid Heid Hne0 Haid <- Hnum <- <- Hc.
  constructor.
  - intros rid0 r0 Hr0. apply lookup_insert_Some in Hr0 as [[<- <-]|[Hne Hr0]].
    + split; [done|]. exists j', (a_execution_id a'), x', aid, a'. split; [|done].
      constructor; rewrite ?lookup_insert_eq; done.
    + destruct (lc_run _ _ _ _ I _ _ Hr0) as (Hn & j0 & eid0 & x0 & aid0 & a0 & Hq0 & Hc0).
      split; [done|]. exists j0, eid0, x0, aid0, a0. split; [|done]. destruct Hq0.
      constructor; try done; rewrite lookup_insert_ne; try done.
      * intros Heq. by apply (Hnone rid0 r0).
      * congruence.
      * congruence.
  - intros eid0 x0 Hx0. apply lookup_insert_is_Some'.
    apply lookup_insert_Some in Hx0 as [[<- <-]|[? Hx0]]; [by left|right].
    eapply (lc_execution _ _ _ _ I); eauto.
  - intros aid0 a0 Ha0. apply lookup_insert_is_Some'.
    apply lookup_insert_Some in Ha0 as [[<- <-]|[? Ha0]]; [by left|right].
    eapply (lc_assignment _ _ _ _ I); eauto.
  - intros r1 r2 v1 v2 H1 H2 Heq.
    apply lookup_insert_Some in H1 as [[<- <-]|[? H1]], H2 as [[<- <-]|[? H2]]; try done.
    + exfalso. by apply (Hnone r2 v2).
    + exfalso. by apply (Hnone r1 v1).
    + eapply (lc_one_run _ _ _ _ I); eauto.
  - intros r1 r2 v1 v2 H1 H2 Heq.
    apply lookup_insert_Some in H1 as [[<- <-]|[? H1]], H2 as [[<- <-]|[? H2]]; try done.
    + destruct (lc_execution _ _ _ _ I _ _ H2). congruence.
    + destruct (lc_execution _ _ _ _ I _ _ H1). congruence.
    + eapply (lc_one_execution _ _ _ _ I); eauto.
  - intros r1 r2 v1 v2 H1 H2 Heq.
    apply lookup_insert_Some in H1 as [[<- <-]|[? H1]], H2 as [[<- <-]|[? H2]]; try done.
    + destruct (lc_assignment _ _ _ _ I _ _ H2). congruence.
    + destruct (lc_assignment _ _ _ _ I _ _ H1). congruence.
    + eapply (lc_one_assignment _ _ _ _ I); eauto.
  - rewrite lookup_insert_ne by done. apply I.
  - intros jid0 j0 Hj0 Hno. apply lookup_insert_Some in Hj0 as [[<- <-]|[Hne Hj0]].
    + exfalso. by eapply (Hno (e_run_id x') r'); [rewrite lookup_insert_eq|].
    + apply (lc_idle _ _ _ _ I _ _ Hj0). intros rid0 r0 Hr0. apply (Hno rid0 r0).
      rewrite lookup_insert_ne; [done|]. congruence.
Qed.
End invariant.

(** The invariant of a database. *)
Definition lifecycle_inv (d : db) : Prop :=
  lc_inv (d_jobs d) (d_runs d) (d_executions d) (d_assignments d).

(** Tables outside the four do not matter. *)
Lemma lifecycle_inv_frame d d' :
  d_jobs d' = d_jobs d → d_runs d' = d_runs d → d_executions d' = d_executions d →
  d_assignments d' = d_assignments d → lifecycle_inv d → lifecycle_inv d'.
Proof. unfold lifecycle_inv. by intros -> -> -> ->. Qed.
