(* ===== verification/Progress.v ===== *)
(** * Progress

    How rows of the lifecycle tables may change over time: phases only move
    forward, identities never change, and what is decided (a terminal job, a
    terminal execution, an assignment that is no longer on offer) never changes
    again.  [evolves] combines this with the lifecycle invariant; it is the
    contract every repository method is shown to meet. *)
From S2P Require Import Prelude Regex Names Domain TargetSpec Kahn Graph Contract Records Db Tx Constraints Lifecycle.

(** ** Ranks of phases *)

Fixpoint position (l : list string) (s : string) : nat :=
  match l with [] => 0%nat | x :: l => if eqs x s then 0%nat else S (position l s) end.
Definition job_rank : string → nat := position job_phases.
Definition execution_rank : string → nat := position execution_phases.

(** ** Row relations *)

Record job_advances (j j' : job_row) : Prop := {
  ja_final : j_phase j = "terminal" → j' = j;
  ja_rank : (job_rank (j_phase j) ≤ job_rank (j_phase j'))%nat;
  ja_revision : j_revision j ≤ j_revision j';
  ja_cancel : j_desired_state j = "cancel" → j_desired_state j' = "cancel";
  ja_namespace : j_namespace_id j' = j_namespace_id j;
  ja_owner : j_owner_principal_id j' = j_owner_principal_id j;
  ja_workload : j_workload_digest j' = j_workload_digest j;
  ja_target : j_target_id j' = j_target_id j ∧ j_target_generation_id j' = j_target_generation_id j;
  ja_group : j_collection_id j' = j_collection_id j ∧ j_graph_id j' = j_graph_id j ∧
             j_collection_index j' = j_collection_index j ∧ j_graph_index j' = j_graph_index j }.

Record execution_advances (x x' : execution_row) : Prop := {
  xa_final : e_phase x = "terminal" → x' = x;
  xa_rank : (execution_rank (e_phase x) ≤ execution_rank (e_phase x'))%nat;
  xa_revision : e_revision x ≤ e_revision x';
  xa_sequence : e_last_event_sequence x ≤ e_last_event_sequence x';
  xa_namespace : e_namespace_id x' = e_namespace_id x;
  xa_run : e_run_id x' = e_run_id x;
  xa_agent : e_agent_id x' = e_agent_id x;
  xa_generation : e_target_generation_id x' = e_target_generation_id x;
  xa_spec : e_effective_spec_digest x' = e_effective_spec_digest x ∧ e_effective_spec x' = e_effective_spec x }.

Record assignment_advances (a a' : assignment_row) : Prop := {
  aa_decided : a_state a ≠ "offered" → a' = a;
  aa_execution : a_execution_id a' = a_execution_id a;
  aa_agent : a_agent_id a' = a_agent_id a;
  aa_offer : a_document a' = a_document a }.

#[export] Instance job_advances_refl : Reflexive job_advances.
Proof. intros j. by constructor. Qed.
#[export] Instance job_advances_trans : Transitive job_advances.
Proof.
  intros j1 j2 j3 H1 H2. destruct H1 as [F1 ? ? ? ? ? ? [??] (?&?&?&?)], H2 as [F2 ? ? ? ? ? ? [??] (?&?&?&?)].
  constructor; try (split_and?; congruence); try lia; try tauto.
  intros Ht. pose proof (F1 Ht). subst. auto.
Qed.
#[export] Instance execution_advances_refl : Reflexive execution_advances.
Proof. intros x. by constructor. Qed.
#[export] Instance execution_advances_trans : Transitive execution_advances.
Proof.
  intros x1 x2 x3 H1 H2. destruct H1 as [F1 ? ? ? ? ? ? ? [??]], H2 as [F2 ? ? ? ? ? ? ? [??]].
  constructor; try (split_and?; congruence); try lia.
  intros Ht. pose proof (F1 Ht). subst. auto.
Qed.
#[export] Instance assignment_advances_refl : Reflexive assignment_advances.
Proof. intros a. by constructor. Qed.
#[export] Instance assignment_advances_trans : Transitive assignment_advances.
Proof.
  intros a1 a2 a3 H1 H2. destruct H1 as [F1 ? ? ?], H2 as [F2 ? ? ?].
  constructor; try congruence. intros Ht. pose proof (F1 Ht). subst. auto.
Qed.

(** ** Table relations *)

(** Rows are never deleted and every row advances. *)
Definition grows {R} (adv : R → R → Prop) (m m' : gmap string R) : Prop :=
  ∀ k v, m !! k = Some v → ∃ v', m' !! k = Some v' ∧ adv v v'.

Section grows.
Context {R : Type} (adv : R → R → Prop) `{!Reflexive adv, !Transitive adv}.

#[export] Instance grows_refl : Reflexive (grows adv).
Proof. intros m k v Hk. eauto. Qed.
#[export] Instance grows_trans : Transitive (grows adv).
Proof.
  intros m1 m2 m3 H1 H2 k v Hk. destruct (H1 _ _ Hk) as (v2 & Hk2 & ?).
  destruct (H2 _ _ Hk2) as (v3 & ? & ?). exists v3. split; [done|]. by etrans.
Qed.

Lemma grows_insert m k v' :
  (∀ v, m !! k = Some v → adv v v') → grows adv m (<[k := v']> m).
Proof using Reflexive0.
  intros Hv i w Hi. destruct (decide (i = k)) as [->|Hne].
  - exists v'. rewrite lookup_insert_eq. eauto.
  - exists w. by rewrite lookup_insert_ne.
Qed.

Lemma grows_insert_fresh m k v' : m !! k = None → grows adv m (<[k := v']> m).
Proof using Reflexive0. intros Hk. apply grows_insert. congruence. Qed.
End grows.

(** [d'] is a possible future of [d]: the lifecycle tables have grown. *)
Record progress (d d' : db) : Prop := {
  pg_jobs : grows job_advances (d_jobs d) (d_jobs d');
  pg_executions : grows execution_advances (d_executions d) (d_executions d');
  pg_assignments : grows assignment_advances (d_assignments d) (d_assignments d') }.

#[export] Instance progress_refl : Reflexive progress.
Proof. intros d. constructor; apply grows_refl, _. Qed.
#[export] Instance progress_trans : Transitive progress.
Proof. intros d1 d2 d3 [] []. constructor; (eapply grows_trans; [apply _|done|done]). Qed.

(** The contract of a method: it keeps the invariant and only moves forward. *)
Definition evolves (d d' : db) : Prop := lifecycle_inv d → lifecycle_inv d' ∧ progress d d'.

#[export] Instance evolves_refl : Reflexive evolves.
Proof. intros d I. done. Qed.
#[export] Instance evolves_trans : Transitive evolves.
Proof.
  intros d1 d2 d3 H1 H2 I. destruct (H1 I) as [I2 P1]. destruct (H2 I2) as [I3 P2].
  split; [done|by etrans].
Qed.

(** Nothing of the lifecycle changed. *)
Definition same_lifecycle (d d' : db) : Prop :=
  d_jobs d' = d_jobs d ∧ d_runs d' = d_runs d ∧ d_executions d' = d_executions d ∧
  d_assignments d' = d_assignments d.

Lemma same_lifecycle_evolves d d' : same_lifecycle d d' → evolves d d'.
Proof.
  intros (Hj & Hr & Hx & Ha) I. split; [by eapply lifecycle_inv_frame|].
  constructor; rewrite ?Hj, ?Hx, ?Ha; apply grows_refl, _.
Qed.

#[export] Instance same_lifecycle_refl : Reflexive same_lifecycle.
Proof. intros d. by split_and!. Qed.
#[export] Instance same_lifecycle_trans : Transitive same_lifecycle.
Proof. intros d1 d2 d3 (?&?&?&?) (?&?&?&?). split_and!; congruence. Qed.

(** ** The two ways a lifecycle row changes *)

(** One dispatched job moves: its four rows are replaced by coupled ones. *)
Lemma evolves_quad d d' jid rid eid aid j r x a j' r' x' a' :
  lifecycle_inv d →
  quad (d_jobs d) (d_runs d) (d_executions d) (d_assignments d) jid rid eid aid j r x a →
  d_jobs d' = <[jid := j']> (d_jobs d) → d_runs d' = <[rid := r']> (d_runs d) →
  d_executions d' = <[eid := x']> (d_executions d) → d_assignments d' = <[aid := a']> (d_assignments d) →
  r_job_id r' = r_job_id r → r_run_number r' = r_run_number r →
  coupled j' r' x' a' → job_advances j j' → execution_advances x x' → assignment_advances a a' →
  lifecycle_inv d' ∧ progress d d'.
Proof.
  intros I Hq Hj Hr Hx Ha Hrj Hrn Hc Aj Ax Aa. pose proof Hq as [? ? ? ? ? ? ?]. split.
  - unfold lifecycle_inv. rewrite Hj, Hr, Hx, Ha. eapply lc_update; try done.
    + congruence.
    + rewrite (xa_run _ _ Ax). done.
    + rewrite (aa_execution _ _ Aa). done.
  - constructor; rewrite ?Hj, ?Hx, ?Ha; apply grows_insert; try apply _; intros v Hv; congruence.
Qed.

(** An idle job changes. *)
Lemma evolves_idle d d' jid j j' :
  lifecycle_inv d → d_jobs d !! jid = Some j → has_no_run (d_runs d) jid →
  d_jobs d' = <[jid := j']> (d_jobs d) → d_runs d' = d_runs d →
  d_executions d' = d_executions d → d_assignments d' = d_assignments d →
  idle_wf j' → job_advances j j' → lifecycle_inv d' ∧ progress d d'.
Proof.
  intros I Hjid Hno Hj Hr Hx Ha Hwf Aj. split.
  - unfold lifecycle_inv. rewrite Hj, Hr, Hx, Ha. by apply lc_set_idle.
  - constructor; rewrite ?Hj, ?Hx, ?Ha; [|apply grows_refl, _..].
    apply grows_insert; [apply _|]. intros v Hv. congruence.
Qed.

(** A new job appears. *)
Lemma evolves_new_job d d' jid j' :
  lifecycle_inv d → d_jobs d !! jid = None →
  d_jobs d' = <[jid := j']> (d_jobs d) → d_runs d' = d_runs d →
  d_executions d' = d_executions d → d_assignments d' = d_assignments d →
  idle_wf j' → lifecycle_inv d' ∧ progress d d'.
Proof.
  intros I Hjid Hj Hr Hx Ha Hwf. split.
  - unfold lifecycle_inv. rewrite Hj, Hr, Hx, Ha. apply lc_set_idle; try done.
    by eapply lc_fresh_no_run.
  - constructor; rewrite ?Hj, ?Hx, ?Ha; [|apply grows_refl, _..].
    apply grows_insert_fresh; [apply _|done].
Qed.

(** ** Jobs without a run *)

(** In an invariant state, a job has no run exactly when it is accepted or was
    terminalized before dispatch. *)
Lemma accepted_has_no_run d jid j :
  lifecycle_inv d → d_jobs d !! jid = Some j → j_phase j = "accepted" → has_no_run (d_runs d) jid.
Proof.
  intros I Hj Hp rid r Hr Heq.
  destruct (quad_of_job _ _ _ _ _ _ _ I Hr Heq) as (eid & aid & j0 & x & a & Hq & Hc).
  destruct Hq. simplify_eq. destruct Hc as [Hst]. rewrite Hp in Hst. inversion Hst.
Qed.

Lemma idle_phase d jid j :
  lifecycle_inv d → d_jobs d !! jid = Some j → has_no_run (d_runs d) jid → idle_wf j.
Proof. intros I Hj Hno. eapply (lc_idle _ _ _ _ I); eauto. Qed.
