(* ===== verification/LifecycleOps.v ===== *)
(** * Every method evolves the database

    For each repository method: a successful run keeps the lifecycle invariant and
    only moves rows forward ([evolves]).  The methods are taken statement by
    statement; what a statement did to the lifecycle tables is read off the laws
    of [Tx.v]. *)
From stdpp Require Import pretty.
From S2P Require Import Prelude Regex Names Domain TargetSpec Kahn Graph Contract Records Url Db Tx Constraints Auth Jobs Groups GraphStore Executions Coordinator Lifecycle Progress.

(** ** Statements *)

(** The monitoring trigger touches only the outbox and the identifier supply. *)
Lemma enqueue_monitoring_frame k old new e d u d' :
  enqueue_monitoring_terminal_transition k old new e d = Ok (u, d') →
  ∃ o ids, d' = d <| d_outbox := o; d_ids := ids |>.
Proof.
  unfold enqueue_monitoring_terminal_transition. case_match; intros Hrun; tx_inv.
  - exists (d_outbox d), (d_ids d). by destruct d.
  - match goal with H : newID _ _ = _ |- _ => apply newID_ok in H as (ids & ? & ->) end.
    match goal with H : INSERT _ _ _ _ = _ |- _ => apply INSERT_ok in H as (_ & _ & ->) end. eexists _, _. reflexivity.
Qed.

(** An update of [jobs]. *)
Lemma UPDATE_jobs_ok k p f e d n d' :
  UPDATE (R := job_row) k p f e d = Ok (n, d') →
  (n = 0 ∧ d' = d ∧ ∀ j, d_jobs d !! k = Some j → p j = false) ∨
  (n = 1 ∧ ∃ old s c o ids, let row := with_lifecycle (f old) s c in
     d_jobs d !! k = Some old ∧ p old = true ∧
     Forall (λ c, c.2 = true) (job_constraints d k row) ∧
     d' = d <| d_jobs := <[k := row]> (d_jobs d); d_outbox := o; d_ids := ids |>).
Proof.
  rewrite UPDATE_ok. intros [(old & row & Hk & Hp & Hrow & Hc & -> & Ha)|(-> & -> & ?)]; [right|by left].
  split; [done|]. cbn in *.
  unfold record_job_lifecycle in Hrow. subst row.
  apply enqueue_monitoring_frame in Ha as (o & ids & ->).
  eexists old, _, _, o, ids. cbn. by split_and!.
Qed.

(** An update of a table without triggers. *)
Lemma UPDATE_runs_ok k p f e d n d' :
  UPDATE (R := run_row) k p f e d = Ok (n, d') →
  (n = 0 ∧ d' = d ∧ ∀ r, d_runs d !! k = Some r → p r = false) ∨
  (n = 1 ∧ ∃ old, d_runs d !! k = Some old ∧ p old = true ∧
     Forall (λ c, c.2 = true) (run_constraints d k (f old)) ∧
     d' = d <| d_runs := <[k := f old]> (d_runs d) |>).
Proof.
  rewrite UPDATE_ok. intros [(old & row & Hk & Hp & -> & Hc & -> & Ha)|(-> & -> & ?)]; [right|by left].
  cbn in *. apply tx_ret_ok in Ha as [_ ->]. eauto 10.
Qed.

Lemma UPDATE_executions_ok k p f e d n d' :
  UPDATE (R := execution_row) k p f e d = Ok (n, d') →
  (n = 0 ∧ d' = d ∧ ∀ x, d_executions d !! k = Some x → p x = false) ∨
  (n = 1 ∧ ∃ old, d_executions d !! k = Some old ∧ p old = true ∧
     Forall (λ c, c.2 = true) (execution_constraints d k (f old)) ∧
     d' = d <| d_executions := <[k := f old]> (d_executions d) |>).
Proof.
  rewrite UPDATE_ok. intros [(old & row & Hk & Hp & -> & Hc & -> & Ha)|(-> & -> & ?)]; [right|by left].
  cbn in *. apply tx_ret_ok in Ha as [_ ->]. eauto 10.
Qed.

Lemma UPDATE_assignments_ok k p f e d n d' :
  UPDATE (R := assignment_row) k p f e d = Ok (n, d') →
  (n = 0 ∧ d' = d ∧ ∀ a, d_assignments d !! k = Some a → p a = false) ∨
  (n = 1 ∧ ∃ old, d_assignments d !! k = Some old ∧ p old = true ∧
     Forall (λ c, c.2 = true) (assignment_constraints d k (f old)) ∧
     d' = d <| d_assignments := <[k := f old]> (d_assignments d) |>).
Proof.
  rewrite UPDATE_ok. intros [(old & row & Hk & Hp & -> & Hc & -> & Ha)|(-> & -> & ?)]; [right|by left].
  cbn in *. apply tx_ret_ok in Ha as [_ ->]. eauto 10.
Qed.

(** A statement on any other table leaves the lifecycle tables alone. *)
Class Outside (K R : Type) `{Table K R} := {
  outside_set : ∀ m d, same_lifecycle d (set_tbl m d);
  outside_after : ∀ k old row e d u d', after_update k old row e d = Ok (u, d') → same_lifecycle d d' }.

Ltac solve_outside :=
  constructor; [intros; by split_and!|cbn; intros ? ? ? ? ? ? ? Hr; apply tx_ret_ok in Hr as [_ ->]; reflexivity].
#[export] Instance collections_outside : Outside string collection_row. Proof. solve_outside. Qed.
#[export] Instance graphs_outside : Outside string graph_row. Proof. solve_outside. Qed.
#[export] Instance events_outside : Outside string event_row. Proof. solve_outside. Qed.
#[export] Instance artifacts_outside : Outside (string * string) artifact_row. Proof. solve_outside. Qed.
#[export] Instance actions_outside : Outside string action_row. Proof. solve_outside. Qed.
#[export] Instance items_outside : Outside (string * Z) collection_item_row. Proof. solve_outside. Qed.
#[export] Instance nodes_outside : Outside (string * Z) graph_node_row. Proof. solve_outside. Qed.
#[export] Instance edges_outside : Outside (string * string * string) graph_edge_row. Proof. solve_outside. Qed.
#[export] Instance workloads_outside : Outside (string * string) workload_revision_row. Proof. solve_outside. Qed.
#[export] Instance idempotency_outside : Outside (string * string * string * string) idempotency_row. Proof. solve_outside. Qed.
#[export] Instance outbox_outside : Outside string outbox_row. Proof. solve_outside. Qed.
#[export] Instance streams_outside : Outside (string * string) log_stream_row. Proof. solve_outside. Qed.
#[export] Instance chunks_outside : Outside (string * string * Z) log_chunk_row. Proof. solve_outside. Qed.
#[export] Instance policies_outside : Outside string policy_row. Proof. solve_outside. Qed.
#[export] Instance assertions_outside : Outside (string * string) assertion_row. Proof. solve_outside. Qed.

Section outside.
Context {K R : Type} `{Outside K R}.

Lemma INSERT_outside (k : K) (row : R) e d u d' : INSERT k row e d = Ok (u, d') → same_lifecycle d d'.
Proof. rewrite INSERT_ok. intros (_ & _ & ->). apply outside_set. Qed.

Lemma INSERT_or_nothing_outside (k : K) (row : R) e d n d' :
  INSERT_or_nothing k row e d = Ok (n, d') → same_lifecycle d d'.
Proof. rewrite INSERT_or_nothing_ok. intros [(_ & -> & _)|(_ & _ & _ & ->)]; [done|apply outside_set]. Qed.

Lemma UPDATE_outside (k : K) (p : R → bool) f e d n d' : UPDATE k p f e d = Ok (n, d') → same_lifecycle d d'.
Proof.
  rewrite UPDATE_ok. intros [(old & row & _ & _ & _ & _ & _ & Ha)|(_ & -> & _)]; [|done].
  etrans; [apply outside_set|by eapply outside_after].
Qed.
End outside.

Lemma insert_audit_frame row e d u d' :
  insert_audit row e d = Ok (u, d') → d' = d <| d_audit := d_audit d ++ [row] |>.
Proof. unfold insert_audit. rewrite bind_unit_ok. by intros [_ [= _ <-]]. Qed.

Lemma audit_same_lifecycle row e d u d' : insert_audit row e d = Ok (u, d') → same_lifecycle d d'.
Proof. intros ->%insert_audit_frame. by split_and!. Qed.

Lemma newID_same_lifecycle e d i d' : newID e d = Ok (i, d') → same_lifecycle d d'.
Proof. intros (ids & _ & ->)%newID_ok. by split_and!. Qed.

(** ** Updates that hit *)

(** What a chain of updates on the lifecycle tables did, table by table. *)
Definition lifecycle_is (d : db) (jobs : gmap string job_row) (runs : gmap string run_row)
    (executions : gmap string execution_row) (assignments : gmap string assignment_row) : Prop :=
  d_jobs d = jobs ∧ d_runs d = runs ∧ d_executions d = executions ∧ d_assignments d = assignments.

Lemma lifecycle_is_here d : lifecycle_is d (d_jobs d) (d_runs d) (d_executions d) (d_assignments d).
Proof. by split_and!. Qed.

Lemma lifecycle_is_same d d' js rs xs zs : same_lifecycle d d' → lifecycle_is d js rs xs zs → lifecycle_is d' js rs xs zs.
Proof. intros (?&?&?&?) (?&?&?&?). split_and!; congruence. Qed.

Section hits.
Context (d d' : db) (e : env) (js : gmap string job_row) (rs : gmap string run_row)
  (xs : gmap string execution_row) (zs : gmap string assignment_row) (L : lifecycle_is d js rs xs zs).

Lemma jobs_hit k p f n old :
  UPDATE k p f e d = Ok (n, d') → js !! k = Some old → p old = true →
  ∃ s c, lifecycle_is d' (<[k := with_lifecycle (f old) s c]> js) rs xs zs.
Proof using L.
  destruct L as (<- & <- & <- & <-). intros Hrun Hk Hp.
  apply UPDATE_jobs_ok in Hrun as [(_ & _ & Hno)|(_ & old' & s & c & o & ids & Hk' & _ & _ & ->)].
  - rewrite (Hno _ Hk) in Hp. done.
  - rewrite Hk in Hk'. injection Hk' as <-. exists s, c. by split_and!.
Qed.

Lemma runs_hit k p f n old :
  UPDATE k p f e d = Ok (n, d') → rs !! k = Some old → p old = true →
  lifecycle_is d' js (<[k := f old]> rs) xs zs.
Proof using L.
  destruct L as (<- & <- & <- & <-). intros Hrun Hk Hp.
  apply UPDATE_runs_ok in Hrun as [(_ & _ & Hno)|(_ & old' & Hk' & _ & _ & ->)].
  - rewrite (Hno _ Hk) in Hp. done.
  - rewrite Hk in Hk'. injection Hk' as <-. by split_and!.
Qed.

Lemma runs_miss k p f n old :
  UPDATE k p f e d = Ok (n, d') → rs !! k = Some old → p old = false →
  lifecycle_is d' js rs xs zs.
Proof using L.
  destruct L as (<- & <- & <- & <-). intros Hrun Hk Hp.
  apply UPDATE_runs_ok in Hrun as [(_ & -> & Hno)|(_ & old' & Hk' & Hp' & _ & ->)].
  - by split_and!.
  - rewrite Hk in Hk'. injection Hk' as <-. congruence.
Qed.

Lemma executions_hit k p f n old :
  UPDATE k p f e d = Ok (n, d') → xs !! k = Some old → p old = true →
  lifecycle_is d' js rs (<[k := f old]> xs) zs.
Proof using L.
  destruct L as (<- & <- & <- & <-). intros Hrun Hk Hp.
  apply UPDATE_executions_ok in Hrun as [(_ & _ & Hno)|(_ & old' & Hk' & _ & _ & ->)].
  - rewrite (Hno _ Hk) in Hp. done.
  - rewrite Hk in Hk'. injection Hk' as <-. by split_and!.
Qed.

Lemma assignments_hit k p f n old :
  UPDATE k p f e d = Ok (n, d') → zs !! k = Some old → p old = true →
  lifecycle_is d' js rs xs (<[k := f old]> zs).
Proof using L.
  destruct L as (<- & <- & <- & <-). intros Hrun Hk Hp.
  apply UPDATE_assignments_ok in Hrun as [(_ & _ & Hno)|(_ & old' & Hk' & _ & _ & ->)].
  - rewrite (Hno _ Hk) in Hp. done.
  - rewrite Hk in Hk'. injection Hk' as <-. by split_and!.
Qed.
End hits.

(** Check, column by column, that a row advances from the phase [Hp] names. *)
Ltac advance Hp :=
  constructor; cbn; rewrite ?Hp; try done; try lia; try (by intros); try (vm_compute; lia).

(** The trigger columns are outside the invariant. *)
Lemma coupled_with_lifecycle j s c r x a : coupled (with_lifecycle j s c) r x a ↔ coupled j r x a.
Proof. destruct j. split; intros []; constructor; assumption. Qed.
Lemma idle_with_lifecycle j s c : idle_wf (with_lifecycle j s c) ↔ idle_wf j.
Proof. destruct j. reflexivity. Qed.
Lemma advances_with_lifecycle j j' s c :
  j_phase j ≠ "terminal" → job_advances j j' → job_advances j (with_lifecycle j' s c).
Proof. intros Ht [? ? ? ? ? ? ? [? ?] (?&?&?&?)]. destruct j'. constructor; try done. Qed.

(** The four rows of one dispatched job are replaced. *)
Lemma evolves_quad_is d d' jid rid eid aid j r x a j' s c r' x' a' :
  lifecycle_inv d →
  quad (d_jobs d) (d_runs d) (d_executions d) (d_assignments d) jid rid eid aid j r x a →
  lifecycle_is d' (<[jid := with_lifecycle j' s c]> (d_jobs d)) (<[rid := r']> (d_runs d))
    (<[eid := x']> (d_executions d)) (<[aid := a']> (d_assignments d)) →
  j_phase j ≠ "terminal" →
  r_job_id r' = r_job_id r → r_run_number r' = r_run_number r →
  coupled j' r' x' a' → job_advances j j' → execution_advances x x' → assignment_advances a a' →
  lifecycle_inv d' ∧ progress d d'.
Proof.
  intros I Hq (? & ? & ? & ?) Ht ? ? ? ? ? ?.
  eapply (evolves_quad d d'); eauto; [by apply coupled_with_lifecycle|by apply advances_with_lifecycle].
Qed.

(** Statements outside the lifecycle tables, read off the run. *)
Lemma audit_system_same n a t i l e d u d' : audit_system n a t i l e d = Ok (u, d') → same_lifecycle d d'.
Proof. unfold audit_system. intros H. tx_inv. by eapply audit_same_lifecycle. Qed.
Lemma audit_agent_same n g a t i q l e d u d' : audit_agent n g a t i q l e d = Ok (u, d') → same_lifecycle d d'.
Proof. unfold audit_agent. intros H. tx_inv. by eapply audit_same_lifecycle. Qed.
Lemma audit_principal_same n g a t i q k l e d u d' :
  audit_principal n g a t i q k l e d = Ok (u, d') → same_lifecycle d d'.
Proof. unfold audit_principal. intros H. tx_inv. by eapply audit_same_lifecycle. Qed.
Lemma insert_outbox_same i n t a k l e d u d' : insert_outbox i n t a k l e d = Ok (u, d') → same_lifecycle d d'.
Proof. unfold insert_outbox. intros H. tx_inv. by apply INSERT_outside in H0. Qed.

(** Turn every statement outside the lifecycle tables into [same_lifecycle]. *)
Ltac outside_step :=
  match goal with
  | H : INSERT _ _ _ _ = Ok _ |- _ => apply INSERT_outside in H
  | H : INSERT_or_nothing _ _ _ _ = Ok _ |- _ => apply INSERT_or_nothing_outside in H
  | H : UPDATE _ _ _ _ _ = Ok _ |- _ => apply UPDATE_outside in H
  | H : newID _ _ = Ok _ |- _ => apply newID_same_lifecycle in H
  | H : audit_system _ _ _ _ _ _ _ = Ok _ |- _ => apply audit_system_same in H
  | H : audit_agent _ _ _ _ _ _ _ _ _ = Ok _ |- _ => apply audit_agent_same in H
  | H : audit_principal _ _ _ _ _ _ _ _ _ _ = Ok _ |- _ => apply audit_principal_same in H
  | H : insert_outbox _ _ _ _ _ _ _ _ = Ok _ |- _ => apply insert_outbox_same in H
  end.

(** ** [AcceptAssignment] *)

Lemma assignment_row_of_quad d deliveryID ns a x r j :
  lifecycle_inv d → assignment_row_of d deliveryID ns = Some (a, x, r, j) →
  quad (d_jobs d) (d_runs d) (d_executions d) (d_assignments d)
    (r_job_id r) (e_run_id x) (a_execution_id a) deliveryID j r x a ∧ coupled j r x a ∧ a_namespace_id a = ns.
Proof.
  intros I Hrow. unfold assignment_row_of in Hrow.
  apply bind_Some in Hrow as (a0 & Ha & Hrow). case_match; [|done]. bool_step.
  apply bind_Some in Hrow as (x0 & Hx & Hrow).
  apply bind_Some in Hrow as (r0 & Hr & Hrow). apply bind_Some in Hrow as (j0 & Hj & Hrow). simplify_eq.
  destruct (quad_of_assignment _ _ _ _ _ _ I Ha) as (jid & rid & j' & r' & x' & Hq & Hc).
  pose proof Hq as []. simplify_eq. done.
Qed.

Lemma stages_offered j r x : stages j r x "offered" → j = "assigning" ∧ r = "assigning" ∧ x = "planned".
Proof. inversion 1. done. Qed.

(** The rows of a first acceptance. *)
Lemma accept_rows_ok acceptance document jid rid eid revision e d u d' j r x a :
  lifecycle_inv d →
  quad (d_jobs d) (d_runs d) (d_executions d) (d_assignments d) jid rid eid (acc_DeliveryID acceptance) j r x a →
  coupled j r x a → a_state a = "offered" → revision = e_revision x + 1 →
  accept_rows acceptance document eid rid jid revision e d = Ok (u, d') →
  (lifecycle_inv d' ∧ progress d d') ∧
  ∃ x' a', d_executions d' !! eid = Some x' ∧ d_assignments d' !! acc_DeliveryID acceptance = Some a' ∧
    e_phase x' = "accepted" ∧ e_revision x' = revision ∧
    a_state a' = "accepted" ∧ a_accepted_at a' = Some (transaction_timestamp e) ∧
    a_acceptance_digest a' = Some (acc_RequestDigest acceptance).
Proof.
  intros I Hq Hc Ho Hrev Hrun. pose proof Hq as [Hj Hr Hx Ha ? ? ?].
  pose proof Hc as [Hst ? ? ? ? ? ? (? & ? & ?)]. rewrite Ho in Hst.
  apply stages_offered in Hst as (Hjp & Hrp & Hxp).
  unfold accept_rows in Hrun. tx_inv.
  pose proof (lifecycle_is_here d) as L0.
  eapply assignments_hit in L0; [|eassumption|exact Ha|by apply eqs_true].
  eapply executions_hit in L0; [|eassumption|exact Hx|by apply eqs_true].
  eapply runs_hit in L0; [|eassumption|exact Hr|by apply eqs_true].
  eapply jobs_hit in L0 as (s & c & L0); [|eassumption|exact Hj|by apply eqs_true].
  split.
  - eapply evolves_quad_is; [done|exact Hq|exact L0|congruence|done|done| | | |].
    + constructor; cbn; try done. constructor.
    + advance Hjp.
    + advance Hxp.
    + advance Ho.
  - destruct L0 as (_ & _ & -> & ->). eexists _, _. rewrite !lookup_insert_eq. by split_and!.
Qed.

(** A successful acceptance: who may accept, what it returns and what it leaves. *)
Record launched (identity : AgentIdentity) (acceptance : Acceptance) (lau : LaunchAuthorization)
    (d d' : db) : Prop := {
  ln_assignment : ∃ a x acceptedAt,
    d_assignments d' !! acc_DeliveryID acceptance = Some a ∧
    d_executions d' !! acc_ExecutionID acceptance = Some x ∧
    a_execution_id a = acc_ExecutionID acceptance ∧ a_agent_id a = ai_AgentID identity ∧
    a_state a = "accepted" ∧ a_accepted_at a = Some acceptedAt ∧
    default "" (a_acceptance_digest a) = acc_RequestDigest acceptance ∧
    e_effective_spec_digest x = acc_EffectiveExecutionDigest acceptance ∧
    e_target_generation_id x = ai_TargetGenerationID identity ∧
    lau = launchAuthorization (acc_DeliveryID acceptance) (acc_ExecutionID acceptance) (ai_AgentID identity)
            (ai_TargetGenerationID identity) (acc_EffectiveExecutionDigest acceptance) (e_revision x)
            acceptedAt (lau_Replayed lau);
  ln_first : lau_Replayed lau = false → ∃ a x j, d_assignments d !! acc_DeliveryID acceptance = Some a ∧
    a_state a = "offered" ∧ d_executions d !! acc_ExecutionID acceptance = Some x ∧ e_phase x = "planned" ∧
    (∃ r, d_runs d !! e_run_id x = Some r ∧ d_jobs d !! r_job_id r = Some j) ∧ j_desired_state j = "run";
  ln_replay : lau_Replayed lau = true → d' = d }.

Lemma AcceptAssignment_ok identity acceptance e d lau d' :
  lifecycle_inv d → AcceptAssignment identity acceptance e d = Ok (lau, d') →
  (lifecycle_inv d' ∧ progress d d') ∧ launched identity acceptance lau d d'.
Proof.
  intros I Hrun. unfold AcceptAssignment in Hrun. tx_inv.
  match goal with H : (let '(_, _) := ?t in _) _ _ = _ |- _ => destruct t as [[[a x] r] j] end.
  match goal with H : assignment_row_of _ _ _ = _ |- _ => apply assignment_row_of_quad in H as (Hq & Hc & _); [|done] end.
  guard_inv. pose proof Hq as [Hj Hr Hx Ha ? ? ?].
  match goal with H : (if eqs (a_state a) "accepted" then _ else _) _ _ = _ |- _ => rename H into Hrun end.
  destruct (eqs (a_state a) "accepted") eqn:Hacc; bool_step.
  - destruct (a_accepted_at a) as [t|] eqn:Ht; [|by guard_inv]. guard_inv. split; [done|].
    constructor; cbn; [|done|done]. exists a, x, t. split_and!; try congruence.
  - guard_inv.
    match goal with H : accept_rows _ _ _ _ _ _ _ _ = _ |- _ =>
      eapply accept_rows_ok in H as (He & x' & a' & Hx' & Ha' & Hp & Hrev & Hs & Hat & Hdig); [|done|exact Hq|done|done|done] end.
    match goal with H : audit_agent _ _ _ _ _ _ _ _ _ = _ |- _ =>
      pose proof (audit_agent_same _ _ _ _ _ _ _ _ _ _ _ H) as Hsame end.
    split.
    { destruct He as [I' P]. destruct (same_lifecycle_evolves _ _ Hsame I') as [? P']. split; [done|by etrans]. }
    destruct He as [I' P]. destruct Hsame as (_ & _ & Hxs & Has).
    destruct (pg_executions _ _ P _ _ Hx) as (x2 & Hx2 & Ax).
    destruct (pg_assignments _ _ P _ _ Ha) as (a2 & Ha2 & Aa).
    assert (x2 = x') as -> by congruence. assert (a2 = a') as -> by congruence.
    destruct Ax as [_ _ _ _ _ _ _ Hgen [Hspec _]], Aa as [_ Hex Hag _].
    constructor; cbn; [|intros _|done].
    + exists a', x', (transaction_timestamp e). rewrite Hxs, Has. split_and!; try congruence.
      by rewrite Hdig.
    + exists a, x, j. split_and!; try congruence.
      * destruct Hc as [Hst]. match goal with H : a_state a = _ |- _ => rewrite H in Hst end.
        by apply stages_offered in Hst as (_ & _ & ?).
      * exists r. split; congruence.
Qed.

(** ** Cancelling one job *)

Lemma singleton_list {A} (l : list A) x : NoDup l → x ∈ l → (∀ y, y ∈ l → y = x) → l = [x].
Proof.
  intros Hnd Hx Hall. destruct l as [|a [|b l]].
  - by apply not_elem_of_nil in Hx.
  - by rewrite (Hall a) by set_solver.
  - rewrite (Hall a), (Hall b) in Hnd by set_solver. apply NoDup_cons in Hnd as [Hn _]. set_solver.
Qed.

Lemma withdraw_assignment_ok eid e d u d' jid rid aid j r x a :
  lifecycle_inv d →
  quad (d_jobs d) (d_runs d) (d_executions d) (d_assignments d) jid rid eid aid j r x a →
  a_state a = "offered" → withdraw_assignment eid e d = Ok (u, d') →
  lifecycle_is d' (d_jobs d) (d_runs d) (d_executions d)
    (<[aid := a <| a_state := "withdrawn" |>]> (d_assignments d)).
Proof.
  intros I Hq Ho Hrun. pose proof Hq as [_ _ _ Ha _ _ Hae]. unfold withdraw_assignment in Hrun. tx_inv.
  match goal with H : for_eachT _ ?ks _ _ = _ |- _ => assert (ks = [aid]) as Hks end.
  { apply singleton_list; [apply NoDup_select_keys| |].
    - apply list_elem_of_fmap. exists (aid, a). split; [done|]. apply elem_of_select. split; [done|].
      by rewrite Ho, !eqs_refl.
    - intros k Hk. apply list_elem_of_fmap in Hk as ([k' a'] & -> & Hin). apply elem_of_select in Hin as [Hk' ?].
      guard_inv. cbn. eapply (lc_one_assignment _ _ _ _ I); [exact Hk'|exact Ha|congruence]. }
  match goal with H : for_eachT _ _ _ _ = _ |- _ => rewrite Hks in H; unfold for_eachT in H; cbn [forT] in H end.
  tx_inv. eapply assignments_hit; [apply lifecycle_is_here|eassumption|exact Ha|by apply eqs_true].
Qed.

(** An offer is withdrawn: the four rows become terminal and cancelled. *)
Lemma cancel_offer_ok d1 d2 d3 e n2 n3 n4 u1 d d' now jid rid eid aid j r x a :
  lifecycle_inv d →
  quad (d_jobs d) (d_runs d) (d_executions d) (d_assignments d) jid rid eid aid j r x a →
  coupled j r x a → e_phase x = "planned" →
  withdraw_assignment eid e d = Ok (u1, d1) →
  UPDATE eid (λ _, true) (cancel_execution_row now) e d1 = Ok (n2, d2) →
  UPDATE rid (λ _, true) (cancel_run_row now) e d2 = Ok (n3, d3) →
  UPDATE jid (λ _, true) (cancel_job_row now) e d3 = Ok (n4, d') →
  (lifecycle_inv d' ∧ progress d d') ∧
  ∃ s c, lifecycle_is d' (<[jid := with_lifecycle (cancel_job_row now j) s c]> (d_jobs d))
    (<[rid := cancel_run_row now r]> (d_runs d)) (<[eid := cancel_execution_row now x]> (d_executions d))
    (<[aid := a <| a_state := "withdrawn" |>]> (d_assignments d)).
Proof.
  intros I Hq Hc Hxp H1 H2 H3 H4. pose proof Hq as [Hj Hr Hx Ha ? ? ?].
  pose proof Hc as [Hst Hdes ? ? Hoff ? ? (? & ? & ?)]. rewrite Hxp in Hst. inversion Hst as [Hjp Hrp Ho| | | |].
  symmetry in Hjp, Hrp, Ho.
  eapply withdraw_assignment_ok in H1 as L; [|done|exact Hq|done].
  eapply executions_hit in L; [|exact H2|exact Hx|done].
  eapply runs_hit in L; [|exact H3|exact Hr|done].
  eapply jobs_hit in L as (s & c & L); [|exact H4|exact Hj|done].
  split; [|by exists s, c].
  eapply evolves_quad_is; [done|exact Hq|exact L|congruence|done|done| | | |].
  - destruct (Hoff Hxp). constructor; cbn; try done. constructor.
  - advance Hjp.
  - advance Hxp.
  - advance Ho.
Qed.

(** A running job is asked to stop: only the desired state changes. *)
Lemma desire_cancel_ok d1 e n1 n2 d d' now jid rid eid aid j r x a :
  lifecycle_inv d →
  quad (d_jobs d) (d_runs d) (d_executions d) (d_assignments d) jid rid eid aid j r x a →
  coupled j r x a → e_phase x ≠ "planned" → j_phase j ≠ "terminal" →
  UPDATE rid (λ _, true) (desire_cancel_run now) e d = Ok (n1, d1) →
  UPDATE jid (λ _, true) (desire_cancel_job now) e d1 = Ok (n2, d') →
  (lifecycle_inv d' ∧ progress d d') ∧
  ∃ s c, lifecycle_is d' (<[jid := with_lifecycle (desire_cancel_job now j) s c]> (d_jobs d))
    (<[rid := desire_cancel_run now r]> (d_runs d)) (<[eid := x]> (d_executions d))
    (<[aid := a]> (d_assignments d)).
Proof.
  intros I Hq Hc Hxp Hjp H1 H2. pose proof Hq as [Hj Hr Hx Ha ? ? ?].
  pose proof Hc as [Hst ? ? ? ? ? ? (? & ? & ?)].
  pose proof (lifecycle_is_here d) as L.
  eapply runs_hit in L; [|exact H1|exact Hr|done].
  eapply jobs_hit in L as (s & c & L); [|exact H2|exact Hj|done].
  rewrite <-(insert_id (d_executions d) _ _ Hx), <-(insert_id (d_assignments d) _ _ Ha) in L.
  split; [|by exists s, c].
  eapply evolves_quad_is; [done|exact Hq|exact L|done|done|done| | | |].
  - constructor; cbn; done.
  - constructor; cbn; try done. lia.
  - reflexivity.
  - reflexivity.
Qed.

Lemma insert_cancel_action_same actionID ns eid agent doc e d u d' :
  insert_cancel_action actionID ns eid agent doc e d = Ok (u, d') → same_lifecycle d d'.
Proof. unfold insert_cancel_action. intros H. tx_inv. case_match; tx_inv; [done|]. by apply INSERT_outside in H1. Qed.

Lemma head_select_None {R} (p : string → R → bool) (m : gmap string R) :
  head (select p m) = None → ∀ k r, m !! k = Some r → p k r = false.
Proof.
  intros Hh k r Hk. destruct (select p m) eqn:Hs; [|done].
  apply not_true_iff_false. intros Hp. apply (not_elem_of_nil (k, r)). rewrite <-Hs. by apply elem_of_select.
Qed.

Lemma head_select_Some {R} (p : string → R → bool) (m : gmap string R) k r :
  head (select p m) = Some (k, r) → m !! k = Some r ∧ p k r = true.
Proof. intros Hh%head_Some_elem_of. by apply elem_of_select. Qed.

(** The joins on [runs] and [executions] find the rows of the job, or it has no run. *)
Lemma run_of_job_cases d jid j :
  lifecycle_inv d → d_jobs d !! jid = Some j →
  (head (select (λ _ r, eqs (r_job_id r) jid) (d_runs d)) = None ∧ has_no_run (d_runs d) jid) ∨
  (∃ rid r eid x aid a,
     head (select (λ _ r, eqs (r_job_id r) jid) (d_runs d)) = Some (rid, r) ∧
     execution_of_run d rid = Some (eid, x) ∧
     quad (d_jobs d) (d_runs d) (d_executions d) (d_assignments d) jid rid eid aid j r x a ∧ coupled j r x a).
Proof.
  intros I Hj. destruct (head (select _ (d_runs d))) as [[rid r]|] eqn:Hh; [right|left].
  - apply head_select_Some in Hh as [Hr ?]. guard_inv.
    destruct (quad_of_job _ _ _ _ _ _ _ I Hr eq_refl) as (eid & aid & j' & x & a & Hq & Hc).
    pose proof Hq as [Hj' _ Hx _ _ Hxr _]. assert (j' = j) as -> by congruence.
    exists rid, r, eid, x, aid, a. split_and!; try done.
    unfold execution_of_run. destruct (head _) as [[eid' x']|] eqn:He.
    + apply head_select_Some in He as [Hx' ?]. guard_inv.
      assert (eid' = eid) as -> by (eapply (lc_one_execution _ _ _ _ I); [exact Hx'|exact Hx|congruence]). congruence.
    + eapply head_select_None in He; [|exact Hx]. guard_inv. congruence.
  - split; [done|]. intros rid r Hr Heq. eapply head_select_None in Hh; [|exact Hr]. guard_inv. done.
Qed.

(** The job has stopped or is asked to. *)
Definition stopped (d : db) (jid : string) : Prop :=
  ∃ j, d_jobs d !! jid = Some j ∧ (j_phase j = "terminal" ∨ j_desired_state j = "cancel").

Lemma stopped_progress d d' jid : progress d d' → stopped d jid → stopped d' jid.
Proof.
  intros P (j & Hj & Hs). destruct (pg_jobs _ _ P _ _ Hj) as (j' & Hj' & A). exists j'. split; [done|].
  destruct Hs as [Ht|Hc]; [left|right].
  - by rewrite (ja_final _ _ A Ht).
  - by apply (ja_cancel _ _ A).
Qed.

(** What a row of the sibling query says about the database it was read from, and
    about every later one in which that job has not moved. *)
Record sibling_ready (d : db) (s : collectionSibling) : Prop := {
  sr_rows : ∃ j, d_jobs d !! sib_jobID s = Some j ∧ j_phase j ≠ "terminal" ∧
    ((sib_executionID s = "" ∧ has_no_run (d_runs d) (sib_jobID s)) ∨
     (sib_executionID s ≠ "" ∧ ∃ aid r x a,
        quad (d_jobs d) (d_runs d) (d_executions d) (d_assignments d)
          (sib_jobID s) (sib_runID s) (sib_executionID s) aid j r x a ∧
        sib_executionPhase s = e_phase x ∧ sib_agentID s = e_agent_id x)) }.

Lemma sibling_of_ready d jid j :
  lifecycle_inv d → d_jobs d !! jid = Some j → is_terminal j = false → sibling_ready d (sibling_of d (jid, j)).
Proof.
  intros I Hj Ht. constructor. exists j. cbn. apply eqs_false in Ht. split_and!; [done|done|].
  destruct (run_of_job_cases _ _ _ I Hj) as [[-> Hno]|(rid & r & eid & x & aid & a & -> & Hx & Hq & Hc)]; [by left|right].
  cbn. rewrite Hx. cbn. split; [|by eauto 10].
  intros ->. destruct Hq. rewrite (lc_execution_id _ _ _ _ I) in *. done.
Qed.

(** Moving one job leaves the rows of the others in place. *)
Lemma quad_frame d d' jid rid eid aid j r x a j' r' x' a' jid2 rid2 eid2 aid2 j2 r2 x2 a2 :
  quad (d_jobs d) (d_runs d) (d_executions d) (d_assignments d) jid rid eid aid j r x a →
  lifecycle_is d' (<[jid := j']> (d_jobs d)) (<[rid := r']> (d_runs d))
    (<[eid := x']> (d_executions d)) (<[aid := a']> (d_assignments d)) →
  quad (d_jobs d) (d_runs d) (d_executions d) (d_assignments d) jid2 rid2 eid2 aid2 j2 r2 x2 a2 →
  jid2 ≠ jid →
  quad (d_jobs d') (d_runs d') (d_executions d') (d_assignments d') jid2 rid2 eid2 aid2 j2 r2 x2 a2.
Proof.
  intros [] (-> & -> & -> & ->) [] Hne. constructor; try done; rewrite lookup_insert_ne; try done; congruence.
Qed.

Lemma no_run_frame runs rid r r' jid2 :
  has_no_run runs jid2 → runs !! rid = Some r → r_job_id r' = r_job_id r → has_no_run (<[rid := r']> runs) jid2.
Proof.
  intros Hno Hr Heq rid2 r2 Hr2. apply lookup_insert_Some in Hr2 as [[<- <-]|[_ Hr2]]; [|by eapply Hno].
  rewrite Heq. by eapply Hno.
Qed.

Lemma sibling_ready_frame d d' jid rid eid aid j r x a j' r' x' a' s :
  quad (d_jobs d) (d_runs d) (d_executions d) (d_assignments d) jid rid eid aid j r x a →
  lifecycle_is d' (<[jid := j']> (d_jobs d)) (<[rid := r']> (d_runs d))
    (<[eid := x']> (d_executions d)) (<[aid := a']> (d_assignments d)) →
  r_job_id r' = r_job_id r → sib_jobID s ≠ jid → sibling_ready d s → sibling_ready d' s.
Proof.
  intros Hq L Hrj Hne [(j2 & Hj2 & Ht & Hcase)]. pose proof L as (Hjs & Hrs & _ & _).
  constructor. exists j2. rewrite Hjs, lookup_insert_ne by done. split_and!; [done|done|].
  destruct Hcase as [[He Hno]|(He & aid2 & r2 & x2 & a2 & Hq2 & ? & ?)]; [left|right].
  - split; [done|]. rewrite Hrs. eapply no_run_frame; [done|by destruct Hq|done].
  - split; [done|]. exists aid2, r2, x2, a2. split_and!; try done. rewrite <-Hjs. eapply quad_frame; [exact Hq|exact L|exact Hq2|done].
Qed.

Lemma sibling_ready_same d d' s : same_lifecycle d d' → sibling_ready d s → sibling_ready d' s.
Proof. intros (Hj & Hr & Hx & Ha) [Hs]. constructor. by rewrite Hj, Hr, Hx, Ha. Qed.

Lemma sibling_ready_idle d d' jid j' s :
  d_jobs d' = <[jid := j']> (d_jobs d) → d_runs d' = d_runs d → d_executions d' = d_executions d →
  d_assignments d' = d_assignments d → has_no_run (d_runs d) jid →
  sib_jobID s ≠ jid → sibling_ready d s → sibling_ready d' s.
Proof.
  intros Hj Hr Hx Ha Hno Hne [(j2 & Hj2 & Ht & Hcase)]. constructor. exists j2.
  rewrite Hj, Hr, Hx, Ha, lookup_insert_ne by done. split_and!; [done|done|].
  destruct Hcase as [?|(? & aid2 & r2 & x2 & a2 & Hq2 & ? & ?)]; [by left|right].
  split; [done|]. exists aid2, r2, x2, a2. split_and!; try done.
  destruct Hq2. constructor; try done. by rewrite lookup_insert_ne.
Qed.

(** A waiting job is cancelled before any dispatch. *)
Lemma cancel_idle_ok e n d d' now jid j :
  lifecycle_inv d → d_jobs d !! jid = Some j → has_no_run (d_runs d) jid → j_phase j ≠ "terminal" →
  UPDATE jid (λ _, true) (cancel_job_row now) e d = Ok (n, d') →
  (lifecycle_inv d' ∧ progress d d') ∧
  ∃ s c, lifecycle_is d' (<[jid := with_lifecycle (cancel_job_row now j) s c]> (d_jobs d))
    (d_runs d) (d_executions d) (d_assignments d).
Proof.
  intros I Hj Hno Ht H1.
  eapply jobs_hit in H1 as (s & c & L); [|apply lifecycle_is_here|exact Hj|done]. split; [|by exists s, c].
  destruct (idle_phase _ _ _ I Hj Hno) as [(Hp & _)|[? _]]; [|done]. destruct L as (? & ? & ? & ?).
  eapply (evolves_idle d d'); eauto.
  - apply idle_with_lifecycle. right. cbn. eauto.
  - apply advances_with_lifecycle; [done|]. advance Hp.
Qed.

Lemma evolved_same d d1 d2 : lifecycle_inv d1 ∧ progress d d1 → same_lifecycle d1 d2 → lifecycle_inv d2 ∧ progress d d2.
Proof. intros [I P] S. destruct (same_lifecycle_evolves _ _ S I). split; [done|by etrans]. Qed.

Lemma evolved_trans d d1 d2 : lifecycle_inv d1 ∧ progress d d1 → evolves d1 d2 → lifecycle_inv d2 ∧ progress d d2.
Proof. intros [I P] E. destruct (E I). split; [done|by etrans]. Qed.

Lemma stopped_inserted d jid j : d_jobs d !! jid = Some j → j_desired_state j = "cancel" → stopped d jid.
Proof. intros ? ?. exists j. auto. Qed.

Lemma desired_with_lifecycle j s c : j_desired_state (with_lifecycle j s c) = j_desired_state j.
Proof. by destruct j. Qed.
Lemma phase_with_lifecycle j s c : j_phase (with_lifecycle j s c) = j_phase j.
Proof. by destruct j. Qed.

(** ** [cancelCollectionSibling] *)

Lemma cancelCollectionSibling_ok ns s e d u d' :
  lifecycle_inv d → sibling_ready d s → cancelCollectionSibling ns s e d = Ok (u, d') →
  (lifecycle_inv d' ∧ progress d d') ∧ stopped d' (sib_jobID s) ∧
  (∀ s', sib_jobID s' ≠ sib_jobID s → sibling_ready d s' → sibling_ready d' s').
Proof.
  intros I [(j & Hj & Ht & Hcase)] Hrun. unfold cancelCollectionSibling in Hrun. tx_inv.
  destruct Hcase as [[He Hno]|(He & aid & r & x & a & Hq & Hph & Hag)].
  - rewrite He, eqs_refl in *. tx_inv.
    match goal with H : UPDATE _ _ _ _ _ = _ |- _ =>
      eapply cancel_idle_ok in H as (Hev & sc & cc & L); [|done|exact Hj|done|done] end.
    destruct L as (Hjs & Hrs & Hxs & Has). split_and!; [apply Hev..| |].
    + eapply stopped_inserted; [by rewrite Hjs, lookup_insert_eq|by rewrite desired_with_lifecycle].
    + intros s' Hne. by eapply sibling_ready_idle.
  - rewrite (proj2 (eqs_false _ _) He) in *.
    pose proof (quad_coupled _ _ _ _ _ _ _ _ _ _ _ _ I Hq) as Hc. pose proof Hq as Hq'.
    destruct (eqs (sib_executionPhase s) "planned") eqn:Hpl; bool_step; tx_inv.
    + match goal with H : UPDATE (sib_jobID s) _ _ _ _ = _ |- _ => rename H into U4 end.
      match goal with H : UPDATE (sib_runID s) _ _ _ _ = _ |- _ => rename H into U3 end.
      match goal with H : UPDATE (sib_executionID s) _ _ _ _ = _ |- _ => rename H into U2 end.
      match goal with H : withdraw_assignment _ _ _ = _ |- _ => rename H into U1 end.
      destruct (cancel_offer_ok _ _ _ _ _ _ _ _ _ _ _ _ _ _ _ _ _ _ _ I Hq' Hc ltac:(congruence) U1 U2 U3 U4)
        as (Hev & sc & cc & L). pose proof L as (Hjs & _). split_and!; [apply Hev..| |].
      * eapply stopped_inserted; [by rewrite Hjs, lookup_insert_eq|by rewrite desired_with_lifecycle].
      * intros s' Hne. by eapply sibling_ready_frame.
    + match goal with H : UPDATE (sib_jobID s) _ _ _ _ = _ |- _ => rename H into U4 end.
      match goal with H : UPDATE (sib_runID s) _ _ _ _ = _ |- _ => rename H into U3 end.
      match goal with H : newID _ _ = Ok (_, ?d0) |- _ => apply newID_same_lifecycle in H as S1 end.
      match goal with H : insert_cancel_action _ _ _ _ _ _ _ = Ok _ |- _ => apply insert_cancel_action_same in H as S2 end.
      pose proof (transitivity S1 S2) as S. clear S1 S2.
      pose proof (evolved_same d d _ (conj I (reflexivity d)) S) as Hev0.
      pose proof S as (Hjs0 & Hrs0 & Hxs0 & Has0).
      rewrite <-Hjs0, <-Hrs0, <-Hxs0, <-Has0 in Hq'.
      destruct (desire_cancel_ok _ _ _ _ _ _ _ _ _ _ _ _ _ _ _ (proj1 Hev0) Hq' Hc ltac:(congruence) Ht U3 U4)
        as ((I' & P') & sc & cc & L). pose proof L as (Hjs & _). split_and!; [done|by etrans; [apply Hev0|]| |].
      * eapply stopped_inserted; [by rewrite Hjs, lookup_insert_eq|by rewrite desired_with_lifecycle].
      * intros s' Hne Hs'. eapply sibling_ready_frame; [exact Hq'|exact L|done|done|]. by eapply sibling_ready_same.
Qed.

Lemma cancel_siblings_ok (f : collectionSibling → tx unit) ns l e d u d' :
  (∀ s d u d', f s e d = Ok (u, d') → cancelCollectionSibling ns s e d = Ok (u, d')) →
  lifecycle_inv d → NoDup (sib_jobID <$> l) → Forall (sibling_ready d) l →
  for_eachT f l e d = Ok (u, d') →
  (lifecycle_inv d' ∧ progress d d') ∧ Forall (stopped d') (sib_jobID <$> l).
Proof.
  intros Hf. unfold for_eachT. revert d u. induction l as [|s l IH]; intros d u I Hnd Hall Hrun; cbn in *; tx_inv.
  - by split.
  - apply NoDup_cons in Hnd as [Hs Hnd]. apply Forall_cons in Hall as [Hready Hall].
    match goal with H : f s e d = _ |- _ => apply Hf in H; eapply cancelCollectionSibling_ok in H as ((I1 & P1) & Hst & Hfr); [|done|done] end.
    match goal with H : forT _ _ l _ _ = _ |- _ => apply IH in H as ((I2 & P2) & Hrest); [|done|done|] end.
    + split; [split; [done|by etrans]|]. constructor; [|done]. by eapply stopped_progress.
    + rewrite Forall_forall in Hall |- *. intros s' Hs'. apply Hfr; [|by apply Hall].
      intros Heq. apply Hs. rewrite <-Heq. apply list_elem_of_fmap. eauto.
Qed.

(** ** Group completion *)

Lemma NoDup_order_by_keys {R} (key : string * R → Z) tie (p : string → R → bool) (m : gmap string R) :
  NoDup (order_by key tie (select p m)).*1.
Proof. unfold order_by. rewrite merge_sort_Permutation. apply NoDup_select_keys. Qed.

Lemma members_ready d key p :
  lifecycle_inv d → (∀ k j, p k j = true → is_terminal j = false) →
  let l := sibling_of d <$> order_by key (λ _, "") (select p (d_jobs d)) in
  NoDup (sib_jobID <$> l) ∧ Forall (sibling_ready d) l ∧
  (∀ k j, d_jobs d !! k = Some j → p k j = true → k ∈ (sib_jobID <$> l)).
Proof.
  intros I Hp l.
  assert (sib_jobID <$> l = (order_by key (λ _, "") (select p (d_jobs d))).*1) as Hids.
  { subst l. rewrite <-list_fmap_compose. by apply list_fmap_ext. }
  split_and!.
  - rewrite Hids. apply NoDup_order_by_keys.
  - apply Forall_fmap, Forall_forall. intros [k j] Hin. apply elem_of_order_by, elem_of_select in Hin as [Hj ?].
    apply sibling_of_ready; eauto.
  - intros k j Hk Hpk. rewrite Hids. apply list_elem_of_fmap. exists (k, j). split; [done|].
    by apply elem_of_order_by, elem_of_select.
Qed.

Lemma open_siblings_ready d cid jid :
  lifecycle_inv d →
  NoDup (sib_jobID <$> open_siblings d cid jid) ∧ Forall (sibling_ready d) (open_siblings d cid jid) ∧
  (∀ k j, d_jobs d !! k = Some j → j_collection_id j = Some cid → k ≠ jid → j_phase j ≠ "terminal" →
     k ∈ (sib_jobID <$> open_siblings d cid jid)).
Proof.
  intros I. unfold open_siblings.
  match goal with |- context [select ?p (d_jobs d)] => pose proof (members_ready d
    (λ kr : string * job_row, default 0 (j_collection_index kr.2)) p I) as (? & ? & Hin) end.
  - intros k j ?. guard_inv. done.
  - split_and!; try done. intros k j Hk Hc Hne Ht. apply (Hin k j Hk). unfold in_collection, is_terminal.
    rewrite bool_decide_true by done. by rewrite !(proj2 (eqs_false _ _)) by done.
Qed.

Lemma applyCollectionCompletion_ok ns jid outcome e d u d' :
  applyCollectionCompletion ns jid outcome e d = Ok (u, d') → evolves d d'.
Proof.
  intros Hrun I. unfold applyCollectionCompletion in Hrun. tx_inv.
  repeat case_match; tx_inv; try (by split).
  match goal with H : whenT _ _ _ _ = _ |- _ => apply whenT_ok in H as [[Hc H]|[Hc ->]] end; tx_inv; cbn in *.
  - match goal with H : UPDATE _ _ _ _ _ = _ |- _ => apply UPDATE_outside in H as S end.
    eapply evolved_same; [|exact S].
    match goal with H : for_eachT _ (open_siblings _ ?c ?k) _ _ = _ |- _ =>
      pose proof (open_siblings_ready d c k I) as (? & ? & _);
      eapply (cancel_siblings_ok (cancelCollectionSibling ns)) in H as [? _]; eauto end.
  - match goal with H : UPDATE _ _ _ _ _ = _ |- _ => apply UPDATE_outside in H as S end.
    by apply same_lifecycle_evolves.
Qed.

(** ** Graph completion *)

Lemma next_unsatisfiable_some e d gid jid :
  next_unsatisfiable e d gid = Some jid →
  ∃ j, d_jobs d !! jid = Some j ∧ unsatisfiable d gid jid j = true ∧ row_locked e jid = false.
Proof.
  unfold next_unsatisfiable. intros Hn. apply fmap_Some in Hn as ([k j] & Hh & ->).
  apply head_Some_elem_of, elem_of_order_by, elem_of_select in Hh as [Hk ?]. guard_inv. eauto.
Qed.

Lemma unsatisfiable_waiting d gid jid j :
  unsatisfiable d gid jid j = true → j_phase j = "accepted" ∧ j_graph_id j = Some gid.
Proof. unfold unsatisfiable. intros H. guard_inv. done. Qed.

Definition unsatisfied_row (now : timestamptz) (policy : string) (j : job_row) : job_row :=
  let '(disposition, outcome, desiredState) := disposition_of policy in
  j <| j_phase := "terminal"; j_desired_state := desiredState; j_outcome := Some outcome;
       j_graph_disposition := Some disposition; j_revision ::= Z.succ; j_updated_at := now |>.

(** One iteration updates one waiting job and writes evidence. *)
Lemma terminalize_node_frame ns gid policy jid e d u d' j :
  d_jobs d !! jid = Some j →
  terminalize_node ns gid policy jid e d = Ok (u, d') →
  ∃ s c o ids l, let row := with_lifecycle (unsatisfied_row (transaction_timestamp e) policy j) s c in
    Forall (λ c, c.2 = true) (job_constraints d jid row) ∧
    d' = d <| d_jobs := <[jid := row]> (d_jobs d); d_outbox := o; d_ids := ids |> <| d_audit := l |>.
Proof.
  intros Hj Hrun. unfold terminalize_node in Hrun. unfold unsatisfied_row.
  destruct (disposition_of policy) as [[disposition outcome] desired]. unfold audit_system in Hrun. tx_inv.
  match goal with H : UPDATE _ _ _ _ _ = _ |- _ => apply UPDATE_jobs_ok in H as
    [(_ & _ & Hno)|(_ & old & s & c & o & ids & Hk & _ & Hcs & ->)]; [by specialize (Hno _ Hj)|] end.
  assert (old = j) as -> by congruence.
  match goal with H : insert_audit _ _ _ = _ |- _ => apply insert_audit_frame in H as -> end.
  eexists s, c, o, ids, _. split; [exact Hcs|reflexivity].
Qed.

Lemma unsatisfied_row_idle now policy j : idle_wf (unsatisfied_row now policy j).
Proof. right. unfold unsatisfied_row. destruct (disposition_of policy) as [[? ?] ?]. cbn. eauto. Qed.

Lemma unsatisfied_row_advances now policy j :
  j_phase j = "accepted" → j_desired_state j = "run" → job_advances j (unsatisfied_row now policy j).
Proof.
  intros Hp Hr. unfold unsatisfied_row. destruct (disposition_of policy) as [[? ?] ?]. advance Hp.
  rewrite Hr. done.
Qed.

Lemma terminalize_node_ok ns gid policy jid e d u d' j :
  d_jobs d !! jid = Some j → j_phase j = "accepted" →
  terminalize_node ns gid policy jid e d = Ok (u, d') → evolves d d'.
Proof.
  intros Hj Hp Hrun I. eapply terminalize_node_frame in Hrun as (s & c & o & ids & l & _ & ->); [|done].
  pose proof (accepted_has_no_run _ _ _ I Hj Hp) as Hno.
  destruct (idle_phase _ _ _ I Hj Hno) as [(_ & Hr & _)|[? _]]; [|congruence].
  eapply (evolves_idle d _ jid j); try done.
  - apply idle_with_lifecycle, unsatisfied_row_idle.
  - apply advances_with_lifecycle; [congruence|]. by apply unsatisfied_row_advances.
Qed.

Lemma resolve_nodes_ok fuel ns gid policy e d u d' :
  resolve_nodes fuel ns gid policy e d = Ok (u, d') → evolves d d'.
Proof.
  revert d u. induction fuel as [|fuel IH]; intros d u Hrun; cbn in Hrun; [done|]. tx_inv.
  destruct (next_unsatisfiable _ _ _) as [jid|] eqn:Hn; tx_inv; [|reflexivity].
  apply next_unsatisfiable_some in Hn as (j & Hj & Hu & _). apply unsatisfiable_waiting in Hu as [Hp _].
  match goal with H : terminalize_node _ _ _ _ _ _ = _ |- _ => eapply terminalize_node_ok in H; [|done..] end.
  etrans; [done|]. by eapply IH.
Qed.

Lemma applyGraphCompletion_ok ns jid e d u d' :
  applyGraphCompletion ns jid e d = Ok (u, d') → evolves d d'.
Proof.
  intros Hrun. unfold applyGraphCompletion in Hrun. tx_inv. repeat case_match; tx_inv; try reflexivity.
  all: match goal with H : resolve_nodes _ _ _ _ _ _ = _ |- _ => apply resolve_nodes_ok in H; etrans; [exact H|] end.
  all: match goal with H : UPDATE _ _ _ _ _ = _ |- _ => apply UPDATE_outside in H; by apply same_lifecycle_evolves end.
Qed.

(** ** Requests that read or write only outside the lifecycle tables *)

Lemma authorizeNamespace_frame p n caps e d a d' : authorizeNamespace p n caps e d = Ok (a, d') → d' = d.
Proof. by intros [? _]%authorizeNamespace_authorized. Qed.

Lemma getJobByID_frame ns jid e d j d' : getJobByID ns jid e d = Ok (j, d') → d' = d.
Proof. unfold getJobByID. repeat case_match; intros Hrun; guard_inv; done. Qed.

Lemma getJobWithQuerier_frame ns jid e d j d' : getJobWithQuerier ns jid e d = Ok (j, d') → d' = d.
Proof. unfold getJobWithQuerier. repeat case_match; by intros [=]. Qed.

Lemma reserveIdempotency_same a op t k q n e d o d' :
  reserveIdempotency a op t k q n e d = Ok (o, d') → same_lifecycle d d'.
Proof.
  unfold reserveIdempotency. intros Hrun. tx_inv.
  match goal with H : INSERT_or_nothing _ _ _ _ = _ |- _ => apply INSERT_or_nothing_outside in H end.
  case_match; guard_inv; [done|]. repeat case_match; guard_inv; done.
Qed.

Lemma completeIdempotency_same a op k i n e d u d' :
  completeIdempotency a op k i n e d = Ok (u, d') → same_lifecycle d d'.
Proof. unfold completeIdempotency. intros Hrun. guard_inv. by apply UPDATE_outside in H0. Qed.

(** ** [CancelJob] *)

Lemma cancel_by_phase_ok ns jid actionID e d u d' j :
  d_jobs d !! jid = Some j → j_phase j ≠ "terminal" → lifecycle_inv d →
  cancel_by_phase ns jid actionID e d = Ok (u, d') →
  (lifecycle_inv d' ∧ progress d d') ∧ stopped d' jid.
Proof.
  intros Hj Ht I Hrun. unfold cancel_by_phase in Hrun. tx_inv. unfold execution_of_job in *.
  destruct (run_of_job_cases _ _ _ I Hj) as [[Hh Hno]|(rid & r & eid & x & aid & a & Hh & Hx & Hq & Hc)];
    rewrite Hh in *; cbn in *.
  - tx_inv. match goal with H : UPDATE _ _ _ _ _ = _ |- _ =>
      eapply cancel_idle_ok in H as (Hev & sc & cc & L); [|done|exact Hj|done|done] end.
    split; [done|]. destruct L as (Hjs & _).
    eapply stopped_inserted; [by rewrite Hjs, lookup_insert_eq|by rewrite desired_with_lifecycle].
  - rewrite Hx in *. cbn in *. destruct (eqs (e_phase x) "planned") eqn:Hpl; bool_step; tx_inv.
    + match goal with H : UPDATE jid _ _ _ _ = _ |- _ => rename H into U4 end.
      match goal with H : UPDATE rid _ _ _ _ = _ |- _ => rename H into U3 end.
      match goal with H : UPDATE eid _ _ _ _ = _ |- _ => rename H into U2 end.
      match goal with H : withdraw_assignment _ _ _ = _ |- _ => rename H into U1 end.
      destruct (cancel_offer_ok _ _ _ _ _ _ _ _ _ _ _ _ _ _ _ _ _ _ _ I Hq Hc Hpl U1 U2 U3 U4)
        as (Hev & sc & cc & (Hjs & _)). split; [done|].
      eapply stopped_inserted; [by rewrite Hjs, lookup_insert_eq|by rewrite desired_with_lifecycle].
    + match goal with H : UPDATE jid _ _ _ _ = _ |- _ => rename H into U4 end.
      match goal with H : UPDATE rid _ _ _ _ = _ |- _ => rename H into U3 end.
      match goal with H : insert_cancel_action _ _ _ _ _ _ _ = Ok _ |- _ => apply insert_cancel_action_same in H as S end.
      pose proof (evolved_same d d _ (conj I (reflexivity d)) S) as Hev0.
      pose proof S as (Hjs0 & Hrs0 & Hxs0 & Has0). rewrite <-Hjs0, <-Hrs0, <-Hxs0, <-Has0 in Hq.
      destruct (desire_cancel_ok _ _ _ _ _ _ _ _ _ _ _ _ _ _ _ (proj1 Hev0) Hq Hc Hpl Ht U3 U4)
        as ((I' & P') & sc & cc & (Hjs & _)). split; [split; [done|by etrans; [apply Hev0|]]|].
      eapply stopped_inserted; [by rewrite Hjs, lookup_insert_eq|by rewrite desired_with_lifecycle].
Qed.

Lemma CancelJob_evolves p n jid k q e d job d' : CancelJob p n jid k q e d = Ok (job, d') → evolves d d'.
Proof.
  intros Hrun I. unfold CancelJob in Hrun. guard_inv. cbn in *.
  match goal with H : newID _ _ = _ |- _ => apply newID_same_lifecycle in H as S0 end.
  match goal with H : authorizeNamespace _ _ _ _ _ = _ |- _ => apply authorizeNamespace_frame in H as -> end.
  match goal with H : reserveIdempotency _ _ _ _ _ _ _ _ = _ |- _ => apply reserveIdempotency_same in H as S1 end.
  pose proof (evolved_same d d _ (conj I (reflexivity d)) (transitivity S0 S1)) as Hev.
  case_match; guard_inv.
  { match goal with H : getJobByID _ _ _ _ = _ |- _ => apply getJobByID_frame in H as -> end. done. }
  case_match; guard_inv.
  { match goal with H : completeIdempotency _ _ _ _ _ _ _ = _ |- _ => apply completeIdempotency_same in H as S2 end.
    match goal with H : getJobByID _ _ _ _ = _ |- _ => apply getJobByID_frame in H as -> end.
    by eapply evolved_same. }
  match goal with H : cancel_by_phase _ _ _ _ _ = _ |- _ => eapply cancel_by_phase_ok in H as [E1 _] end;
    [| |done|apply Hev].
  - match goal with H : completeIdempotency _ _ _ _ _ _ _ = _ |- _ => apply completeIdempotency_same in H as S2 end.
    match goal with H : getJobByID _ _ _ _ = _ |- _ => apply getJobByID_frame in H as -> end.
    pose proof (evolved_same _ _ _ (conj (proj1 E1) (transitivity (proj2 Hev) (proj2 E1))) S2) as Hx.
    match goal with H : whenT _ _ _ _ = _ |- _ => apply whenT_ok in H as [[_ H]|[_ ->]] end; [|done].
    match goal with H : applyGraphCompletion _ _ _ _ = _ |- _ => apply applyGraphCompletion_ok in H end.
    by eapply evolved_trans.
  - destruct S1 as (-> & _). done.
Qed.
