(* ===== verification/LifecycleEvents.v ===== *)
(** * Events evolve the database

    [RecordExecutionEvent] keeps the lifecycle invariant and only moves rows
    forward: each event moves the four rows of one dispatched job together, and a
    completion then moves other members of its group. *)
From stdpp Require Import pretty.
From S2P Require Import Prelude Regex Names Domain TargetSpec Kahn Graph Contract Records Url Db Tx Constraints Auth Jobs Groups GraphStore Executions Coordinator Lifecycle Progress LifecycleOps.

(** ** What an event does to its job *)

Inductive live_stage : string → string → string → string → Prop :=
  | live_accepted : live_stage "accepted_execution" "accepted" "accepted" "accepted"
  | live_running : live_stage "running" "running" "running" "accepted".

Lemma stages_live jp rp xp s :
  stages jp rp xp s → xp = "accepted" ∨ xp = "running" → live_stage jp rp xp s.
Proof. destruct 1; intros [?|?]; try done; constructor. Qed.

Lemma live_stage_job jp rp xp s : live_stage jp rp xp s → jp ≠ "terminal" ∧ s = "accepted" ∧ xp ≠ "planned" ∧ xp ≠ "terminal".
Proof. by destruct 1. Qed.

Lemma validEventTransition_live phase type :
  validEventTransition phase type = true → phase = "accepted" ∨ phase = "running".
Proof. unfold validEventTransition. intros Hv. repeat case_match; try done; rewrite ?orb_true_iff, ?eqs_true in Hv; tauto. Qed.

(** What an event says of the phase and the outcome: of the execution, its run and its job alike. *)
Definition event_phase (event : ExecutionObservation) (old : string) : string :=
  if completionEvent (eo_Type event) then "terminal"
  else if eqs (eo_Type event) "process.started" || eqs (eo_SchedulerState event) "running" then "running"
  else old.
Definition event_outcome (event : ExecutionObservation) (old : option string) : option string :=
  if completionEvent (eo_Type event) then Some (eo_Outcome event) else old.

(** The execution row takes over what the event reports. *)
Record execution_reports (event : ExecutionObservation) (document : ExecutionEvent) (x x' : execution_row) : Prop := {
  xr_phase : e_phase x' = event_phase event (e_phase x);
  xr_outcome : e_outcome x' = event_outcome event (e_outcome x);
  xr_sequence : e_last_event_sequence x' = eo_Sequence event;
  xr_revision : e_revision x' = Z.succ (e_revision x);
  xr_run : e_run_id x' = e_run_id x;
  xr_result : e_process_result x' =
    if completionEvent (eo_Type event) then evs_Result (ev_Spec document) else e_process_result x;
  xr_native : e_native_id x' =
    if eqs (eo_Type event) "process.completed" then e_native_id x
    else if slices_Contains ["process.started"; "scheduler.completed"] (eo_Type event) then Some (eo_NativeID event)
    else if eqs (eo_NativeID event) "" then e_native_id x else Some (eo_NativeID event);
  xr_scheduler : schedulerEvent (eo_Type event) = true →
    e_native_backend x' = Some (eo_SchedulerBackend event) ∧ e_native_state x' = Some (eo_SchedulerState event) ∧
    e_native_reason x' = nullif (eo_SchedulerReason event) ∧ e_native_cluster x' = nullif (eo_SchedulerCluster event) ∧
    e_native_observed_at x' = Some (to_timestamptz (eo_ObservedAt event)) }.

(** The rows after an event. *)
Record event_applied (event : ExecutionObservation) (document : ExecutionEvent) (d d' : db) (jid rid eid : string)
    (j : job_row) (r : run_row) (x : execution_row) : Prop := {
  ea_evolved : lifecycle_inv d' ∧ progress d d';
  ea_execution : ∃ x', d_executions d' !! eid = Some x' ∧ execution_reports event document x x';
  ea_run : ∃ r', d_runs d' !! rid = Some r' ∧ r_phase r' = event_phase event (r_phase r) ∧
    r_outcome r' = event_outcome event (r_outcome r);
  ea_job : ∃ j', d_jobs d' !! jid = Some j' ∧ j_phase j' = event_phase event (j_phase j) ∧
    j_outcome j' = event_outcome event (j_outcome j) }.

Lemma event_phase_final event old : old ≠ "terminal" → event_phase event old = "terminal" → completionEvent (eo_Type event) = true.
Proof. intros Hne. unfold event_phase. repeat case_match; done. Qed.

Section event.
Context (event : ExecutionObservation) (e : env) (d : db) (jid rid aid : string)
  (j : job_row) (r : run_row) (x : execution_row) (a : assignment_row).
Context (I : lifecycle_inv d)
  (Q : quad (d_jobs d) (d_runs d) (d_executions d) (d_assignments d) jid rid (eo_ExecutionID event) aid j r x a)
  (Live : live_stage (j_phase j) (r_phase r) (e_phase x) (a_state a))
  (Seq : eo_Sequence event = e_last_event_sequence x + 1).

(** Rows that replace the live ones. *)
Lemma event_rows d' j' s c r' x' :
  lifecycle_is d' (<[jid := with_lifecycle j' s c]> (d_jobs d)) (<[rid := r']> (d_runs d))
    (<[eo_ExecutionID event := x']> (d_executions d)) (d_assignments d) →
  stages (j_phase j') (r_phase r') (e_phase x') "accepted" → e_phase x' ≠ "planned" →
  r_job_id r' = r_job_id r → r_run_number r' = r_run_number r → r_namespace_id r' = r_namespace_id r →
  r_desired_state r' = r_desired_state r → j_desired_state j' = j_desired_state j →
  r_outcome r' = j_outcome j' → e_outcome x' = j_outcome j' →
  job_advances j j' → execution_advances x x' → (j_phase j' = "terminal" → is_Some (j_outcome j')) →
  lifecycle_inv d' ∧ progress d d'.
Proof using I Q Live.
  intros L Hst Hpl Hrj Hrn Hns Hrd Hjd Ho1 Ho2 Aj Ax Hterm. pose proof Q as [_ _ _ Ha _ _ _].
  pose proof (quad_coupled _ _ _ _ _ _ _ _ _ _ _ _ I Q) as [_ ? _ _ _ _ ? (?&?&?)].
  destruct (live_stage_job _ _ _ _ Live) as (Ht & Hs & _ & _).
  rewrite <-(insert_id (d_assignments d) _ _ Ha) in L.
  eapply evolves_quad_is; [done|exact Q|exact L|done|done|done| |done|done|reflexivity].
  constructor; try done; try congruence.
  - by rewrite (xa_agent _ _ Ax).
  - rewrite (ja_namespace _ _ Aj), (xa_namespace _ _ Ax). by rewrite Hns.
Qed.

Lemma job_row_result d' jrow js rs xs zs : lifecycle_is d' (<[jid := jrow]> js) rs xs zs → d_jobs d' !! jid = Some jrow.
Proof. intros (-> & _). by rewrite lookup_insert_eq. Qed.

Lemma complete_run_and_job_ok document x' u d1 d' :
  lifecycle_is d1 (d_jobs d) (d_runs d) (<[eo_ExecutionID event := x']> (d_executions d)) (d_assignments d) →
  execution_reports event document x x' → execution_advances x x' → completionEvent (eo_Type event) = true →
  complete_run_and_job event rid jid e d1 = Ok (u, d') → event_applied event document d d' jid rid (eo_ExecutionID event) j r x.
Proof using I Q Live.
  intros L Rep Ax Hcomp Hrun. pose proof Q as [Hj Hr Hx Ha _ _ _]. unfold complete_run_and_job in Hrun. tx_inv.
  pose proof (xr_phase _ _ _ _ Rep) as Hp. pose proof (xr_outcome _ _ _ _ Rep) as Ho.
  unfold event_phase in Hp. unfold event_outcome in Ho. rewrite Hcomp in Hp, Ho.
  eapply runs_hit in L; [|eassumption|exact Hr|done].
  eapply jobs_hit in L as (s & c & L); [|eassumption|exact Hj|done].
  destruct (live_stage_job _ _ _ _ Live) as (Ht & _).
  split.
  - eapply event_rows; [exact L| | | | | | | | | | |exact Ax|by eexists]; cbn; rewrite ?Hp; try done; [constructor|].
    constructor; cbn; try done; [|lia]. clear -Live. by destruct Live; vm_compute; lia.
  - exists x'. pose proof L as (_ & _ & -> & _). rewrite lookup_insert_eq. by split.
  - eexists. pose proof L as (_ & -> & _). rewrite lookup_insert_eq. unfold event_phase, event_outcome. rewrite Hcomp. by split_and!.
  - eexists. split; [by eapply job_row_result|]. unfold event_phase, event_outcome. rewrite Hcomp. by destruct j.
Qed.

Lemma execution_step_advances x' :
  (execution_rank (e_phase x) ≤ execution_rank (e_phase x'))%nat → e_revision x ≤ e_revision x' →
  e_last_event_sequence x' = eo_Sequence event → e_namespace_id x' = e_namespace_id x →
  e_run_id x' = e_run_id x → e_agent_id x' = e_agent_id x →
  e_target_generation_id x' = e_target_generation_id x →
  e_effective_spec_digest x' = e_effective_spec_digest x → e_effective_spec x' = e_effective_spec x →
  execution_advances x x'.
Proof using Live Seq.
  intros. destruct (live_stage_job _ _ _ _ Live) as (_ & _ & _ & Ht). constructor; try done; try lia.
Qed.

Lemma rank_terminal : (execution_rank (e_phase x) ≤ execution_rank "terminal")%nat.
Proof using Live. clear -Live. destruct Live; vm_compute; lia. Qed.

Lemma record_process_start_ok document u d' :
  eo_Type event = "process.started" → e_phase x = "accepted" →
  record_process_start event rid jid e d = Ok (u, d') → event_applied event document d d' jid rid (eo_ExecutionID event) j r x.
Proof using I Q Live Seq.
  intros Hty Hxp Hrun. pose proof Q as [Hj Hr Hx Ha _ _ _]. unfold record_process_start in Hrun. tx_inv.
  pose proof (lifecycle_is_here d) as L.
  eapply executions_hit in L; [|eassumption|exact Hx|done].
  eapply runs_hit in L; [|eassumption|exact Hr|done].
  eapply jobs_hit in L as (s & c & L); [|eassumption|exact Hj|done].
  pose proof (quad_coupled _ _ _ _ _ _ _ _ _ _ _ _ I Q) as [_ _ Hro Hxo _ _ _ _].
  pose proof Live as Live'. rewrite Hxp in Live'. inversion Live' as [Hjp Hrp Hap|]. symmetry in Hjp.
  assert (completionEvent (eo_Type event) = false) as Hcomp by (by rewrite Hty).
  split.
  - eapply event_rows; [exact L|..]; cbn; try done; [constructor|advance Hjp|].
    apply execution_step_advances; cbn; rewrite ?Hxp; try done; [vm_compute; lia|lia].
  - eexists. pose proof L as (_ & _ & -> & _). rewrite lookup_insert_eq. split; [done|].
    constructor; unfold event_phase, event_outcome; rewrite ?Hty; done.
  - eexists. pose proof L as (_ & -> & _). rewrite lookup_insert_eq. unfold event_phase, event_outcome. rewrite Hty. by split_and!.
  - eexists. split; [by eapply job_row_result|]. unfold event_phase, event_outcome. rewrite Hty. by destruct j.
Qed.

Lemma record_process_completion_ok document u d' :
  eo_Type event = "process.completed" →
  record_process_completion event document rid jid e d = Ok (u, d') →
  event_applied event document d d' jid rid (eo_ExecutionID event) j r x.
Proof using I Q Live Seq.
  intros Hty Hrun. pose proof Q as [Hj Hr Hx Ha _ _ _]. unfold record_process_completion in Hrun. tx_inv.
  pose proof (lifecycle_is_here d) as L. eapply executions_hit in L; [|eassumption|exact Hx|done].
  eapply complete_run_and_job_ok; [exact L| | |by rewrite Hty|eassumption].
  - constructor; unfold event_phase, event_outcome; rewrite ?Hty; done.
  - apply execution_step_advances; cbn; try done; [apply rank_terminal|lia].
Qed.

Lemma record_scheduler_completion_ok document u d' :
  eo_Type event = "scheduler.completed" →
  record_scheduler_completion event document rid jid e d = Ok (u, d') →
  event_applied event document d d' jid rid (eo_ExecutionID event) j r x.
Proof using I Q Live Seq.
  intros Hty Hrun. pose proof Q as [Hj Hr Hx Ha _ _ _]. unfold record_scheduler_completion in Hrun. tx_inv.
  pose proof (lifecycle_is_here d) as L. eapply executions_hit in L; [|eassumption|exact Hx|done].
  eapply complete_run_and_job_ok; [exact L| | |by rewrite Hty|eassumption].
  - constructor; unfold event_phase, event_outcome; rewrite ?Hty; done.
  - apply execution_step_advances; cbn; try done; [apply rank_terminal|lia].
Qed.

(** The run follows an execution that is observed running. *)
Lemma run_observed_running d1 d2 n js xs zs now :
  lifecycle_is d1 js (d_runs d) xs zs →
  UPDATE rid (λ r, eqs (r_phase r) "accepted") (λ r, r <| r_phase := "running"; r_updated_at := now |>) e d1 = Ok (n, d2) →
  ∃ r', lifecycle_is d2 js (<[rid := r']> (d_runs d)) xs zs ∧ r_phase r' = "running" ∧
    r_job_id r' = r_job_id r ∧ r_run_number r' = r_run_number r ∧ r_namespace_id r' = r_namespace_id r ∧
    r_desired_state r' = r_desired_state r ∧ r_outcome r' = r_outcome r.
Proof using Q Live.
  intros L H1. pose proof Q as [_ Hr _ _ _ _ _]. destruct (eqs (r_phase r) "accepted") eqn:Hp.
  - eapply runs_hit in L; [|exact H1|exact Hr|done]. eexists. split; [exact L|]. by split_and!.
  - eapply runs_miss in L; [|exact H1|exact Hr|done]. exists r. rewrite insert_id by done.
    split; [done|]. split_and!; try done. clear -Live Hp. by destruct Live.
Qed.

Lemma observation_types : slices_Contains ["scheduler.uncertain"; "scheduler.submitted"; "scheduler.observed"] (eo_Type event) = true →
  completionEvent (eo_Type event) = false ∧ eqs (eo_Type event) "process.started" = false ∧
  slices_Contains ["process.started"; "scheduler.completed"] (eo_Type event) = false ∧ eqs (eo_Type event) "process.completed" = false.
Proof. intros Ht%slices_Contains_spec. repeat (apply elem_of_cons in Ht as [->|Ht]; [by split_and!|]). by apply not_elem_of_nil in Ht. Qed.

Lemma record_scheduler_observation_ok document u d' :
  slices_Contains ["scheduler.uncertain"; "scheduler.submitted"; "scheduler.observed"] (eo_Type event) = true →
  record_scheduler_observation event rid jid e d = Ok (u, d') →
  event_applied event document d d' jid rid (eo_ExecutionID event) j r x.
Proof using I Q Live Seq.
  intros Hty Hrun. pose proof Q as [Hj Hr Hx Ha _ _ _]. unfold record_scheduler_observation in Hrun. tx_inv.
  apply observation_types in Hty as (Hcomp & Hns & Hnat & Hpc).
  pose proof (lifecycle_is_here d) as L.
  eapply executions_hit in L; [|eassumption|exact Hx|done].
  pose proof (quad_coupled _ _ _ _ _ _ _ _ _ _ _ _ I Q) as [Hst _ Hro Hxo _ _ _ _].
  destruct (live_stage_job _ _ _ _ Live) as (Ht & Has & Hxp & Hxt).
  destruct (eqs (eo_SchedulerState event) "running") eqn:Hs; tx_inv.
  - match goal with H : UPDATE rid _ _ _ _ = _ |- _ =>
      eapply run_observed_running in H as (r' & L' & Hrp & ? & ? & ? & ? & Hout); [|exact L] end.
    eapply jobs_hit in L' as (s & c & L'); [|eassumption|exact Hj|done].
    split.
    + eapply event_rows; [exact L'|..]; cbn; rewrite ?Hrp; try done; try congruence; [constructor| |].
      * constructor; cbn; try done; [|lia]. clear -Live. destruct Live; vm_compute; lia.
      * apply execution_step_advances; cbn; try done; [|lia]. clear -Live. destruct Live; vm_compute; lia.
    + eexists. pose proof L' as (_ & _ & -> & _). rewrite lookup_insert_eq. split; [done|].
      constructor; unfold event_phase, event_outcome; rewrite ?Hcomp, ?Hns, ?Hnat, ?Hpc, ?Hs; done.
    + exists r'. pose proof L' as (_ & -> & _). rewrite lookup_insert_eq. unfold event_phase, event_outcome. rewrite Hcomp, Hns, Hs. by split_and!.
    + eexists. split; [by eapply job_row_result|]. unfold event_phase, event_outcome. rewrite Hcomp, Hns, Hs. by destruct j.
  - eapply jobs_hit in L as (s & c & L); [|eassumption|exact Hj|done].
    rewrite <-(insert_id (d_runs d) _ _ Hr) in L.
    split.
    + eapply event_rows; [exact L|..]; cbn; try done; [by rewrite <-Has| |].
      * constructor; cbn; try done. lia.
      * apply execution_step_advances; cbn; try done. lia.
    + eexists. pose proof L as (_ & _ & -> & _). rewrite lookup_insert_eq. split; [done|].
      constructor; unfold event_phase, event_outcome; rewrite ?Hcomp, ?Hns, ?Hnat, ?Hpc, ?Hs; done.
    + exists r. pose proof L as (_ & -> & _). rewrite lookup_insert_eq. unfold event_phase, event_outcome. rewrite Hcomp, Hns, Hs. by split_and!.
    + eexists. split; [by eapply job_row_result|]. unfold event_phase, event_outcome. rewrite Hcomp, Hns, Hs. by destruct j.
Qed.

Lemma apply_event_ok document u d' :
  validEventTransition (e_phase x) (eo_Type event) = true →
  apply_event event document rid jid e d = Ok (u, d') → event_applied event document d d' jid rid (eo_ExecutionID event) j r x.
Proof using I Q Live Seq.
  unfold apply_event, validEventTransition. intros Hv Hrun.
  destruct (eqs (eo_Type event) "process.started") eqn:H1; bool_step.
  { guard_inv. by eapply record_process_start_ok. }
  destruct (eqs (eo_Type event) "process.completed") eqn:H2; bool_step.
  { by eapply record_process_completion_ok. }
  destruct (slices_Contains ["scheduler.uncertain"; "scheduler.submitted"; "scheduler.observed"] (eo_Type event)) eqn:H3.
  { by eapply record_scheduler_observation_ok. }
  destruct (eqs (eo_Type event) "scheduler.completed") eqn:H4; bool_step.
  { by eapply record_scheduler_completion_ok. }
  exfalso. rewrite <-not_true_iff_false, slices_Contains_spec in H3.
  destruct (slices_Contains ["process.completed"; "scheduler.completed"] (eo_Type event)) eqn:H5.
  { apply slices_Contains_spec in H5. set_solver. }
  destruct (slices_Contains ["scheduler.uncertain"; "scheduler.submitted"] (eo_Type event)) eqn:H6.
  { apply slices_Contains_spec in H6. set_solver. }
  destruct (eqs (eo_Type event) "scheduler.observed") eqn:H7; bool_step; [set_solver|done].
Qed.
End event.

(** ** [RecordExecutionEvent] *)

Lemma insert_artifacts_same identity event document e d u d' :
  insert_artifacts identity event document e d = Ok (u, d') → same_lifecycle d d'.
Proof.
  unfold insert_artifacts, for_eachT. intros Hrun.
  eapply (forT_preserves (same_lifecycle d)) in Hrun; [done| |done].
  intros [] art d1 [] d2 S Hi. apply INSERT_outside in Hi. by etrans.
Qed.

Lemma event_row_of_quad d eid ns evid x r tg ev :
  lifecycle_inv d → event_row_of d eid ns evid = Some (x, r, tg, ev) →
  ∃ aid j a, quad (d_jobs d) (d_runs d) (d_executions d) (d_assignments d)
    (r_job_id r) (e_run_id x) eid aid j r x a ∧ coupled j r x a ∧ e_namespace_id x = ns.
Proof.
  intros I Hrow. unfold event_row_of in Hrow. apply bind_Some in Hrow as (x0 & Hx & Hrow).
  case_match; [|done]. bool_step. apply bind_Some in Hrow as (r0 & Hr & Hrow).
  apply bind_Some in Hrow as (tg0 & _ & Hrow). simplify_eq.
  destruct (quad_of_execution _ _ _ _ _ _ I Hx) as (jid & rid & aid & j & r' & a & Hq & Hc).
  pose proof Hq as []. simplify_eq. eauto 10.
Qed.

(** The last statement: the confidence of the execution that was observed. *)
Lemma confidence_update_ok d d2 d3 e n eid x conf now :
  d_executions d !! eid = Some x → e_phase x ≠ "terminal" → lifecycle_inv d2 → progress d d2 →
  UPDATE eid (λ _, true) (λ x, x <| e_observation_confidence := conf; e_confidence_updated_at := now |>) e d2 = Ok (n, d3) →
  (lifecycle_inv d3 ∧ progress d d3) ∧
  ∃ x2, d_executions d2 !! eid = Some x2 ∧
    lifecycle_is d3 (d_jobs d2) (d_runs d2)
      (<[eid := x2 <| e_observation_confidence := conf; e_confidence_updated_at := now |>]> (d_executions d2)) (d_assignments d2).
Proof.
  intros Hx Ht I2 P Hu. destruct (pg_executions _ _ P _ _ Hx) as (x2 & Hx2 & Ax).
  eapply executions_hit in Hu as L; [|apply lifecycle_is_here|exact Hx2|done].
  destruct (quad_of_execution _ _ _ _ _ _ I2 Hx2) as (jid & rid & aid & j & r & a & Hq & Hc).
  split; [|by exists x2]. pose proof Hq as [Hj Hr _ Ha ? ? ?]. destruct L as (Hjs & Hrs & Hxs & Has). split.
  - unfold lifecycle_inv. rewrite Hjs, Hrs, Hxs, Has.
    rewrite <-(insert_id (d_jobs d2) _ _ Hj), <-(insert_id (d_runs d2) _ _ Hr), <-(insert_id (d_assignments d2) _ _ Ha).
    eapply lc_update; [exact I2|exact Hq|done..|]. destruct Hc. by constructor.
  - destruct P as [Pj Px Pa]. constructor; rewrite ?Hjs, ?Has; try done. rewrite Hxs. intros k v Hk.
    destruct (decide (k = eid)) as [->|Hne].
    + rewrite lookup_insert_eq. eexists. split; [done|]. assert (v = x) as -> by congruence.
      destruct Ax. by constructor.
    + rewrite lookup_insert_ne by done. by apply Px.
Qed.

(** What a recorded event establishes. *)
Record event_recorded (event : ExecutionObservation) (d d' : db) : Prop := {
  er_evolved : lifecycle_inv d' ∧ progress d d';
  er_execution : ∃ x x', d_executions d !! eo_ExecutionID event = Some x ∧
    d_executions d' !! eo_ExecutionID event = Some x' ∧
    eo_Sequence event = e_last_event_sequence x + 1 ∧ e_last_event_sequence x' = eo_Sequence event ∧
    validEventTransition (e_phase x) (eo_Type event) = true ∧
    (completionEvent (eo_Type event) = true → e_phase x' = "terminal" ∧ e_outcome x' = Some (eo_Outcome event)) }.

(** The row a recorded event is stored as. *)
Definition stored_event (identity : AgentIdentity) (event : ExecutionObservation) (e : env)
    (document : ExecutionEvent) : event_row :=
  {| evt_namespace_id := ai_NamespaceID identity; evt_execution_id := eo_ExecutionID event;
     evt_agent_id := ai_AgentID identity; evt_source_sequence := eo_Sequence event;
     evt_event_type := eo_Type event; evt_observed_at := to_timestamptz (eo_ObservedAt event);
     evt_ingested_at := transaction_timestamp e; evt_document_digest := eo_DocumentDigest event;
     evt_document := document |}.

(** The statements of a run that records an event, and what they started from. *)
Record event_run (identity : AgentIdentity) (event : ExecutionObservation) (e : env) (d d' : db)
    (x : execution_row) (r : run_row) (tg : generation_row) (j : job_row) (aid : string) (a : assignment_row)
    (document : ExecutionEvent) (d1 d2 d3 d4 : db) : Prop := {
  rn_quad : quad (d_jobs d) (d_runs d) (d_executions d) (d_assignments d)
    (r_job_id r) (e_run_id x) (eo_ExecutionID event) aid j r x a;
  rn_coupled : coupled j r x a;
  rn_generation : d_generations d !! e_target_generation_id x = Some tg;
  rn_namespace : e_namespace_id x = ai_NamespaceID identity;
  rn_agent : e_agent_id x = ai_AgentID identity ∧ eo_AgentID event = ai_AgentID identity;
  rn_sequence : eo_Sequence event = e_last_event_sequence x + 1;
  rn_valid : validEventTransition (e_phase x) (eo_Type event) = true;
  rn_publication : completionEvent (eo_Type event) = true →
    is_ok (validateArtifactPublication (e_effective_spec x) (eo_Document event)) = true;
  rn_logs : completionEvent (eo_Type event) = true → is_some (gen_log_store_name tg) = true →
    complete_streams d (eo_ExecutionID event) = 2;
  rn_document : json_Unmarshal (eo_Document event) = Ok document;
  rn_insert : INSERT (eo_EventID event) (stored_event identity event e document) e d = Ok (tt, d1);
  rn_artifacts : whenT (completionEvent (eo_Type event))
    (wrapT "record published artifacts" [] (insert_artifacts identity event document)) e d1 = Ok (tt, d2);
  rn_apply : apply_event event document (e_run_id x) (r_job_id r) e d2 = Ok (tt, d3);
  rn_group : whenT (completionEvent (eo_Type event))
    (applyCollectionCompletion (ai_NamespaceID identity) (r_job_id r) (eo_Outcome event);;
     applyGraphCompletion (ai_NamespaceID identity) (r_job_id r)) e d3 = Ok (tt, d4);
  rn_confidence : ∃ n, UPDATE (eo_ExecutionID event) (λ _, true)
    (λ x, x <| e_observation_confidence := event_confidence event;
               e_confidence_updated_at := transaction_timestamp e |>) e d4 = Ok (n, d') }.

Lemma RecordExecutionEvent_run identity event e d b d' :
  lifecycle_inv d → RecordExecutionEvent identity event e d = Ok (b, d') →
  if b then d' = d else
    ∃ x r tg j aid a document d1 d2 d3 d4, event_run identity event e d d' x r tg j aid a document d1 d2 d3 d4.
Proof.
  intros I Hrun. unfold RecordExecutionEvent in Hrun. tx_inv.
  match goal with H : (let '(_, _) := ?t in _) _ _ = _ |- _ => destruct t as [[[x r] tg] ev] end.
  match goal with H : event_row_of _ _ _ _ = _ |- _ =>
    pose proof H as Hrow; apply event_row_of_quad in H as (aid & j & a & Hq & Hc & Hns); [|done] end.
  tx_inv. case_match; [by guard_inv|].
  match goal with H : (admit_event _ _ _ ≫= _) _ _ = _ |- _ => unfold admit_event in H end. tx_inv.
  match goal with H : negb (validEventTransition _ _) = false |- _ => apply negb_false_iff in H as Hval end.
  assert (d_generations d !! e_target_generation_id x = Some tg) as Htg.
  { unfold event_row_of in Hrow. apply bind_Some in Hrow as (x0 & Hx & Hrow). case_match; [|done].
    apply bind_Some in Hrow as (r0 & Hr & Hrow). apply bind_Some in Hrow as (tg0 & Htg & Hrow). by simplify_eq. }
  do 11 eexists. split; try done; [guard_inv; done|guard_inv; done| | |].
  - intros Hcomp. match goal with H : completionEvent _ && negb (is_ok _) = false |- _ =>
      rewrite Hcomp in H; by apply negb_false_iff in H end.
  - intros Hcomp Hls. match goal with H : completionEvent _ && _ && negb (bool_decide _) = false |- _ =>
      rewrite Hcomp, Hls in H; by apply negb_false_iff, bool_decide_eq_true in H end.
  - eauto.
Qed.

(** The group completions of a run keep the execution that completed. *)
Lemma group_completion_ok event ns jid e d d3 d4 u x3 :
  whenT (completionEvent (eo_Type event))
    (applyCollectionCompletion ns jid (eo_Outcome event);; applyGraphCompletion ns jid) e d3 = Ok (u, d4) →
  lifecycle_inv d3 → progress d d3 → d_executions d3 !! eo_ExecutionID event = Some x3 →
  (completionEvent (eo_Type event) = true → e_phase x3 = "terminal") →
  (lifecycle_inv d4 ∧ progress d3 d4) ∧ progress d d4 ∧ d_executions d4 !! eo_ExecutionID event = Some x3.
Proof.
  intros Hrun I3 P3 Hx3 Hterm. apply whenT_ok in Hrun as [[Hcomp Hrun]|[_ ->]]; [|by split_and!].
  tx_inv.
  match goal with H : applyCollectionCompletion _ _ _ _ _ = _ |- _ => apply applyCollectionCompletion_ok in H as E1 end.
  match goal with H : applyGraphCompletion _ _ _ _ = _ |- _ => apply applyGraphCompletion_ok in H as E2 end.
  destruct (E1 I3) as [I4 P4]. destruct (E2 I4) as [I5 P5]. pose proof (transitivity P4 P5) as P35.
  split_and!; [done|done|by etrans|].
  destruct (pg_executions _ _ P35 _ _ Hx3) as (x4 & Hx4 & Ax).
  rewrite Hx4. f_equal. by apply (xa_final _ _ Ax), Hterm.
Qed.

Section run.
Context {identity : AgentIdentity} {event : ExecutionObservation} {e : env} {d d' : db} {x : execution_row}
  {r : run_row} {tg : generation_row} {j : job_row} {aid : string} {a : assignment_row}
  {document : ExecutionEvent} {d1 d2 d3 d4 : db}.
Context (I : lifecycle_inv d) (R : event_run identity event e d d' x r tg j aid a document d1 d2 d3 d4).

Lemma event_run_prefix : same_lifecycle d d2.
Proof using R.
  pose proof (rn_insert _ _ _ _ _ _ _ _ _ _ _ _ _ _ _ _ R) as H1. apply INSERT_outside in H1.
  pose proof (rn_artifacts _ _ _ _ _ _ _ _ _ _ _ _ _ _ _ _ R) as H2.
  apply whenT_ok in H2 as [[_ H2]|[_ ->]]; [|done]. apply wrapT_ok, insert_artifacts_same in H2. by etrans.
Qed.

Lemma event_run_live : live_stage (j_phase j) (r_phase r) (e_phase x) (a_state a).
Proof using R.
  apply stages_live; [apply (rn_coupled _ _ _ _ _ _ _ _ _ _ _ _ _ _ _ _ R)|].
  eapply validEventTransition_live, (rn_valid _ _ _ _ _ _ _ _ _ _ _ _ _ _ _ _ R).
Qed.

(** The event moved its own job; from there the run only does group work. *)
Lemma event_run_applied :
  event_applied event document d2 d3 (r_job_id r) (e_run_id x) (eo_ExecutionID event) j r x ∧ lifecycle_inv d2 ∧ progress d d2.
Proof using I R.
  pose proof event_run_prefix as S2. destruct (evolved_same d d _ (conj I (reflexivity d)) S2) as [I2 P2].
  split; [|done]. pose proof (rn_quad _ _ _ _ _ _ _ _ _ _ _ _ _ _ _ _ R) as Hq.
  destruct S2 as (Hjs & Hrs & Hxs & Has). rewrite <-Hjs, <-Hrs, <-Hxs, <-Has in Hq.
  pose proof (rn_apply _ _ _ _ _ _ _ _ _ _ _ _ _ _ _ _ R) as Happ.
  eapply apply_event_ok in Happ; [exact Happ|exact I2|exact Hq|exact event_run_live|apply R|apply R].
Qed.

Lemma event_run_ok :
  event_recorded event d d' ∧ (lifecycle_inv d3 ∧ progress d d3) ∧ (lifecycle_inv d4 ∧ progress d3 d4) ∧
  d_jobs d' = d_jobs d4.
Proof using I R.
  destruct event_run_applied as ([(I3 & P3) (x3 & Hx3 & Rep) _ _] & I2 & P2). pose proof (xr_sequence _ _ _ _ Rep) as Hs3.
  assert (completionEvent (eo_Type event) = true → e_phase x3 = "terminal" ∧ e_outcome x3 = Some (eo_Outcome event)) as Hc3.
  { intros Hcomp. rewrite (xr_phase _ _ _ _ Rep), (xr_outcome _ _ _ _ Rep). unfold event_phase, event_outcome. by rewrite Hcomp. }
  pose proof (transitivity P2 P3) as P23.
  pose proof (rn_quad _ _ _ _ _ _ _ _ _ _ _ _ _ _ _ _ R) as [_ _ Hx _ _ _ _].
  destruct (live_stage_job _ _ _ _ event_run_live) as (_ & _ & _ & Hxt).
  pose proof (rn_group _ _ _ _ _ _ _ _ _ _ _ _ _ _ _ _ R) as Hg.
  eapply group_completion_ok in Hg as (E4 & P4 & Hx4); [|exact I3|exact P23|exact Hx3|intros; by apply Hc3].
  destruct (rn_confidence _ _ _ _ _ _ _ _ _ _ _ _ _ _ _ _ R) as [n Hu].
  eapply confidence_update_ok in Hu as (Hev & xe & Hxe & (Hjs & _ & Hxs & _)); [|exact Hx|exact Hxt|apply E4|exact P4].
  assert (xe = x3) as -> by congruence. split_and!; try done; try apply E4.
  split; [done|]. exists x. eexists. rewrite Hxs, lookup_insert_eq.
  split_and!; try done; apply R.
Qed.

(** The rows at the end of the run; without a completion no other job is touched. *)
Lemma event_run_rows : ∃ x3, execution_reports event document x x3 ∧
  d_executions d' !! eo_ExecutionID event =
    Some (x3 <| e_observation_confidence := event_confidence event; e_confidence_updated_at := transaction_timestamp e |>) ∧
  (completionEvent (eo_Type event) = false →
    (∃ r', d_runs d' !! e_run_id x = Some r' ∧ r_phase r' = event_phase event (r_phase r) ∧ r_outcome r' = event_outcome event (r_outcome r)) ∧
    (∃ j', d_jobs d' !! r_job_id r = Some j' ∧ j_phase j' = event_phase event (j_phase j) ∧ j_outcome j' = event_outcome event (j_outcome j))).
Proof using I R.
  destruct event_run_applied as ([(I3 & P3) (x3 & Hx3 & Rep) Hrun Hjob] & I2 & P2). pose proof (transitivity P2 P3) as P23.
  pose proof (rn_quad _ _ _ _ _ _ _ _ _ _ _ _ _ _ _ _ R) as [_ _ Hx _ _ _ _].
  destruct (live_stage_job _ _ _ _ event_run_live) as (_ & _ & _ & Hxt).
  pose proof (rn_group _ _ _ _ _ _ _ _ _ _ _ _ _ _ _ _ R) as Hg. pose proof Hg as Hg0.
  eapply group_completion_ok in Hg as (E4 & P4 & Hx4); [|exact I3|exact P23|exact Hx3|].
  2: { intros Hcomp. rewrite (xr_phase _ _ _ _ Rep). unfold event_phase. by rewrite Hcomp. }
  destruct (rn_confidence _ _ _ _ _ _ _ _ _ _ _ _ _ _ _ _ R) as [n Hu].
  eapply confidence_update_ok in Hu as (_ & xe & Hxe & (Hjs & Hrs & Hxs & _)); [|exact Hx|exact Hxt|apply E4|exact P4].
  assert (xe = x3) as -> by congruence. exists x3. split; [done|]. rewrite Hxs, lookup_insert_eq. split; [done|].
  intros Hcomp. rewrite Hcomp in Hg0. apply whenT_ok in Hg0 as [[? _]|[_ ->]]; [done|]. by rewrite Hrs, Hjs.
Qed.
End run.

Lemma RecordExecutionEvent_ok identity event e d b d' :
  lifecycle_inv d → RecordExecutionEvent identity event e d = Ok (b, d') →
  if b then d' = d else event_recorded event d d'.
Proof.
  intros I Hrun. apply RecordExecutionEvent_run in Hrun; [|done]. destruct b; [done|].
  destruct Hrun as (x & r & tg & j & aid & a & doc & d1 & d2 & d3 & d4 & R). by apply (event_run_ok I R).
Qed.

Lemma RecordExecutionEvent_evolves identity event e d b d' :
  RecordExecutionEvent identity event e d = Ok (b, d') → evolves d d'.
Proof.
  intros Hrun I. apply RecordExecutionEvent_ok in Hrun; [|done]. destruct b; [by subst|apply Hrun].
Qed.

Lemma AcceptAssignment_evolves identity acceptance e d lau d' :
  AcceptAssignment identity acceptance e d = Ok (lau, d') → evolves d d'.
Proof. intros Hrun I. by apply AcceptAssignment_ok in Hrun as [? _]. Qed.
