(* ===== verification/LifecycleSubmit.v ===== *)
(** * Submission and dispatch evolve the database

    New jobs appear only as waiting rows, and the coordinator turns a waiting job
    into an offered one under fresh identifiers. *)
From stdpp Require Import pretty.
From S2P Require Import Prelude Regex Names Domain TargetSpec Kahn Graph Contract Records Url Db Tx Constraints Auth Jobs HistoryImport Groups GraphStore Executions Coordinator Lifecycle Progress LifecycleOps LifecycleEvents.

(** ** Read-only steps *)

Lemma resolvePartition_frame g r e d p d' : resolvePartition g r e d = Ok (p, d') → d' = d.
Proof. unfold resolvePartition. intros Hrun. tx_inv. repeat case_match; tx_inv; done. Qed.

Lemma resolveTarget_frame ns s e d p d' : resolveTarget ns s e d = Ok (p, d') → d' = d.
Proof.
  unfold resolveTarget. intros Hrun. tx_inv.
  match goal with H : (let '(_, _) := ?t in _) _ _ = _ |- _ => destruct t as [[[? ?] ?] ?] end. tx_inv.
  match goal with H : resolvePartition _ _ _ _ = _ |- _ => by apply resolvePartition_frame in H end.
Qed.

Lemma enforceNamespaceQuota_frame ns n c g e d u d' : enforceNamespaceQuota ns n c g e d = Ok (u, d') → d' = d.
Proof. unfold enforceNamespaceQuota. intros Hrun. by tx_inv. Qed.

Lemma resolvePlacements_frame ns ctx l e d ps d' : resolvePlacements ns ctx l e d = Ok (ps, d') → d' = d.
Proof.
  unfold resolvePlacements. intros Hrun. eapply (forT_preserves (λ x, x = d)) in Hrun; [done| |done].
  intros acc s d1 acc' d2 -> H. tx_inv. match goal with H : resolveTarget _ _ _ _ = _ |- _ => by apply resolveTarget_frame in H end.
Qed.

Lemma newIDs_same n e d l d' : newIDs n e d = Ok (l, d') → same_lifecycle d d'.
Proof.
  revert d l. induction n as [|n IH]; cbn; intros d l Hrun; tx_inv; [done|].
  match goal with H : newID _ _ = _ |- _ => apply newID_same_lifecycle in H end. etrans; [eassumption|]. by eapply IH.
Qed.

Lemma loadCollectionItems_frame c e d c' d' : loadCollectionItems c e d = Ok (c', d') → d' = d.
Proof.
  unfold loadCollectionItems. intros Hrun. tx_inv.
  match goal with H : forT _ _ _ _ _ = _ |- _ => eapply (forT_preserves (λ x, x = d)) in H; [done| |done] end.
  intros acc kr d1 acc' d2 -> H. tx_inv.
  match goal with H : getJobWithQuerier _ _ _ _ = _ |- _ => by apply getJobWithQuerier_frame in H end.
Qed.

Lemma getCollectionByID_frame ns id e d c d' : getCollectionByID ns id e d = Ok (c, d') → d' = d.
Proof. unfold getCollectionByID. intros Hrun. tx_inv. by eapply loadCollectionItems_frame. Qed.

Lemma loadGraphItems_frame c e d c' d' : loadGraphItems c e d = Ok (c', d') → d' = d.
Proof.
  unfold loadGraphItems. intros Hrun. tx_inv.
  match goal with H : forT _ _ _ _ _ = _ |- _ => eapply (forT_preserves (λ x, x = d)) in H; [done| |done] end.
  intros acc kr d1 acc' d2 -> H. tx_inv.
  match goal with H : getJobWithQuerier _ _ _ _ = _ |- _ => by apply getJobWithQuerier_frame in H end.
Qed.

Lemma getGraphByID_frame ns id e d c d' : getGraphByID ns id e d = Ok (c, d') → d' = d.
Proof. unfold getGraphByID. intros Hrun. tx_inv. by eapply loadGraphItems_frame. Qed.

(** ** Evidence *)

Lemma insertWorkloadRevision_same a s e d u d' : insertWorkloadRevision a s e d = Ok (u, d') → same_lifecycle d d'.
Proof.
  unfold insertWorkloadRevision. intros Hrun. tx_inv.
  match goal with H : INSERT_or_nothing _ _ _ _ = _ |- _ => by apply INSERT_or_nothing_outside in H end.
Qed.

Lemma insertAcceptanceEvidence_same a k o job e d u d' :
  insertAcceptanceEvidence a k o job e d = Ok (u, d') → same_lifecycle d d'.
Proof. unfold insertAcceptanceEvidence. intros Hrun. tx_inv. repeat outside_step. by etrans. Qed.

Lemma insertCollectionAcceptanceEvidence_same a c o k s e d u d' :
  insertCollectionAcceptanceEvidence a c o k s e d = Ok (u, d') → same_lifecycle d d'.
Proof. unfold insertCollectionAcceptanceEvidence. intros Hrun. tx_inv. repeat outside_step. by etrans. Qed.

Lemma insertGraphAcceptanceEvidence_same a c o k s e d u d' :
  insertGraphAcceptanceEvidence a c o k s e d = Ok (u, d') → same_lifecycle d d'.
Proof. unfold insertGraphAcceptanceEvidence. intros Hrun. tx_inv. repeat outside_step. by etrans. Qed.

Lemma insertCollection_same a c s m e d u d' : insertCollection a c s m e d = Ok (u, d') → same_lifecycle d d'.
Proof. unfold insertCollection. intros Hrun. tx_inv. by repeat outside_step. Qed.

Lemma insertGraph_same a c s e d u d' : insertGraph a c s e d = Ok (u, d') → same_lifecycle d d'.
Proof. unfold insertGraph. intros Hrun. tx_inv. by repeat outside_step. Qed.

(** ** New jobs *)

Lemma scanJob_fields e d jid j job :
  scanJob e d jid j = Some job → job_ID job = jid ∧ job_Phase job = j_phase j ∧ job_NamespaceID job = j_namespace_id j.
Proof.
  unfold scanJob. intros Hs. apply bind_Some in Hs as (n & _ & Hs). apply bind_Some in Hs as (o & _ & Hs).
  injection Hs as <-. done.
Qed.

Lemma getJobByID_id ns jid e d job d' : getJobByID ns jid e d = Ok (job, d') → job_ID job = jid.
Proof.
  unfold getJobByID. destruct (d_jobs d !! jid) as [j|]; [|done]. case_match; [|done]. intros Hrun. tx_inv.
  by eapply scanJob_fields.
Qed.

(** The row [insertJob] writes waits to run. *)
Lemma insertJob_ok a jid s p e d job d' :
  insertJob a jid s p e d = Ok (job, d') →
  job_ID job = jid ∧ d_jobs d !! jid = None ∧
  ∃ row, idle_wf row ∧ j_phase row = "accepted" ∧ j_namespace_id row = na_namespaceID a ∧
    Forall (λ c, c.2 = true) (job_constraints d jid row) ∧
    d' = d <| d_jobs := <[jid := row]> (d_jobs d) |>.
Proof.
  unfold insertJob. intros Hrun. tx_inv.
  match goal with H : getJobByID _ _ _ _ = _ |- _ => rename H into Hget end.
  pose proof (getJobByID_id _ _ _ _ _ _ Hget) as Hid.
  apply getJobByID_frame in Hget as ->.
  match goal with H : INSERT _ _ _ _ = _ |- _ => apply INSERT_ok in H as (? & ? & ->) end.
  split_and!; [done|done|]. eexists. split; [|split; [|split; [|split; [eassumption|reflexivity]]]]; try done.
  left. done.
Qed.

(** A job is inserted and then bound to its group. *)
Lemma insert_and_bind_ok a jid s p e d d1 d2 d3 job (q : job_row → bool) (f : job_row → job_row) n :
  same_lifecycle d d1 → insertJob a jid s p e d1 = Ok (job, d2) →
  UPDATE (job_ID job) q f e d2 = Ok (n, d3) →
  (∀ j, j_phase j = "accepted" → q j = true) → (∀ j, idle_wf j → idle_wf (f j)) → evolves d d3.
Proof.
  intros S Hins Hup Hq Hf I. apply insertJob_ok in Hins as (Hid & Hnone & row & Hwf & Hph & _ & _ & ->). rewrite Hid in Hup.
  eapply jobs_hit in Hup as (st & c & L); [|apply lifecycle_is_here|apply lookup_insert_eq|by apply Hq].
  cbn in L. rewrite insert_insert_eq in L. destruct L as (? & ? & ? & ?), S as (Hj & Hr & Hx & Ha).
  rewrite ?Hj, ?Hr, ?Hx, ?Ha in *. eapply (evolves_new_job d); eauto.
  by apply idle_with_lifecycle, Hf.
Qed.

Lemma SubmitJob_evolves p k s e d res d' : SubmitJob p k s e d = Ok (res, d') → evolves d d'.
Proof.
  unfold SubmitJob, authorizeSubmission. intros Hrun. tx_inv. repeat outside_step.
  match goal with H : authorizeNamespace _ _ _ _ _ = _ |- _ => apply authorizeNamespace_frame in H as -> end.
  match goal with H : reserveIdempotency _ _ _ _ _ _ _ _ = _ |- _ => apply reserveIdempotency_same in H end.
  case_match; tx_inv.
  - match goal with H : getJobByID _ _ _ _ = _ |- _ => apply getJobByID_frame in H as -> end.
    apply same_lifecycle_evolves. by repeat (etrans; [eassumption|]).
  - match goal with H : enforceNamespaceQuota _ _ _ _ _ _ = _ |- _ => apply enforceNamespaceQuota_frame in H as -> end.
    match goal with H : resolveTarget _ _ _ _ = _ |- _ => apply resolveTarget_frame in H as -> end.
    match goal with H : insertWorkloadRevision _ _ _ _ = _ |- _ => apply insertWorkloadRevision_same in H end.
    match goal with H : insertJob _ _ _ _ _ _ = _ |- _ => apply insertJob_ok in H as (_ & Hnone & row & Hwf & _ & _ & _ & ->) end.
    match goal with H : completeIdempotency _ _ _ _ _ _ _ = _ |- _ => apply completeIdempotency_same in H as S8 end.
    match goal with H : insertAcceptanceEvidence _ _ _ _ _ _ = _ |- _ => apply insertAcceptanceEvidence_same in H as S9 end.
    match type of Hnone with d_jobs ?d2 !! _ = None => assert (same_lifecycle d d2) as S by (by repeat (etrans; [eassumption|])) end.
    pose proof (transitivity S8 S9) as (? & ? & ? & ?). destruct S as (Hj & Hr & Hx & Ha). cbn in *.
    intros I. eapply (evolves_new_job d); [exact I| | | | | |exact Hwf]; try congruence; rewrite <-Hj; eassumption.
Qed.

(** ** Groups *)

Lemma insertCollectionItem_evolves a c k row e d u d' :
  insertCollectionItem a c k row e d = Ok (u, d') → evolves d d'.
Proof.
  unfold insertCollectionItem. destruct row as [[[[index item] placement] jid] oid]. intros Hrun. tx_inv.
  match goal with H : insertWorkloadRevision _ _ _ _ = _ |- _ => apply insertWorkloadRevision_same in H as S1 end.
  match goal with H : insertAcceptanceEvidence _ _ _ _ _ _ = _ |- _ => apply insertAcceptanceEvidence_same in H as S2 end.
  match goal with H : INSERT _ _ _ _ = _ |- _ => apply INSERT_outside in H as S3 end.
  match goal with Hi : insertJob _ _ _ _ _ _ = _, Hu : UPDATE _ _ _ _ _ = _ |- _ =>
    pose proof (insert_and_bind_ok _ _ _ _ _ _ _ _ _ _ _ _ _ S1 Hi Hu) as Hev end.
  etrans; [apply Hev|apply same_lifecycle_evolves; by etrans]; [done|by intros []].
Qed.

Lemma insertGraphNode_evolves a g k m row e d m' d' :
  insertGraphNode a g k m row e d = Ok (m', d') → evolves d d'.
Proof.
  unfold insertGraphNode. destruct row as [[[[index item] placement] jid] oid]. intros Hrun. tx_inv.
  match goal with H : insertWorkloadRevision _ _ _ _ = _ |- _ => apply insertWorkloadRevision_same in H as S1 end.
  match goal with H : insertAcceptanceEvidence _ _ _ _ _ _ = _ |- _ => apply insertAcceptanceEvidence_same in H as S2 end.
  match goal with H : INSERT _ _ _ _ = _ |- _ => apply INSERT_outside in H as S3 end.
  match goal with Hi : insertJob _ _ _ _ _ _ = _, Hu : UPDATE _ _ _ _ _ = _ |- _ =>
    pose proof (insert_and_bind_ok _ _ _ _ _ _ _ _ _ _ _ _ _ S1 Hi Hu) as Hev end.
  etrans; [apply Hev|apply same_lifecycle_evolves; by etrans]; [done|by intros []].
Qed.

Lemma insertGraphEdge_same g m edge e d u d' : insertGraphEdge g m edge e d = Ok (u, d') → same_lifecycle d d'.
Proof. unfold insertGraphEdge. intros Hrun. tx_inv. by repeat outside_step. Qed.

Lemma forT_evolves {S A} (f : S → A → tx S) e :
  (∀ s x d s' d', f s x e d = Ok (s', d') → evolves d d') →
  ∀ l s d s' d', forT f s l e d = Ok (s', d') → evolves d d'.
Proof.
  intros Hf l s d s' d' Hrun. eapply (forT_preserves (evolves d)) in Hrun; [done| |reflexivity].
  intros s0 x d0 s1 d1 E H. etrans; [done|by eapply Hf].
Qed.

(** Chain the steps of a run whose effects are known. *)
Ltac chain_evolves :=
  repeat match goal with
  | H : same_lifecycle ?a ?b |- evolves ?a _ => etrans; [by apply same_lifecycle_evolves; exact H|]; clear H
  | H : evolves ?a ?b |- evolves ?a _ => etrans; [exact H|]; clear H
  end; try reflexivity.

(** The rest of the run, from the state [b] on, changes nothing of the lifecycle. *)
Ltac chain_from b :=
  match goal with |- lifecycle_inv ?a ∧ _ =>
    let E := fresh "E" in assert (evolves b a) as E by chain_evolves; eapply evolved_trans; [|exact E]
  end.

(** An imported job is inserted and made terminal; it has no run. *)
Lemma imported_job_idle now request j : idle_wf (imported_job now request j).
Proof. right. split; [done|by eexists]. Qed.

Lemma ImportCompletedHistory_evolves p k dry q e d res d' : ImportCompletedHistory p k dry q e d = Ok (res, d') → evolves d d'.
Proof.
  unfold ImportCompletedHistory, authorizeSubmission. intros Hrun. tx_inv. repeat outside_step.
  match goal with H : authorizeNamespace _ _ _ _ _ = _ |- _ => apply authorizeNamespace_frame in H as -> end.
  match goal with H : resolveTarget _ _ _ _ = _ |- _ => apply resolveTarget_frame in H as -> end.
  destruct dry; tx_inv; [by chain_evolves|].
  match goal with H : reserveIdempotency _ _ _ _ _ _ _ _ = _ |- _ => apply reserveIdempotency_same in H end.
  case_match; tx_inv; match goal with H : getJobByID _ _ _ _ = _ |- _ => apply getJobByID_frame in H as -> end; [by chain_evolves|].
  match goal with H : insertWorkloadRevision _ _ _ _ = _ |- _ => apply insertWorkloadRevision_same in H as S1 end.
  repeat outside_step.
  match goal with H : completeIdempotency _ _ _ _ _ _ _ = _ |- _ => apply completeIdempotency_same in H end.
  match goal with Hi : insertJob _ ?i _ _ _ ?d1 = Ok (?job, ?d2), Hu : UPDATE ?i _ _ _ _ = Ok (_, ?d3) |- _ =>
    assert (job_ID job = i) as Hid by (by eapply insertJob_ok); rewrite <-Hid in Hu;
    assert (evolves d1 d3) by (eapply insert_and_bind_ok; [reflexivity|exact Hi|exact Hu| |]; [intros ? Hj; by apply eqs_true|intros; apply imported_job_idle]) end.
  by chain_evolves.
Qed.

Lemma SubmitCollection_evolves p k s e d res d' : SubmitCollection p k s e d = Ok (res, d') → evolves d d'.
Proof.
  unfold SubmitCollection, authorizeSubmission. intros Hrun. tx_inv. repeat outside_step.
  repeat match goal with H : newIDs _ _ _ = _ |- _ => apply newIDs_same in H end.
  match goal with H : authorizeNamespace _ _ _ _ _ = _ |- _ => apply authorizeNamespace_frame in H as -> end.
  match goal with H : reserveIdempotency _ _ _ _ _ _ _ _ = _ |- _ => apply reserveIdempotency_same in H end.
  case_match; tx_inv;
  match goal with H : getCollectionByID _ _ _ _ = _ |- _ => apply getCollectionByID_frame in H as -> end; [by chain_evolves|].
  match goal with H : enforceNamespaceQuota _ _ _ _ _ _ = _ |- _ => apply enforceNamespaceQuota_frame in H as -> end.
  match goal with H : resolvePlacements _ _ _ _ _ = _ |- _ => apply resolvePlacements_frame in H as -> end.
  match goal with H : insertCollection _ _ _ _ _ _ = _ |- _ => apply insertCollection_same in H end.
  match goal with H : for_eachT _ _ _ _ = _ |- _ => unfold for_eachT in H; apply forT_evolves in H;
    [|intros; by eapply insertCollectionItem_evolves] end.
  match goal with H : completeIdempotency _ _ _ _ _ _ _ = _ |- _ => apply completeIdempotency_same in H end.
  match goal with H : insertCollectionAcceptanceEvidence _ _ _ _ _ _ _ = _ |- _ => apply insertCollectionAcceptanceEvidence_same in H end.
  by chain_evolves.
Qed.

Lemma SubmitGraph_evolves p k s e d res d' : SubmitGraph p k s e d = Ok (res, d') → evolves d d'.
Proof.
  unfold SubmitGraph, authorizeSubmission. intros Hrun. tx_inv. repeat outside_step.
  repeat match goal with H : newIDs _ _ _ = _ |- _ => apply newIDs_same in H end.
  match goal with H : authorizeNamespace _ _ _ _ _ = _ |- _ => apply authorizeNamespace_frame in H as -> end.
  match goal with H : reserveIdempotency _ _ _ _ _ _ _ _ = _ |- _ => apply reserveIdempotency_same in H end.
  case_match; tx_inv;
  match goal with H : getGraphByID _ _ _ _ = _ |- _ => apply getGraphByID_frame in H as -> end; [by chain_evolves|].
  match goal with H : enforceNamespaceQuota _ _ _ _ _ _ = _ |- _ => apply enforceNamespaceQuota_frame in H as -> end.
  match goal with H : resolvePlacements _ _ _ _ _ = _ |- _ => apply resolvePlacements_frame in H as -> end.
  match goal with H : insertGraph _ _ _ _ _ = _ |- _ => apply insertGraph_same in H end.
  match goal with H : for_eachT _ _ _ _ = _ |- _ => unfold for_eachT in H; apply forT_evolves in H;
    [|intros; eapply same_lifecycle_evolves, insertGraphEdge_same; eassumption] end.
  match goal with H : forT (insertGraphNode _ _ _) _ _ _ _ = _ |- _ => apply forT_evolves in H;
    [|intros; by eapply insertGraphNode_evolves] end.
  match goal with H : completeIdempotency _ _ _ _ _ _ _ = _ |- _ => apply completeIdempotency_same in H end.
  match goal with H : insertGraphAcceptanceEvidence _ _ _ _ _ _ _ = _ |- _ => apply insertGraphAcceptanceEvidence_same in H end.
  by chain_evolves.
Qed.

Lemma open_nodes_ready d gid :
  lifecycle_inv d →
  NoDup (sib_jobID <$> open_nodes d gid) ∧ Forall (sibling_ready d) (open_nodes d gid) ∧
  (∀ k j, d_jobs d !! k = Some j → j_graph_id j = Some gid → j_phase j ≠ "terminal" →
     k ∈ (sib_jobID <$> open_nodes d gid)).
Proof.
  intros I. unfold open_nodes.
  match goal with |- context [select ?p (d_jobs d)] => pose proof (members_ready d
    (λ kr : string * job_row, default 0 (j_graph_index kr.2)) p I) as (? & ? & Hin) end.
  - intros k j ?. guard_inv. done.
  - split_and!; try done. intros k j Hk Hc Ht. apply (Hin k j Hk). unfold in_graph, is_terminal.
    rewrite bool_decide_true by done. by rewrite !(proj2 (eqs_false _ _)) by done.
Qed.

Lemma CancelGraph_ok p n gid k q e d g d' :
  lifecycle_inv d → CancelGraph p n gid k q e d = Ok (g, d') → lifecycle_inv d' ∧ progress d d'.
Proof.
  unfold CancelGraph. intros I Hrun. tx_inv.
  match goal with H : authorizeNamespace _ _ _ _ _ = _ |- _ => apply authorizeNamespace_frame in H as -> end.
  match goal with H : reserveIdempotency _ _ _ _ _ _ _ _ = _ |- _ => apply reserveIdempotency_same in H as S1 end.
  pose proof (evolved_same d d _ (conj I (reflexivity d)) S1) as [I1 P1].
  case_match; tx_inv;
  match goal with H : getGraphByID _ _ _ _ = _ |- _ => apply getGraphByID_frame in H as -> end; [done|].
  match goal with H : for_eachT _ (open_nodes ?d0 _) _ _ = _ |- _ =>
    pose proof (open_nodes_ready d0 gid I1) as (? & ? & _);
    eapply (cancel_siblings_ok _ (na_namespaceID x)) in H as [[I2 P2] _]; [| |done|done|done] end.
  2: { intros. tx_inv. done. }
  match goal with H : completeIdempotency _ _ _ _ _ _ _ = _ |- _ => apply completeIdempotency_same in H end.
  repeat outside_step.
  match type of I2 with lifecycle_inv ?b => chain_from b end. split; [done|by etrans].
Qed.

(** ** The coordinator *)

Lemma claimAssignmentCandidate_some e d c d' :
  claimAssignmentCandidate e d = Ok (Some c, d') →
  d' = d ∧ ∃ j policy, d_jobs d !! ca_jobID c = Some j ∧ d_policies d !! j_namespace_id j = Some policy ∧
    candidate_of e d (ca_jobID c) j = Some (policy, c) ∧ dispatchable e d (ca_jobID c) j policy = true.
Proof.
  unfold claimAssignmentCandidate. intros [= Hc <-]. split; [done|].
  apply fmap_Some in Hc as ([keys c'] & Hh & ->). apply head_Some_elem_of, elem_of_order_by_keys in Hh.
  unfold dispatch_candidates in Hh. apply list_elem_of_bind in Hh as ([jid j] & Hin & Hj%elem_of_map_to_list). cbn in *.
  destruct (candidate_of e d jid j) as [[policy c]|] eqn:Hcand; [|by apply not_elem_of_nil in Hin].
  destruct (dispatchable e d jid j policy) eqn:Hdis; [|by apply not_elem_of_nil in Hin].
  destruct (row_locked e jid), (row_locked e (j_namespace_id j)); cbn in Hin; try (by apply not_elem_of_nil in Hin).
  apply list_elem_of_singleton in Hin. simplify_eq.
  assert (ca_jobID c = jid ∧ d_policies d !! j_namespace_id j = Some policy) as [-> ?].
  { unfold candidate_of in Hcand. repeat (apply bind_Some in Hcand as (? & ? & Hcand)).
    case_match; [done|]. repeat (apply bind_Some in Hcand as (? & ? & Hcand)). by simplify_eq. }
  by eauto 10.
Qed.

Lemma candidate_of_fields e d jid j policy c :
  candidate_of e d jid j = Some (policy, c) → ca_jobID c = jid ∧ ca_namespaceID c = j_namespace_id j.
Proof.
  unfold candidate_of. intros Hcand. repeat (apply bind_Some in Hcand as (? & ? & Hcand)).
  case_match; [done|]. repeat (apply bind_Some in Hcand as (? & ? & Hcand)). by simplify_eq.
Qed.

Lemma dispatchable_waiting e d jid j policy :
  dispatchable e d jid j policy = true →
  d_reconciliation_hold d = false ∧ j_phase j = "accepted" ∧ j_desired_state j = "run".
Proof. unfold dispatchable. intros H. guard_inv. done. Qed.

(** The three rows of an offer. *)
Definition offered_run (now : timestamptz) (c : assignmentCandidate) : run_row :=
  {| r_namespace_id := ca_namespaceID c; r_job_id := ca_jobID c; r_run_number := 1;
     r_phase := "assigning"; r_desired_state := "run"; r_outcome := None;
     r_created_at := now; r_updated_at := now |}.

Lemma insert_offer_ok c rid eid aid digest doc e d u d' :
  insert_offer c rid eid aid digest doc e d = Ok (u, d') →
  d_runs d !! rid = None ∧ d_executions d !! eid = None ∧ d_assignments d !! aid = None ∧ eid ≠ "" ∧
  ∃ x a, lifecycle_is d' (d_jobs d) (<[rid := offered_run (transaction_timestamp e) c]> (d_runs d))
      (<[eid := x]> (d_executions d)) (<[aid := a]> (d_assignments d)) ∧
    d_policies d' = d_policies d ∧ d_audit d' = d_audit d ∧ d_outbox d' = d_outbox d ∧
    e_namespace_id x = ca_namespaceID c ∧ e_run_id x = rid ∧ e_agent_id x = ca_agentID c ∧
    e_phase x = "planned" ∧ e_outcome x = None ∧ e_last_event_sequence x = 0 ∧
    e_effective_spec_digest x = digest ∧ e_target_generation_id x = ca_targetGenerationID c ∧
    a_namespace_id a = ca_namespaceID c ∧ a_execution_id a = eid ∧ a_agent_id a = ca_agentID c ∧
    a_state a = "offered" ∧ a_document a = doc ∧
    e_effective_spec x = aas_EffectiveExecution (aa_Spec doc) ∧ e_target_id x = ca_targetID c.
Proof.
  unfold insert_offer. intros Hrun. tx_inv.
  repeat match goal with H : INSERT _ _ _ _ = _ |- _ => apply INSERT_ok in H as (? & ? & ->) end.
  cbn in *. match goal with H : Forall _ (execution_constraints _ _ _) |- _ => apply Forall_cons in H as [Hid _] end.
  cbn in Hid. guard_inv. split_and!; try done.
  eexists _, _. by split_and!.
Qed.

Section dispatch.
Context `{Sealer}.

Definition assigning_row (now : timestamptz) (j : job_row) : job_row :=
  j <| j_phase := "assigning"; j_revision ::= Z.succ; j_updated_at := now |>.

(** What one dispatch found and wrote. *)
Record offer_made (rid eid aid : string) (e : env) (d d' : db) (c : assignmentCandidate) (j : job_row)
    (policy : policy_row) (x : execution_row) (a : assignment_row) : Prop := {
  om_job : d_jobs d !! ca_jobID c = Some j;
  om_policy : d_policies d !! j_namespace_id j = Some policy;
  om_candidate : candidate_of e d (ca_jobID c) j = Some (policy, c);
  om_dispatchable : dispatchable e d (ca_jobID c) j policy = true;
  om_fresh : d_runs d !! rid = None ∧ d_executions d !! eid = None ∧ d_assignments d !! aid = None ∧ eid ≠ "";
  om_document : ∃ document, buildAssignmentDocument c rid eid aid = Ok (document, e_effective_spec_digest x) ∧
    a_document a = saa_Document document ∧ e_effective_spec x = aas_EffectiveExecution (aa_Spec (a_document a)) ∧
    e_target_id x = ca_targetID c;
  om_rows : ∃ s cc, lifecycle_is d'
    (<[ca_jobID c := with_lifecycle (assigning_row (transaction_timestamp e) j) s cc]> (d_jobs d))
    (<[rid := offered_run (transaction_timestamp e) c]> (d_runs d))
    (<[eid := x]> (d_executions d)) (<[aid := a]> (d_assignments d));
  om_execution : e_namespace_id x = ca_namespaceID c ∧ e_run_id x = rid ∧ e_agent_id x = ca_agentID c ∧
    e_phase x = "planned" ∧ e_outcome x = None ∧ e_last_event_sequence x = 0 ∧
    e_target_generation_id x = ca_targetGenerationID c;
  om_assignment : a_namespace_id a = ca_namespaceID c ∧ a_execution_id a = eid ∧ a_agent_id a = ca_agentID c ∧
    a_state a = "offered" }.

Lemma reconcileOneAssignment_run rid eid aid oid e d b d' :
  reconcileOneAssignment rid eid aid oid e d = Ok (b, d') →
  if b then ∃ c j policy x a, offer_made rid eid aid e d d' c j policy x a else d' = d.
Proof.
  intros Hrun. unfold reconcileOneAssignment in Hrun. tx_inv.
  match goal with H : claimAssignmentCandidate _ _ = Ok (?o, _) |- _ => destruct o as [c|]; rename H into Hclaim end; tx_inv.
  2: { unfold claimAssignmentCandidate in Hclaim. by simplify_eq. }
  apply claimAssignmentCandidate_some in Hclaim as (-> & j & policy & Hj & Hpol & Hcand & Hdis).
  destruct (dispatchable_waiting _ _ _ _ _ Hdis) as (_ & Hp & Hd).
  match goal with H : (let '(_, _) := ?t in _) _ _ = _ |- _ => destruct t as [doc digest] end. tx_inv.
  match goal with H : insert_offer _ _ _ _ _ _ _ _ = _ |- _ =>
    apply insert_offer_ok in H as (Hr & Hx & Ha & Hne & x & a & L & _ & _ & _ & ? & ? & ? & Hxp & ? & ? & Hdig & ? & ? & ? & ? & Hs & Hdoc & Hspec & ?) end.
  match goal with H : UPDATE (ca_jobID c) _ _ _ _ = _ |- _ =>
    eapply jobs_hit in H as (st & cc & L'); [|exact L|exact Hj|by rewrite Hp, Hd] end.
  match goal with H : UPDATE _ _ _ _ _ = _ |- _ => apply UPDATE_outside in H end. repeat outside_step.
  exists c, j, policy, x, a. constructor; try done.
  - exists doc. by rewrite Hdig, Hdoc.
  - exists st, cc. repeat (eapply lifecycle_is_same; [eassumption|]). exact L'.
Qed.

(** A dispatch turns one waiting job into an offered one. *)
Lemma reconcileOneAssignment_ok rid eid aid oid e d b d' :
  lifecycle_inv d → reconcileOneAssignment rid eid aid oid e d = Ok (b, d') →
  (lifecycle_inv d' ∧ progress d d').
Proof.
  intros I Hrun. apply reconcileOneAssignment_run in Hrun. destruct b; [|by subst].
  destruct Hrun as (c & j & policy & x & a & [Hj _ Hcand Hdis (Hr & Hx & Ha & Hne) _ (st & cc & Hjs & Hrs & Hxs & Has)
    (? & ? & ? & Hxp & ? & ? & _) (? & ? & ? & Hs)]).
  apply dispatchable_waiting in Hdis as (_ & Hp & Hd).
  destruct (candidate_of_fields _ _ _ _ _ _ Hcand) as [_ Hns].
  pose proof (accepted_has_no_run _ _ _ I Hj Hp) as Hno.
  destruct (idle_phase _ _ _ I Hj Hno) as [(_ & _ & Hout)|[? _]]; [|congruence]. split.
  - unfold lifecycle_inv. rewrite Hjs, Hrs, Hxs, Has.
    eapply lc_offer; try done. apply coupled_with_lifecycle.
    constructor; cbn; rewrite ?Hxp, ?Hs; try done; try congruence. { constructor. } split_and!; congruence.
  - constructor; rewrite ?Hjs, ?Hxs, ?Has.
    + apply grows_insert; [apply _|]. intros v Hv. assert (v = j) as -> by congruence.
      apply advances_with_lifecycle; [congruence|]. advance Hp.
    + by apply grows_insert_fresh; [apply _|].
    + by apply grows_insert_fresh; [apply _|].
Qed.

Lemma reconcile_iteration_evolves e d b d' : reconcile_iteration e d = Ok (b, d') → evolves d d'.
Proof.
  unfold reconcile_iteration. intros Hrun. tx_inv.
  match goal with H : newIDs _ _ _ = _ |- _ => apply newIDs_same in H as S1 end.
  repeat case_match; tx_inv; try done. etrans; [by apply same_lifecycle_evolves|].
  intros I. by eapply reconcileOneAssignment_ok.
Qed.
End dispatch.

(** ** Stale observations *)

Lemma reconcileOneStale_evolves staleAfter oid e d b d' :
  reconcileOneStale staleAfter oid e d = Ok (b, d') → evolves d d'.
Proof.
  unfold reconcileOneStale. intros Hrun I. tx_inv.
  match goal with H : match head ?l with _ => _ end _ _ = _ |- _ => destruct (head l) as [[[[t eid] x] r]|] eqn:Hh end;
    tx_inv; [|by split].
  apply head_Some_elem_of, elem_of_order_by in Hh. unfold stale_candidates in Hh.
  apply list_elem_of_bind in Hh as ([k x'] & Hin & Hx%elem_of_map_to_list). cbn in Hin.
  repeat case_match; try (by apply not_elem_of_nil in Hin). apply list_elem_of_singleton in Hin. simplify_eq.
  guard_inv. match goal with H : _ ∈ ["accepted"; "running"] |- _ => rename H into Hlive end.
  destruct (quad_of_execution _ _ _ _ _ _ I Hx) as (jid & rid & aid & j & r' & asg & Hq & Hc).
  pose proof Hq as [Hj Hr _ Ha ? ? ?]. simplify_eq.
  pose proof (stages_live _ _ _ _ (cp_stages _ _ _ _ Hc) ltac:(set_solver)) as Hst.
  destruct (live_stage_job _ _ _ _ Hst) as (Hjt & _ & _ & Hxt).
  pose proof (lifecycle_is_here d) as L.
  match goal with H : UPDATE ?k _ _ _ d = _ |- _ => eapply executions_hit in L; [|exact H|exact Hx|by apply eqs_true] end.
  match goal with H : UPDATE (r_job_id _) _ _ _ _ = _ |- _ =>
    eapply jobs_hit in L as (s & c & L); [|exact H|exact Hj|done] end.
  repeat outside_step. rewrite <-(insert_id (d_runs d) _ _ (q_run _ _ _ _ _ _ _ _ _ _ _ _ Hq)), <-(insert_id (d_assignments d) _ _ (q_assignment _ _ _ _ _ _ _ _ _ _ _ _ Hq)) in L.
  match type of L with lifecycle_is ?b _ _ _ _ => chain_from b end.
  eapply evolves_quad_is; [done|exact Hq|exact L|done|done|done| | | |reflexivity].
  - destruct Hc. by constructor.
  - constructor; cbn; try done. lia.
  - constructor; cbn; try done. lia.
Qed.

(** ** Actions *)

Lemma ListDesiredActions_same identity limit e d l d' :
  ListDesiredActions identity limit e d = Ok (l, d') → same_lifecycle d d'.
Proof.
  unfold ListDesiredActions. intros Hrun. tx_inv.
  match goal with H : for_eachT _ _ _ _ = _ |- _ => unfold for_eachT in H;
    eapply (forT_preserves (same_lifecycle d)) in H; [done| |done] end.
  intros [] kr d1 [] d2 S Hu. tx_inv. match goal with H : UPDATE _ _ _ _ _ = _ |- _ => apply UPDATE_outside in H end. by etrans.
Qed.

Lemma AcknowledgeDesiredAction_same identity ack e d b d' :
  AcknowledgeDesiredAction identity ack e d = Ok (b, d') → same_lifecycle d d'.
Proof.
  unfold AcknowledgeDesiredAction. intros Hrun. tx_inv.
  match goal with H : UPDATE _ _ _ _ _ = _ |- _ => apply UPDATE_outside in H end. case_match; by tx_inv.
Qed.
