(* ===== verification/Frames.v ===== *)
(** * Frames

    Which parts of the database a method leaves alone.  [Keeps p m] says that a
    successful run of [m] does not change [p]; the instances follow the structure
    of the monad, so that one tactic call settles a whole method for a given
    table. *)
From stdpp Require Import pretty.
From S2P Require Import Prelude Regex Names Domain TargetSpec Kahn Graph Contract Records Url Db Tx Constraints Auth Jobs HistoryImport Groups GraphStore Executions Coordinator.

Class Keeps {B A} (p : db → B) (m : tx A) : Prop :=
  keeps e d a d' : m e d = Ok (a, d') → p d' = p d.

Section keeps.
Context {B : Type} (p : db → B).

Lemma keeps_ret {A} (a : A) : Keeps p (mret a).
Proof. intros e d a' d' H. by tx_inv. Qed.
Lemma keeps_throw {A} err : Keeps p (throw (A := A) err).
Proof. by intros e d a' d'. Qed.
Lemma keeps_query {A} (f : db → A) : Keeps p (query f).
Proof. intros e d a' d' H. by tx_inv. Qed.
Lemma keeps_asks {A} (f : env → A) : Keeps p (asks f).
Proof. intros e d a' d' H. by tx_inv. Qed.
Lemma keeps_lift {A} (r : result A) : Keeps p (lift r).
Proof. intros e d a' d' H. by tx_inv. Qed.
Lemma keeps_row_or {A} (o : option A) err : Keeps p (row_or o err).
Proof. intros e d a' d' H. by tx_inv. Qed.
Lemma keeps_reject c err : Keeps p (reject c err).
Proof. intros e d a' d' H. by tx_inv. Qed.
Lemma keeps_bind {A C} (m : tx A) (k : A → tx C) : Keeps p m → (∀ a, Keeps p (k a)) → Keeps p (m ≫= k).
Proof. intros Hm Hk e d a' d' H. tx_inv. etrans; [by eapply Hk|by eapply Hm]. Qed.
Lemma keeps_wrap {A} f args (m : tx A) : Keeps p m → Keeps p (wrapT f args m).
Proof. intros Hm e d a' d' H. tx_inv. by eapply Hm. Qed.
Lemma keeps_when c m : Keeps p m → Keeps p (whenT c m).
Proof. intros Hm e d a' d' H. apply whenT_ok in H as [[_ H]|[_ ->]]; [by eapply Hm|done]. Qed.
Lemma keeps_forT {S A} (f : S → A → tx S) s l : (∀ s x, Keeps p (f s x)) → Keeps p (forT f s l).
Proof.
  intros Hf e d a' d' H. eapply (forT_preserves (λ x, p x = p d)) in H; [done| |done].
  intros s0 x d0 s1 d1 E Hs. rewrite <-E. by eapply Hf.
Qed.
Lemma keeps_for_eachT {A} (f : A → tx unit) l : (∀ x, Keeps p (f x)) → Keeps p (for_eachT f l).
Proof. intros Hf. apply keeps_forT. intros _. apply Hf. Qed.
Lemma keeps_newID : (∀ ids d, p (d <| d_ids := ids |>) = p d) → Keeps p newID.
Proof. intros Hp e d a' d' H. apply newID_ok in H as (ids & _ & ->). apply Hp. Qed.
Lemma keeps_exec f : (∀ e d, p (f e d) = p d) → Keeps p (exec f).
Proof. intros Hp e d a' d' H. tx_inv. apply Hp. Qed.
Lemma keeps_insert_audit row : (∀ l d, p (d <| d_audit := l |>) = p d) → Keeps p (insert_audit row).
Proof. intros Hp e d a' d' H. unfold insert_audit in H. apply bind_unit_ok in H as [_ [= _ <-]]. apply Hp. Qed.

Section tables.
Context {K R : Type} `{Table K R}.
Lemma keeps_INSERT (k : K) (row : R) : (∀ m d, p (set_tbl m d) = p d) → Keeps p (INSERT k row).
Proof. intros Hp e d a' d' Hr. apply INSERT_ok in Hr as (_ & _ & ->). apply Hp. Qed.
Lemma keeps_INSERT_or_nothing (k : K) (row : R) : (∀ m d, p (set_tbl m d) = p d) → Keeps p (INSERT_or_nothing k row).
Proof. intros Hp e d a' d' Hr. apply INSERT_or_nothing_ok in Hr as [(_ & -> & _)|(_ & _ & _ & ->)]; [done|apply Hp]. Qed.
Lemma keeps_UPDATE (k : K) (q : R → bool) f :
  (∀ m d, p (set_tbl m d) = p d) → (∀ old row, Keeps p (after_update k old row)) → Keeps p (UPDATE k q f).
Proof.
  intros Hp Ha e d a' d' Hr. apply UPDATE_ok in Hr as [(old & row & _ & _ & _ & _ & _ & Hr)|(_ & -> & _)]; [|done].
  apply Ha in Hr. by rewrite Hr.
Qed.
End tables.

Lemma keeps_newIDs n : Keeps p newID → Keeps p (newIDs n).
Proof. intros Hp. induction n; cbn; [apply keeps_ret|]. apply keeps_bind; [done|intros ?]. apply keeps_bind; [done|intros ?]. apply keeps_ret. Qed.

Lemma keeps_resolve_nodes fuel ns g policy :
  (∀ j, Keeps p (terminalize_node ns g policy j)) → Keeps p (resolve_nodes fuel ns g policy).
Proof.
  intros Hp. induction fuel as [|fuel IH]; cbn; [apply keeps_throw|].
  apply keeps_bind; [apply keeps_asks|intros e]. apply keeps_bind; [apply keeps_query|intros d].
  destruct (next_unsatisfiable _ _ _); [|apply keeps_ret]. by apply keeps_bind.
Qed.

Lemma keeps_getJobByID ns j : Keeps p (getJobByID ns j).
Proof. intros e d a d'. unfold getJobByID. repeat case_match; intros Hr; tx_inv; done. Qed.
Lemma keeps_getJobWithQuerier ns j : Keeps p (getJobWithQuerier ns j).
Proof. intros e d a d'. unfold getJobWithQuerier. repeat case_match; intros Hr; simplify_eq; done. Qed.
Lemma keeps_authorizeNamespace pr ns caps : Keeps p (authorizeNamespace pr ns caps).
Proof. intros e d a d' Hr. by apply authorizeNamespace_authorized in Hr as [-> _]. Qed.
Lemma keeps_claim : Keeps p claimAssignmentCandidate.
Proof. intros e d a d' Hr. unfold claimAssignmentCandidate in Hr. by simplify_eq. Qed.
End keeps.

(** Settle [Keeps] by the structure of the method, unfolding as it goes. *)
Ltac keeps_head m := lazymatch m with ?f _ => keeps_head f | ?f => f end.
Ltac keeps_step :=
  lazymatch goal with
  | |- ∀ _, _ => intros ?
  | |- Keeps _ (mret _) => apply keeps_ret
  | |- Keeps _ (mbind _ _) => apply keeps_bind
  | |- Keeps _ (throw _) => apply keeps_throw
  | |- Keeps _ (query _) => apply keeps_query
  | |- Keeps _ (asks _) => apply keeps_asks
  | |- Keeps _ (lift _) => apply keeps_lift
  | |- Keeps _ (row_or _ _) => apply keeps_row_or
  | |- Keeps _ (reject _ _) => apply keeps_reject
  | |- Keeps _ (wrapT _ _ _) => apply keeps_wrap
  | |- Keeps _ (whenT _ _) => apply keeps_when
  | |- Keeps _ (forT _ _ _) => apply keeps_forT
  | |- Keeps _ (for_eachT _ _) => apply keeps_for_eachT
  | |- Keeps _ newID => apply keeps_newID
  | |- Keeps _ (newIDs _) => apply keeps_newIDs
  | |- Keeps _ (exec _) => apply keeps_exec
  | |- Keeps _ (insert_audit _) => apply keeps_insert_audit
  | |- Keeps _ (INSERT _ _) => apply keeps_INSERT
  | |- Keeps _ (INSERT_or_nothing _ _) => apply keeps_INSERT_or_nothing
  | |- Keeps _ (UPDATE _ _ _) => apply keeps_UPDATE
  | |- Keeps _ (resolve_nodes _ _ _ _) => apply keeps_resolve_nodes
  | |- Keeps _ (getJobByID _ _) => apply keeps_getJobByID
  | |- Keeps _ (getJobWithQuerier _ _) => apply keeps_getJobWithQuerier
  | |- Keeps _ (authorizeNamespace _ _ _) => apply keeps_authorizeNamespace
  | |- Keeps _ claimAssignmentCandidate => apply keeps_claim
  | |- Keeps _ (after_update _ _ _) => progress cbn
  | |- Keeps _ (match ?x with _ => _ end) => destruct x
  | |- Keeps _ (let _ := _ in _) => cbv zeta
  | |- Keeps _ ?m => let f := keeps_head m in unfold f
  | |- _ = _ => reflexivity
  end.
Ltac keeps_tac := repeat keeps_step.

Lemma keeps_after {B A} (p : db → B) (m : tx A) e d a d' : Keeps p m → m e d = Ok (a, d') → p d' = p d.
Proof. intros Hk Hm. by eapply Hk. Qed.

(** What the run [H] keeps of [p], by the tactic [t]. *)
Tactic Notation "kept" constr(p) "by" tactic3(t) "on" hyp(H) "as" ident(E) := pose proof H as E; apply (keeps_after p) in E; [|solve [t]].

(** ** The tables the methods leave alone *)

Section methods.
Context `{Sealer}.

Lemma AcceptAssignment_keeps_events i a : Keeps d_events (AcceptAssignment i a).
Proof. keeps_tac. Qed.
Lemma CancelJob_keeps_events p n j k q : Keeps d_events (CancelJob p n j k q).
Proof. keeps_tac. Qed.
Lemma CancelGraph_keeps_events p n g k q : Keeps d_events (CancelGraph p n g k q).
Proof. keeps_tac. Qed.
Lemma SubmitJob_keeps_events p k s : Keeps d_events (SubmitJob p k s).
Proof. keeps_tac. Qed.
Lemma ImportCompletedHistory_keeps_events p k dry q : Keeps d_events (ImportCompletedHistory p k dry q).
Proof. keeps_tac. Qed.
Lemma SubmitCollection_keeps_events p k s : Keeps d_events (SubmitCollection p k s).
Proof. keeps_tac. Qed.
Lemma SubmitGraph_keeps_events p k s : Keeps d_events (SubmitGraph p k s).
Proof. keeps_tac. Qed.
Lemma reconcile_iteration_keeps_events : Keeps d_events reconcile_iteration.
Proof. keeps_tac. Qed.
Lemma reconcileOneStale_keeps_events t o : Keeps d_events (reconcileOneStale t o).
Proof. keeps_tac. Qed.
Lemma apply_event_keeps_events v doc r j : Keeps d_events (apply_event v doc r j).
Proof. keeps_tac. Qed.
Lemma insert_artifacts_keeps_events i v doc : Keeps d_events (insert_artifacts i v doc).
Proof. keeps_tac. Qed.
Lemma applyCollectionCompletion_keeps_events n j o : Keeps d_events (applyCollectionCompletion n j o).
Proof. keeps_tac. Qed.
Lemma applyGraphCompletion_keeps_events n j : Keeps d_events (applyGraphCompletion n j).
Proof. keeps_tac. Qed.
End methods.
