(* ===== verification/Announce.v ===== *)
(** * What a call announces

    Every call of the job lifecycle leaves exactly the monitoring events of the jobs it ends.  [Respects R m]
    says that a successful run of [m] is related by [R]; it follows the structure of the monad, so that a
    relation is checked statement by statement.  [announced] is the relation for the outbox: nothing is
    removed, a new monitoring event comes from the trigger on [jobs], and a job that has become terminal has
    one. *)
From stdpp Require Import pretty.
From S2P Require Import Prelude Regex Names Domain TargetSpec Kahn Graph Contract Records Url Db Tx Constraints Auth Jobs HistoryImport Groups GraphStore Executions Coordinator Lifecycle Progress LifecycleOps Frames.

(** ** Relations respected by a method *)

Class Respects {A} (R : db → db → Prop) (m : tx A) : Prop :=
  respects e d a d' : m e d = Ok (a, d') → R d d'.

Section respects.
Context (R : db → db → Prop) `{!PreOrder R}.

(** A method that only reads. *)
Lemma respects_reads {A} (m : tx A) : (∀ e d a d', m e d = Ok (a, d') → d' = d) → Respects R m.
Proof. intros Hm e d a d' ->%Hm. reflexivity. Qed.
Lemma respects_ret {A} (a : A) : Respects R (mret a).
Proof. apply respects_reads. intros * H. by tx_inv. Qed.
Lemma respects_throw {A} err : Respects R (throw (A := A) err).
Proof. by intros e d a' d'. Qed.
Lemma respects_query {A} (f : db → A) : Respects R (query f).
Proof. apply respects_reads. intros * H. by tx_inv. Qed.
Lemma respects_asks {A} (f : env → A) : Respects R (asks f).
Proof. apply respects_reads. intros * H. by tx_inv. Qed.
Lemma respects_lift {A} (r : result A) : Respects R (lift r).
Proof. apply respects_reads. intros * H. by tx_inv. Qed.
Lemma respects_row_or {A} (o : option A) err : Respects R (row_or o err).
Proof. apply respects_reads. intros * H. by tx_inv. Qed.
Lemma respects_reject c err : Respects R (reject c err).
Proof. apply respects_reads. intros * H. by tx_inv. Qed.
Lemma respects_bind {A C} (m : tx A) (k : A → tx C) : Respects R m → (∀ a, Respects R (k a)) → Respects R (m ≫= k).
Proof. intros Hm Hk e d a d' H. tx_inv. etrans; [by eapply Hm|by eapply Hk]. Qed.
Lemma respects_wrap {A} f args (m : tx A) : Respects R m → Respects R (wrapT f args m).
Proof. intros Hm e d a d' H. tx_inv. by eapply Hm. Qed.
Lemma respects_when c m : Respects R m → Respects R (whenT c m).
Proof. intros Hm e d a d' H. apply whenT_ok in H as [[_ H]|[_ ->]]; [by eapply Hm|reflexivity]. Qed.
Lemma respects_forT {S A} (f : S → A → tx S) s l : (∀ s x, Respects R (f s x)) → Respects R (forT f s l).
Proof.
  intros Hf e d a d' H. eapply (forT_preserves (R d)) in H; [done| |reflexivity].
  intros s0 x d0 s1 d1 E Hs. etrans; [exact E|by eapply Hf].
Qed.
Lemma respects_for_eachT {A} (f : A → tx unit) l : (∀ x, Respects R (f x)) → Respects R (for_eachT f l).
Proof. intros Hf. apply respects_forT. intros _. apply Hf. Qed.
Lemma respects_newID : (∀ ids d, R d (d <| d_ids := ids |>)) → Respects R newID.
Proof. intros Hp e d a d' H. apply newID_ok in H as (ids & _ & ->). apply Hp. Qed.
Lemma respects_exec f : (∀ e d, R d (f e d)) → Respects R (exec f).
Proof. intros Hp e d a d' H. tx_inv. apply Hp. Qed.
Lemma respects_insert_audit row : (∀ l d, R d (d <| d_audit := l |>)) → Respects R (insert_audit row).
Proof. intros Hp e d a d' H. unfold insert_audit in H. apply bind_unit_ok in H as [_ [= _ <-]]. apply Hp. Qed.

Section tables.
Context {K T : Type} `{Table K T}.
Lemma respects_INSERT (k : K) (row : T) : (∀ d, tbl d !! k = None → R d (set_tbl (<[k := row]> (tbl d)) d)) → Respects R (INSERT k row).
Proof. intros Hp e d a d' Hr. apply INSERT_ok in Hr as (Hk & _ & ->). by apply Hp. Qed.
Lemma respects_INSERT_or_nothing (k : K) (row : T) :
  (∀ d, tbl d !! k = None → R d (set_tbl (<[k := row]> (tbl d)) d)) → Respects R (INSERT_or_nothing k row).
Proof. intros Hp e d a d' Hr. apply INSERT_or_nothing_ok in Hr as [(_ & -> & _)|(_ & Hk & _ & ->)]; [reflexivity|by apply Hp]. Qed.
(** An update of a table [R] does not look at. *)
Lemma respects_UPDATE (k : K) (q : T → bool) f :
  (∀ m d, R d (set_tbl m d)) → (∀ old row, Respects R (after_update k old row)) → Respects R (UPDATE k q f).
Proof.
  intros Hp Ha e d a d' Hr. apply UPDATE_ok in Hr as [(old & row & _ & _ & _ & _ & _ & Hr)|(_ & -> & _)]; [|reflexivity].
  apply Ha in Hr. etrans; [apply Hp|exact Hr].
Qed.
End tables.

Lemma respects_newIDs n : Respects R newID → Respects R (newIDs n).
Proof.
  intros Hp. induction n; cbn; [apply respects_ret|]. apply respects_bind; [done|intros ?].
  apply respects_bind; [done|intros ?]. apply respects_ret.
Qed.
Lemma respects_resolve_nodes fuel ns g policy :
  (∀ j, Respects R (terminalize_node ns g policy j)) → Respects R (resolve_nodes fuel ns g policy).
Proof.
  intros Hp. induction fuel as [|fuel IH]; cbn; [apply respects_throw|].
  apply respects_bind; [apply respects_asks|intros e]. apply respects_bind; [apply respects_query|intros d].
  destruct (next_unsatisfiable _ _ _); [|apply respects_ret]. by apply respects_bind.
Qed.
End respects.

(** ** The relation on the outbox *)

(** The outbox row that the trigger writes for a job. *)
Record from_trigger (jobID id : string) (o : outbox_row) : Prop := {
  ft_topic : ob_topic o = monitoring_topic;
  ft_job : ob_aggregate_id o = jobID;
  ft_pending : ob_published_at o = None;
  ft_payload : ∃ oldPhase new run recordedAt recovery, oldPhase ≠ "terminal" ∧ j_phase new = "terminal" ∧
    ob_namespace_id o = j_namespace_id new ∧ ob_payload o = monitoring_payload id jobID oldPhase new run recordedAt recovery }.

Definition job_terminal (d : db) (jobID : string) : Prop :=
  ∃ j, d_jobs d !! jobID = Some j ∧ j_phase j = "terminal".

(** A monitoring event that was not there before. *)
Definition new_event (d d' : db) (id : string) (o : outbox_row) : Prop :=
  d_outbox d' !! id = Some o ∧ d_outbox d !! id = None ∧ ob_topic o = monitoring_topic.

Record announced (d d' : db) : Prop := {
  an_kept : d_outbox d ⊆ d_outbox d';
  an_new : ∀ id o, new_event d d' id o → ∃ jobID, from_trigger jobID id o ∧ ¬ job_terminal d jobID ∧ job_terminal d' jobID;
  an_one : ∀ i1 o1 i2 o2, new_event d d' i1 o1 → new_event d d' i2 o2 → ob_aggregate_id o1 = ob_aggregate_id o2 → i1 = i2;
  an_terminal : ∀ jobID, job_terminal d' jobID → job_terminal d jobID ∨ ∃ id o, new_event d d' id o ∧ from_trigger jobID id o;
  an_stable : ∀ jobID, job_terminal d jobID → job_terminal d' jobID;
  an_feed : d_monitoring_feed d' = d_monitoring_feed d ∧ d_monitoring_state d' = d_monitoring_state d }.

(** Nothing is announced, and no job becomes terminal. *)
Record quiet (d d' : db) : Prop := {
  qu_kept : d_outbox d ⊆ d_outbox d';
  qu_new : ∀ id o, ¬ new_event d d' id o;
  qu_jobs : ∀ jobID, job_terminal d' jobID → job_terminal d jobID;
  qu_feed : d_monitoring_feed d' = d_monitoring_feed d ∧ d_monitoring_state d' = d_monitoring_state d }.

Lemma quiet_announced d d' : quiet d d' → (∀ jobID, job_terminal d jobID → job_terminal d' jobID) → announced d d'.
Proof. intros [Hk Hn Hj Hf] Hs. constructor; [done| | |by left; auto|done|done]; intros; exfalso; by eapply Hn. Qed.

(** An event of two calls in a row is new in the first or in the second. *)
Lemma new_event_trans d1 d2 d3 id o : d_outbox d2 ⊆ d_outbox d3 → new_event d1 d3 id o →
  new_event d1 d2 id o ∨ new_event d2 d3 id o.
Proof.
  intros K (Ho & Hn & Ht). unfold new_event. destruct (d_outbox d2 !! id) as [o2|] eqn:H2; [|by right].
  left. apply (lookup_weaken _ (d_outbox d3)) in H2 as H3; [|done]. by simplify_eq.
Qed.
Lemma new_event_l d1 d2 d3 id o : d_outbox d2 ⊆ d_outbox d3 → new_event d1 d2 id o → new_event d1 d3 id o.
Proof. intros K (Ho & Hn & Ht). split_and!; [by eapply lookup_weaken|done..]. Qed.
Lemma new_event_r d1 d2 d3 id o : d_outbox d1 ⊆ d_outbox d2 → new_event d2 d3 id o → new_event d1 d3 id o.
Proof. intros K (Ho & Hn & Ht). split_and!; [done|by eapply lookup_weaken_None|done]. Qed.

#[export] Instance announced_preorder : PreOrder announced.
Proof.
  split.
  - intros d. constructor; try done; [| |by left]; unfold new_event; intros; naive_solver congruence.
  - intros d1 d2 d3 [K1 N1 O1 T1 S1 [F1 G1]] [K2 N2 O2 T2 S2 [F2 G2]]. constructor; [by etrans| | | |auto|split; congruence].
    + intros id o [Hn|Hn]%(new_event_trans _ d2 _ _ _ K2); [apply N1 in Hn|apply N2 in Hn]; destruct Hn as (k & Hf & Hb & Ha);
        exists k; naive_solver.
    + intros i1 o1 i2 o2 [H1|H1]%(new_event_trans _ d2 _ _ _ K2) [H2|H2]%(new_event_trans _ d2 _ _ _ K2) E; [by eapply O1| | |by eapply O2].
      * apply N1 in H1 as (k1 & [_ J1 _ _] & _ & Ht). apply N2 in H2 as (k2 & [_ J2 _ _] & Hn & _). exfalso. apply Hn. congruence.
      * apply N1 in H2 as (k1 & [_ J1 _ _] & _ & Ht). apply N2 in H1 as (k2 & [_ J2 _ _] & Hn & _). exfalso. apply Hn. congruence.
    + intros k Ht. destruct (T2 k Ht) as [Ht2|(id & o & Hn & Hf)]; [destruct (T1 k Ht2) as [?|(id & o & Hn & Hf)]; [by left|]|];
        right; exists id, o; (split; [|done]); [by eapply new_event_l|by eapply new_event_r].
Qed.
#[export] Instance quiet_preorder : PreOrder quiet.
Proof.
  split.
  - intros d. constructor; try done. unfold new_event. intros; naive_solver congruence.
  - intros d1 d2 d3 [K1 N1 T1 [F1 G1]] [K2 N2 T2 [F2 G2]]. constructor; [by etrans| |auto|split; congruence].
    intros id o [Hn|Hn]%(new_event_trans _ d2 _ _ _ K2); [by eapply N1|by eapply N2].
Qed.

(** What both relations allow besides updates of jobs. *)
Class FeedRelation (R : db → db → Prop) : Prop := {
  feed_preorder :: PreOrder R;
  feed_same d d' : d_jobs d' = d_jobs d → d_outbox d' = d_outbox d →
    d_monitoring_feed d' = d_monitoring_feed d → d_monitoring_state d' = d_monitoring_state d → R d d';
  feed_insert_job d k j : d_jobs d !! k = None → j_phase j ≠ "terminal" → R d (d <| d_jobs := <[k := j]> (d_jobs d) |>);
  feed_insert_outbox d k o : d_outbox d !! k = None → ob_topic o ≠ monitoring_topic →
    R d (d <| d_outbox := <[k := o]> (d_outbox d) |>) }.

Lemma job_terminal_insert (d : db) k j jid : job_terminal (d <| d_jobs := <[k := j]> (d_jobs d) |>) jid ↔
  (jid = k ∧ j_phase j = "terminal") ∨ (jid ≠ k ∧ job_terminal d jid).
Proof.
  unfold job_terminal. cbn. split.
  - intros (j' & [[<- <-]|[? Hl]]%lookup_insert_Some & Hp); [by left|right; eauto].
  - intros [[-> Hp]|[Hne (j' & Hl & Hp)]]; [exists j; by rewrite lookup_insert_eq|exists j'; by rewrite lookup_insert_ne].
Qed.

#[export] Instance quiet_feed : FeedRelation quiet.
Proof.
  split; [apply _|..].
  - intros d d' Hj Ho Hf Hs. constructor; [by rewrite Ho| |unfold job_terminal; by rewrite Hj|done].
    unfold new_event. rewrite Ho. intros; naive_solver congruence.
  - intros d k j Hk Hp. constructor; cbn; [done| | |done]; [unfold new_event; cbn; intros; naive_solver congruence|].
    intros jid [[_ ?]|[_ ?]]%job_terminal_insert; done.
  - intros d k o Hk Hp. constructor; cbn; [by apply insert_subseteq| |done|done].
    intros id o' (Ho & Hn & Ht). cbn in Ho. apply lookup_insert_Some in Ho as [[<- <-]|[_ Hj]]; [done|congruence].
Qed.
#[export] Instance announced_feed : FeedRelation announced.
Proof.
  split; [apply _|..].
  - intros d d' Hj Ho Hf Hs. apply quiet_announced; [by apply feed_same|]. unfold job_terminal. by rewrite Hj.
  - intros d k j Hk Hp. apply quiet_announced; [by apply feed_insert_job|]. intros jid Ht. apply job_terminal_insert. right.
    split; [|done]. intros ->. destruct Ht as (j' & Hl & _). congruence.
  - intros d k o Hk Ho. apply quiet_announced; [by apply feed_insert_outbox|done].
Qed.

Lemma record_job_lifecycle_phase e d k old new : j_phase (record_job_lifecycle e d k old new) = j_phase new.
Proof. unfold record_job_lifecycle. repeat case_match; done. Qed.

(** An update that ends no job. *)
Lemma quiet_UPDATE_job (k : string) (q : job_row → bool) f :
  (∀ j, q j = true → j_phase (f j) = "terminal" → j_phase j = "terminal") → Respects quiet (UPDATE k q f).
Proof.
  intros Hq e d n d' Hr. apply UPDATE_ok in Hr as [(old & row & Hk & Hqo & Hrow & _ & _ & Hr)|(_ & -> & _)]; [|reflexivity].
  cbn in Hk, Hr, Hrow. assert (j_phase row = j_phase (f old)) as Hp by (by rewrite Hrow, record_job_lifecycle_phase). clear Hrow.
  unfold enqueue_monitoring_terminal_transition in Hr. specialize (Hq _ Hqo). rewrite <-Hp in Hq.
  destruct (eqs (j_phase old) "terminal" || negb (eqs (j_phase row) "terminal")) eqn:Hc; tx_inv.
  - constructor; cbn; [done|unfold new_event; cbn; intros; naive_solver congruence| |done].
    intros jid [[-> ?]|[_ ?]]%job_terminal_insert; [|done]. exists old. auto.
  - apply orb_false_iff in Hc as [Ho%eqs_false Hn%negb_false_iff%eqs_true]. by destruct Ho; apply Hq.
Qed.

(** The trigger makes an update that reopens no job announce the job it ends. *)
Lemma announced_UPDATE_job (k : string) (q : job_row → bool) f :
  (∀ j, q j = true → j_phase j = "terminal" → j_phase (f j) = "terminal") → Respects announced (UPDATE k q f).
Proof.
  intros Hq e d n d' Hr. apply UPDATE_ok in Hr as [(old & row & Hk & Hqo & Hrow & _ & _ & Hr)|(_ & -> & _)]; [|reflexivity].
  cbn in Hk, Hr, Hrow. assert (j_phase row = j_phase (f old)) as Hp by (by rewrite Hrow, record_job_lifecycle_phase). clear Hrow.
  unfold enqueue_monitoring_terminal_transition in Hr. specialize (Hq _ Hqo). rewrite <-Hp in Hq. set (d1 := d <| d_jobs := _ |>) in Hr.
  assert (∀ jid, job_terminal d jid → job_terminal d1 jid) as Hst.
  { intros jid Ht. apply job_terminal_insert. destruct (decide (jid = k)) as [->|]; [left|by right]. destruct Ht as (j' & Hl & ?).
    split; [done|]. apply Hq. congruence. }
  destruct (eqs (j_phase old) "terminal" || negb (eqs (j_phase row) "terminal")) eqn:Hc; tx_inv.
  - apply quiet_announced; [|done]. constructor; cbn; [done|unfold new_event; cbn; intros; naive_solver congruence| |done].
    intros jid [[-> ?]|[_ ?]]%job_terminal_insert; [|done].
    apply orb_true_iff in Hc as [Ho%eqs_true|Hn%negb_true_iff%eqs_false]; [by exists old|done].
  - apply orb_false_iff in Hc as [Ho%eqs_false Hn%negb_false_iff%eqs_true].
    match goal with H : newID _ _ = _ |- _ => apply newID_ok in H as (ids & _ & ->) end.
    match goal with H : INSERT ?i _ _ _ = _ |- _ => apply INSERT_ok in H as (Hfresh & _ & ->); set (id := i) in * end.
    cbn in Hfresh |- *. match goal with |- context [<[id := ?o]> (d_outbox d)] => assert (from_trigger k id o) as Hf; [|set (row' := o) in *] end.
    { constructor; try done. cbn. eexists _, row, _, _, _. by split_and!. }
    assert (job_terminal d1 k) as Hk1 by (apply job_terminal_insert; by left).
    match goal with |- announced _ ?d' => assert (∀ i o, new_event d d' i o → i = id ∧ o = row') as Hone end.
    { intros i o (Ho1 & Hn' & Ht). cbn in Ho1. apply lookup_insert_Some in Ho1 as [[<- <-]|[_ Hj]]; [done|congruence]. }
    constructor; cbn; [by apply insert_subseteq| | | |done|done].
    + intros id' o' (-> & ->)%Hone. exists k. split_and!; [done| |done].
      intros (j' & Hl & ?). congruence.
    + by intros i1 o1 i2 o2 (-> & ->)%Hone (-> & ->)%Hone _.
    + intros jid [[-> _]|[_ ?]]%job_terminal_insert; [|by left]. right.
      exists id, row'. split; [|done]. split_and!; [apply lookup_insert_eq|done..].
Qed.

(** ** The calls *)

(** Side conditions on the phase that an update writes. *)
Ltac phase_tac := intros ?; cbn; rewrite ?andb_true_iff, ?eqs_true; try done; intros; destruct_and?; congruence.
Ltac announce_step :=
  lazymatch goal with
  | |- ∀ _, _ => intros ?
  | |- Respects _ (mret _) => apply respects_ret
  | |- Respects _ (mbind _ _) => apply respects_bind
  | |- Respects _ (throw _) => apply respects_throw
  | |- Respects _ (query _) => apply respects_query
  | |- Respects _ (asks _) => apply respects_asks
  | |- Respects _ (lift _) => apply respects_lift
  | |- Respects _ (row_or _ _) => apply respects_row_or
  | |- Respects _ (reject _ _) => apply respects_reject
  | |- Respects _ (wrapT _ _ _) => apply respects_wrap
  | |- Respects _ (whenT _ _) => apply respects_when
  | |- Respects _ (forT _ _ _) => apply respects_forT
  | |- Respects _ (for_eachT _ _) => apply respects_for_eachT
  | |- Respects _ newID => apply respects_newID
  | |- Respects _ (newIDs _) => apply respects_newIDs
  | |- Respects _ (exec _) => apply respects_exec
  | |- Respects _ (insert_audit _) => apply respects_insert_audit
  | |- Respects _ (INSERT _ _) => apply respects_INSERT; intros ? Hfresh; cbn in Hfresh |- *;
      first [ apply feed_same; reflexivity | apply feed_insert_job; [exact Hfresh|discriminate]
            | apply feed_insert_outbox; [exact Hfresh|discriminate] ]
  | |- Respects _ (INSERT_or_nothing _ _) => apply respects_INSERT_or_nothing; [apply _|]; intros ? Hfresh; cbn in Hfresh |- *;
      apply feed_same; reflexivity
  | |- Respects _ (UPDATE _ _ _) =>
      first [ apply announced_UPDATE_job; phase_tac | apply quiet_UPDATE_job; phase_tac | apply respects_UPDATE ]
  | |- Respects _ (resolve_nodes _ _ _ _) => apply respects_resolve_nodes
  | |- Respects _ (getJobByID _ _) => eapply respects_reads; [apply _|]; exact (keeps_getJobByID id _ _)
  | |- Respects _ (getJobWithQuerier _ _) => eapply respects_reads; [apply _|]; exact (keeps_getJobWithQuerier id _ _)
  | |- Respects _ (authorizeNamespace _ _ _) => eapply respects_reads; [apply _|]; exact (keeps_authorizeNamespace id _ _ _)
  | |- Respects _ claimAssignmentCandidate => eapply respects_reads; [apply _|]; exact (keeps_claim id)
  | |- Respects _ (after_update _ _ _) => progress cbn
  | |- Respects _ (match ?x with _ => _ end) => destruct x
  | |- Respects _ (let _ := _ in _) => cbv zeta
  | |- Respects _ ?m => let f := keeps_head m in unfold f
  | |- announced _ _ => apply feed_same; reflexivity
  | |- quiet _ _ => apply feed_same; reflexivity
  | |- PreOrder _ => apply _
  end.
Ltac announce_tac := repeat announce_step.

Inductive lifecycle_call `{Sealer} : db → db → Prop :=
  | call_SubmitJob p k s e d r d' : SubmitJob p k s e d = Ok (r, d') → lifecycle_call d d'
  | call_ImportCompletedHistory p k dry q e d r d' : ImportCompletedHistory p k dry q e d = Ok (r, d') → lifecycle_call d d'
  | call_SubmitCollection p k s e d r d' : SubmitCollection p k s e d = Ok (r, d') → lifecycle_call d d'
  | call_SubmitGraph p k s e d r d' : SubmitGraph p k s e d = Ok (r, d') → lifecycle_call d d'
  | call_CancelJob p n j k q e d r d' : CancelJob p n j k q e d = Ok (r, d') → lifecycle_call d d'
  | call_CancelGraph p n g k q e d r d' : CancelGraph p n g k q e d = Ok (r, d') → lifecycle_call d d'
  | call_AcceptAssignment i a e d r d' : AcceptAssignment i a e d = Ok (r, d') → lifecycle_call d d'
  | call_RecordExecutionEvent i v e d r d' : RecordExecutionEvent i v e d = Ok (r, d') → lifecycle_call d d'
  | call_reconcile_assignment e d r d' : reconcile_iteration e d = Ok (r, d') → lifecycle_call d d'
  | call_reconcile_stale t o e d r d' : reconcileOneStale t o e d = Ok (r, d') → lifecycle_call d d'.

Section calls.
Context `{Sealer}.

Lemma SubmitJob_announced p k s : Respects announced (SubmitJob p k s).
Proof. announce_tac. Qed.
Lemma ImportCompletedHistory_announced p k dry q : Respects announced (ImportCompletedHistory p k dry q).
Proof. announce_tac. Qed.
Lemma SubmitCollection_announced p k s : Respects announced (SubmitCollection p k s).
Proof. announce_tac. Qed.
Lemma SubmitGraph_announced p k s : Respects announced (SubmitGraph p k s).
Proof. announce_tac. Qed.
Lemma CancelJob_announced p n j k q : Respects announced (CancelJob p n j k q).
Proof. announce_tac. Qed.
Lemma CancelGraph_announced p n g k q : Respects announced (CancelGraph p n g k q).
Proof. announce_tac. Qed.
Lemma AcceptAssignment_announced i a : Respects announced (AcceptAssignment i a).
Proof. announce_tac. Qed.
(** An event that completes nothing ends no job. *)
Lemma RecordExecutionEvent_quiet i v : completionEvent (eo_Type v) = false → Respects quiet (RecordExecutionEvent i v).
Proof.
  intros Hc. unfold RecordExecutionEvent, apply_event, admit_event. rewrite Hc.
  assert (eqs (eo_Type v) "process.completed" = false ∧ eqs (eo_Type v) "scheduler.completed" = false) as [-> ->].
  { rewrite !eqs_false. split; intros E; by rewrite E in Hc. }
  unfold whenT. announce_tac.
Qed.
(** One that completes an execution reopens none. *)
Lemma RecordExecutionEvent_completion i v : completionEvent (eo_Type v) = true → Respects announced (RecordExecutionEvent i v).
Proof.
  intros Hc. unfold RecordExecutionEvent, apply_event, admit_event. rewrite Hc. unfold completionEvent in Hc.
  apply slices_Contains_spec in Hc. rewrite !elem_of_cons, elem_of_nil in Hc.
  assert (eqs (eo_Type v) "process.started" = false) as -> by (apply eqs_false; intros E; rewrite E in Hc; by destruct_or?).
  assert (slices_Contains ["scheduler.uncertain"; "scheduler.submitted"; "scheduler.observed"] (eo_Type v) = false) as ->.
  { apply bool_decide_eq_false. rewrite !elem_of_cons, elem_of_nil. intros Ho. naive_solver congruence. }
  announce_tac.
Qed.
Lemma reconcile_iteration_announced : Respects announced reconcile_iteration.
Proof. announce_tac. Qed.
Lemma reconcileOneStale_announced t o : Respects announced (reconcileOneStale t o).
Proof. announce_tac. Qed.

Lemma lifecycle_call_announced d d' : lifecycle_call d d' → progress d d' → announced d d'.
Proof.
  intros Hcall Hp. assert (∀ k, job_terminal d k → job_terminal d' k) as Hst.
  { intros k (j & Hk & Ht). apply (pg_jobs _ _ Hp) in Hk as (j' & Hk' & Hj). exists j'. split; [done|].
    by rewrite (ja_final _ _ Hj Ht). }
  destruct Hcall; try match goal with Hr : RecordExecutionEvent _ ?v _ _ = Ok _ |- _ => destruct (completionEvent (eo_Type v)) eqn:Hc;
    [|apply (RecordExecutionEvent_quiet _ _ Hc) in Hr; by apply quiet_announced] end;
  match goal with Hr : ?m _ _ = Ok _ |- _ => enough (Respects announced m) as Hm; [exact (Hm _ _ _ _ Hr)|] end.
  - apply SubmitJob_announced.
  - apply ImportCompletedHistory_announced.
  - apply SubmitCollection_announced.
  - apply SubmitGraph_announced.
  - apply CancelJob_announced.
  - apply CancelGraph_announced.
  - apply AcceptAssignment_announced.
  - by apply RecordExecutionEvent_completion.
  - apply reconcile_iteration_announced.
  - apply reconcileOneStale_announced.
Qed.
End calls.
