(* ===== verification/Delivery.v ===== *)
(** * Delivery of assignments

    [ListAssignments] hands an agent the assignments it was offered and counts the deliveries.  It is the
    one agent method that writes a lifecycle table: it keeps the lifecycle invariant, since a delivery
    decides nothing. *)
From stdpp Require Import pretty.
From S2P Require Import Prelude Regex Names Domain TargetSpec Kahn Graph Contract Records Url Json Tokens Db Tx Ordered Constraints Auth Jobs Groups GraphStore Executions Coordinator Lifecycle Progress Agents.

(** ** The update loop *)

Lemma record_delivery_step (id : string) now e d n d' :
  UPDATE id (λ _, true) (record_delivery now) e d = Ok (n, d') →
  d' = d <| d_assignments := alter (record_delivery now) id (d_assignments d) |>.
Proof.
  intros Hr. apply UPDATE_ok in Hr as [(old & row & Hold & _ & -> & _ & _ & Ha)|(_ & -> & Hno)]; cbn in *.
  - apply tx_ret_ok in Ha as [_ ->].
    assert (<[id := record_delivery now old]> (d_assignments d) = alter (record_delivery now) id (d_assignments d)) as ->; [|done].
    apply map_eq. intros k. destruct (decide (k = id)) as [->|Hne].
    + by rewrite lookup_insert_eq, lookup_alter_eq, Hold.
    + by rewrite lookup_insert_ne, lookup_alter_ne.
  - destruct (d_assignments d !! id) as [old|] eqn:Hold; [by discriminate (Hno old)|].
    rewrite alter_id by (intros x Hx; congruence). by destruct d.
Qed.

(** The loop over distinct rows writes each of them once. *)
Lemma deliver_each now e (l : list (string * assignment_row)) d u d' : NoDup l.*1 →
  for_eachT (λ ka : string * assignment_row, UPDATE_ ka.1 (λ _, true) (record_delivery now)) l e d = Ok (u, d') →
  ∃ m, d' = d <| d_assignments := m |> ∧ ∀ k, m !! k =
    if decide (k ∈ l.*1) then record_delivery now <$> d_assignments d !! k else d_assignments d !! k.
Proof.
  unfold for_eachT. revert d. induction l as [|[id a] l IH]; intros d Hnd Hr; cbn in Hr.
  - apply tx_ret_ok in Hr as [_ ->]. exists (d_assignments d). split; [by destruct d|done].
  - apply tx_bind_ok in Hr as ([] & d1 & Hu & Hr). apply UPDATE__ok in Hu as [n Hu]. apply record_delivery_step in Hu as ->.
    rewrite fmap_cons in Hnd |- *. cbn in Hnd |- *. apply NoDup_cons in Hnd as [Hid Hnd].
    apply IH in Hr as (m & -> & Hm); [|done]. exists m. split; [done|]. intros k. rewrite Hm. cbn.
    destruct (decide (k = id)) as [->|Hne].
    + rewrite decide_False, lookup_alter_eq by done. by rewrite decide_True by (left; reflexivity || set_solver).
    + rewrite lookup_alter_ne by done. destruct (decide (k ∈ l.*1)) as [Hin|Hin].
      * by rewrite decide_True by set_solver.
      * by rewrite decide_False by set_solver.
Qed.

Lemma record_delivery_advances now a : a_state a = "offered" → assignment_advances a (record_delivery now a).
Proof. intros Ho. by split. Qed.

Lemma record_delivery_evolves id now a d : d_assignments d !! id = Some a → a_state a = "offered" →
  evolves d (d <| d_assignments := alter (record_delivery now) id (d_assignments d) |>).
Proof.
  intros Ha Ho I. destruct (quad_of_assignment _ _ _ _ _ _ I Ha) as (jid & rid & j & r & x & Hq & Hc). pose proof Hq as [? ? ? ? ? ? ?].
  eapply evolves_quad; [exact I|exact Hq|cbn; symmetry; by apply insert_id..| |done|done| |reflexivity|reflexivity|by apply record_delivery_advances].
  - cbn. apply map_eq. intros k. destruct (decide (k = id)) as [->|Hne].
    + by rewrite lookup_insert_eq, lookup_alter_eq, Ha.
    + by rewrite lookup_insert_ne, lookup_alter_ne.
  - destruct Hc. by split.
Qed.

Lemma deliveries_evolve now e (l : list (string * assignment_row)) d u d' :
  (∀ ka, ka ∈ l → ∃ a, d_assignments d !! ka.1 = Some a ∧ a_state a = "offered") →
  for_eachT (λ ka : string * assignment_row, UPDATE_ ka.1 (λ _, true) (record_delivery now)) l e d = Ok (u, d') → evolves d d'.
Proof.
  unfold for_eachT. revert d. induction l as [|ka l IH]; intros d Hoff Hr; cbn in Hr.
  - apply tx_ret_ok in Hr as [_ ->]. reflexivity.
  - apply tx_bind_ok in Hr as ([] & d1 & Hu & Hr). apply UPDATE__ok in Hu as [n Hu]. apply record_delivery_step in Hu as ->.
    destruct (Hoff ka) as (a & Ha & Ho); [set_solver|]. etrans; [by eapply record_delivery_evolves|].
    eapply IH; [|exact Hr]. intros kb Hkb. destruct (Hoff kb) as (b & Hb & Hob); [set_solver|]. cbn.
    destruct (decide (kb.1 = ka.1)) as [E|Hne].
    + rewrite E, lookup_alter_eq, Ha. by eexists.
    + rewrite lookup_alter_ne by done. eauto.
Qed.

(** ** The method *)

(** The agent may be given work now. *)
Record may_receive (now : timestamptz) (d : db) (g : agent_row) : Prop := {
  mr_status : ag_status g = "active";
  mr_accepting : ag_accepting_assignments g = true;
  mr_recent : ∃ t, ag_last_capability_at g = Some t ∧ now - seconds 600 < t;
  mr_target : ∃ t, d_targets d !! ag_target_id g = Some t ∧ tg_state t = "active" }.

Lemma deliverable_ok now e d i id a : deliverable now e d i id a = true →
  a_agent_id a = ai_AgentID i ∧ a_namespace_id a = ai_NamespaceID i ∧ a_state a = "offered" ∧
  ∃ g, d_agents d !! ai_AgentID i = Some g ∧ may_receive now d g.
Proof.
  unfold deliverable. rewrite !andb_true_iff. intros [[[[[Hag Hns] Hst] Hacc] _] _].
  apply eqs_true in Hag, Hns, Hst. apply exists_row_true in Hacc as (g & Hg & Hacc). unfold accepting_agent in Hacc.
  rewrite !andb_true_iff in Hacc. destruct Hacc as [[[[Hs Hac] Hre] Ht] _].
  apply eqs_true in Hs. apply exists_row_true in Ht as (t & Ht & Hts). apply eqs_true in Hts.
  destruct (ag_last_capability_at g) as [c|] eqn:Hc; cbn in Hre; [|done]. apply bool_decide_eq_true in Hre.
  rewrite Hag in Hg. split_and!; [done..|]. exists g. split; [done|]. split; [done|done| |]; eauto.
Qed.

Lemma selected_assignments_in now e d i limit id a : (id, a) ∈ selected_assignments now e d i limit →
  d_assignments d !! id = Some a ∧ deliverable now e d i id a = true.
Proof.
  unfold selected_assignments. intros Hin%(subseteq_take _ _). rewrite elem_of_order_by in Hin. by apply elem_of_select in Hin.
Qed.

Lemma selected_assignments_keys now e d i limit : NoDup (selected_assignments now e d i limit).*1.
Proof.
  unfold selected_assignments. eapply sublist_NoDup; [|apply fmap_sublist, sublist_take].
  unfold order_by. rewrite (merge_sort_Permutation _ _). apply NoDup_select_keys.
Qed.

(** What a successful call delivered. *)
Record delivered_all (i : AgentIdentity) (limit : Z) (e : env) (d d' : db) (l : list Assignment) (rows : list (string * assignment_row)) : Prop := {
  dl_limit : 1 ≤ limit ≤ 100 ∧ slice_len l ≤ limit;
  dl_rows : ∀ id a, (id, a) ∈ rows → d_assignments d !! id = Some a ∧ deliverable (transaction_timestamp e) e d i id a = true ∧
    is_Some (d_executions d !! a_execution_id a);
  dl_selected : rows = filter (λ ka : string * assignment_row, is_Some (d_executions d !! a_execution_id ka.2))
    (selected_assignments (transaction_timestamp e) e d i limit);
  dl_keys : NoDup rows.*1;
  dl_answer : l = omap (returned_assignment d) rows;
  dl_assignments : ∀ k, d_assignments d' !! k =
    if decide (k ∈ rows.*1) then record_delivery (transaction_timestamp e) <$> d_assignments d !! k else d_assignments d !! k;
  dl_rest : ∃ m, d' = d <| d_assignments := m |> }.

Lemma returned_length d (rows : list (string * assignment_row)) : (length (omap (returned_assignment d) rows) ≤ length rows)%nat.
Proof. induction rows as [|x rows IH]; cbn; [done|]. destruct (returned_assignment d x); cbn; lia. Qed.

Lemma ListAssignments_ok i limit e d l d' : ListAssignments i limit e d = Ok (l, d') →
  ∃ rows, delivered_all i limit e d d' l rows ∧ evolves d d'.
Proof.
  intros Hr. unfold ListAssignments in Hr. guard_inv. cbv zeta in *. guard_inv.
  match goal with H : for_eachT _ ?l _ _ = Ok _ |- _ => set (rows := l) in *; rename H into Hloop end. exists rows.
  assert (NoDup rows.*1) as Hnd.
  { eapply sublist_NoDup; [apply (selected_assignments_keys (transaction_timestamp e) e d i limit)|].
    apply fmap_sublist, sublist_filter. }
  assert (∀ id a, (id, a) ∈ rows → d_assignments d !! id = Some a ∧ deliverable (transaction_timestamp e) e d i id a = true ∧
    is_Some (d_executions d !! a_execution_id a)) as Hrows.
  { intros id a [Hx Hin]%list_elem_of_filter. apply selected_assignments_in in Hin as [? ?]. done. }
  split.
  - destruct (deliver_each _ _ _ _ _ _ Hnd Hloop) as (m & -> & Hm). split; try done; [|by exists m].
    split; [lia|]. unfold slice_len. pose proof (returned_length d rows).
    assert (length rows ≤ length (selected_assignments (transaction_timestamp e) e d i limit))%nat by apply length_filter.
    assert (length (selected_assignments (transaction_timestamp e) e d i limit) ≤ Z.to_nat limit)%nat by (unfold selected_assignments; rewrite length_take; lia).
    lia.
  - eapply deliveries_evolve; [|exact Hloop]. intros [id a] Hin. destruct (Hrows _ _ Hin) as (Ha & Hd & _).
    exists a. split; [done|]. by apply deliverable_ok in Hd as (_ & _ & ? & _).
Qed.

Lemma returned_ids d (rows : list (string * assignment_row)) : (∀ id a, (id, a) ∈ rows → is_Some (d_executions d !! a_execution_id a)) →
  asg_DeliveryID <$> omap (returned_assignment d) rows = rows.*1.
Proof.
  induction rows as [|[id a] rows IH]; intros Hx; cbn; [done|]. destruct (Hx id a) as [x E]; [set_solver|]. unfold returned_assignment at 1. cbn. rewrite E. cbn.
  f_equal. apply IH. intros i b Hin. apply (Hx i b). set_solver.
Qed.

(** All the conditions, written out, make an assignment deliverable. *)
Lemma deliverable_intro e d i id a g t : a_agent_id a = ai_AgentID i → a_namespace_id a = ai_NamespaceID i → a_state a = "offered" →
  d_agents d !! ai_AgentID i = Some g → ag_status g = "active" → ag_accepting_assignments g = true →
  ag_last_capability_at g = Some t → transaction_timestamp e - seconds 600 < t →
  (∃ tg, d_targets d !! ag_target_id g = Some tg ∧ tg_state tg = "active") → (∀ x, row_locked e x = false) →
  deliverable (transaction_timestamp e) e d i id a = true.
Proof.
  intros Hag Hns Hst Hg Hs Hac Hc Ht (tg & Htg & Hts) Hl. unfold deliverable, accepting_agent, capability_window.
  rewrite !Hl, Hag, Hns, Hst, !eqs_refl. cbn. unfold exists_row. rewrite Hg, Hs, Hac, Hc, Htg, Hts, Hl. cbn.
  by rewrite bool_decide_true by done.
Qed.

(** C20: what an agent is handed.  [ListAssignments] answers with at most the requested number of distinct
    assignments, each offered to the calling agent in its namespace, with the digest of its execution, while
    the agent and its target are active and its capabilities were observed within ten minutes; it counts
    exactly these deliveries and changes nothing else; and it leaves out no such assignment that is not locked
    unless the limit is reached, and then only ones that are not older than those it hands out. *)
Theorem delivery_sound i limit e d l d' : lifecycle_inv d → ListAssignments i limit e d = Ok (l, d') →
  (1 ≤ limit ≤ 100 ∧ slice_len l ≤ limit ∧ NoDup (asg_DeliveryID <$> l)) ∧
  (∀ x, x ∈ l → ∃ a ex g, d_assignments d !! asg_DeliveryID x = Some a ∧ a_state a = "offered" ∧
     a_agent_id a = ai_AgentID i ∧ a_namespace_id a = ai_NamespaceID i ∧
     d_agents d !! ai_AgentID i = Some g ∧ may_receive (transaction_timestamp e) d g ∧
     d_executions d !! asg_ExecutionID x = Some ex ∧ asg_EffectiveExecutionDigest x = e_effective_spec_digest ex ∧
     asg_ExecutionID x = a_execution_id a ∧ asg_Document x = a_document a ∧
     d_assignments d' !! asg_DeliveryID x = Some (record_delivery (transaction_timestamp e) a)) ∧
  (∀ k, k ∉ (asg_DeliveryID <$> l) → d_assignments d' !! k = d_assignments d !! k) ∧
  (∃ m, d' = d <| d_assignments := m |>) ∧
  (slice_len l < limit → ∀ id a, d_assignments d !! id = Some a → deliverable (transaction_timestamp e) e d i id a = true →
     id ∈ (asg_DeliveryID <$> l)) ∧
  (∀ id a, d_assignments d !! id = Some a → deliverable (transaction_timestamp e) e d i id a = true →
     id ∉ (asg_DeliveryID <$> l) → slice_len l = limit ∧
     ∀ x, x ∈ l → ∃ b, d_assignments d !! asg_DeliveryID x = Some b ∧
       (a_created_at b < a_created_at a ∨ (a_created_at b = a_created_at a ∧ String.le (asg_DeliveryID x) id))).
Proof.
  intros I Hr. apply ListAssignments_ok in Hr as (rows & [[Hl1 Hl2] Hrows Hsel Hnd -> Hm Hrest] & _).
  assert (asg_DeliveryID <$> omap (returned_assignment d) rows = rows.*1) as Hids.
  { apply returned_ids. intros id a Hin. by apply (Hrows id a). }
  assert (rows = selected_assignments (transaction_timestamp e) e d i limit) as Hall.
  { rewrite Hsel. apply filter_all. intros [id' b] [Hb _]%selected_assignments_in. cbn. by apply (lc_assignment _ _ _ _ I id'). }
  assert (length (omap (returned_assignment d) rows) = length rows) as Hlen.
  { rewrite <-(length_fmap asg_DeliveryID), Hids, length_fmap. done. }
  rewrite Hids. split_and!; try done; try lia.
  - intros x ([id a] & Hin & Hx)%list_elem_of_omap. destruct (Hrows _ _ Hin) as (Ha & Hd & _).
    apply deliverable_ok in Hd as (Hag & Hns & Hst & g & Hg & Hmay). unfold returned_assignment in Hx. cbn in Hx.
    apply bind_Some in Hx as (ex & Hex & [= <-]). exists a, ex, g. cbn. split_and!; try done.
    rewrite Hm, decide_True, Ha; [done|]. apply list_elem_of_fmap. by exists (id, a).
  - intros k Hk. by rewrite Hm, decide_False.
  - intros Hlt id a Ha Hd. apply list_elem_of_fmap. exists (id, a). split; [done|]. rewrite Hall in *. unfold selected_assignments in *.
    rewrite take_ge; [by apply elem_of_order_by, elem_of_select|]. unfold slice_len in Hlt. rewrite Hlen, length_take in Hlt. lia.
  - intros id a Ha Hd Hn. rewrite Hall in Hn, Hlen |- *. unfold selected_assignments in *. set (S := order_by _ _ _) in *.
    assert ((id, a) ∉ take (Z.to_nat limit) S) as Hnt by (intros Hin; apply Hn; by apply (list_elem_of_fmap_2 fst) in Hin).
    assert ((id, a) ∈ S) as HinS by (by apply elem_of_order_by, elem_of_select). split.
    + unfold slice_len. rewrite Hlen, length_take. destruct (decide (Z.to_nat limit ≤ length S)%nat); [lia|].
      rewrite take_ge in Hnt by lia. done.
    + intros x ([id' b] & Hin & Hx)%list_elem_of_omap. unfold returned_assignment in Hx. cbn in Hx.
      apply bind_Some in Hx as (ex & _ & [= <-]). exists b. cbn. split; [by apply (Hrows id'); rewrite Hall|].
      eapply (order_by_take _ _ _ _ (id', b) (id, a)) in Hnt; [exact Hnt|exact Hin|by apply elem_of_select].
Qed.

(** What histories need to know of it. *)
Lemma ListAssignments_evolves i limit e d l d' : ListAssignments i limit e d = Ok (l, d') → evolves d d'.
Proof. by intros (rows & _ & He)%ListAssignments_ok. Qed.
Lemma ListAssignments_keeps i limit e d l d' : ListAssignments i limit e d = Ok (l, d') → ∃ m, d' = d <| d_assignments := m |>.
Proof. intros (rows & [_ _ _ _ _ _ Hrest] & _)%ListAssignments_ok. exact Hrest. Qed.
