(* ===== verification/EventLog.v ===== *)
(** * The event log

    The events recorded for an execution are numbered without gaps from 1 to the
    [last_event_sequence] of its row.  Only [RecordExecutionEvent] adds an event
    and raises the number; every other method keeps both. *)
From stdpp Require Import pretty.
From S2P Require Import Prelude Regex Names Domain TargetSpec Kahn Graph Contract Records Url Db Tx Constraints Auth Jobs HistoryImport Groups GraphStore Executions Coordinator Lifecycle Progress LifecycleOps LifecycleEvents LifecycleSubmit Frames.

(** ** Abstract log *)

(** The last sequence of every execution. *)
Definition sequences (d : db) : gmap string Z := e_last_event_sequence <$> d_executions d.

Record event_log (s : gmap string Z) (events : gmap string event_row) : Prop := {
  el_nonneg : ∀ eid n, s !! eid = Some n → 0 ≤ n;
  el_range : ∀ k v, events !! k = Some v → ∃ n, s !! evt_execution_id v = Some n ∧ 1 ≤ evt_source_sequence v ≤ n;
  el_complete : ∀ eid n i, s !! eid = Some n → 1 ≤ i ≤ n →
    ∃ k v, events !! k = Some v ∧ evt_execution_id v = eid ∧ evt_source_sequence v = i;
  el_unique : ∀ k k' v v', events !! k = Some v → events !! k' = Some v' →
    evt_execution_id v = evt_execution_id v' → evt_source_sequence v = evt_source_sequence v' → k = k' }.

Lemma event_log_empty : event_log ∅ ∅.
Proof. constructor; intros *; rewrite ?lookup_empty; naive_solver. Qed.

(** A new execution has an empty log. *)
Lemma event_log_new s events eid : event_log s events → s !! eid = None → event_log (<[eid := 0]> s) events.
Proof.
  intros [Hn Hr Hc Hu] Hnone. constructor; [| | |done].
  - intros eid' n [[<- <-]|[_ Hs]]%lookup_insert_Some; [done|eauto].
  - intros k v Hk. destruct (Hr _ _ Hk) as (n & Hs & ?). exists n. split; [|done].
    rewrite lookup_insert_ne; [done|congruence].
  - intros eid' n i [[<- <-]|[_ Hs]]%lookup_insert_Some Hi; [lia|eauto].
Qed.

(** The next event of an execution. *)
Lemma event_log_append s events eid n k v :
  event_log s events → s !! eid = Some n → events !! k = None →
  evt_execution_id v = eid → evt_source_sequence v = n + 1 →
  event_log (<[eid := n + 1]> s) (<[k := v]> events).
Proof.
  intros [Hn Hr Hc Hu] Hs Hk Hv Hseq. pose proof (Hn _ _ Hs). constructor.
  - intros eid' m [[<- <-]|[_ Hs']]%lookup_insert_Some; [lia|eauto].
  - intros k' v' [[<- <-]|[_ Hk']]%lookup_insert_Some.
    + exists (n + 1). rewrite Hv, lookup_insert_eq. split; [done|lia].
    + destruct (Hr _ _ Hk') as (m & Hm & ?). destruct (decide (evt_execution_id v' = eid)) as [Heq|Hne].
      * exists (n + 1). rewrite Heq, lookup_insert_eq in *. split; [done|]. simplify_eq. lia.
      * exists m. by rewrite lookup_insert_ne.
  - intros eid' m i [[<- <-]|[Hne Hs']]%lookup_insert_Some Hi.
    + destruct (decide (i = n + 1)) as [->|?].
      * exists k, v. by rewrite lookup_insert_eq.
      * destruct (Hc _ _ i Hs ltac:(lia)) as (k' & v' & Hk' & ?). exists k', v'.
        rewrite lookup_insert_ne by congruence. done.
    + destruct (Hc _ _ i Hs' Hi) as (k' & v' & Hk' & ?). exists k', v'.
      rewrite lookup_insert_ne by congruence. done.
  - assert (∀ k' v', events !! k' = Some v' → evt_execution_id v' = eid → evt_source_sequence v' ≠ n + 1) as Hold.
    { intros k' v' Hk' He. destruct (Hr _ _ Hk') as (m & Hm & ?). rewrite He in Hm. simplify_eq. lia. }
    intros k1 k2 v1 v2 [[<- <-]|[_ H1]]%lookup_insert_Some [[<- <-]|[_ H2]]%lookup_insert_Some He Hi; try done.
    + exfalso. eapply (Hold k2 v2); [done|congruence|congruence].
    + exfalso. eapply (Hold k1 v1); [done|congruence|congruence].
    + eauto.
Qed.

(** ** Methods that keep the sequences *)

Lemma keeps_sequences_UPDATE k q (f : execution_row → execution_row) :
  (∀ x, e_last_event_sequence (f x) = e_last_event_sequence x) → Keeps sequences (UPDATE k q f).
Proof.
  intros Hf e d n d' Hr. apply UPDATE_executions_ok in Hr as [(_ & -> & _)|(_ & old & Hk & _ & _ & ->)]; [done|].
  unfold sequences. cbn. rewrite fmap_insert, Hf, insert_id; [done|]. by rewrite lookup_fmap, Hk.
Qed.

Ltac sequences_tac :=
  repeat first [apply keeps_sequences_UPDATE; reflexivity | keeps_step].

Section sequences.
Context `{Sealer}.

Lemma AcceptAssignment_keeps_sequences i a : Keeps sequences (AcceptAssignment i a).
Proof. sequences_tac. Qed.
Lemma CancelJob_keeps_sequences p n j k q : Keeps sequences (CancelJob p n j k q).
Proof. sequences_tac. Qed.
Lemma CancelGraph_keeps_sequences p n g k q : Keeps sequences (CancelGraph p n g k q).
Proof. sequences_tac. Qed.
Lemma SubmitJob_keeps_sequences p k s : Keeps sequences (SubmitJob p k s).
Proof. sequences_tac. Qed.
Lemma ImportCompletedHistory_keeps_sequences p k dry q : Keeps sequences (ImportCompletedHistory p k dry q).
Proof. sequences_tac. Qed.
Lemma SubmitCollection_keeps_sequences p k s : Keeps sequences (SubmitCollection p k s).
Proof. sequences_tac. Qed.
Lemma SubmitGraph_keeps_sequences p k s : Keeps sequences (SubmitGraph p k s).
Proof. sequences_tac. Qed.
Lemma reconcileOneStale_keeps_sequences t o : Keeps sequences (reconcileOneStale t o).
Proof. sequences_tac. Qed.
Lemma insert_artifacts_keeps_sequences i v doc : Keeps sequences (insert_artifacts i v doc).
Proof. sequences_tac. Qed.
Lemma applyCollectionCompletion_keeps_sequences n j o : Keeps sequences (applyCollectionCompletion n j o).
Proof. sequences_tac. Qed.
Lemma applyGraphCompletion_keeps_sequences n j : Keeps sequences (applyGraphCompletion n j).
Proof. sequences_tac. Qed.
Lemma complete_run_and_job_keeps_sequences v r j : Keeps sequences (complete_run_and_job v r j).
Proof. sequences_tac. Qed.
End sequences.

(** ** Methods that change them *)

Lemma sequences_hit k (f : execution_row → execution_row) n e d c d' x :
  d_executions d !! k = Some x → (∀ x, e_last_event_sequence (f x) = n) →
  UPDATE k (λ _, true) f e d = Ok (c, d') → sequences d' = <[k := n]> (sequences d).
Proof.
  intros Hk Hf Hr. apply UPDATE_executions_ok in Hr as [(_ & _ & Hno)|(_ & old & Hk' & _ & _ & ->)].
  - specialize (Hno _ Hk). done.
  - unfold sequences. cbn. by rewrite fmap_insert, Hf.
Qed.

(** An event raises the sequence of its execution to its own. *)
Lemma apply_event_sequences event document r j e d u d' x phase :
  d_executions d !! eo_ExecutionID event = Some x → validEventTransition phase (eo_Type event) = true →
  apply_event event document r j e d = Ok (u, d') →
  sequences d' = <[eo_ExecutionID event := eo_Sequence event]> (sequences d).
Proof.
  intros Hx Hv Hrun. unfold apply_event in Hrun.
  destruct (eqs (eo_Type event) "process.started") eqn:H1.
  { unfold record_process_start in Hrun. tx_inv. repeat match goal with
    | H : UPDATE r _ _ _ _ = _ |- _ => apply (keeps_after sequences) in H; [|by sequences_tac]
    | H : UPDATE j _ _ _ _ = _ |- _ => apply (keeps_after sequences) in H; [|by sequences_tac]
    | H : UPDATE _ _ _ _ d = _ |- _ => eapply (sequences_hit _ _ (eo_Sequence event)) in H; [|exact Hx|done] end. congruence. }
  destruct (eqs (eo_Type event) "process.completed") eqn:H2.
  { unfold record_process_completion in Hrun. tx_inv. repeat match goal with
    | H : complete_run_and_job _ _ _ _ _ = _ |- _ => apply (keeps_after sequences) in H; [|by sequences_tac]
    | H : UPDATE _ _ _ _ d = _ |- _ => eapply (sequences_hit _ _ (eo_Sequence event)) in H; [|exact Hx|done] end. congruence. }
  destruct (slices_Contains ["scheduler.uncertain"; "scheduler.submitted"; "scheduler.observed"] (eo_Type event)) eqn:H3.
  { unfold record_scheduler_observation in Hrun. tx_inv.
    match goal with H : (if _ then _ else _) _ _ = _ |- _ => apply (keeps_after sequences) in H; [|by sequences_tac] end.
    match goal with H : UPDATE _ _ _ _ d = _ |- _ => eapply (sequences_hit _ _ (eo_Sequence event)) in H; [|exact Hx|done] end. congruence. }
  destruct (eqs (eo_Type event) "scheduler.completed") eqn:H4.
  { unfold record_scheduler_completion in Hrun. tx_inv. repeat match goal with
    | H : complete_run_and_job _ _ _ _ _ = _ |- _ => apply (keeps_after sequences) in H; [|by sequences_tac]
    | H : UPDATE _ _ _ _ d = _ |- _ => eapply (sequences_hit _ _ (eo_Sequence event)) in H; [|exact Hx|done] end. congruence. }
  exfalso. bool_step. rewrite <-not_true_iff_false, slices_Contains_spec in H3.
  unfold validEventTransition in Hv. repeat case_match; guard_inv; try done; set_solver.
Qed.

(** A recorded event is appended, and its execution's sequence follows. *)
Lemma event_run_log identity event e d d' x r tg j aid a document d1 d2 d3 d4 :
  event_run identity event e d d' x r tg j aid a document d1 d2 d3 d4 →
  d_events d !! eo_EventID event = None ∧
  d_events d' = <[eo_EventID event := stored_event identity event e document]> (d_events d) ∧
  sequences d' = <[eo_ExecutionID event := eo_Sequence event]> (sequences d).
Proof.
  intros [[_ _ Hx _ _ _ _] _ _ _ _ _ Hval _ _ _ Hins Hart Happ Hgrp [n Hconf]].
  apply INSERT_ok in Hins as (Hfresh & _ & ->).
  kept d_events by (keeps_tac) on Hart as Ev1. kept d_executions by (keeps_tac) on Hart as Ex1.
  kept d_events by (keeps_tac) on Happ as Ev2.
  eapply apply_event_sequences in Happ as Sq2; [|rewrite Ex1; exact Hx|exact Hval].
  kept d_events by (keeps_tac) on Hgrp as Ev3. kept sequences by (sequences_tac) on Hgrp as Sq3.
  kept d_events by (keeps_tac) on Hconf as Ev4. kept sequences by (sequences_tac) on Hconf as Sq4.
  split; [done|]. rewrite Ev4, Ev3, Ev2, Ev1, Sq4, Sq3, Sq2. split; [done|].
  unfold sequences. by rewrite Ex1.
Qed.

Lemma RecordExecutionEvent_log identity event e d b d' :
  lifecycle_inv d → RecordExecutionEvent identity event e d = Ok (b, d') →
  event_log (sequences d) (d_events d) → event_log (sequences d') (d_events d').
Proof.
  intros I Hrun Hlog. apply RecordExecutionEvent_run in Hrun; [|done]. destruct b; [by subst|].
  destruct Hrun as (x & r & tg & j & aid & a & doc & d1 & d2 & d3 & d4 & R).
  pose proof (event_run_log _ _ _ _ _ _ _ _ _ _ _ _ _ _ _ _ R) as (Hfresh & -> & ->).
  destruct R as [[_ _ Hx _ _ _ _] _ _ _ _ Hseq _ _ _ _ _ _ _ _ _]. rewrite Hseq.
  apply event_log_append; try done. unfold sequences. by rewrite lookup_fmap, Hx.
Qed.

Section dispatch.
Context `{Sealer}.

Lemma reconcile_iteration_log e d b d' :
  lifecycle_inv d → reconcile_iteration e d = Ok (b, d') →
  event_log (sequences d) (d_events d) → event_log (sequences d') (d_events d').
Proof.
  intros I Hrun Hlog. rewrite (keeps_after d_events _ _ _ _ _ reconcile_iteration_keeps_events Hrun).
  unfold reconcile_iteration in Hrun. tx_inv.
  match goal with H : newIDs _ _ _ = _ |- _ =>
    kept sequences by (sequences_tac) on H as Sq0;
    kept d_events by (keeps_tac) on H as Ev0 end.
  repeat case_match; tx_inv; try done. rewrite <-Sq0 in Hlog. clear Sq0.
  match goal with H : reconcileOneAssignment _ _ _ _ _ _ = Ok (?b, _) |- _ =>
    rename H into Hone; apply reconcileOneAssignment_run in Hone; destruct b; [|by subst] end.
  destruct Hone as (c & j & policy & x & a & [_ _ _ _ (_ & Hx & _) _ (st & cc & _ & _ & Hxs & _) (_ & _ & _ & _ & _ & Hz & _) _]).
  unfold sequences. rewrite Hxs, fmap_insert, Hz. apply event_log_new; [done|]. by rewrite lookup_fmap, Hx.
Qed.
End dispatch.
