(* ===== verification/System.v ===== *)
(** * The system as a state machine

    One [step] is one committed repository call.  A call that fails is rolled back
    and is no step.  Calls that leave the four lifecycle tables alone (log chunks,
    policies, memberships, enrollment, sessions, targets, delegation) are covered by
    [step_elsewhere], which allows any change outside those tables, so the
    theorems hold whatever the rest of the service does. *)
From stdpp Require Import pretty.
From S2P Require Import Prelude Regex Names Domain TargetSpec Kahn Graph Contract Records Url Db Tx Constraints Auth Jobs HistoryImport Groups GraphStore Executions Coordinator Lifecycle Progress LifecycleOps LifecycleEvents LifecycleSubmit Frames EventLog Agents Delivery.

Section system.
Context `{Sealer}.

Inductive step : db → db → Prop :=
  | step_SubmitJob p k s e d r d' : SubmitJob p k s e d = Ok (r, d') → step d d'
  | step_ImportCompletedHistory p k dry q e d r d' : ImportCompletedHistory p k dry q e d = Ok (r, d') → step d d'
  | step_SubmitCollection p k s e d r d' : SubmitCollection p k s e d = Ok (r, d') → step d d'
  | step_SubmitGraph p k s e d r d' : SubmitGraph p k s e d = Ok (r, d') → step d d'
  | step_CancelJob p n j k q e d r d' : CancelJob p n j k q e d = Ok (r, d') → step d d'
  | step_CancelGraph p n g k q e d r d' : CancelGraph p n g k q e d = Ok (r, d') → step d d'
  | step_AcceptAssignment i a e d r d' : AcceptAssignment i a e d = Ok (r, d') → step d d'
  | step_RecordExecutionEvent i v e d r d' : RecordExecutionEvent i v e d = Ok (r, d') → step d d'
  | step_reconcile_assignment e d r d' : reconcile_iteration e d = Ok (r, d') → step d d'
  | step_reconcile_stale t o e d r d' : reconcileOneStale t o e d = Ok (r, d') → step d d'
  | step_ListAssignments i n e d r d' : ListAssignments i n e d = Ok (r, d') → step d d'
  | step_elsewhere d d' : same_lifecycle d d' → d_events d' = d_events d → step d d'.

(** A database that has not seen any work. *)
Definition initial (d : db) : Prop :=
  d_jobs d = ∅ ∧ d_runs d = ∅ ∧ d_executions d = ∅ ∧ d_assignments d = ∅ ∧ d_events d = ∅.

Definition reachable (d : db) : Prop := ∃ d0, initial d0 ∧ rtc step d0 d.

Lemma step_evolves d d' : step d d' → evolves d d'.
Proof.
  destruct 1; eauto using SubmitJob_evolves, ImportCompletedHistory_evolves, SubmitCollection_evolves, SubmitGraph_evolves, CancelJob_evolves,
    AcceptAssignment_evolves, RecordExecutionEvent_evolves, reconcile_iteration_evolves,
    reconcileOneStale_evolves, ListAssignments_evolves, same_lifecycle_evolves.
  intros I. by eapply CancelGraph_ok.
Qed.

Lemma steps_evolve d d' : rtc step d d' → evolves d d'.
Proof. induction 1; [reflexivity|]. etrans; [by apply step_evolves|done]. Qed.

Lemma initial_inv d : initial d → lifecycle_inv d.
Proof. intros (Hj & Hr & Hx & Ha & _). unfold lifecycle_inv. rewrite Hj, Hr, Hx, Ha. apply lc_empty. Qed.

Lemma reachable_inv d : reachable d → lifecycle_inv d.
Proof. intros (d0 & Hi & Hs). by apply (steps_evolve _ _ Hs), initial_inv. Qed.

Lemma reachable_progress d d' : reachable d → rtc step d d' → lifecycle_inv d' ∧ progress d d'.
Proof. intros Hr Hs. apply (steps_evolve _ _ Hs). by apply reachable_inv. Qed.

Lemma step_log d d' :
  lifecycle_inv d → step d d' → event_log (sequences d) (d_events d) → event_log (sequences d') (d_events d').
Proof.
  intros I Hs. destruct Hs as [????? r d' Hr|?????? r d' Hr|????? r d' Hr|????? r d' Hr|??????? r d' Hr|??????? r d' Hr|???? r d' Hr
    |???? r d' Hr|?? r d' Hr|???? r d' Hr|???? r d' Hr|d d' Hsame Hev].
  - by rewrite (SubmitJob_keeps_events _ _ _ _ _ _ _ Hr), (SubmitJob_keeps_sequences _ _ _ _ _ _ _ Hr).
  - by rewrite (ImportCompletedHistory_keeps_events _ _ _ _ _ _ _ _ Hr), (ImportCompletedHistory_keeps_sequences _ _ _ _ _ _ _ _ Hr).
  - by rewrite (SubmitCollection_keeps_events _ _ _ _ _ _ _ Hr), (SubmitCollection_keeps_sequences _ _ _ _ _ _ _ Hr).
  - by rewrite (SubmitGraph_keeps_events _ _ _ _ _ _ _ Hr), (SubmitGraph_keeps_sequences _ _ _ _ _ _ _ Hr).
  - by rewrite (CancelJob_keeps_events _ _ _ _ _ _ _ _ _ Hr), (CancelJob_keeps_sequences _ _ _ _ _ _ _ _ _ Hr).
  - by rewrite (CancelGraph_keeps_events _ _ _ _ _ _ _ _ _ Hr), (CancelGraph_keeps_sequences _ _ _ _ _ _ _ _ _ Hr).
  - by rewrite (AcceptAssignment_keeps_events _ _ _ _ _ _ Hr), (AcceptAssignment_keeps_sequences _ _ _ _ _ _ Hr).
  - by eapply RecordExecutionEvent_log.
  - by eapply reconcile_iteration_log.
  - by rewrite (reconcileOneStale_keeps_events _ _ _ _ _ _ Hr), (reconcileOneStale_keeps_sequences _ _ _ _ _ _ Hr).
  - apply ListAssignments_keeps in Hr as [m ->]. done.
  - destruct Hsame as (_ & _ & Hx & _). unfold sequences. by rewrite Hx, Hev.
Qed.

Lemma reachable_log d : reachable d → event_log (sequences d) (d_events d).
Proof.
  intros (d0 & Hi & Hs). pose proof (initial_inv _ Hi) as I.
  assert (event_log (sequences d0) (d_events d0)) as Hlog.
  { destruct Hi as (_ & _ & Hx & _ & Hev). unfold sequences. rewrite Hx, Hev. apply event_log_empty. }
  clear Hi. induction Hs as [d|d1 d2 d3 Hstep _ IH]; [done|].
  apply IH; [by apply (step_evolves _ _ Hstep)|by eapply step_log].
Qed.

(** Recorded events stay. *)
Lemma step_events d d' : lifecycle_inv d → step d d' → d_events d ⊆ d_events d'.
Proof.
  intros I Hs. destruct Hs as [????? r d' Hr|?????? r d' Hr|????? r d' Hr|????? r d' Hr|??????? r d' Hr|??????? r d' Hr|???? r d' Hr
    |i v e d r d' Hr|?? r d' Hr|???? r d' Hr|???? r d' Hr|d d' Hsame Hev].
  - by rewrite (SubmitJob_keeps_events _ _ _ _ _ _ _ Hr).
  - by rewrite (ImportCompletedHistory_keeps_events _ _ _ _ _ _ _ _ Hr).
  - by rewrite (SubmitCollection_keeps_events _ _ _ _ _ _ _ Hr).
  - by rewrite (SubmitGraph_keeps_events _ _ _ _ _ _ _ Hr).
  - by rewrite (CancelJob_keeps_events _ _ _ _ _ _ _ _ _ Hr).
  - by rewrite (CancelGraph_keeps_events _ _ _ _ _ _ _ _ _ Hr).
  - by rewrite (AcceptAssignment_keeps_events _ _ _ _ _ _ Hr).
  - apply RecordExecutionEvent_run in Hr; [|done]. destruct r; [by subst|].
    destruct Hr as (x & r & tg & j & aid & a & doc & d1 & d2 & d3 & d4 & R).
    apply event_run_log in R as (Hfresh & -> & _). by apply insert_subseteq.
  - by rewrite (reconcile_iteration_keeps_events _ _ _ _ Hr).
  - by rewrite (reconcileOneStale_keeps_events _ _ _ _ _ _ Hr).
  - by apply ListAssignments_keeps in Hr as [m ->].
  - by rewrite Hev.
Qed.

Lemma steps_events d d' : lifecycle_inv d → rtc step d d' → d_events d ⊆ d_events d'.
Proof.
  intros I Hs. induction Hs as [d|d1 d2 d3 Hstep _ IH]; [done|].
  etrans; [by apply step_events|]. apply IH. by apply (step_evolves _ _ Hstep).
Qed.

Lemma reachable_step d d' : reachable d → rtc step d d' → reachable d'.
Proof. intros (d0 & Hi & Hs) Hs'. exists d0. split; [done|]. by etrans. Qed.

(** C1: the lifecycle invariant.  Whatever calls are made in whatever order, every
    run belongs to a job, has exactly one execution and one assignment, a job has
    at most one run, the four phases, the outcomes, the desired states and the
    namespaces agree, and a job without a run is waiting or over. *)
Theorem lifecycle_invariant d : reachable d → lifecycle_inv d.
Proof. apply reachable_inv. Qed.

(** C7: history only advances.  From any reachable state on, no job, execution or
    assignment disappears; phases, revisions and event sequences never go back;
    owner, namespace, workload, target and group membership never change; and a
    terminal job, a terminal execution and a decided assignment keep their row
    unchanged for ever. *)
Theorem history_only_advances d d' : reachable d → rtc step d d' → progress d d'.
Proof. intros Hr Hs. by apply reachable_progress. Qed.

(** ** Launch authorization *)

(** C2: at most one launch.  However many times an assignment is accepted, and
    whatever happens in between, every later success is a replay that changes
    nothing and returns the same authorization, except possibly for the revision
    of the execution. *)
Theorem launch_authorized_once i1 i2 a1 a2 e1 e2 d0 l1 d1 d2 l2 d3 :
  reachable d0 → acc_DeliveryID a2 = acc_DeliveryID a1 →
  AcceptAssignment i1 a1 e1 d0 = Ok (l1, d1) → rtc step d1 d2 → AcceptAssignment i2 a2 e2 d2 = Ok (l2, d3) →
  d3 = d2 ∧ lau_Replayed l2 = true ∧
  lau_AuthorizationID l2 = lau_AuthorizationID l1 ∧ lau_ExecutionID l2 = lau_ExecutionID l1 ∧
  lau_AgentID l2 = lau_AgentID l1 ∧ lau_TargetGenerationID l2 = lau_TargetGenerationID l1 ∧
  lau_EffectiveExecutionDigest l2 = lau_EffectiveExecutionDigest l1 ∧
  lau_AcceptedAt l2 = lau_AcceptedAt l1 ∧ lau_Revision l1 ≤ lau_Revision l2 ∧
  acc_RequestDigest a2 = acc_RequestDigest a1.
Proof.
  intros Hr Hid H1 Hs H2.
  apply AcceptAssignment_ok in H1 as [[I1 _] [(as1 & x1 & t1 & Ha1 & Hx1 & He1 & Hg1 & Hst1 & Ht1 & Hd1 & Hdig1 & Hgen1 & ->) _ _]];
    [|by apply reachable_inv].
  destruct (steps_evolve _ _ Hs I1) as [I2 P].
  apply AcceptAssignment_ok in H2 as [_ [(as2 & x2 & t2 & Ha2 & Hx2 & He2 & Hg2 & Hst2 & Ht2 & Hd2 & Hdig2 & Hgen2 & El2) Hf2 Hr2]]; [|done].
  destruct (pg_assignments _ _ P _ _ Ha1) as (as1' & Ha1' & Aa).
  pose proof (aa_decided _ _ Aa ltac:(congruence)) as ->.
  destruct (lau_Replayed l2) eqn:Hrep.
  - pose proof (Hr2 eq_refl) as ->. rewrite Hid in Ha2. assert (as2 = as1) as -> by congruence.
    assert (acc_ExecutionID a2 = acc_ExecutionID a1) as Heq by congruence.
    destruct (pg_executions _ _ P _ _ Hx1) as (x1' & Hx1' & Ax).
    assert (x1' = x2) as -> by congruence. destruct Ax as [_ _ Hrev _ _ _ _ Hgen [Hdig _]].
    rewrite El2. cbn. split_and!; try done; congruence.
  - destruct (Hf2 eq_refl) as (as0 & _ & _ & Ha0 & Ho & _). rewrite Hid in Ha0. congruence.
Qed.

(** C3: cancellation before launch wins.  Once a job whose execution is still only
    planned has stopped, or is asked to stop, no acceptance of its assignment can
    succeed any more, now or after any further calls. *)
Theorem stopped_before_launch_never_launches i a e d jid rid eid aid j r x asg d1 lau d2 :
  reachable d →
  quad (d_jobs d) (d_runs d) (d_executions d) (d_assignments d) jid rid eid aid j r x asg →
  a_state asg ≠ "accepted" → stopped d jid →
  rtc step d d1 → acc_DeliveryID a = aid → AcceptAssignment i a e d1 ≠ Ok (lau, d2).
Proof.
  intros Hr Hq Hna Hstop Hs Hid Hacc.
  pose proof (reachable_inv _ Hr) as I. pose proof (quad_coupled _ _ _ _ _ _ _ _ _ _ _ _ I Hq) as Hc.
  pose proof Hq as [Hj _ _ Ha _ _ _].
  assert (a_state asg ≠ "offered") as Hno.
  { intros Ho. destruct Hc as [Hst _ _ _ Hoff _ _ _]. rewrite Ho in Hst. apply stages_offered in Hst as (Hjp & _ & Hxp).
    destruct (Hoff Hxp) as [Hrun _]. destruct Hstop as (j' & Hj' & [Ht|Hc']); congruence. }
  destruct (steps_evolve _ _ Hs I) as [I1 P]. destruct (pg_assignments _ _ P _ _ Ha) as (asg' & Ha' & Aa).
  pose proof (aa_decided _ _ Aa Hno) as ->.
  apply AcceptAssignment_ok in Hacc as [[I2 P2] [(as2 & x2 & t2 & Ha2 & _ & _ & _ & Hst2 & _) _ _]]; [|done].
  rewrite <-Hid in Ha'. destruct (pg_assignments _ _ P2 _ _ Ha') as (as3 & Ha3 & Aa3).
  pose proof (aa_decided _ _ Aa3 Hno) as ->. congruence.
Qed.

(** C6: the event log of an execution has no gap and no duplicate: the recorded
    events of an execution carry exactly the sequence numbers from 1 to its
    [last_event_sequence], each once, and every event belongs to an execution. *)
Theorem event_log_complete d : reachable d → event_log (sequences d) (d_events d).
Proof. apply reachable_log. Qed.
End system.
