(* ===== verification/MonitoringHistory.v ===== *)
(** * Histories of the monitoring feed

    The calls of the job lifecycle, publication, pruning and configuration, in any order and interleaved
    with the rest of the service.  A history variable keeps every row the feed ever received; with it, the
    database implements the append-only log of [MonitoringLog.v], and the events that wait or were published
    are those of the terminal jobs, one for each. *)
From stdpp Require Import pretty.
From S2P Require Import Prelude Regex Names Domain TargetSpec Kahn Graph Contract Records Url Json Tokens Cursors Db Tx Ordered Constraints Auth Monitoring MonitoringLog Jobs HistoryImport Groups GraphStore Executions Coordinator Lifecycle Progress LifecycleOps LifecycleEvents LifecycleSubmit Frames Announce System.

#[local] Abbreviation row := monitoring_feed_row.

(** ** Announcements *)

(** The [jobId] member of a payload. *)
Definition payload_job (payload : list (string * jsonb_value)) : option string :=
  foldr (λ m o, if eqs m.1 "jobId" then match m.2 with jText s => Some s | _ => None end else o) None payload.

(** The events of the log and of the queue: identifier and payload. *)
Definition announcement := (string * list (string * jsonb_value))%type.
Definition row_announcement (f : row) : announcement := (mf_event_id f, mf_payload f).
Definition queue_announcement (io : string * outbox_row) : announcement := (io.1, ob_payload io.2).
Definition announcements (L : list row) (d : db) : list announcement :=
  (row_announcement <$> L) ++ (queue_announcement <$> pending_events d).

(** An event that the trigger wrote when a job became terminal. *)
Definition genuine (d : db) (a : announcement) : Prop :=
  ∃ k old new run recordedAt recovery, old ≠ "terminal" ∧ j_phase new = "terminal" ∧
    a.2 = monitoring_payload a.1 k old new run recordedAt recovery ∧ job_terminal d k.

Lemma payload_job_payload id k old new run t r : payload_job (monitoring_payload id k old new run t r) = Some k.
Proof. reflexivity. Qed.

Record announcements_inv (L : list row) (d : db) : Prop := {
  ai_genuine : Forall (genuine d) (announcements L d);
  ai_ids : NoDup (announcements L d).*1;
  ai_jobs : NoDup (payload_job ∘ snd <$> announcements L d);
  ai_all : ∀ k, job_terminal d k → Some k ∈ (payload_job ∘ snd <$> announcements L d) }.

Lemma announcements_unpublished L d : announcements_inv L d → unpublished L d.
Proof.
  intros [_ Hids _ _] io Hio Hin. unfold announcements in Hids. rewrite fmap_app, <-!list_fmap_compose in Hids.
  apply NoDup_app in Hids as (_ & Hdis & _). apply (Hdis io.1); [exact Hin|].
  by apply (list_elem_of_fmap_2 (fst ∘ queue_announcement)).
Qed.

(** The invariant survives what keeps the announcements and the terminal jobs. *)
Lemma announcements_same L d L' d' : announcements_inv L d → announcements L' d' ≡ₚ announcements L d →
  (∀ k, job_terminal d' k ↔ job_terminal d k) → announcements_inv L' d'.
Proof.
  intros [Hg Hi Hj Ha] Hp Ht. constructor; rewrite ?Hp; [|done|done|].
  - eapply Forall_impl; [exact Hg|]. intros a (k & old & new & run & t & r & ? & ? & ? & Hk). exists k, old, new, run, t, r. by rewrite Ht.
  - intros k Hk. rewrite Hp. by apply Ha, Ht.
Qed.

Lemma genuine_mono d d' a : (∀ k, job_terminal d k → job_terminal d' k) → genuine d a → genuine d' a.
Proof. intros Hst (k & old & new & run & t & r & ? & ? & ? & Hk). exists k, old, new, run, t, r. auto. Qed.
Lemma genuine_job d a : genuine d a → ∃ k, payload_job a.2 = Some k ∧ job_terminal d k.
Proof. intros (k & old & new & run & t & r & _ & _ & -> & Hk). by exists k. Qed.

(** Jobs that end put their events at the end of the queue, and nothing else changes it. *)
Section lifecycle.
Context (L : list row) (d d' : db) (An : announced d d') (Fresh : ∀ id o, new_event d d' id o → id ∉ event_ids L).

Definition new_events : list (string * outbox_row) := filter (λ io, d_outbox d !! io.1 = None) (pending_events d').

Lemma elem_of_new_events id o : (id, o) ∈ new_events ↔ new_event d d' id o.
Proof.
  unfold new_events. rewrite list_elem_of_filter, elem_of_pending. cbn. split.
  - intros (Hn & Ho & [Ht%eqs_true _]%andb_true_iff). by split_and!.
  - intros He. pose proof He as (Ho & Hn & Ht). destruct (an_new _ _ An _ _ He) as (k & [_ _ Hp _] & _).
    split_and!; [done..|]. unfold pending_event. by rewrite (proj2 (eqs_true _ _) Ht), Hp.
Qed.

Lemma pending_announced : pending_events d' ≡ₚ pending_events d ++ new_events.
Proof.
  assert (∀ d, NoDup (pending_events d)) as Hnd by (intros; apply NoDup_fmap_1 with (f := fst), NoDup_pending).
  apply NoDup_Permutation; [done| |].
  - apply NoDup_app. split_and!; [done| |by apply NoDup_filter].
    intros [id o] [Ho _]%elem_of_pending [_ [Hn _]]%elem_of_new_events. congruence.
  - intros [id o]. rewrite elem_of_app, elem_of_new_events, !elem_of_pending. split.
    + intros [Ho Hp]. destruct (d_outbox d !! id) as [o1|] eqn:H1.
      * left. apply (lookup_weaken _ (d_outbox d')) in H1; [|apply An]. by simplify_eq.
      * right. apply andb_true_iff in Hp as [Ht%eqs_true _]. by split_and!.
    + intros [[Ho Hp]|He]; [split; [|done]; eapply lookup_weaken; [done|apply An]|].
      apply elem_of_new_events, list_elem_of_filter in He as [_ He]. by apply elem_of_pending.
Qed.

Lemma announcements_announced : announcements_inv L d → announcements_inv L d'.
Proof.
  intros [Hg Hi Hj Ha]. set (N := queue_announcement <$> new_events).
  assert (announcements L d' ≡ₚ announcements L d ++ N) as Hp.
  { unfold announcements, N. by rewrite <-app_assoc, <-fmap_app, pending_announced. }
  assert (∀ a, a ∈ N → ∃ k o, new_event d d' a.1 o ∧ a.2 = ob_payload o ∧ from_trigger k a.1 o ∧ ¬ job_terminal d k ∧ job_terminal d' k) as HN.
  { intros a ([id o] & -> & He%elem_of_new_events)%list_elem_of_fmap. destruct (an_new _ _ An _ _ He) as (k & Hf & ? & ?). by exists k, o. }
  assert (∀ k id o, from_trigger k id o → payload_job (ob_payload o) = Some k) as Hpj.
  { intros k id o [_ _ _ (old & new & run & t & r & _ & _ & _ & ->)]. done. }
  constructor; [rewrite Hp|rewrite Hp, fmap_app|rewrite Hp, fmap_app|].
  - apply Forall_app_2; [eapply Forall_impl; [exact Hg|]; intros a; apply genuine_mono, An|]. apply Forall_forall.
    intros a (k & o & _ & E & [_ _ _ (old & new & run & t & r & ? & ? & _ & Ep)] & _ & Ht)%HN. exists k, old, new, run, t, r.
    split_and!; [done|done|congruence|done].
  - apply NoDup_app. split_and!; [done| |].
    + intros id Hin (a & -> & (k & o & He & _)%HN)%list_elem_of_fmap. unfold announcements in Hin. rewrite fmap_app, <-!list_fmap_compose in Hin.
      apply elem_of_app in Hin as [Hin|([id o'] & E & [Ho _]%elem_of_pending)%list_elem_of_fmap]; [by eapply Fresh|].
      destruct He as (_ & Hn & _). cbn in E. congruence.
    + unfold N. rewrite <-list_fmap_compose. eapply sublist_NoDup; [apply (NoDup_pending d')|]. apply fmap_sublist, sublist_filter.
  - apply NoDup_app. split_and!; [done| |].
    + intros j (a & -> & Hin)%list_elem_of_fmap (b & E & (k & o & He & Eb & Hf & Hn & _)%HN)%list_elem_of_fmap.
      rewrite Forall_forall in Hg. apply Hg, genuine_job in Hin as (k' & Hk' & Ht). cbn in E. rewrite Eb, (Hpj _ _ _ Hf), Hk' in E. by simplify_eq.
    + unfold N. rewrite <-list_fmap_compose. apply NoDup_fmap_2_strong; [|apply NoDup_filter, (NoDup_fmap_1 fst), NoDup_pending].
      intros [i1 o1] [i2 o2] H1%elem_of_new_events H2%elem_of_new_events E. change (payload_job (ob_payload o1) = payload_job (ob_payload o2)) in E.
      destruct (an_new _ _ An _ _ H1) as (k1 & F1 & _), (an_new _ _ An _ _ H2) as (k2 & F2 & _).
      rewrite (Hpj _ _ _ F1), (Hpj _ _ _ F2) in E. injection E as <-. destruct F1 as [_ J1 _ _], F2 as [_ J2 _ _].
      assert (i1 = i2) as -> by (eapply (an_one _ _ An); [done..|congruence]). destruct H1 as [H1 _], H2 as [H2 _]. congruence.
  - intros k [Hk|(id & o & He & Hf)]%(an_terminal _ _ An); rewrite Hp, fmap_app, elem_of_app; [left; by apply Ha|right].
    rewrite <-(Hpj _ _ _ Hf). apply elem_of_new_events in He. unfold N. rewrite <-list_fmap_compose.
    by apply (list_elem_of_fmap_2 ((payload_job ∘ snd) ∘ queue_announcement)) in He.
Qed.
End lifecycle.

(** ** Steps *)

Section history.
Context `{Sealer}.

Inductive feed_call : db → db → Prop :=
  | feed_lifecycle d d' : lifecycle_call d d' → feed_call d d'
  | feed_publish limit e d n d' : PublishMonitoringEvents limit e d = Ok (n, d') → feed_call d d'
  | feed_prune limit e d n d' : PruneMonitoringEvents limit e d = Ok (n, d') → feed_call d d'
  | feed_configure r e d u d' : ConfigureMonitoringRetention r e d = Ok (u, d') → feed_call d d'
  | feed_elsewhere d d' : same_lifecycle d d' → d_monitoring_feed d' = d_monitoring_feed d →
      d_monitoring_state d' = d_monitoring_state d →
      (∀ id o, pending_event o = true → d_outbox d' !! id = Some o ↔ d_outbox d !! id = Some o) → feed_call d d'.

(** The rows past the end of the log. *)
Definition appended (L : list row) (d' : db) : list row := (feed_rows (λ p _, slice_len L <? p) d').*2.

(** A call, and what it adds to the log.  Identifiers that PostgreSQL generates are not those of events
    published before. *)
Inductive feed_step : list row * db → list row * db → Prop :=
  | feed_step_call L d d' : feed_call d d' → (∀ id o, new_event d d' id o → id ∉ event_ids L) →
      feed_step (L, d) (L ++ appended L d', d').

Definition feed_initial (d : db) : Prop :=
  initial d ∧ pending_events d = [] ∧ d_monitoring_feed d = ∅ ∧
  fs_head_position (d_monitoring_state d) = 0 ∧ fs_retired_through (d_monitoring_state d) = 0.
Definition feed_reachable (L : list row) (d : db) : Prop := ∃ d0, feed_initial d0 ∧ rtc feed_step ([], d0) (L, d).

Record feed_inv (L : list row) (d : db) : Prop := {
  fi_log : feed_log L d;
  fi_lifecycle : lifecycle_inv d;
  fi_announcements : announcements_inv L d }.

Lemma lifecycle_call_step d d' : lifecycle_call d d' → step d d'.
Proof.
  destruct 1; [eapply step_SubmitJob|eapply step_ImportCompletedHistory|eapply step_SubmitCollection|eapply step_SubmitGraph|eapply step_CancelJob|eapply step_CancelGraph
    |eapply step_AcceptAssignment|eapply step_RecordExecutionEvent|eapply step_reconcile_assignment|eapply step_reconcile_stale]; eassumption.
Qed.

Lemma appended_log L new d' : feed_log (L ++ new) d' → floor d' ≤ slice_len L → appended L d' = new.
Proof.
  intros [_ _ HF Hr _ _] Hle. unfold appended. rewrite (feed_rows_log (L ++ new)) by done. rewrite numbered_drop by done.
  rewrite list_filter_filter_l by (intros [p f]; cbn; rewrite Z.ltb_lt; lia).
  trans ((numbered (slice_len L) new).*2); [f_equal|apply numbered_snd].
  rewrite <-(drop_app_length L new) at 2. replace (length L) with (Z.to_nat (slice_len L)) by (unfold slice_len; lia).
  rewrite numbered_drop by (unfold slice_len in *; rewrite length_app; lia). apply list_filter_iff. intros [p f]. cbn. by rewrite Z.ltb_lt.
Qed.

(** Calls that leave the feed alone. *)
Lemma feed_log_frame L d d' : d_monitoring_feed d' = d_monitoring_feed d → d_monitoring_state d' = d_monitoring_state d →
  feed_log L d → feed_log L d'.
Proof. intros Hf Hs [? ? ? ? ? ?]. constructor; unfold floor; rewrite ?Hf, ?Hs; done. Qed.

Lemma pending_same d d' : (∀ id o, pending_event o = true → d_outbox d' !! id = Some o ↔ d_outbox d !! id = Some o) →
  pending_events d' ≡ₚ pending_events d.
Proof.
  intros Hs. apply NoDup_Permutation; [apply (NoDup_fmap_1 fst), NoDup_pending..|]. intros [id o]. rewrite !elem_of_pending. naive_solver.
Qed.

Lemma feed_only_same d d' : feed_only d d' → same_lifecycle d d'.
Proof. by intros (m & o & s & ->). Qed.
Lemma job_terminal_same d d' : same_lifecycle d d' → ∀ k, job_terminal d' k ↔ job_terminal d k.
Proof. intros (Hj & _) k. unfold job_terminal. by rewrite Hj. Qed.

(** Every call keeps the invariant and takes a step of the log. *)
Lemma feed_call_inv L d d' : feed_call d d' → (∀ id o, new_event d d' id o → id ∉ event_ids L) → feed_inv L d →
  feed_inv (L ++ appended L d') d' ∧ rtc log_step (L, floor d) (L ++ appended L d', floor d').
Proof.
  intros Hcall Hfresh [Hlog Hlc Han].
  enough (∃ new, feed_inv (L ++ new) d' ∧ floor d' ≤ slice_len L ∧ rtc log_step (L, floor d) (L ++ new, floor d')) as (new & Hi & HF & Hs).
  { by rewrite (appended_log L new d') by (done || apply Hi). }
  destruct Hcall as [d d' Hc|limit e d n d' Hr|limit e d n d' Hr|r e d u d' Hr|d d' Hsame Hf Hst Hq].
  - exists []. rewrite app_nil_r. destruct (step_evolves _ _ (lifecycle_call_step _ _ Hc) Hlc) as [Hlc' Hp].
    pose proof (lifecycle_call_announced _ _ Hc Hp) as An. destruct (an_feed _ _ An) as [Hf Hs].
    assert (floor d' = floor d) as EF by (unfold floor; by rewrite Hs). rewrite EF. split_and!; [|apply Hlog|done].
    split; [by eapply feed_log_frame|done|by eapply announcements_announced].
  - pose proof Hr as (Hlim & _ & Hl & Hpend & EF & Ho & _)%(PublishMonitoringEvents_log L); [|done|by apply announcements_unpublished].
    eexists. split_and!; [split; [exact Hl| |]|rewrite EF; apply Hlog|rewrite EF; apply rtc_once, log_append].
    + by apply (same_lifecycle_evolves d); [apply feed_only_same|].
    + eapply announcements_same; [exact Han| |by apply job_terminal_same, feed_only_same].
      unfold announcements. rewrite Hpend, fmap_app, <-app_assoc. f_equiv.
      rewrite <-(take_drop (Z.to_nat limit) (pending_events d)) at 3. rewrite fmap_app. f_equiv. by rewrite <-list_fmap_compose.
  - pose proof Hr as (Hn & Hl & EF & Hlim & Ho & Hob)%(PruneMonitoringEvents_log L); [|done].
    exists []. rewrite app_nil_r. assert (0 ≤ n) by (rewrite Hn; unfold slice_len; lia).
    split_and!; [split; [exact Hl| |]|apply Hl|apply rtc_once, log_retire; split; [lia|apply Hl]].
    + by apply (same_lifecycle_evolves d); [apply feed_only_same|].
    + eapply announcements_same; [exact Han| |by apply job_terminal_same, feed_only_same].
      unfold announcements, pending_events. by rewrite Hob.
  - exists []. rewrite app_nil_r. unfold ConfigureMonitoringRetention in Hr. tx_inv. split_and!; [split|apply Hlog|done].
    + by destruct Hlog.
    + done.
    + by eapply announcements_same.
  - exists []. rewrite app_nil_r. assert (floor d' = floor d) as EF by (unfold floor; by rewrite Hst). rewrite EF.
    split_and!; [split|apply Hlog|done].
    + by eapply feed_log_frame.
    + by apply (same_lifecycle_evolves d).
    + eapply announcements_same; [exact Han| |by apply job_terminal_same]. unfold announcements. by rewrite (pending_same d d').
Qed.

Lemma feed_initial_inv d : feed_initial d → feed_inv [] d.
Proof.
  intros (Hi & Hp & Hf & Hh & HF). split; [|by apply initial_inv|].
  - constructor; unfold floor; rewrite ?Hf, ?Hh, ?HF; try done; [|constructor..]. intros p f. rewrite lookup_empty. split; [done|by intros [_ ?]].
  - constructor; unfold announcements; rewrite Hp; cbn; [constructor..|]. destruct Hi as (Hj & _).
    intros k (j & Hk & _). rewrite Hj in Hk. done.
Qed.

Lemma feed_steps_inv s s' : rtc feed_step s s' → feed_inv s.1 s.2 →
  feed_inv s'.1 s'.2 ∧ rtc log_step (s.1, floor s.2) (s'.1, floor s'.2).
Proof.
  induction 1 as [s|s1 s2 s3 Hs _ IH]; intros Hi; [done|]. destruct Hs as [L d d' Hc Hf].
  apply (feed_call_inv L) in Hc as [Hi' Hl]; [|done..]. destruct (IH Hi') as [Hi3 Hl3]. split; [done|]. by etrans.
Qed.
Lemma feed_reachable_inv L d : feed_reachable L d → feed_inv L d.
Proof. intros (d0 & Hi & Hs). by apply (feed_steps_inv _ _ Hs), feed_initial_inv. Qed.

(** ** The theorems *)



(** Pruning retires the expired events among the oldest, and no other. *)
Theorem prune_retires_expired L limit e d n d' : feed_reachable L d → PruneMonitoringEvents limit e d = Ok (n, d') →
  feed_log L d' ∧ n ≤ limit ∧ retained L d' = drop (Z.to_nat n) (retained L d) ∧
  Forall (expired e d) (take (Z.to_nat n) (retained L d)) ∧
  (n < limit → ∀ f, retained L d !! Z.to_nat n = Some f → ¬ expired e d f).
Proof.
  intros [Hlog _ _]%feed_reachable_inv Hr. pose proof Hr as (Hn & Hl & EF & Hlim & _)%(PruneMonitoringEvents_log L); [|done].
  set (X := take_while (expired e d) (take (Z.to_nat limit) (retained L d))) in *.
  assert (length X = Z.to_nat n) as HX by (rewrite Hn; unfold slice_len; lia).
  assert (0 ≤ n) by (rewrite Hn; unfold slice_len; lia).
  assert (length X ≤ Z.to_nat limit)%nat as Hlen.
  { unfold X. rewrite take_while_prefix, length_take, length_take. lia. }
  assert (X = take (Z.to_nat n) (retained L d)) as EX.
  { rewrite <-HX. unfold X at 1. rewrite take_while_prefix, take_take. f_equal. fold X. lia. }
  split; [done|]. split; [lia|]. split; [unfold retained; rewrite EF, drop_drop; f_equal; destruct Hlog as [_ _ ? _ _ _]; lia|].
  split; [rewrite <-EX; apply take_while_all|]. intros Hlt f Hf.
  apply (take_while_next _ (take (Z.to_nat limit) (retained L d))). fold X. rewrite HX. rewrite lookup_take_lt by lia. exact Hf.
Qed.

(** ** The publisher *)

Lemma acknowledged_new d d' t ids id o : d_outbox d' = acknowledge t ids (d_outbox d) → ¬ new_event d d' id o.
Proof. intros Ho (Hk & Hn & _). rewrite Ho, lookup_acknowledge, Hn in Hk. by case_decide. Qed.
Lemma same_outbox_new d d' id o : d_outbox d' = d_outbox d → ¬ new_event d d' id o.
Proof. intros Ho (Hk & Hn & _). congruence. Qed.

(** One cycle moves the oldest events of the queue to the log. *)
Lemma publisher_cycle_log L d now : feed_inv L d → outbox_referenced d → slice_len L + slice_len (pending_events d) ≤ max_int64 →
  let new := entry (publication_time now.1 d) <$> take 256 (pending_events d) in let d' := publisher_cycle d now in
  rtc feed_step (L, d) (L ++ new, d') ∧ pending_events d' = drop 256 (pending_events d) ∧ outbox_referenced d'.
Proof.
  intros [Hlog Hlc Han] Href Hroom new d'. unfold d', publisher_cycle.
  destruct (PublishMonitoringEvents_runs L 256 now.1 d) as (n & d1 & Hr); [done|by apply announcements_unpublished|done|lia|done|].
  assert (committed (PublishMonitoringEvents 256) now.1 d = d1) as -> by (unfold committed; by rewrite Hr).
  pose proof Hr as (_ & _ & Hl & Hpend & EF & (m1 & o1 & s1 & Hd1) & Hout)%(PublishMonitoringEvents_log L); [|done|by apply announcements_unpublished].
  change (Z.to_nat 256) with 256%nat in Hl, Hpend. fold new in Hl.
  assert (outbox_referenced d1) as Href1.
  { intros id o Ho. rewrite Hout, lookup_acknowledge in Ho. rewrite Hd1. cbn. case_decide; [|by apply (Href id)].
    apply fmap_Some in Ho as (o' & Ho' & ->). exact (Href id o' Ho'). }
  assert (rtc feed_step (L, d) (L ++ new, d1)) as Hs1.
  { apply rtc_once. rewrite <-(appended_log L new d1) by (done || (rewrite EF; apply Hlog)).
    constructor; [by eapply feed_publish|]. intros id o He. by apply (acknowledged_new _ _ _ _ _ _ Hout) in He. }
  unfold committed. destruct (PruneMonitoringEvents 1000 now.2 d1) as [[k d2]|] eqn:Hp; [|done].
  pose proof Hp as (_ & Hl2 & EF2 & _ & (m2 & o2 & s2 & Hd2) & Hout2)%(PruneMonitoringEvents_log (L ++ new)); [|done].
  split_and!.
  - etrans; [exact Hs1|]. apply rtc_once.
    assert (appended (L ++ new) d2 = []) as Ea by (apply appended_log; [by rewrite app_nil_r|apply Hl2]).
    rewrite <-(app_nil_r (L ++ new)) at 2. rewrite <-Ea. constructor; [by eapply feed_prune|].
    intros id o He. by apply (same_outbox_new _ _ _ _ Hout2) in He.
  - unfold pending_events. rewrite Hout2. exact Hpend.
  - intros id o Ho. rewrite Hout2 in Ho. rewrite Hd2. by apply (Href1 id).
Qed.

End history.
