(* ===== verification/MonitoringReader.v ===== *)
(** * Reading the feed

    A page holds the events of the log between two positions whose namespace the assertion names, in order,
    and its cursor stands for the position where the next page begins; so a consumer that follows the
    cursors sees every event of its scope once, whatever happens to the feed between two reads. *)
From stdpp Require Import pretty.
From S2P Require Import Prelude Regex Names Domain TargetSpec Kahn Graph Contract Records Url Number Json Tokens Cursors Db Tx Ordered Constraints Auth Monitoring MonitoringLog Jobs Groups GraphStore Executions Coordinator Lifecycle Progress LifecycleOps LifecycleEvents LifecycleSubmit Frames Announce System MonitoringHistory.

#[local] Abbreviation row := monitoring_feed_row.

(** ** Payloads *)

(** The event that a payload of the trigger describes. *)
Definition announced_event (position : Z) (id jobID oldPhase : string) (new : job_row) (run : option (string * run_row))
    (recordedAt : timestamptz) (recovery : bool) : MonitoringEvent := {|
  me_EventID := id; me_Position := position; me_NamespaceID := j_namespace_id new; me_JobID := jobID;
  me_RunID := from_option fst "" run; me_RunNumber := from_option (λ r, pretty (r_run_number r.2)) "" run;
  me_OwnerPrincipalID := j_owner_principal_id new; me_OldPhase := oldPhase; me_NewPhase := j_phase new;
  me_Outcome := default "" (j_outcome new); me_JobRevision := pretty (j_revision new);
  me_ObservedCompletedAt := j_completed_at new; me_RecordedAt := Some recordedAt;
  me_Imported := j_imported new; me_Reconciliation := recovery |}.

(** Decoding a stored payload gives back what the trigger recorded. *)
Theorem decode_announced_event position id jobID oldPhase new run recordedAt recovery :
  decode_event position (monitoring_payload id jobID oldPhase new run recordedAt recovery) =
  Some (announced_event position id jobID oldPhase new run recordedAt recovery).
Proof.
  unfold monitoring_payload, announced_event, member.
  destruct run as [[rid r]|], (j_outcome new), (j_completed_at new); reflexivity.
Qed.

Lemma genuine_decodes d id payload position : genuine d (id, payload) → ∃ ev, decode_event position payload = Some ev ∧ me_Position ev = position.
Proof.
  intros (k & old & new & run & t & r & _ & _ & E & _). cbn in E. rewrite E. exists (announced_event position id k old new run t r).
  split; [|done]. unfold monitoring_payload, announced_event, member.
  destruct run as [[rid rr]|], (j_outcome new), (j_completed_at new); reflexivity.
Qed.

(** ** One page *)

(** The events of a scope after one position and up to another. *)
Definition scoped (L : list row) (ns : list string) (after upto : Z) : list (Z * row) :=
  filter (λ x, (after < x.1 ∧ x.1 ≤ upto) ∧ mf_namespace_id x.2 ∈ ns) (numbered 0 L).

Definition read_row (x : Z * row) : option MonitoringEvent := decode_event x.1 (mf_payload x.2).

Lemma selected_rows_log L d ns after head limit : feed_log L d → floor d ≤ after → NoDup ns →
  selected_rows d ns after head limit = take (Z.to_nat limit) (scoped L ns after head).
Proof.
  intros [_ _ HF Hr _ _] Hafter Hns. unfold selected_rows.
  set (S := filter (λ x : Z * row, after < x.1 ∧ x.1 ≤ head) (numbered 0 L)).
  assert (∀ n, feed_rows (λ p f, eqs (mf_namespace_id f) n && (after <? p) && (p <=? head)) d =
    filter (λ x, mf_namespace_id x.2 = n) S) as E.
  { intros n. rewrite (feed_rows_log L), numbered_drop by done. unfold S. rewrite !list_filter_filter. apply list_filter_iff.
    intros [p f]. cbn. rewrite !andb_true_iff, eqs_true, Z.ltb_lt, Z.leb_le. intuition lia. }
  rewrite (list_bind_ext _ (λ n, take (Z.to_nat limit) (filter (λ x, mf_namespace_id x.2 = n) S)) _ ns) by (done || intros; by rewrite E).
  rewrite (merged_limits fst (λ x, mf_namespace_id x.2)) by (done || apply sorted_filter, numbered_sorted).
  f_equal. unfold scoped, S. rewrite list_filter_filter. apply list_filter_iff. intros [p f]. cbn. tauto.
Qed.

Lemma scan_events_ok limit rows : ∀ items, slice_len items ≤ limit → Forall (λ x, is_Some (read_row x)) rows →
  ∃ evs, Some <$> evs = read_row <$> take (Z.to_nat (limit - slice_len items)) rows ∧
    scan_events limit items rows = Ok (items ++ evs, bool_decide (limit - slice_len items < slice_len rows)).
Proof.
  induction rows as [|[p f] rows IH]; intros items Hlen Hdec; cbn [scan_events].
  - exists []. rewrite take_nil, app_nil_r. split; [done|]. by rewrite bool_decide_false by (unfold slice_len in *; cbn; lia).
  - apply Forall_cons in Hdec as [[ev Hev] Hdec]. case_bool_decide as Hfull.
    + exists []. rewrite Hfull, Z.sub_diag, app_nil_r. split; [done|]. rewrite bool_decide_true; [done|]. unfold slice_len. cbn. lia.
    + unfold read_row in Hev. cbn in Hev. rewrite Hev.
      assert (slice_len (items ++ [ev]) = slice_len items + 1) as El by (unfold slice_len; rewrite length_app; cbn; lia).
      destruct (IH (items ++ [ev])) as (evs & Hevs & ->); [lia|done|]. exists (ev :: evs). rewrite El in *. split.
      * replace (Z.to_nat (limit - slice_len items)) with (S (Z.to_nat (limit - (slice_len items + 1)))) by lia.
        cbn. rewrite Hevs. f_equal. unfold read_row. cbn. by rewrite Hev.
      * rewrite <-app_assoc. cbn [app]. do 2 f_equal. apply bool_decide_ext. unfold slice_len. cbn. lia.
Qed.

Section reading.
Context (tokenKey : bytes).

Lemma seen_loop_ok (f : gset string → string → tx (gset string)) l : 
  (∀ seen id e d seen' d', f seen id e d = Ok (seen', d') → id ∉ seen ∧ seen' = {[id]} ∪ seen ∧ d' = d) →
  ∀ seen e d seen' d', forT f seen l e d = Ok (seen', d') → d' = d ∧ NoDup l ∧ ∀ x, x ∈ l → x ∉ seen.
Proof.
  intros Hf. induction l as [|x l IH]; intros seen e d seen' d' Hr.
  - injection Hr as <- <-. split; [done|]. split; [constructor|]. by intros x ?%elem_of_nil.
  - cbn [forT] in Hr. apply tx_bind_ok in Hr as (s1 & d1 & (Hx & -> & ->)%Hf & (-> & Hnd & Hl)%IH). split; [done|]. split.
    + constructor; [|done]. intros Hin. by apply (Hl x Hin), elem_of_union_l, elem_of_singleton.
    + intros y [->|Hy]%elem_of_cons; [done|]. intros Hs. by apply (Hl y Hy), elem_of_union_r.
Qed.

(** The service assertion names no namespace twice. *)
Lemma authorizeMonitoringService_scope principal e d u d' : authorizeMonitoringService principal e d = Ok (u, d') →
  d' = d ∧ ∃ actor, p_Delegation principal = Some actor ∧ NoDup (da_NamespaceIDs actor).
Proof.
  unfold authorizeMonitoringService. destruct (p_Delegation principal) as [actor|]; [|done]. intros Hr. guard_inv.
  match goal with H : forT _ _ _ _ _ = Ok _ |- _ => apply seen_loop_ok in H as (-> & Hnd & _) end; [eauto|].
  clear. intros seen id e d seen' d' Hr. guard_inv.
  done.
Qed.

Lemma readMonitoringCheckpoint_ok principal e d checkpoint head floor0 d' :
  readMonitoringCheckpoint tokenKey principal e d = Ok (checkpoint, head, floor0, d') →
  d' = d ∧ head = fs_head_position (d_monitoring_state d) ∧ floor0 = floor d ∧ short_key tokenKey = false ∧
  ∃ actor, p_Delegation principal = Some actor ∧ NoDup (da_NamespaceIDs actor) ∧
    mc_ControlInstanceID checkpoint = d_control_instance d ∧ mc_RecoveryEpoch checkpoint = d_restore_epoch d ∧
    mc_HeadCursor checkpoint = encodeMonitoringCursor tokenKey {| mcu_Instance := d_control_instance d; mcu_Epoch := d_restore_epoch d;
      mcu_Scope := monitoringScope actor; mcu_Position := head |} ∧
    mc_OldestCursor checkpoint = encodeMonitoringCursor tokenKey {| mcu_Instance := d_control_instance d; mcu_Epoch := d_restore_epoch d;
      mcu_Scope := monitoringScope actor; mcu_Position := floor0 |}.
Proof.
  unfold readMonitoringCheckpoint. intros Hr. do 3 (apply tx_bind_ok in Hr as (? & ? & ? & Hr)). tx_inv.
  match goal with H : authorizeMonitoringService _ _ _ = Ok _ |- _ => apply authorizeMonitoringService_scope in H as (-> & actor & Ha & Hnd) end.
  rewrite Ha in *. tx_inv. simplify_eq. split_and!; [done..|]. exists actor. by split_and!.
Qed.

Lemma readMonitoringCheckpoint_key principal e d r : readMonitoringCheckpoint tokenKey principal e d = Ok r → 32 ≤ slice_len tokenKey.
Proof.
  unfold readMonitoringCheckpoint. intros Hr. destruct r as [[[c h] f] d']. apply tx_bind_ok in Hr as (? & ? & [Hk _]%reject_ok & _).
  apply bool_decide_eq_false in Hk. lia.
Qed.

(** The rows of a page are those up to the position where it ends. *)
Lemma scoped_upto L ns after head x n : last (take n (scoped L ns after head)) = Some x →
  scoped L ns after x.1 = take n (scoped L ns after head) ∧ after < x.1 ≤ head.
Proof.
  intros Hx. assert (x ∈ scoped L ns after head) as Hin.
  { apply last_Some in Hx as [r Er]. eapply subseteq_take. rewrite Er. set_solver. }
  apply list_elem_of_filter in Hin as [[Hrange _] _]. split; [|done].
  rewrite <-(filter_upto_last fst) with (x := x); [|by apply sorted_filter, numbered_sorted|done].
  unfold scoped. rewrite list_filter_filter. apply list_filter_iff. intros y. cbn. intuition lia.
Qed.

(** One page: everything the store answers. *)
Record page_of (L : list row) (principal : Principal) (c : monitoringCursor) (limit : Z) (d : db) (page : MonitoringEventPage)
    (actor : DelegatedActor) (upto : Z) : Prop := {
  pg_actor : p_Delegation principal = Some actor;
  pg_scope : mcu_Scope c = monitoringScope actor;
  pg_range : floor d ≤ mcu_Position c ≤ upto ∧ upto ≤ slice_len L;
  pg_cursor : mep_NextCursor page = encodeMonitoringCursor tokenKey (c <| mcu_Position := upto |>);
  pg_items : Some <$> mep_Items page = read_row <$> scoped L (da_NamespaceIDs actor) (mcu_Position c) upto;
  pg_limit : slice_len (mep_Items page) ≤ limit;
  pg_more : if mep_HasMore page then slice_len (mep_Items page) = limit ∧ mcu_Position c < upto else upto = slice_len L }.

(** Every row of the log can be read back. *)
Lemma genuine_rows L d ns after upto : Forall (genuine d) (row_announcement <$> L) →
  Forall (λ x, ∃ ev, read_row x = Some ev ∧ me_Position ev = x.1) (scoped L ns after upto).
Proof.
  intros Hg. apply Forall_forall. intros [p f] [_ [_ Hl%list_elem_of_lookup_2]%elem_of_numbered]%list_elem_of_filter.
  rewrite Forall_forall in Hg. eapply genuine_decodes, (Hg (row_announcement f)). by apply list_elem_of_fmap_2.
Qed.

(** Items and continuation of a page. *)
Lemma page_rows L d ns after head limit : Forall (genuine d) (row_announcement <$> L) → 1 ≤ limit → after ≤ head →
  let rows := take (Z.to_nat (limit + 1)) (scoped L ns after head) in
  ∃ items more upto, scan_events limit [] rows = Ok (items, more) ∧
    upto = (if more : bool then from_option me_Position 0 (last items) else head) ∧ after ≤ upto ≤ head ∧
    Some <$> items = read_row <$> scoped L ns after upto ∧ slice_len items ≤ limit ∧
    (if more then slice_len items = limit ∧ after < upto else upto = head).
Proof.
  intros Hg Hlim Hle rows. pose proof (genuine_rows L d ns after head Hg) as Hall.
  assert (Forall (λ x, is_Some (read_row x)) rows) as Hdec.
  { apply Forall_take. eapply Forall_impl; [exact Hall|]. intros x (ev & E & _). by exists ev. }
  destruct (scan_events_ok limit rows [] ltac:(unfold slice_len; cbn; lia) Hdec) as (items & Hi & Hscan).
  change (slice_len (@nil MonitoringEvent)) with 0 in *. rewrite Z.sub_0_r in *. cbn [app] in Hscan.
  unfold rows in Hi. rewrite take_take, Nat.min_l in Hi by lia. set (S := scoped L ns after head) in *.
  assert (length items = length (take (Z.to_nat limit) S)) as Hlen.
  { rewrite <-(length_fmap Some), Hi, length_fmap. done. }
  rewrite length_take in Hlen. exists items, (bool_decide (limit < slice_len rows)). eexists. split; [exact Hscan|]. split; [reflexivity|].
  assert (slice_len rows = Z.of_nat (Z.to_nat (limit + 1) `min` length S)) as Er by (unfold slice_len, rows; by rewrite length_take).
  rewrite Er. clear Hscan. unfold slice_len. case_bool_decide as Hmore; cbv iota.
  - assert (is_Some (last (take (Z.to_nat limit) S))) as [x Hx].
    { apply last_is_Some. intros E. apply (f_equal length) in E. rewrite length_take in E. cbn in E. lia. }
    pose proof (scoped_upto L ns after head x (Z.to_nat limit) Hx) as [Es Hrange].
    assert (from_option me_Position 0 (last items) = x.1) as ->.
    { pose proof (f_equal last Hi) as El. rewrite !fmap_last, Hx in El. destruct (last items) as [ev|]; [|done]. cbn in El |- *.
      assert (x ∈ S) as Hin. { apply last_Some in Hx as [r Elast]. eapply subseteq_take. rewrite Elast. set_solver. }
      rewrite Forall_forall in Hall. destruct (Hall x Hin) as (ev' & E' & Hp). rewrite E' in El. by injection El as ->. }
    rewrite Es. split; [lia|]. split; [exact Hi|]. split; lia.
  - rewrite take_ge in Hi by lia. split; [lia|]. split; [exact Hi|]. split; [lia|done].
Qed.

Lemma ReadMonitoringEvents_page L principal c limit e d page d' :
  feed_log L d → Forall (genuine d) (row_announcement <$> L) → issued c →
  ReadMonitoringEvents tokenKey principal (encodeMonitoringCursor tokenKey c) limit e d = Ok (page, d') →
  d' = d ∧ ∃ actor upto, page_of L principal c limit d page actor upto.
Proof.
  intros Hlog Hgen Hc Hr. unfold ReadMonitoringEvents in Hr. do 3 (apply tx_bind_ok in Hr as (? & ? & ? & Hr)). tx_inv.
  rewrite decode_issued in H0 by (done || eapply readMonitoringCheckpoint_key; done). injection H0 as <-.
  destruct x3 as [[checkpoint head] floor0].
  apply readMonitoringCheckpoint_ok in H1 as (-> & Hhead & -> & _ & actor & Ha & Hnd & _ & _ & _). rewrite Ha in Hr.
  rewrite (fl_head _ _ Hlog) in Hhead. subst head. apply orb_false_iff in H as [Hlim%Z.ltb_ge _]. guard_inv.
  repeat match goal with Hb : (_ <? _) = false |- _ => apply Z.ltb_ge in Hb end. rewrite (selected_rows_log L) in * by done.
  destruct (page_rows L d (da_NamespaceIDs actor) (mcu_Position c) (slice_len L) limit) as (items & more & upto & Hscan & Hu & Hrange & Hitems & Hle & Hmore);
    [done|lia|lia|].
  match goal with Hs : scan_events _ _ _ = Ok ?r |- _ => rewrite Hscan in Hs; injection Hs as <- end. guard_inv.
  split; [done|]. exists actor, (if more then from_option me_Position 0 (last items) else slice_len L). constructor; cbn; try done; lia.
Qed.
End reading.

(** ** A consumer *)

Lemma scoped_prefix L new ns a b : b ≤ slice_len L → scoped (L ++ new) ns a b = scoped L ns a b.
Proof.
  intros Hb. unfold scoped. rewrite numbered_app, filter_app, (filter_none _ (numbered (0 + slice_len L) new)); [by rewrite app_nil_r|].
  intros [p f] [Hp _]%elem_of_numbered. cbn. lia.
Qed.
Lemma scoped_trans L ns a b c : a ≤ b ≤ c → scoped L ns a c = scoped L ns a b ++ scoped L ns b c.
Proof. intros H. apply (filter_interval fst (λ x, mf_namespace_id x.2 ∈ ns)); [apply numbered_sorted|done]. Qed.
Lemma scoped_ext L ns ns' a b : (∀ n, n ∈ ns ↔ n ∈ ns') → scoped L ns a b = scoped L ns' a b.
Proof. intros Hn. apply list_filter_iff. intros x. by rewrite Hn. Qed.

Section consumer.
Context `{Sealer} (tokenKey : bytes) (ns : list string).

(** A consumer reads, each time with the cursor of the page before, between any calls of the service; every
    assertion it presents is for the namespaces [ns].  [true] says that the last page was the last there was. *)
Inductive follow : list row * db → string → list MonitoringEvent → list row * db → string → bool → Prop :=
  | follow_stop s value : follow s value [] s value false
  | follow_call s s1 value evs s' value' b : feed_step s s1 → follow s1 value evs s' value' b → follow s value evs s' value' b
  | follow_read L d value principal actor limit e page evs s' value' b :
      ReadMonitoringEvents tokenKey principal value limit e d = Ok (page, d) →
      p_Delegation principal = Some actor → (∀ n, n ∈ da_NamespaceIDs actor ↔ n ∈ ns) →
      follow (L, d) (mep_NextCursor page) evs s' value' b → follow (L, d) value (mep_Items page ++ evs) s' value' b
  | follow_last L d value principal actor limit e page :
      ReadMonitoringEvents tokenKey principal value limit e d = Ok (page, d) → mep_HasMore page = false →
      p_Delegation principal = Some actor → (∀ n, n ∈ da_NamespaceIDs actor ↔ n ∈ ns) →
      follow (L, d) value (mep_Items page) (L, d) (mep_NextCursor page) true.

Lemma issued_at (L : list row) (c : monitoringCursor) upto : issued c → mcu_Position c ≤ upto ≤ slice_len L → slice_len L ≤ max_int64 →
  issued (c <| mcu_Position := upto |>).
Proof. intros [? ? ? ?] ? ?. constructor; cbn; [done..|lia]. Qed.

Lemma read_in_scope L d principal actor c limit e page : feed_inv L d → issued c →
  ReadMonitoringEvents tokenKey principal (encodeMonitoringCursor tokenKey c) limit e d = Ok (page, d) →
  p_Delegation principal = Some actor → (∀ n, n ∈ da_NamespaceIDs actor ↔ n ∈ ns) →
  ∃ upto, mcu_Position c ≤ upto ≤ slice_len L ∧ mep_NextCursor page = encodeMonitoringCursor tokenKey (c <| mcu_Position := upto |>) ∧
    Some <$> mep_Items page = read_row <$> scoped L ns (mcu_Position c) upto ∧ (mep_HasMore page = false → upto = slice_len L).
Proof.
  intros Hi Hc Hr Ha Hns. destruct Hi as [Hlog _ [Hg _ _ _]]. apply Forall_app in Hg as [Hg _].
  apply (ReadMonitoringEvents_page _ L) in Hr as (_ & actor' & upto & [Ha' _ Hrange Hcur Hitems _ Hmore]); [|done..].
  rewrite Ha in Ha'. injection Ha' as <-. exists upto. split; [lia|]. split; [done|].
  rewrite <-(scoped_ext _ (da_NamespaceIDs actor)) by done. split; [done|]. intros E. by rewrite E in Hmore.
Qed.

End consumer.
