(* ===== verification/Credentials.v ===== *)
(** * Credentials

    What the tables of [Agents.v] promise.  Every agent was enrolled by exactly one token and has exactly
    one session that is not revoked; a session is revoked only by the one that replaces it; used tokens,
    revoked sessions and revoked certificates stay so.  The step relation allows any change that leaves
    the five credential tables alone, so the theorems hold whatever the rest of the service does. *)
From stdpp Require Import pretty.
From S2P Require Import Prelude Regex Names Domain TargetSpec Kahn Graph Contract Records Url Json Tokens Db Tx Constraints Auth Jobs Groups GraphStore Executions Coordinator Lifecycle Progress LifecycleOps Frames Agents.

(** ** The invariant *)

(** What an enrollment fixes about an agent for ever. *)
Record bound_agent (t : enrollment_row) (a : agent_row) : Prop := {
  ba_namespace : ag_namespace_id a = en_namespace_id t;
  ba_target : ag_target_id a = en_target_id t;
  ba_generation : ag_target_generation_id a = en_target_generation_id t;
  ba_principal : ag_principal_id a = en_principal_id t;
  ba_user : ag_execution_user a = en_expected_user t }.

(** Hashes are compared, never computed, in what follows. *)
#[local] Opaque hashToken deriveToken.

Section credentials.
Context (tokenKey : bytes).

Definition sessionHash (sessionID : string) : list Z := hashToken (deriveToken tokenKey "jms" sessionID).
Definition enrollmentHash (enrollmentID : string) : list Z := hashToken (deriveToken tokenKey "jme" enrollmentID).

Record sessions_ok (agents : gmap string agent_row) (sessions : gmap string session_row) : Prop := {
  so_hash : ∀ sid s, sessions !! sid = Some s → se_token_hash s = sessionHash sid;
  so_unique : ∀ sid s sid' s', sessions !! sid = Some s → sessions !! sid' = Some s' →
    se_token_hash s = se_token_hash s' → sid = sid';
  so_agent : ∀ sid s, sessions !! sid = Some s → ∃ a, agents !! se_agent_id s = Some a ∧ ag_namespace_id a = se_namespace_id s;
  so_current : ∀ aid, is_Some (agents !! aid) →
    ∃ sid s, sessions !! sid = Some s ∧ se_agent_id s = aid ∧ se_revoked_at s = None;
  so_one : ∀ sid s sid' s', sessions !! sid = Some s → sessions !! sid' = Some s' →
    se_revoked_at s = None → se_revoked_at s' = None → se_agent_id s = se_agent_id s' → sid = sid';
  so_replaced : ∀ sid s, sessions !! sid = Some s →
    match se_replaced_by_session_id s with
    | Some r => is_Some (se_revoked_at s) ∧ ∃ s', sessions !! r = Some s' ∧ se_agent_id s' = se_agent_id s
    | None => se_revoked_at s = None
    end }.

Record enrollments_ok (agents : gmap string agent_row) (enrollments : gmap string enrollment_row) : Prop := {
  eo_nonempty : agents !! "" = None;
  eo_hash : ∀ id t, enrollments !! id = Some t → en_token_hash t = enrollmentHash id;
  eo_unique : ∀ id t id' t', enrollments !! id = Some t → enrollments !! id' = Some t' →
    en_token_hash t = en_token_hash t' → id = id';
  eo_use : ∀ id t, enrollments !! id = Some t → (is_Some (en_used_at t) ↔ is_Some (en_used_by_agent_id t));
  eo_used : ∀ id t aid, enrollments !! id = Some t → en_used_by_agent_id t = Some aid →
    ∃ a, agents !! aid = Some a ∧ bound_agent t a;
  eo_once : ∀ id t id' t' aid, enrollments !! id = Some t → enrollments !! id' = Some t' →
    en_used_by_agent_id t = Some aid → en_used_by_agent_id t' = Some aid → id = id';
  eo_enrolled : ∀ aid, is_Some (agents !! aid) → ∃ id t, enrollments !! id = Some t ∧ en_used_by_agent_id t = Some aid }.

(** ** What a history never takes back *)

Record session_advances (s s' : session_row) : Prop := {
  sa_agent : se_agent_id s' = se_agent_id s;
  sa_hash : se_token_hash s' = se_token_hash s;
  sa_expires : se_expires_at s' = se_expires_at s;
  sa_revoked : is_Some (se_revoked_at s) → se_revoked_at s' = se_revoked_at s }.
Record enrollment_advances (t t' : enrollment_row) : Prop := {
  ta_hash : en_token_hash t' = en_token_hash t;
  ta_used : is_Some (en_used_by_agent_id t) → en_used_by_agent_id t' = en_used_by_agent_id t }.
Record agent_advances (a a' : agent_row) : Prop := {
  ga_namespace : ag_namespace_id a' = ag_namespace_id a;
  ga_target : ag_target_id a' = ag_target_id a;
  ga_generation : ag_target_generation_id a' = ag_target_generation_id a;
  ga_principal : ag_principal_id a' = ag_principal_id a;
  ga_user : ag_execution_user a' = ag_execution_user a;
  ga_digest : ag_registration_digest a' = ag_registration_digest a }.
Record certificate_advances (c c' : certificate_row) : Prop := {
  ca_agent : crt_agent_id c' = crt_agent_id c;
  ca_key : crt_public_key_digest c' = crt_public_key_digest c;
  ca_expires : crt_not_after c' = crt_not_after c;
  ca_revoked : is_Some (crt_revoked_at c) → crt_revoked_at c' = crt_revoked_at c }.

#[export] Instance session_advances_refl : Reflexive session_advances.
Proof. intros x. by constructor. Qed.
#[export] Instance session_advances_trans : Transitive session_advances.
Proof. intros x y z [? ? ? H1] [? ? ? H2]. constructor; try congruence. intros Hs. rewrite H2; [auto|]. by rewrite H1. Qed.
#[export] Instance enrollment_advances_refl : Reflexive enrollment_advances.
Proof. intros x. by constructor. Qed.
#[export] Instance enrollment_advances_trans : Transitive enrollment_advances.
Proof. intros x y z [? H1] [? H2]. constructor; try congruence. intros Hs. rewrite H2; [auto|]. by rewrite H1. Qed.
#[export] Instance agent_advances_refl : Reflexive agent_advances.
Proof. intros x. by constructor. Qed.
#[export] Instance agent_advances_trans : Transitive agent_advances.
Proof. intros x y z [] []. constructor; congruence. Qed.
#[export] Instance certificate_advances_refl : Reflexive certificate_advances.
Proof. intros x. by constructor. Qed.
#[export] Instance certificate_advances_trans : Transitive certificate_advances.
Proof. intros x y z [? ? ? H1] [? ? ? H2]. constructor; try congruence. intros Hs. rewrite H2; [auto|]. by rewrite H1. Qed.

Lemma bound_agent_advances t a a' : agent_advances a a' → bound_agent t a → bound_agent t a'.
Proof. intros [] []. split; congruence. Qed.

(** ** The three changes of the session table *)

Section session_changes.
Context (agents : gmap string agent_row) (sessions : gmap string session_row).

(** An agent row is replaced. *)
Lemma sessions_ok_agent aid a a' : agents !! aid = Some a → ag_namespace_id a' = ag_namespace_id a → sessions_ok agents sessions → sessions_ok (<[aid := a']> agents) sessions.
Proof.
  intros Ha Hns [Hh Hu Hag Hc Ho Hr]. split; try done.
  - intros sid s Hs. destruct (Hag _ _ Hs) as (b & Hb & Hbn). destruct (decide (se_agent_id s = aid)) as [E|Hne].
    + rewrite E in *. exists a'. rewrite lookup_insert_eq. split; [done|]. rewrite Hns. congruence.
    + exists b. by rewrite lookup_insert_ne.
  - intros i [Hi|Hi]%lookup_insert_is_Some'; [subst; apply Hc; eauto|by apply Hc].
Qed.

(** A session row is touched without changing what matters. *)
Lemma sessions_ok_touch sid s s' : sessions !! sid = Some s → se_token_hash s' = se_token_hash s →
  se_agent_id s' = se_agent_id s → se_namespace_id s' = se_namespace_id s → se_revoked_at s' = se_revoked_at s →
  se_replaced_by_session_id s' = se_replaced_by_session_id s →
  sessions_ok agents sessions → sessions_ok agents (<[sid := s']> sessions).
Proof.
  intros Hs Eh Ea En Er Ep [Hh Hu Hag Hc Ho Hr].
  assert (∀ i x, <[sid := s']> sessions !! i = Some x → ∃ y, sessions !! i = Some y ∧ se_token_hash x = se_token_hash y ∧
    se_agent_id x = se_agent_id y ∧ se_namespace_id x = se_namespace_id y ∧ se_revoked_at x = se_revoked_at y ∧ se_replaced_by_session_id x = se_replaced_by_session_id y) as Hold.
  { intros i x [[<- <-]|[Hne Hx]]%lookup_insert_Some; [by exists s|by exists x]. }
  assert (∀ i y, sessions !! i = Some y → ∃ x, <[sid := s']> sessions !! i = Some x ∧ se_agent_id x = se_agent_id y ∧
    se_revoked_at x = se_revoked_at y) as Hnew.
  { intros i y Hy. destruct (decide (i = sid)) as [->|Hne].
    - exists s'. rewrite lookup_insert_eq. simplify_eq. done.
    - exists y. by rewrite lookup_insert_ne. }
  split.
  - intros i x (y & Hy & -> & _)%Hold. by apply Hh.
  - intros i x i' x' (y & Hy & -> & _)%Hold (y' & Hy' & -> & _)%Hold. by apply Hu.
  - intros i x (y & Hy & _ & -> & -> & _)%Hold. by eapply Hag.
  - intros aid (i & y & Hy & <- & Hrev)%Hc. destruct (Hnew _ _ Hy) as (x & Hx & Hxa & Hxr). exists i, x. split_and!; congruence.
  - intros i x i' x' (y & Hy & _ & Eya & _ & Eyr & _)%Hold (y' & Hy' & _ & Eya' & _ & Eyr' & _)%Hold Hx1 Hx2 Hx3.
    eapply Ho; [exact Hy|exact Hy'|congruence..].
  - intros i x (y & Hy & _ & Eya & _ & Eyr & Eyp)%Hold. rewrite Eya, Eyr, Eyp. pose proof (Hr _ _ Hy) as Hrep.
    destruct (se_replaced_by_session_id y) as [r|]; [|done]. destruct Hrep as (Hrv & z & Hz & Hza).
    destruct (Hnew _ _ Hz) as (z' & Hz' & Ez & _). split; [done|]. exists z'. split; congruence.
Qed.

(** A new agent appears with its first session. *)
Lemma sessions_ok_enroll aid a sid s : agents !! aid = None → sessions !! sid = None →
  se_agent_id s = aid → se_namespace_id s = ag_namespace_id a → se_token_hash s = sessionHash sid →
  se_revoked_at s = None → se_replaced_by_session_id s = None →
  (∀ i x, sessions !! i = Some x → se_token_hash x = se_token_hash s → i = sid) →
  sessions_ok agents sessions → sessions_ok (<[aid := a]> agents) (<[sid := s]> sessions).
Proof.
  intros Ha Hs Ea En Eh Er Ep Eu [Hh Hu Hag Hc Ho Hr].
  assert (∀ i x, sessions !! i = Some x → se_agent_id x ≠ aid ∧ i ≠ sid) as Hne.
  { intros i x Hx. split; [|congruence]. intros E. destruct (Hag _ _ Hx) as (b & Hb & _). congruence. }
  split.
  - intros i x [[<- <-]|[_ Hx]]%lookup_insert_Some; [done|by apply Hh].
  - intros i x i' x' [[<- <-]|[_ Hx]]%lookup_insert_Some [[<- <-]|[_ Hx']]%lookup_insert_Some E;
      [done|symmetry; by eapply Eu|by eapply Eu|by eapply Hu].
  - intros i x [[<- <-]|[_ Hx]]%lookup_insert_Some; [exists a; by rewrite Ea, lookup_insert_eq|].
    destruct (Hag _ _ Hx) as (b & Hb & Hbn). exists b. rewrite lookup_insert_ne; [done|]. by apply not_eq_sym, (Hne _ _ Hx).
  - intros i [<-|Hi]%lookup_insert_is_Some'; [exists sid, s; by rewrite lookup_insert_eq|].
    destruct (Hc i Hi) as (i' & x & Hx & Hxa & Hxr). exists i', x. rewrite lookup_insert_ne; [done|].
    by apply not_eq_sym, (Hne _ _ Hx).
  - intros i x i' x' [[<- <-]|[_ Hx]]%lookup_insert_Some [[<- <-]|[_ Hx']]%lookup_insert_Some E E' E2; [done| | |by eapply Ho].
    + destruct (Hne _ _ Hx'). congruence.
    + destruct (Hne _ _ Hx). congruence.
  - intros i x [[<- <-]|[_ Hx]]%lookup_insert_Some; [by rewrite Ep|]. pose proof (Hr _ _ Hx) as Hrep.
    destruct (se_replaced_by_session_id x) as [r|]; [|done]. destruct Hrep as (Hrv & z & Hz & Hza). split; [done|].
    exists z. rewrite lookup_insert_ne; [done|]. by apply not_eq_sym, (Hne _ _ Hz).
Qed.

(** A session replaces the current one. *)
Lemma sessions_ok_rotate old so sid s now : sessions !! old = Some so → se_revoked_at so = None → sessions !! sid = None →
  se_agent_id s = se_agent_id so → se_namespace_id s = se_namespace_id so → se_token_hash s = sessionHash sid →
  se_revoked_at s = None → se_replaced_by_session_id s = None →
  (∀ i x, sessions !! i = Some x → se_token_hash x = se_token_hash s → i = sid) →
  sessions_ok agents sessions →
  sessions_ok agents (<[old := so <| se_revoked_at := Some now; se_replaced_by_session_id := Some sid |>]> (<[sid := s]> sessions)).
Proof.
  set (so' := so <| se_revoked_at := _; se_replaced_by_session_id := _ |>).
  intros Hold Hlive Hs Ea En Eh Er Ep Eu [Hh Hu Hag Hc Ho Hr].
  assert (old ≠ sid) as Hne by congruence.
  assert (∀ i x, <[old := so']> (<[sid := s]> sessions) !! i = Some x →
    (i = old ∧ x = so') ∨ (i = sid ∧ x = s) ∨ (i ≠ old ∧ i ≠ sid ∧ sessions !! i = Some x)) as Hcase.
  { intros i x [[<- <-]|[? [[<- <-]|[? ?]]%lookup_insert_Some]]%lookup_insert_Some; auto 6. }
  assert (∀ i y, sessions !! i = Some y → i ≠ old → <[old := so']> (<[sid := s]> sessions) !! i = Some y) as Hrest.
  { intros i y Hy Hi. rewrite !lookup_insert_ne by congruence. done. }
  assert (<[old := so']> (<[sid := s]> sessions) !! sid = Some s) as Hsid by (by rewrite lookup_insert_ne, lookup_insert_eq).
  split.
  - intros i x [[-> ->]|[[-> ->]|(_ & _ & Hx)]]%Hcase; [by apply (Hh old so)|done|by apply Hh].
  - intros i x i' x' [[-> ->]|[[-> ->]|(_ & _ & Hx)]]%Hcase [[-> ->]|[[-> ->]|(_ & _ & Hx')]]%Hcase E; try done;
      [by eapply Eu|by eapply Hu|symmetry; by eapply Eu|symmetry; by eapply Eu|by eapply Hu|by eapply Eu|by eapply Hu].
  - intros i x [[-> ->]|[[-> ->]|(_ & _ & Hx)]]%Hcase; [by apply (Hag old so)|rewrite Ea, En; by apply (Hag old so)|by eapply Hag].
  - intros aid (i & x & Hx & Hxa & Hxr)%Hc. destruct (decide (i = old)) as [->|Hi].
    + exists sid, s. simplify_eq. done.
    + exists i, x. rewrite (Hrest i x) by done. done.
  - assert (∀ i x, i ≠ old → sessions !! i = Some x → se_revoked_at x = None → se_agent_id x ≠ se_agent_id so) as Hoth.
    { intros i x Hi Hx Hxr E. by apply Hi, (Ho _ _ _ _ Hx Hold). }
    intros i x i' x' [[-> ->]|[[-> ->]|(Hi & _ & Hx)]]%Hcase [[-> ->]|[[-> ->]|(Hi' & _ & Hx')]]%Hcase E E' E2; try done.
    + exfalso. apply (Hoth i' x'); try done. congruence.
    + exfalso. apply (Hoth i x); try done. congruence.
    + by eapply Ho.
  - intros i x [[-> ->]|[[-> ->]|(_ & _ & Hx)]]%Hcase.
    + split; [by eexists|]. by exists s.
    + by rewrite Ep.
    + pose proof (Hr _ _ Hx) as Hrep. destruct (se_replaced_by_session_id x) as [r|]; [|done].
      destruct Hrep as (Hrv & z & Hz & Hza). split; [done|]. destruct (decide (r = old)) as [->|Hro].
      * exists so'. rewrite lookup_insert_eq. simplify_eq. done.
      * exists z. by rewrite (Hrest r z).
Qed.
End session_changes.

(** ** The changes of the enrollment table *)

Section enrollment_changes.
Context (agents : gmap string agent_row) (enrollments : gmap string enrollment_row).

Lemma enrollments_ok_agent aid a a' : agents !! aid = Some a → agent_advances a a' →
  enrollments_ok agents enrollments → enrollments_ok (<[aid := a']> agents) enrollments.
Proof.
  intros Ha Hadv [He Hh Hu Huse Hused Ho Hen]. split; try done.
  - rewrite lookup_insert_ne; congruence.
  - intros id t i Ht Hi. destruct (Hused _ _ _ Ht Hi) as (b & Hb & Hbound). destruct (decide (i = aid)) as [->|Hne].
    + exists a'. rewrite lookup_insert_eq. split; [done|]. simplify_eq. by eapply bound_agent_advances.
    + exists b. by rewrite lookup_insert_ne.
  - intros i [->|Hi]%lookup_insert_is_Some'; [apply Hen; by exists a|by apply Hen].
Qed.

(** A token is issued. *)
Lemma enrollments_ok_issue id t : enrollments !! id = None → en_token_hash t = enrollmentHash id →
  en_used_at t = None → en_used_by_agent_id t = None →
  (∀ i x, enrollments !! i = Some x → en_token_hash x = en_token_hash t → i = id) →
  enrollments_ok agents enrollments → enrollments_ok agents (<[id := t]> enrollments).
Proof.
  intros Hid Eh Eat Eby Eu [He Hh Hu Huse Hused Ho Hen]. split; [exact He|..].
  - intros i x [[<- <-]|[_ Hx]]%lookup_insert_Some; [done|by apply Hh].
  - intros i x i' x' [[<- <-]|[_ Hx]]%lookup_insert_Some [[<- <-]|[_ Hx']]%lookup_insert_Some E;
      [done|symmetry; by eapply Eu|by eapply Eu|by eapply Hu].
  - intros i x [[<- <-]|[_ Hx]]%lookup_insert_Some; [|by eapply Huse]. rewrite Eat, Eby. split; by intros [].
  - intros i x aid [[<- <-]|[_ Hx]]%lookup_insert_Some Hby; [congruence|by eapply Hused].
  - intros i x i' x' aid [[<- <-]|[_ Hx]]%lookup_insert_Some [[<- <-]|[_ Hx']]%lookup_insert_Some E E'; [done|congruence|congruence|by eapply Ho].
  - intros aid (i & x & Hx & Hby)%Hen. exists i, x. split; [|done]. rewrite lookup_insert_ne; congruence.
Qed.

(** A token is used by the agent it enrolls. *)
Lemma enrollments_ok_use id t t' aid a : enrollments !! id = Some t → en_used_at t = None → agents !! aid = None → aid ≠ "" →
  bound_agent t a → en_token_hash t' = en_token_hash t → is_Some (en_used_at t') → en_used_by_agent_id t' = Some aid →
  bound_agent t' a →
  enrollments_ok agents enrollments → enrollments_ok (<[aid := a]> agents) (<[id := t']> enrollments).
Proof.
  intros Hid Hat Ha Hnil Hb Eh Eat Eby Hb' [He Hh Hu Huse Hused Ho Hen].
  assert (en_used_by_agent_id t = None) as Hby.
  { destruct (en_used_by_agent_id t) eqn:E; [|done]. destruct (proj2 (Huse _ _ Hid)); [by rewrite E|congruence]. }
  assert (∀ i x, <[id := t']> enrollments !! i = Some x → (i = id ∧ x = t') ∨ (i ≠ id ∧ enrollments !! i = Some x)) as Hcase.
  { intros i x [[<- <-]|[? ?]]%lookup_insert_Some; auto. }
  assert (∀ i x y, enrollments !! i = Some x → en_used_by_agent_id x = Some y → y ≠ aid) as Hne.
  { intros i x y Hx Hy ->. destruct (Hused _ _ _ Hx Hy) as (b & Hb2 & _). congruence. }
  split.
  - rewrite lookup_insert_ne; done.
  - intros i x [[-> ->]|[_ Hx]]%Hcase; [rewrite Eh; by apply Hh|by apply Hh].
  - intros i x i' x' [[-> ->]|[_ Hx]]%Hcase [[-> ->]|[_ Hx']]%Hcase E; [done|..]; eapply Hu; try done; congruence.
  - intros i x [[-> ->]|[_ Hx]]%Hcase; [|by eapply Huse]. rewrite Eby. split; [by eauto|done].
  - intros i x y [[-> ->]|[_ Hx]]%Hcase Hy.
    + rewrite Eby in Hy. injection Hy as <-. exists a. by rewrite lookup_insert_eq.
    + destruct (Hused _ _ _ Hx Hy) as (b & Hb2 & Hbb). exists b. rewrite lookup_insert_ne; [done|].
      apply not_eq_sym. by eapply Hne.
  - intros i x i' x' y [[-> ->]|[_ Hx]]%Hcase [[-> ->]|[_ Hx']]%Hcase E E'; [done| | |by eapply Ho];
      exfalso; [eapply (Hne _ _ _ Hx' E')|eapply (Hne _ _ _ Hx E)]; congruence.
  - intros y [<-|Hy]%lookup_insert_is_Some'; [exists id, t'; by rewrite lookup_insert_eq|].
    destruct (Hen _ Hy) as (i & x & Hx & Hxy). exists i, x. split; [|done]. rewrite lookup_insert_ne; congruence.
Qed.
End enrollment_changes.

(** ** Capability observations *)

(** The agent row shows the observation. *)
Record shows (c : capability_row) (a : agent_row) : Prop := {
  sh_version : ag_agent_version a = cap_agent_version c;
  sh_backends : ag_execution_backends a = cap_execution_backends c;
  sh_runtimes : ag_runtimes a = cap_runtimes c;
  sh_capabilities : ag_capabilities a = cap_capabilities c;
  sh_accepting : ag_accepting_assignments a = cap_accepting_assignments c;
  sh_observed : ag_last_capability_at a = Some (cap_observed_at c);
  sh_host : ag_operating_system a = cap_operating_system c ∧ ag_architecture a = cap_architecture c ∧
    ag_hostname a = cap_hostname c ∧ ag_execution_user a = cap_execution_user c }.

Record capabilities_ok (agents : gmap string agent_row) (snapshots : gmap (string * Z) capability_row) : Prop := {
  ko_range : ∀ aid a, agents !! aid = Some a → 0 ≤ ag_capability_revision a ≤ max_int64;
  ko_revisions : ∀ aid a k, agents !! aid = Some a → (is_Some (snapshots !! (aid, k)) ↔ 1 ≤ k ≤ ag_capability_revision a);
  ko_agent : ∀ aid k, is_Some (snapshots !! (aid, k)) → is_Some (agents !! aid);
  ko_shown : ∀ aid a, agents !! aid = Some a → 0 < ag_capability_revision a →
    ∃ c, snapshots !! (aid, ag_capability_revision a) = Some c ∧ shows c a;
  ko_digest : ∀ aid k k' c c', snapshots !! (aid, k) = Some c → snapshots !! (aid, k') = Some c' →
    cap_document_digest c = cap_document_digest c' → k = k' }.

Section capability_changes.
Context (agents : gmap string agent_row) (snapshots : gmap (string * Z) capability_row).

Lemma capabilities_ok_enroll aid a : agents !! aid = None → ag_capability_revision a = 0 →
  capabilities_ok agents snapshots → capabilities_ok (<[aid := a]> agents) snapshots.
Proof.
  intros Ha Hrev [Hg Hr Hag Hs Hd]. split; try done.
  - intros i x [[<- <-]|[_ Hx]]%lookup_insert_Some; [rewrite Hrev; by unfold max_int64|by eapply Hg].
  - intros i x k [[<- <-]|[_ Hx]]%lookup_insert_Some; [|by apply Hr]. rewrite Hrev. split; [|lia].
    intros [? ?]%Hag. congruence.
  - intros i k Hk%Hag. apply lookup_insert_is_Some'. by right.
  - intros i x [[<- <-]|[_ Hx]]%lookup_insert_Some Hpos; [lia|by apply Hs].
Qed.

(** A change of the row that does not touch what it shows. *)
Lemma capabilities_ok_touch aid a a' : agents !! aid = Some a → ag_capability_revision a' = ag_capability_revision a →
  (∀ c, shows c a → shows c a') → capabilities_ok agents snapshots → capabilities_ok (<[aid := a']> agents) snapshots.
Proof.
  intros Ha Hrev Hsh [Hg Hr Hag Hs Hd]. split; try done.
  - intros i x [[<- <-]|[_ Hx]]%lookup_insert_Some; [rewrite Hrev|]; by eapply Hg.
  - intros i x k [[<- <-]|[_ Hx]]%lookup_insert_Some; [rewrite Hrev|]; by apply Hr.
  - intros i k Hk%Hag. apply lookup_insert_is_Some'. by right.
  - intros i x [[<- <-]|[_ Hx]]%lookup_insert_Some Hpos; [|by apply Hs].
    rewrite Hrev in *. destruct (Hs _ _ Ha Hpos) as (c & Hc & Hca). exists c. auto.
Qed.

(** The next observation. *)
Lemma capabilities_ok_report aid a a' c : agents !! aid = Some a → ag_capability_revision a' = ag_capability_revision a + 1 →
  ag_capability_revision a' ≤ max_int64 → shows c a' →
  (∀ k x, snapshots !! (aid, k) = Some x → cap_document_digest x ≠ cap_document_digest c) →
  capabilities_ok agents snapshots →
  capabilities_ok (<[aid := a']> agents) (<[(aid, ag_capability_revision a') := c]> snapshots).
Proof.
  intros Ha Hrev Hmax Hsh Hnew [Hg Hr Hag Hs Hd]. set (n := ag_capability_revision a') in *. split.
  - intros i x [[<- <-]|[_ Hx]]%lookup_insert_Some; [pose proof (Hg _ _ Ha); lia|by eapply Hg].
  - intros i x k [[<- <-]|[Hne Hx]]%lookup_insert_Some.
    + rewrite lookup_insert_is_Some', (Hr _ _ _ Ha). pose proof (Hg _ _ Ha). fold n. split; [intros [[= <-]|?]; lia|].
      intros Hk. destruct (decide (k = n)) as [->|]; [by left|right; lia].
    + rewrite lookup_insert_ne by congruence. by apply Hr.
  - intros i k [[= <- <-]|Hk%Hag]%lookup_insert_is_Some'; apply lookup_insert_is_Some'; [by left|by right].
  - intros i x [[<- <-]|[Hne Hx]]%lookup_insert_Some Hpos; [exists c; fold n; by rewrite lookup_insert_eq|].
    rewrite lookup_insert_ne by congruence. by apply Hs.
  - intros i k k' x x' [[[= <- <-] <-]|[_ Hx]]%lookup_insert_Some [[[= E2] <-]|[_ Hx']]%lookup_insert_Some E; subst;
      [done|by destruct (Hnew _ _ Hx')|by destruct (Hnew _ _ Hx)|by eapply Hd].
Qed.
End capability_changes.

(** ** The whole *)

Record credentials_inv (d : db) : Prop := {
  ci_sessions : sessions_ok (d_agents d) (d_sessions d);
  ci_enrollments : enrollments_ok (d_agents d) (d_enrollments d);
  ci_capabilities : capabilities_ok (d_agents d) (d_capability_snapshots d) }.

Record credentials_grow (d d' : db) : Prop := {
  cg_agents : grows agent_advances (d_agents d) (d_agents d');
  cg_sessions : grows session_advances (d_sessions d) (d_sessions d');
  cg_enrollments : grows enrollment_advances (d_enrollments d) (d_enrollments d');
  cg_certificates : grows certificate_advances (d_certificates d) (d_certificates d');
  cg_snapshots : d_capability_snapshots d ⊆ d_capability_snapshots d' }.
#[export] Instance credentials_grow_refl : Reflexive credentials_grow.
Proof. intros d. constructor; [apply grows_refl, _..|done]. Qed.
#[export] Instance credentials_grow_trans : Transitive credentials_grow.
Proof. intros d1 d2 d3 [] []. constructor; [(eapply grows_trans; [apply _|done|done])..|by etrans]. Qed.

(** A call keeps the invariant and takes nothing back. *)
Definition sound_for (d d' : db) : Prop := credentials_inv d → credentials_inv d' ∧ credentials_grow d d'.

Definition same_credentials (d d' : db) : Prop :=
  d_agents d' = d_agents d ∧ d_sessions d' = d_sessions d ∧ d_enrollments d' = d_enrollments d ∧
  d_certificates d' = d_certificates d ∧ d_capability_snapshots d' = d_capability_snapshots d.

Lemma same_credentials_sound d d' : same_credentials d d' → sound_for d d'.
Proof.
  intros (Ha & Hs & He & Hc & Hk) []. split; constructor; rewrite ?Ha, ?Hs, ?He, ?Hc, ?Hk; try done; apply grows_refl, _.
Qed.

Lemma credentials_inv_empty d : d_agents d = ∅ → d_sessions d = ∅ → d_enrollments d = ∅ → d_capability_snapshots d = ∅ →
  credentials_inv d.
Proof.
  intros Ha Hs He Hk. split; rewrite ?Ha, ?Hs, ?He, ?Hk; split; intros *;
    rewrite ?lookup_empty; try done; try (by intros []); by split; intros [].
Qed.
End credentials.
