(* ===== verification/AgentRuns.v ===== *)
(** * Runs of the agent methods

    What a successful call of [Agents.v] found and what it changed, one record per outcome. *)
From stdpp Require Import pretty.
From S2P Require Import Prelude Regex Names Domain TargetSpec Kahn Graph Contract Records Url Json Tokens Db Tx Constraints Auth Jobs Groups GraphStore Executions Coordinator Lifecycle Progress LifecycleOps Frames Agents Credentials.

#[local] Opaque hashToken deriveToken.

Lemma keeps_authorizeRecipient {B} (p : db → B) principal ns : Keeps p (authorizeRecipient principal ns).
Proof.
  intros e d r d' Hrun. unfold authorizeRecipient in Hrun. destruct (authorizeNamespace _ _ _ e d) as [[q d1]|] eqn:Hr; [|done].
  injection Hrun as -> ->. by apply authorizeNamespace_authorized in Hr as [-> _].
Qed.
Ltac credentials_step := first [apply keeps_authorizeRecipient | keeps_step].
Ltac credentials_tac := repeat credentials_step.

Section runs.
Context (tokenKey : bytes).
#[local] Notation sessionHash := (sessionHash tokenKey).
#[local] Notation enrollmentHash := (enrollmentHash tokenKey).
#[local] Notation enrollments_ok := (enrollments_ok tokenKey).

(** The unique hash of a new row. *)
Lemma session_constraints d sid s : Forall (λ c, c.2 = true) (constraints d sid s) →
  ∀ i x, d_sessions d !! i = Some x → se_token_hash x = se_token_hash s → i = sid.
Proof.
  cbn. intros H. repeat (apply Forall_cons in H as [? H]). cbn in *. guard_inv.
  intros k y Hy Eh. match goal with H : ∀ _ _, _ → bool_decide _ = true → _ |- _ => eapply H; [done|by apply bool_decide_eq_true] end.
Qed.
Lemma enrollment_constraints d id t : Forall (λ c, c.2 = true) (constraints d id t) →
  ∀ i x, d_enrollments d !! i = Some x → en_token_hash x = en_token_hash t → i = id.
Proof.
  cbn. intros H. repeat (apply Forall_cons in H as [? H]). cbn in *. guard_inv.
  intros k y Hy Eh. match goal with H : ∀ _ _, _ → bool_decide _ = true → _ |- _ => eapply H; [done|by apply bool_decide_eq_true] end.
Qed.

(** The tables each call leaves alone. *)
Lemma CreateEnrollmentToken_frame actor ns target key digest request e d r d' :
  CreateEnrollmentToken tokenKey actor ns target key digest request e d = Ok (r, d') →
  d_agents d' = d_agents d ∧ d_sessions d' = d_sessions d ∧ d_certificates d' = d_certificates d ∧
  d_capability_snapshots d' = d_capability_snapshots d.
Proof. intros Hr. split_and!; (eapply keeps_after; [|exact Hr]); solve [credentials_tac]. Qed.

Lemma CreateEnrollmentToken_ok actor ns target key digest request e d r d' :
  CreateEnrollmentToken tokenKey actor ns target key digest request e d = Ok (r, d') →
  d_enrollments d' = d_enrollments d ∨
  ∃ id t, d_enrollments d !! id = None ∧ d_enrollments d' = <[id := t]> (d_enrollments d) ∧
    en_token_hash t = enrollmentHash id ∧ en_used_at t = None ∧ en_used_by_agent_id t = None ∧
    (∀ i x, d_enrollments d !! i = Some x → en_token_hash x = en_token_hash t → i = id) ∧
    en_expected_user t = er_ExpectedUser request ∧ et_ID r = id ∧ et_Token r = deriveToken tokenKey "jme" id.
Proof.
  intros Hr. unfold CreateEnrollmentToken in Hr. guard_inv.
  match goal with H : newID _ _ = Ok (?i, _) |- _ => rename i into enrollmentID; kept d_enrollments by (credentials_tac) on H as E1 end.
  match goal with H : authorizeNamespace _ _ _ _ _ = Ok _ |- _ => apply authorizeNamespace_authorized in H as [-> _] end.
  match goal with H : authorizeRecipient _ _ _ _ = Ok _ |- _ => kept d_enrollments by (credentials_tac) on H as E2 end.
  match goal with H : reserveIdempotency _ _ _ _ _ _ _ _ = Ok (?o, _) |- _ =>
    rename o into replayed; kept d_enrollments by (credentials_tac) on H as E3 end.
  match goal with H : match replayed with _ => _ end _ _ = _ |- _ => rename H into Hr end.
  destruct replayed as [resourceID|].
  { left. kept d_enrollments by (credentials_tac) on Hr as E4. congruence. }
  right. guard_inv. match goal with H : current_target _ _ _ = Some ?t |- _ => destruct t as [[[targetID tg] generationID] g] end. guard_inv.
  match goal with H : INSERT _ _ _ _ = Ok _ |- _ => apply INSERT_ok in H as (Hnone & Hcs & ->) end.
  match goal with H : completeIdempotency _ _ _ _ _ _ _ = Ok _ |- _ => kept d_enrollments by (credentials_tac) on H as E5 end.
  match goal with H : auditEnrollment _ _ _ _ _ _ _ _ = Ok _ |- _ => kept d_enrollments by (credentials_tac) on H as E6 end.
  pose proof (enrollment_constraints _ _ _ Hcs) as Hu. cbn in Hnone, Hu, E5.
  exists enrollmentID. eexists. rewrite E6, E5. rewrite E3, E2, E1 in *. split_and!; done.
Qed.

(** ** Enrollment *)

(** The token row a clear token names, with what its target offers now. *)
Record names_token (now : timestamptz) (d : db) (token : string) (id : string) (t : enrollment_row)
    (target : target_row) (g : generation_row) : Prop := {
  nt_row : d_enrollments d !! id = Some t;
  nt_hash : en_token_hash t = hashToken token;
  nt_target : d_targets d !! en_target_id t = Some target;
  nt_generation : d_generations d !! en_target_generation_id t = Some g;
  nt_current : tg_current_generation_id target = Some (en_target_generation_id t) }.

Lemma lookupEnrollmentForUpdate_ok token e d b d' : lookupEnrollmentForUpdate token e d = Ok (b, d') →
  d' = d ∧ ∃ id t target g, names_token (transaction_timestamp e) d token id t target g ∧
    b = binding_of (transaction_timestamp e) id t target g.
Proof.
  unfold lookupEnrollmentForUpdate. intros H. guard_inv. split; [done|].
  match goal with H : head _ = Some _ |- _ => apply head_Some_elem_of, list_elem_of_omap in H as ([id t] & Hin & Hb) end.
  apply elem_of_map_to_list in Hin. unfold enrollment_binding in Hb. cbn in Hb.
  apply bind_Some in Hb as (target & Ht & Hb). apply bind_Some in Hb as (g & Hg & Hb).
  case_match; [|done]. injection Hb as <-.
  match goal with H : _ && _ = true |- _ => apply andb_true_iff in H as [Hh%bool_decide_eq_true Hc%bool_decide_eq_true] end.
  by exists id, t, target, g.
Qed.

(** A first use: the token is fresh, the registration is what it allows, and the agent, its session and
    the use of the token are recorded together. *)
Record enrolled (token : string) (registration : AgentRegistration) (lifetime : Z) (e : env) (d d' : db)
    (r : AgentSession) (id : string) (t : enrollment_row) (target : target_row) (g : generation_row) : Prop := {
  enr_token : names_token (transaction_timestamp e) d token id t target g;
  enr_unused : en_used_at t = None;
  enr_live : transaction_timestamp e < en_expires_at t;
  enr_active : tg_state target = "active";
  enr_generation : ar_TargetGenerationID registration = en_target_generation_id t;
  enr_user : ar_ExecutionUser registration = en_expected_user t;
  enr_backend : gen_execution_backend g ∈ ar_ExecutionBackends registration;
  enr_system : gen_operating_systems g = [] ∨ ar_OperatingSystem registration ∈ gen_operating_systems g;
  enr_architecture : gen_architectures g = [] ∨ ar_Architecture registration ∈ gen_architectures g;
  enr_named : ags_AgentID r ≠ "";
  enr_new_agent : d_agents d !! ags_AgentID r = None;
  enr_new_session : d_sessions d !! ags_SessionID r = None;
  enr_new_hash : ∀ i x, d_sessions d !! i = Some x → se_token_hash x = sessionHash (ags_SessionID r) → i = ags_SessionID r;
  enr_agents : d_agents d' = <[ags_AgentID r :=
    new_agent (binding_of (transaction_timestamp e) id t target g) registration (transaction_timestamp e)]> (d_agents d);
  enr_sessions : d_sessions d' = <[ags_SessionID r :=
    new_session tokenKey (en_namespace_id t) (ags_AgentID r) (ags_SessionID r) lifetime (transaction_timestamp e)]> (d_sessions d);
  enr_enrollments : d_enrollments d' = <[id :=
    t <| en_used_at := Some (transaction_timestamp e); en_used_by_agent_id := Some (ags_AgentID r) |>]> (d_enrollments d);
  enr_certificates : d_certificates d' = d_certificates d;
  enr_snapshots : d_capability_snapshots d' = d_capability_snapshots d;
  enr_answer : ags_Token r = deriveToken tokenKey "jms" (ags_SessionID r) ∧ ags_Replayed r = false ∧
    ags_ExpiresAt r = UTC (transaction_timestamp e + to_interval lifetime) }.

Lemma allowsValue_true allowed v : allowsValue allowed v = true ↔ allowed = [] ∨ v ∈ allowed.
Proof.
  unfold allowsValue, slices_Contains, slice_len. rewrite orb_true_iff, !bool_decide_eq_true. split.
  - intros [Hl|?]; [|by right]. left. by destruct allowed.
  - intros [->|?]; [by left|by right].
Qed.

Lemma agent_constraints d aid a : Forall (λ c, c.2 = true) (constraints d aid a) →
  aid ≠ "" ∧ 0 ≤ ag_capability_revision a ≤ max_int64.
Proof.
  cbn. intros H. repeat (apply Forall_cons in H as [? H]). cbn in *. split.
  - by match goal with H : negb (eqs aid "") = true |- _ => apply negb_true_iff, eqs_false in H end.
  - by match goal with H : bool_decide (0 ≤ _ ≤ _) = true |- _ => apply bool_decide_eq_true in H end.
Qed.

Lemma insert_audit_ok row e d u d' : insert_audit row e d = Ok (u, d') → ∃ l, d' = d <| d_audit := l |>.
Proof. unfold insert_audit. intros [_ [= _ <-]]%bind_unit_ok. eauto. Qed.
Lemma audit_principal_ok ns p action kind id digest key details e d u d' :
  audit_principal ns p action kind id digest key details e d = Ok (u, d') → ∃ l, d' = d <| d_audit := l |>.
Proof. unfold audit_principal. intros H. guard_inv. by eapply insert_audit_ok. Qed.
Lemma audit_agent_ok ns p action kind id digest details e d u d' :
  audit_agent ns p action kind id digest details e d = Ok (u, d') → ∃ l, d' = d <| d_audit := l |>.
Proof. unfold audit_agent. intros H. guard_inv. by eapply insert_audit_ok. Qed.

Lemma consume_enrollment_ok token registration lifetime e d r d' id t target g agentID sessionID :
  names_token (transaction_timestamp e) d token id t target g → en_used_by_agent_id t = None →
  enrollments_ok (d_agents d) (d_enrollments d) →
  consume_enrollment tokenKey (binding_of (transaction_timestamp e) id t target g) registration lifetime agentID sessionID e d = Ok (r, d') →
  enrolled token registration lifetime e d d' r id t target g.
Proof.
  intros Hn Hby I Hr. unfold consume_enrollment in Hr. guard_inv. cbn [eb_expired eb_targetState eb_generationID eb_expectedUser
    eb_executionBackend eb_operatingSystems eb_architectures binding_of] in *.
  repeat match goal with H : _ || _ = false |- _ => apply orb_false_iff in H as [? ?] end.
  repeat match goal with H : negb _ = false |- _ => apply negb_false_iff in H end. guard_inv.
  repeat match goal with H : allowsValue _ _ = true |- _ => apply allowsValue_true in H
                       | H : slices_Contains _ _ = true |- _ => apply slices_Contains_spec in H
                       | H : bool_decide _ = false |- _ => apply bool_decide_eq_false in H
                       | H : bool_decide _ = true |- _ => apply bool_decide_eq_true in H end.
  match goal with H : INSERT agentID _ _ _ = Ok _ |- _ => apply INSERT_ok in H as (Hna & Hca & ->) end.
  match goal with H : INSERT sessionID _ _ _ = Ok _ |- _ => apply INSERT_ok in H as (Hns & Hcs & ->) end.
  match goal with H : UPDATE _ _ _ _ _ = Ok _ |- _ => apply UPDATE_ok in H as [(old & row & Hold & Hu & -> & Hce & _ & Ha)|(? & _)]; [|done] end.
  cbn in Hold, Ha, Hns. apply tx_ret_ok in Ha as [_ ->]. rewrite (nt_row _ _ _ _ _ _ _ Hn) in Hold. injection Hold as <-.
  match goal with H : audit_principal _ _ _ _ _ _ _ _ _ _ = Ok _ |- _ => apply audit_principal_ok in H as [l ->] end.
  apply negb_true_iff, is_some_false in Hu. pose proof (session_constraints _ _ _ Hcs) as Hh. cbn in Hh.
  apply agent_constraints in Hca as [Hne _].
  split; cbn; try done; lia.
Qed.

(** A later use: the token was consumed by the same registration, whose current session is returned. *)
Record replayed (token : string) (registration : AgentRegistration) (e : env) (d : db) (r : AgentSession)
    (id : string) (t : enrollment_row) (a : agent_row) (s : session_row) : Prop := {
  rep_row : d_enrollments d !! id = Some t;
  rep_hash : en_token_hash t = hashToken token;
  rep_used : en_used_by_agent_id t = Some (ags_AgentID r);
  rep_agent : d_agents d !! ags_AgentID r = Some a;
  rep_digest : ag_registration_digest a = ar_RequestDigest registration;
  rep_session : d_sessions d !! ags_SessionID r = Some s;
  rep_owner : se_agent_id s = ags_AgentID r;
  rep_live : se_revoked_at s = None;
  rep_unexpired : transaction_timestamp e < se_expires_at s;
  rep_answer : ags_Token r = deriveToken tokenKey "jms" (ags_SessionID r) ∧ ags_Replayed r = true ∧
    ags_ExpiresAt r = UTC (se_expires_at s) }.

Lemma latest_session_in l x : latest_session l = Some x → x ∈ l.
Proof. unfold latest_session. intros H%head_Some_elem_of. by apply elem_of_order_by in H. Qed.

Lemma replayEnrollment_ok token registration e d r d' id t target g :
  names_token (transaction_timestamp e) d token id t target g → is_Some (en_used_by_agent_id t) →
  replayEnrollment tokenKey (binding_of (transaction_timestamp e) id t target g) (ar_RequestDigest registration) e d = Ok (r, d') →
  d' = d ∧ ∃ a s, replayed token registration e d r id t a s.
Proof.
  intros Hn [aid Hby] Hr. unfold replayEnrollment in Hr. guard_inv. cbn [eb_usedAgentID binding_of] in *. rewrite Hby in *. cbn [from_option Datatypes.id] in *.
  match goal with H : mbind _ _ = Some _ |- _ => apply bind_Some in H as ([sid s] & Hl & Hrow) end.
  apply bind_Some in Hrow as (a & Ha & Hrow). injection Hrow as <-. guard_inv.
  repeat match goal with H : negb _ = false |- _ => apply negb_false_iff in H end. guard_inv.
  apply latest_session_in, elem_of_select in Hl as [Hs Hc]. rewrite !andb_true_iff, negb_true_iff in Hc. destruct Hc as [[Ho Hrev] Hexp].
  guard_inv. split; [done|]. destruct Hn.
  exists a, s. by split.
Qed.

Lemma enrolled_ids token reg life e d ids d' r id t target g :
  enrolled token reg life e (d <| d_ids := ids |>) d' r id t target g → enrolled token reg life e d d' r id t target g.
Proof. intros [[]]. by split. Qed.
Lemma replayed_ids token reg e d ids r id t a s :
  replayed token reg e (d <| d_ids := ids |>) r id t a s → replayed token reg e d r id t a s.
Proof. intros []. by split. Qed.

Lemma EnrollAgent_ok token registration lifetime e d r d' :
  EnrollAgent tokenKey token registration lifetime e d = Ok (r, d') → enrollments_ok (d_agents d) (d_enrollments d) →
  (∃ id t target g, enrolled token registration lifetime e d d' r id t target g) ∨
  (same_credentials d d' ∧ ∃ id t a s, replayed token registration e d r id t a s).
Proof.
  intros Hr I. unfold EnrollAgent in Hr. guard_inv.
  repeat match goal with H : newID _ _ = Ok _ |- _ => apply newID_ok in H as (? & ? & ->) end.
  match goal with H : lookupEnrollmentForUpdate _ _ _ = Ok _ |- _ => apply lookupEnrollmentForUpdate_ok in H as (-> & id & t & target & g & Hn & ->) end.
  cbn [eb_usedAgentID binding_of] in *. pose proof (nt_row _ _ _ _ _ _ _ Hn) as Ht. cbn in Ht.
  destruct (en_used_by_agent_id t) as [aid|] eqn:Hby; cbn [from_option Datatypes.id] in *.
  - destruct (eo_used _ _ _ I _ _ _ Ht Hby) as (b & Hb & _).
    assert (aid ≠ "") as Hne%eqs_false by (intros ->; by rewrite (eo_nonempty _ _ _ I) in Hb).
    rewrite Hne in *. cbn [negb] in *. right.
    match goal with H : replayEnrollment _ _ _ _ _ = Ok _ |- _ => apply (replayEnrollment_ok token) in H as (-> & a & s & Hrep); [|done|by rewrite Hby] end.
    split; [by split_and!|]. exists id, t, a, s. by do 2 eapply replayed_ids.
  - rewrite eqs_refl in *. cbn [negb] in *. left. exists id, t, target, g. do 2 eapply enrolled_ids.
    match goal with H : consume_enrollment _ _ _ _ _ _ _ _ = Ok _ |- _ => by apply (consume_enrollment_ok token) in H end.
Qed.

(** ** Sessions *)

(** The session row a clear token authenticates. *)
Record names_session (now : timestamptz) (d : db) (token sid : string) (s : session_row) (a : agent_row) : Prop := {
  ns_row : d_sessions d !! sid = Some s;
  ns_hash : se_token_hash s = hashToken token;
  ns_live : se_revoked_at s = None;
  ns_unexpired : now < se_expires_at s;
  ns_agent : d_agents d !! se_agent_id s = Some a;
  ns_present : agent_present d a = true }.

Lemma session_of_token_some now d token sid s a :
  session_of_token now d (hashToken token) = Some (sid, s, a) → names_session now d token sid s a.
Proof.
  unfold session_of_token. intros ([i x] & Hl & Hrow)%bind_Some. apply bind_Some in Hrow as (b & Hb & [= <- <- <-]).
  apply head_Some_elem_of, elem_of_select in Hl as [Hs Hc]. unfold authenticates in Hc.
  rewrite !andb_true_iff, negb_true_iff in Hc. destruct Hc as [[[Hh Hrev] Hexp] Hag]. guard_inv.
  split; try done. by simplify_eq.
Qed.

(** A live session whose hash is the only one of its value is found. *)
Lemma session_of_token_intro now d token sid s a : names_session now d token sid s a →
  (∀ i x, d_sessions d !! i = Some x → se_token_hash x = hashToken token → i = sid) →
  session_of_token now d (hashToken token) = Some (sid, s, a).
Proof.
  intros [Hs Hh Hr He Ha Hp] Hu. unfold session_of_token.
  assert ((sid, s) ∈ select (λ _, authenticates now d (hashToken token)) (d_sessions d)) as Hin.
  { apply elem_of_select. split; [done|]. unfold authenticates. rewrite Hr, !bool_decide_true by done. cbn. unfold exists_row. by rewrite Ha. }
  destruct (head _) as [[i x]|] eqn:Hl.
  - apply head_Some_elem_of, elem_of_select in Hl as [Hx Hc]. unfold authenticates in Hc.
    rewrite !andb_true_iff in Hc. destruct Hc as [[[Hxh _] _] _]. apply bool_decide_eq_true in Hxh.
    pose proof (Hu _ _ Hx Hxh) as ->. rewrite Hs in Hx. injection Hx as <-. cbn. by rewrite Ha.
  - destruct (select _ _); [by apply not_elem_of_nil in Hin|done].
Qed.

(** No live session has the hash of the token. *)
Lemma session_of_token_none now d token :
  (∀ i x, d_sessions d !! i = Some x → se_token_hash x = hashToken token → is_Some (se_revoked_at x)) →
  session_of_token now d (hashToken token) = None.
Proof.
  intros Hno. destruct (session_of_token now d (hashToken token)) as [[[sid s] a]|] eqn:Hs; [|done].
  apply session_of_token_some in Hs as [Hr Hh Hlive _ _ _]. destruct (Hno _ _ Hr Hh). congruence.
Qed.

Record renewed (token : string) (lifetime : Z) (e : env) (d d' : db) (r : AgentSession) (sid : string) (s : session_row)
    (a : agent_row) : Prop := {
  rn_old : names_session (transaction_timestamp e) d token sid s a;
  rn_agent : ags_AgentID r = se_agent_id s;
  rn_new : d_sessions d !! ags_SessionID r = None;
  rn_new_hash : ∀ i x, d_sessions d !! i = Some x → se_token_hash x = sessionHash (ags_SessionID r) → i = ags_SessionID r;
  rn_sessions : d_sessions d' = <[sid := s <| se_revoked_at := Some (transaction_timestamp e);
      se_replaced_by_session_id := Some (ags_SessionID r) |>]>
    (<[ags_SessionID r := new_session tokenKey (ag_namespace_id a) (se_agent_id s) (ags_SessionID r) lifetime (transaction_timestamp e)]> (d_sessions d));
  rn_agents : d_agents d' = d_agents d;
  rn_enrollments : d_enrollments d' = d_enrollments d;
  rn_certificates : d_certificates d' = d_certificates d;
  rn_snapshots : d_capability_snapshots d' = d_capability_snapshots d;
  rn_answer : ags_Token r = deriveToken tokenKey "jms" (ags_SessionID r) ∧ ags_Replayed r = false ∧
    ags_ExpiresAt r = UTC (transaction_timestamp e + to_interval lifetime) }.

Lemma RenewAgentSession_ok token lifetime e d r d' : RenewAgentSession tokenKey token lifetime e d = Ok (r, d') →
  ∃ sid s a, renewed token lifetime e d d' r sid s a.
Proof.
  intros Hr. unfold RenewAgentSession in Hr. guard_inv.
  match goal with H : newID _ _ = Ok (?i, _) |- _ => apply newID_ok in H as (ids & _ & ->); rename i into new end.
  match goal with H : session_of_token _ _ _ = Some ?x |- _ => destruct x as [[sid s] a]; apply session_of_token_some in H as Hn end.
  guard_inv.
  match goal with H : INSERT new _ _ _ = Ok _ |- _ => apply INSERT_ok in H as (Hns & Hcs & ->) end. cbn in Hns.
  pose proof (ns_row _ _ _ _ _ _ Hn) as Hs. cbn in Hs.
  match goal with H : UPDATE sid _ _ _ _ = Ok _ |- _ => apply UPDATE_ok in H as [(old & row & Hold & _ & -> & Hce & _ & Ha)|(_ & _ & Hno)] end.
  2: { discriminate (Hno s). cbn. rewrite lookup_insert_ne; congruence. }
  cbn in Hold, Ha. apply tx_ret_ok in Ha as [_ ->]. rewrite lookup_insert_ne in Hold by congruence. rewrite Hs in Hold. injection Hold as <-.
  pose proof (session_constraints _ _ _ Hcs) as Hh. cbn in Hh.
  exists sid, s, a. split; try done. destruct Hn. by split.
Qed.

Lemma AuthenticateAgent_ok token e d i d' : AuthenticateAgent token e d = Ok (i, d') →
  ∃ sid s a n, names_session (transaction_timestamp e) d token sid s a ∧
    d_namespaces d !! ag_namespace_id a = Some n ∧
    i = {| ai_AgentID := se_agent_id s; ai_NamespaceID := ag_namespace_id a; ai_Namespace := ns_name n;
           ai_PrincipalID := ag_principal_id a; ai_TargetID := ag_target_id a;
           ai_TargetGenerationID := ag_target_generation_id a; ai_CertificateSerial := "" |} ∧
    d' = d <| d_sessions := <[sid := s <| se_last_seen_at := Some (transaction_timestamp e) |>]> (d_sessions d) |>.
Proof.
  intros Hr. unfold AuthenticateAgent in Hr. guard_inv.
  match goal with H : mbind _ _ = Some ?x |- _ => destruct x as [sid' i']; apply bind_Some in H as ([[sid s] a] & Hs & Hrow) end.
  apply session_of_token_some in Hs. unfold identity_of in Hrow. apply bind_Some in Hrow as (i2 & Hi & [= <- <-]).
  apply bind_Some in Hi as (n & Hn & [= <-]). guard_inv.
  match goal with H : UPDATE sid _ _ _ _ = Ok _ |- _ => apply UPDATE_ok in H as [(old & row & Hold & _ & -> & _ & _ & Ha)|(_ & _ & Hno)] end.
  2: { discriminate (Hno s). apply Hs. }
  cbn in Hold, Ha. apply tx_ret_ok in Ha as [_ ->]. rewrite (ns_row _ _ _ _ _ _ Hs) in Hold. injection Hold as <-.
  by exists sid, s, a, n.
Qed.

(** ** Certificates *)

Lemma RecordAgentCertificate_ok aid cert e d u d' : RecordAgentCertificate aid cert e d = Ok (u, d') →
  ∃ a, d_agents d !! aid = Some a ∧ ag_status a = "active" ∧
    d_agents d' = d_agents d ∧ d_sessions d' = d_sessions d ∧ d_enrollments d' = d_enrollments d ∧
    d_capability_snapshots d' = d_capability_snapshots d ∧
    let row := new_certificate (ag_namespace_id a) aid cert (transaction_timestamp e) in
    ((d_certificates d !! cert_Serial cert = None ∧ d_certificates d' = <[cert_Serial cert := row]> (d_certificates d)) ∨
     (∃ c, d_certificates d !! cert_Serial cert = Some c ∧ crt_agent_id c = aid ∧
        crt_public_key_digest c = crt_public_key_digest row ∧ crt_not_after c = crt_not_after row ∧
        d_certificates d' = d_certificates d)).
Proof.
  intros Hr. unfold RecordAgentCertificate in Hr. guard_inv.
  match goal with H : match d_agents d !! aid with _ => _ end _ _ = _ |- _ => rename H into Hm end.
  destruct (d_agents d !! aid) as [a|] eqn:Ha; [|by guard_inv].
  destruct (eqs (ag_status a) "active") eqn:Hst; [|by guard_inv]. apply eqs_true in Hst.
  exists a. split; [done|]. split; [done|]. destruct (d_certificates d !! cert_Serial cert) as [c|] eqn:Hc.
  - apply UPDATE_ok in Hm as [(old & row & Hold & Hp & -> & _ & _ & Hd)|(? & _)]; [|by guard_inv].
    cbn in Hold, Hd. apply tx_ret_ok in Hd as [_ ->]. rewrite Hc in Hold. injection Hold as <-.
    apply andb_true_iff in Hp as [[Hpa Hpk]%andb_true_iff Hpe%bool_decide_eq_true]. apply eqs_true in Hpa, Hpk.
    cbn. rewrite insert_id by done. split_and!; [done..|]. right. by exists c.
  - guard_inv. match goal with H : INSERT _ _ _ _ = Ok _ |- _ => apply INSERT_ok in H as (_ & _ & ->) end. cbn. split_and!; [done..|]. by left.
Qed.

Record rotated (i : AgentIdentity) (cert : AgentCertificate) (e : env) (d d' : db) (c : certificate_row) : Prop := {
  rc_old : <[cert_Serial cert := new_certificate (ai_NamespaceID i) (ai_AgentID i) cert (transaction_timestamp e)]> (d_certificates d)
    !! ai_CertificateSerial i = Some c;
  rc_agent : crt_agent_id c = ai_AgentID i;
  rc_live : crt_revoked_at c = None;
  rc_unexpired : transaction_timestamp e < crt_not_after c;
  rc_new : d_certificates d !! cert_Serial cert = None;
  rc_certificates : d_certificates d' = <[ai_CertificateSerial i := c <| crt_revoked_at := Some (transaction_timestamp e);
      crt_replaced_by_serial := Some (cert_Serial cert) |>]>
    (<[cert_Serial cert := new_certificate (ai_NamespaceID i) (ai_AgentID i) cert (transaction_timestamp e)]> (d_certificates d));
  rc_agents : d_agents d' = d_agents d;
  rc_sessions : d_sessions d' = d_sessions d;
  rc_enrollments : d_enrollments d' = d_enrollments d;
  rc_snapshots : d_capability_snapshots d' = d_capability_snapshots d }.

Lemma RotateAgentCertificate_ok i cert e d u d' : RotateAgentCertificate i cert e d = Ok (u, d') → ∃ c, rotated i cert e d d' c.
Proof.
  intros Hr. unfold RotateAgentCertificate in Hr. guard_inv.
  match goal with H : INSERT _ _ _ _ = Ok _ |- _ => apply INSERT_ok in H as (Hnone & _ & ->) end. cbn in Hnone.
  match goal with H : negb (bool_decide (?x = 1)) = false |- _ => apply negb_false_iff, bool_decide_eq_true in H; subst x | _ => idtac end.
  match goal with H : UPDATE _ _ _ _ _ = Ok _ |- _ => apply UPDATE_ok in H as [(old & row & Hold & Hp & -> & _ & _ & Ha)|(? & _)]; [|done] end.
  cbn in Hold, Ha. apply tx_ret_ok in Ha as [_ ->]. rewrite !andb_true_iff, negb_true_iff in Hp. destruct Hp as [[Hpa Hpr] Hpe].
  apply bool_decide_eq_true in Hpe. guard_inv. exists old. by split.
Qed.

Lemma AuthenticateAgentCertificate_ok aid serial key e d i d' : AuthenticateAgentCertificate aid serial key e d = Ok (i, d') →
  ∃ a c n, d_agents d !! aid = Some a ∧ d_certificates d !! serial = Some c ∧ d_namespaces d !! ag_namespace_id a = Some n ∧
    crt_public_key_digest c = key ∧ crt_agent_id c = aid ∧ crt_namespace_id c = ag_namespace_id a ∧ crt_revoked_at c = None ∧
    transaction_timestamp e < crt_not_after c ∧ agent_present d a = true ∧
    i = {| ai_AgentID := aid; ai_NamespaceID := ag_namespace_id a; ai_Namespace := ns_name n;
           ai_PrincipalID := ag_principal_id a; ai_TargetID := ag_target_id a;
           ai_TargetGenerationID := ag_target_generation_id a; ai_CertificateSerial := serial |} ∧
    d' = d <| d_agents := <[aid := a <| ag_updated_at := transaction_timestamp e;
                                       ag_last_seen_at := Some (transaction_timestamp e) |>]> (d_agents d) |>.
Proof.
  intros Hr. unfold AuthenticateAgentCertificate in Hr. guard_inv.
  match goal with H : mbind _ _ = Some _ |- _ => apply bind_Some in H as (a & Ha & Hrow) end.
  apply bind_Some in Hrow as (c & Hc & Hrow). case_match eqn:Hv; [|done].
  unfold identity_of in Hrow. apply bind_Some in Hrow as (n & Hn & [= <-]).
  apply andb_true_iff in Hv as [Hv Hp]. unfold certificate_valid in Hv. rewrite !andb_true_iff, negb_true_iff in Hv.
  destruct Hv as [[[[Hk Hag] Hns] Hrev] Hexp]. apply bool_decide_eq_true in Hexp. guard_inv.
  match goal with H : UPDATE _ _ _ _ _ = Ok _ |- _ => apply UPDATE_ok in H as [(old & row & Hold & _ & -> & _ & _ & Hd)|(_ & _ & Hno)] end.
  2: { discriminate (Hno a). done. }
  cbn in Hold, Hd. apply tx_ret_ok in Hd as [_ ->]. rewrite Ha in Hold. injection Hold as <-.
  by exists a, c, n.
Qed.

(** ** Capability observations *)

Record reported (i : AgentIdentity) (c : AgentCapabilities) (e : env) (d d' : db) (r : AgentCapabilitySnapshot) (a : agent_row)
    (g : generation_row) : Prop := {
  rp_agent : d_agents d !! ai_AgentID i = Some a;
  rp_generation : d_generations d !! ag_target_generation_id a = Some g;
  rp_present : agent_present d a = true;
  rp_backend : gen_execution_backend g ∈ ac_ExecutionBackends c;
  rp_runtimes : ∀ v, v ∈ ac_Runtimes c → v ∈ gen_runtimes g;
  rp_host : ag_operating_system a = ac_OperatingSystem c ∧ ag_architecture a = ac_Architecture c ∧
    ag_hostname a = ac_Hostname c ∧ ag_execution_user a = ac_ExecutionUser c;
  rp_new : ∀ k x, d_capability_snapshots d !! (ai_AgentID i, k) = Some x → cap_document_digest x ≠ ac_DocumentDigest c;
  rp_revision : acs_Revision r = ag_capability_revision a + 1 ∧ acs_Revision r ≤ max_int64;
  rp_fresh : d_capability_snapshots d !! (ai_AgentID i, acs_Revision r) = None;
  rp_snapshots : ∃ document, json_Unmarshal (ac_Document c) = Ok document ∧
    d_capability_snapshots d' = <[(ai_AgentID i, acs_Revision r) :=
      capability_snapshot i c document (transaction_timestamp e)]> (d_capability_snapshots d);
  rp_agents : d_agents d' = <[ai_AgentID i := project_capabilities c (acs_Revision r) (transaction_timestamp e) a]> (d_agents d);
  rp_sessions : d_sessions d' = d_sessions d;
  rp_enrollments : d_enrollments d' = d_enrollments d;
  rp_certificates : d_certificates d' = d_certificates d;
  rp_answer : acs_Replayed r = false }.

Lemma capability_agent_ok d i a g : capability_agent d i = Some (a, g) →
  d_agents d !! ai_AgentID i = Some a ∧ d_generations d !! ag_target_generation_id a = Some g ∧ agent_present d a = true ∧
  ag_namespace_id a = ai_NamespaceID i.
Proof.
  unfold capability_agent. intros (b & Hb & Hrow)%bind_Some. apply bind_Some in Hrow as (h & Hh & Hrow).
  case_match eqn:Hc; [|done]. injection Hrow as <- <-. rewrite !andb_true_iff in Hc. destruct Hc as [[Hns _] Hp]. guard_inv. done.
Qed.

Lemma recorded_revision_some d aid digest k : recorded_revision d aid digest = Some k →
  ∃ c, d_capability_snapshots d !! (aid, k) = Some c ∧ cap_document_digest c = digest.
Proof.
  unfold recorded_revision. rewrite fmap_Some. intros ([[a' k'] c] & Hl & ->).
  apply head_Some_elem_of, elem_of_select in Hl as [Hc [Ha Hd]%andb_true_iff]. cbn in *. guard_inv. by exists c.
Qed.
Lemma recorded_revision_none d aid digest : recorded_revision d aid digest = None →
  ∀ k c, d_capability_snapshots d !! (aid, k) = Some c → cap_document_digest c ≠ digest.
Proof.
  unfold recorded_revision. intros Hn k c Hc Hd.
  assert (((aid, k), c) ∈ select (λ k c, eqs k.1 aid && eqs (cap_document_digest c) digest) (d_capability_snapshots d)) as Hin.
  { apply elem_of_select. split; [done|]. cbn. subst. by rewrite !eqs_refl. }
  destruct (select _ _); [by apply not_elem_of_nil in Hin|done].
Qed.

Lemma snapshot_constraints d k c : Forall (λ c, c.2 = true) (constraints d k c) → 1 ≤ k.2 ≤ max_int64.
Proof.
  cbn. intros H. repeat (apply Forall_cons in H as [? H]). cbn in *.
  match goal with H : bigint_positive _ = true |- _ => apply bool_decide_eq_true in H end. lia.
Qed.

Lemma isSubset_spec values allowed : isSubset values allowed = true ↔ ∀ v, v ∈ values → v ∈ allowed.
Proof.
  unfold isSubset. rewrite forallb_forall. setoid_rewrite <-list_elem_of_In. setoid_rewrite slices_Contains_spec. done.
Qed.

Lemma RecordAgentCapabilities_ok i c e d r d' : RecordAgentCapabilities i c e d = Ok (r, d') →
  (∀ aid a, d_agents d !! aid = Some a → 0 ≤ ag_capability_revision a ≤ max_int64) →
  (∃ a g, reported i c e d d' r a g) ∨
  (d' = d ∧ acs_Replayed r = true ∧ ∃ x, d_capability_snapshots d !! (ai_AgentID i, acs_Revision r) = Some x ∧
     cap_document_digest x = ac_DocumentDigest c).
Proof.
  intros Hr Hrange. unfold RecordAgentCapabilities in Hr. guard_inv.
  match goal with H : capability_agent _ _ = Some ?x |- _ => destruct x as [a g]; apply capability_agent_ok in H as (Ha & Hg & Hp & _) end.
  match goal with H : match recorded_revision ?d ?a ?k with _ => _ end _ _ = _ |- _ => destruct (recorded_revision d a k) as [k'|] eqn:Hrev end.
  { apply recorded_revision_some in Hrev as (x & Hx & Hd). guard_inv. right. split_and!; [done..|]. by exists x. }
  guard_inv. cbv zeta in *. guard_inv.
  repeat match goal with H : _ || _ = false |- _ => apply orb_false_iff in H as [? ?] end.
  repeat match goal with H : negb _ = false |- _ => apply negb_false_iff in H end. guard_inv.
  match goal with H : INSERT _ _ _ _ = Ok _ |- _ => apply INSERT_ok in H as (Hnone & Hcs & ->) end. cbn in Hnone.
  match goal with H : UPDATE _ _ _ _ _ = Ok _ |- _ => apply UPDATE_ok in H as [(old & row & Hold & _ & -> & _ & _ & Hd)|(_ & _ & Hno)] end.
  2: { discriminate (Hno a). done. }
  cbn in Hold, Hd. apply tx_ret_ok in Hd as [_ ->]. rewrite Ha in Hold. injection Hold as <-.
  match goal with H : audit_agent _ _ _ _ _ _ _ _ _ = Ok _ |- _ => apply audit_agent_ok in H as [l ->] end.
  apply snapshot_constraints in Hcs. pose proof (Hrange _ _ Ha) as Hr0. cbn [fst snd] in Hcs.
  assert (wrap64 (ag_capability_revision a + 1) = ag_capability_revision a + 1) as Hw.
  { unfold wrap64 in *. destruct (decide (ag_capability_revision a = max_int64)) as [E|Hne].
    - rewrite E in Hcs. vm_compute in Hcs. destruct Hcs as [Hcs _]. by destruct Hcs.
    - unfold max_int64 in *. rewrite Z.mod_small by lia. lia. }
  left. exists a, g.
  rewrite Hw in Hnone, Hcs. split; cbn; rewrite ?Hw; try done; [by apply isSubset_spec|by eapply recorded_revision_none|lia|by eexists].
Qed.
End runs.
