(* ===== verification/CredentialHistory.v ===== *)
(** * Histories of credentials

    The agent methods as a transition system on the five credential tables, and what holds in every
    history: the invariant of [Credentials.v], single use of enrollment tokens, finality of revocation,
    and that an authenticated agent is the one its token was issued for. *)
From stdpp Require Import pretty.
From S2P Require Import Prelude Regex Names Domain TargetSpec Kahn Graph Contract Records Url Json Tokens Db Tx Constraints Auth Jobs HistoryImport Groups GraphStore Executions Coordinator Lifecycle Progress LifecycleOps Frames Agents Delivery System Credentials AgentRuns.

(** Close what the context states; [done] would try to compute the hashes in it. *)
Ltac stated := first [assumption | reflexivity | apply grows_refl; apply _ | idtac].

(** One committed call.  [cstep_elsewhere] is any other change of the database. *)
Inductive credential_step (tokenKey : bytes) : db → db → Prop :=
  | cstep_create actor ns target key digest request e d r d' :
      CreateEnrollmentToken tokenKey actor ns target key digest request e d = Ok (r, d') → credential_step tokenKey d d'
  | cstep_enroll token registration lifetime e d r d' :
      EnrollAgent tokenKey token registration lifetime e d = Ok (r, d') → credential_step tokenKey d d'
  | cstep_renew token lifetime e d r d' : RenewAgentSession tokenKey token lifetime e d = Ok (r, d') → credential_step tokenKey d d'
  | cstep_authenticate token e d i d' : AuthenticateAgent token e d = Ok (i, d') → credential_step tokenKey d d'
  | cstep_record aid cert e d u d' : RecordAgentCertificate aid cert e d = Ok (u, d') → credential_step tokenKey d d'
  | cstep_rotate i cert e d u d' : RotateAgentCertificate i cert e d = Ok (u, d') → credential_step tokenKey d d'
  | cstep_certificate aid serial key e d i d' :
      AuthenticateAgentCertificate aid serial key e d = Ok (i, d') → credential_step tokenKey d d'
  | cstep_report i c e d r d' : RecordAgentCapabilities i c e d = Ok (r, d') → credential_step tokenKey d d'
  | cstep_elsewhere d d' : same_credentials d d' → credential_step tokenKey d d'.

Section history.
Context (tokenKey : bytes).
#[local] Notation credential_step := (credential_step tokenKey).
#[local] Notation credentials_inv := (credentials_inv tokenKey).
#[local] Notation sound_for := (sound_for tokenKey).
#[local] Notation sessionHash := (sessionHash tokenKey).

(** ** Every call keeps the invariant *)

Lemma grows_fresh {R} (adv : R → R → Prop) `{!Reflexive adv} (m : gmap string R) k v : m !! k = None → grows adv m (<[k := v]> m).
Proof. by apply grows_insert_fresh. Qed.
Lemma grows_set {R} (adv : R → R → Prop) `{!Reflexive adv} (m : gmap string R) k v v' :
  m !! k = Some v → adv v v' → grows adv m (<[k := v']> m).
Proof. intros Hk Hadv. apply grows_insert; [apply _|]. intros w Hw. by simplify_eq. Qed.

Lemma create_sound actor ns target key digest request e d r d' :
  CreateEnrollmentToken tokenKey actor ns target key digest request e d = Ok (r, d') → sound_for d d'.
Proof.
  intros Hr. destruct (CreateEnrollmentToken_frame _ _ _ _ _ _ _ _ _ _ _ Hr) as (Ha & Hs & Hc & Hk).
  apply CreateEnrollmentToken_ok in Hr as [He|(id & t & Hnone & He & Hh & Hat & Hby & Hu & _)].
  - apply same_credentials_sound. by split_and!.
  - intros [Is Ie Ik]. split; constructor; rewrite ?Ha, ?Hs, ?Hc, ?Hk, ?He; stated.
    + apply enrollments_ok_issue; assumption.
    + apply grows_fresh; [apply _|assumption].
Qed.

Lemma enrolled_sound token registration lifetime e d d' r id t target g :
  enrolled tokenKey token registration lifetime e d d' r id t target g → sound_for d d'.
Proof.
  intros [Hn Hun _ _ Hg Hu _ _ _ Hne Ha Hs Hh Ea Es Ee Ec Ek _] [Is Ie Ik].
  split; constructor; rewrite ?Ea, ?Es, ?Ec, ?Ek, ?Ee; stated.
  - apply sessions_ok_enroll; stated.
  - apply (enrollments_ok_use _ _ _ id t); [apply Hn|exact Hun|exact Ha|exact Hne|split; stated|reflexivity|eexists; reflexivity|reflexivity|split; stated|exact Ie].
  - apply capabilities_ok_enroll; stated.
  - apply grows_fresh; [apply _|assumption].
  - apply grows_fresh; [apply _|assumption].
  - eapply grows_set; [apply _|apply Hn|]. split; [reflexivity|]. intros Hsome. exfalso.
    apply (eo_use _ _ _ Ie _ _ (nt_row _ _ _ _ _ _ _ Hn)) in Hsome. rewrite Hun in Hsome. by destruct Hsome.
Qed.

Lemma enroll_sound token registration lifetime e d r d' :
  EnrollAgent tokenKey token registration lifetime e d = Ok (r, d') → sound_for d d'.
Proof.
  intros Hr I. apply EnrollAgent_ok in Hr as [(id & t & target & g & Hen)|[Hsame _]]; [|..|apply I].
  - by eapply enrolled_sound.
  - by apply same_credentials_sound.
Qed.

Lemma renew_sound token lifetime e d r d' : RenewAgentSession tokenKey token lifetime e d = Ok (r, d') → sound_for d d'.
Proof.
  intros Hr [Is Ie Ik]. apply RenewAgentSession_ok in Hr as (sid & s & a & [Hn Hag Hnew Hh Es Ea Ee Ec Ek _]).
  pose proof (ns_row _ _ _ _ _ _ Hn) as Hs. pose proof (ns_live _ _ _ _ _ _ Hn) as Hl.
  split; constructor; rewrite ?Ea, ?Es, ?Ec, ?Ek, ?Ee; stated.
  - apply sessions_ok_rotate; stated. destruct (so_agent _ _ _ Is _ _ Hs) as (b & Hb & <-).
    rewrite (ns_agent _ _ _ _ _ _ Hn) in Hb. injection Hb as <-. reflexivity.
  - etrans; [eapply (grows_fresh session_advances _ (ags_SessionID r)); assumption|]. eapply grows_set; [apply _| |].
    + rewrite lookup_insert_ne; [exact Hs|]. intros E. rewrite E, Hs in Hnew. discriminate Hnew.
    + split; stated. rewrite Hl. intros [? [=]].
Qed.

Lemma authenticate_sound token e d i d' : AuthenticateAgent token e d = Ok (i, d') → sound_for d d'.
Proof.
  intros Hr [Is Ie Ik]. apply AuthenticateAgent_ok in Hr as (sid & s & a & n & Hn & _ & _ & ->).
  pose proof (ns_row _ _ _ _ _ _ Hn) as Hs.
  split; constructor; cbn; try done; try apply grows_refl, _.
  - by eapply sessions_ok_touch.
  - by eapply grows_set; [apply _| |].
Qed.

Lemma record_sound aid cert e d u d' : RecordAgentCertificate aid cert e d = Ok (u, d') → sound_for d d'.
Proof.
  intros Hr [Is Ie Ik]. apply RecordAgentCertificate_ok in Hr as (a & _ & _ & Ea & Es & Ee & Ek & Hc).
  split; constructor; rewrite ?Ea, ?Es, ?Ek, ?Ee; try done; try apply grows_refl, _.
  destruct Hc as [[Hnone ->]|(c & _ & _ & _ & _ & ->)]; [|apply grows_refl, _]. by apply grows_fresh; [apply _|].
Qed.

Lemma rotate_sound i cert e d u d' : RotateAgentCertificate i cert e d = Ok (u, d') → sound_for d d'.
Proof.
  intros Hr [Is Ie Ik]. apply RotateAgentCertificate_ok in Hr as (c & [Hold _ Hl _ Hnew Ec Ea Es Ee Ek]).
  split; constructor; rewrite ?Ea, ?Es, ?Ek, ?Ee, ?Ec; try done; try apply grows_refl, _.
  etrans; [by eapply (grows_fresh certificate_advances _ (cert_Serial cert))|].
  eapply grows_set; [apply _|done|]. split; try done. rewrite Hl. by intros [].
Qed.

Lemma certificate_sound aid serial key e d i d' : AuthenticateAgentCertificate aid serial key e d = Ok (i, d') → sound_for d d'.
Proof.
  intros Hr [Is Ie Ik]. apply AuthenticateAgentCertificate_ok in Hr as (a & c & n & Ha & _ & _ & _ & _ & _ & _ & _ & _ & _ & ->).
  split; constructor; cbn; try done; try apply grows_refl, _.
  - by eapply sessions_ok_agent.
  - by eapply enrollments_ok_agent.
  - eapply capabilities_ok_touch; try done. intros c' []. by split.
  - by eapply grows_set; [apply _| |].
Qed.

Lemma report_sound i c e d r d' : RecordAgentCapabilities i c e d = Ok (r, d') → sound_for d d'.
Proof.
  intros Hr [Is Ie Ik]. apply RecordAgentCapabilities_ok in Hr as [(a & g & R)|[-> _]]; [|by split|by apply (ko_range _ _ Ik)].
  destruct R as [Ha _ _ _ _ (Hos & Harch & Hhost & Huser) Hnew [Hrev Hmax] Hfresh (document & _ & Ek) Ea Es Ee Ec _].
  split; constructor; rewrite ?Ea, ?Es, ?Ek, ?Ee, ?Ec; try done; try apply grows_refl, _.
  - by eapply sessions_ok_agent.
  - by eapply enrollments_ok_agent.
  - set (a' := project_capabilities c (acs_Revision r) (transaction_timestamp e) a).
    change (acs_Revision r) with (ag_capability_revision a'). eapply capabilities_ok_report; try done.
  - by eapply grows_set; [apply _| |].
  - by apply insert_subseteq.
Qed.

Lemma credential_step_sound d d' : credential_step d d' → sound_for d d'.
Proof.
  destruct 1; eauto using create_sound, enroll_sound, renew_sound, authenticate_sound, record_sound, rotate_sound,
    certificate_sound, report_sound, same_credentials_sound.
Qed.

Lemma credential_steps_sound d d' : rtc credential_step d d' → sound_for d d'.
Proof.
  induction 1 as [d|d1 d2 d3 Hs _ IH]; intros I; [by split|].
  destruct (credential_step_sound _ _ Hs I) as [I2 G]. destruct (IH I2) as [I3 G']. split; [done|by etrans].
Qed.

Definition credential_reachable (d : db) : Prop :=
  ∃ d0, d_agents d0 = ∅ ∧ d_sessions d0 = ∅ ∧ d_enrollments d0 = ∅ ∧ d_capability_snapshots d0 = ∅ ∧ rtc credential_step d0 d.

Lemma credential_reachable_inv d : credential_reachable d → credentials_inv d.
Proof. intros (d0 & Ha & Hs & He & Hk & Hsteps). by apply (credential_steps_sound _ _ Hsteps), credentials_inv_empty. Qed.

Lemma credential_reachable_later d d' : credential_reachable d → rtc credential_step d d' →
  credential_reachable d' ∧ credentials_inv d' ∧ credentials_grow d d'.
Proof.
  intros Hr Hs. pose proof (credential_steps_sound _ _ Hs (credential_reachable_inv _ Hr)) as [I G].
  destruct Hr as (d0 & ? & ? & ? & ? & H0). split; [|done]. exists d0. split_and!; try done. by etrans.
Qed.

(** ** Enrollment *)

(** After a successful enrollment the token is used by the agent, with the digest of the registration. *)
Lemma enrolled_after token registration lifetime e d r d' : credentials_inv d →
  EnrollAgent tokenKey token registration lifetime e d = Ok (r, d') →
  ∃ id t a, d_enrollments d' !! id = Some t ∧ en_token_hash t = hashToken token ∧ en_used_by_agent_id t = Some (ags_AgentID r) ∧
    d_agents d' !! ags_AgentID r = Some a ∧ ag_registration_digest a = ar_RequestDigest registration.
Proof.
  intros [Is Ie Ik] Hr. apply EnrollAgent_ok in Hr as [(id & t & target & g & H)|[(Ea & _ & Ee & _) (id & t & a & s & H)]]; [| |exact Ie]; destruct H.
  - eexists id, _, _. rewrite enr_agents, enr_enrollments, !lookup_insert_eq. split_and!; try reflexivity. apply enr_token.
  - exists id, t, a. rewrite Ea, Ee. split_and!; assumption.
Qed.

(** The agent of a later success of the same token. *)
Lemma enrollment_repeats token registration registration' lifetime' e' d1 d2 d3 r r' id t a :
  credentials_inv d2 → credentials_grow d1 d2 →
  d_enrollments d1 !! id = Some t → en_token_hash t = hashToken token → en_used_by_agent_id t = Some (ags_AgentID r) →
  d_agents d1 !! ags_AgentID r = Some a → ag_registration_digest a = ar_RequestDigest registration →
  EnrollAgent tokenKey token registration' lifetime' e' d2 = Ok (r', d3) →
  ags_Replayed r' = true ∧ ags_AgentID r' = ags_AgentID r ∧ ar_RequestDigest registration' = ar_RequestDigest registration ∧
  same_credentials d2 d3.
Proof.
  intros [Is Ie Ik] [Ga _ Ge _ _] Ht Hh Hu Ha Hdig Hr.
  destruct (Ge _ _ Ht) as (t2 & Ht2 & [Eh Eu]). rewrite Hu in Eu. specialize (Eu (mk_is_Some _ _ eq_refl)).
  destruct (Ga _ _ Ha) as (a2 & Ha2 & [_ _ _ _ _ Ed]).
  assert (∀ i x, d_enrollments d2 !! i = Some x → en_token_hash x = hashToken token → i = id ∧ x = t2) as Huniq.
  { intros i x Hx Ex. assert (i = id) as -> by (eapply (eo_unique _ _ _ Ie); [exact Hx|exact Ht2|rewrite Ex, Eh, Hh; reflexivity]).
    split; [reflexivity|]. rewrite Ht2 in Hx. injection Hx as <-. reflexivity. }
  apply EnrollAgent_ok in Hr as [(i & x & target & g & H)|[Hsame (i & x & b & s & H)]]; [| |exact Ie]; destruct H.
  - exfalso. destruct enr_token. destruct (Huniq _ _ nt_row nt_hash) as [-> ->].
    destruct (proj2 (eo_use _ _ _ Ie _ _ Ht2)) as [at_ Hat]; [rewrite Eu; by eexists|]. rewrite Hat in enr_unused. discriminate enr_unused.
  - destruct (Huniq _ _ rep_row rep_hash) as [-> ->]. rewrite Eu in rep_used. injection rep_used as Eid.
    rewrite <-Eid, Ha2 in rep_agent. injection rep_agent as <-.
    split_and!; [apply rep_answer|symmetry; exact Eid|congruence|exact Hsame].
Qed.

(** C15: an enrollment token is used once.  After a token enrolled an agent, whatever happens in between,
    every later success with the same token is a replay: it names the same agent, carries the same
    registration digest and creates nothing. *)
Theorem enrollment_single_use token registration registration' lifetime lifetime' e e' d d1 d2 d3 r r' :
  credential_reachable d → EnrollAgent tokenKey token registration lifetime e d = Ok (r, d1) →
  rtc credential_step d1 d2 → EnrollAgent tokenKey token registration' lifetime' e' d2 = Ok (r', d3) →
  ags_Replayed r' = true ∧ ags_AgentID r' = ags_AgentID r ∧ ar_RequestDigest registration' = ar_RequestDigest registration ∧
  same_credentials d2 d3.
Proof.
  intros Hreach Hr Hs Hr'.
  destruct (enrolled_after _ _ _ _ _ _ _ (credential_reachable_inv _ Hreach) Hr) as (id & t & a & Ht & Hh & Hu & Ha & Hd).
  destruct (credential_reachable_later d d2 Hreach) as (_ & I2 & _); [eapply rtc_l; [by eapply cstep_enroll|done]|].
  assert (credentials_inv d1) as I1 by (by apply (enroll_sound _ _ _ _ _ _ _ Hr), credential_reachable_inv).
  destruct (credential_steps_sound _ _ Hs I1) as [_ G]. by eapply enrollment_repeats.
Qed.

(** ** Sessions and certificates *)

(** A token whose session is revoked authenticates nothing. *)
Lemma revoked_token_refused token d sid s : credentials_inv d →
  d_sessions d !! sid = Some s → se_token_hash s = hashToken token → is_Some (se_revoked_at s) →
  ∀ now, session_of_token now d (hashToken token) = None.
Proof.
  intros [Is _ _] Hs Hh Hrev now. apply session_of_token_none. intros i x Hx Ex.
  assert (i = sid) as -> by (eapply (so_unique _ _ _ Is); [exact Hx|exact Hs|rewrite Ex, Hh; reflexivity]).
  rewrite Hs in Hx. injection Hx as <-. exact Hrev.
Qed.

Lemma AuthenticateAgent_refused token e d : session_of_token (transaction_timestamp e) d (hashToken token) = None →
  AuthenticateAgent token e d = Err ErrUnauthenticated.
Proof. intros Hn. unfold AuthenticateAgent, mbind, tx_bind, query, asks. cbv beta iota delta [id]. rewrite Hn. reflexivity. Qed.

(** C17: rotation is final.  Once a session token was renewed, it never authenticates an agent and is never
    renewed again; once a certificate was rotated, its serial never authenticates again. *)
Theorem rotated_credentials_refused d : credential_reachable d →
  (∀ token lifetime e r d1 d2, RenewAgentSession tokenKey token lifetime e d = Ok (r, d1) → rtc credential_step d1 d2 →
     (∀ e', AuthenticateAgent token e' d2 = Err ErrUnauthenticated) ∧
     (∀ lifetime' e' r' d3, RenewAgentSession tokenKey token lifetime' e' d2 ≠ Ok (r', d3))) ∧
  (∀ i cert e d1 d2, RotateAgentCertificate i cert e d = Ok (tt, d1) → rtc credential_step d1 d2 →
     ∀ aid key e', AuthenticateAgentCertificate aid (ai_CertificateSerial i) key e' d2 = Err ErrUnauthenticated).
Proof.
  intros Hreach. pose proof (credential_reachable_inv _ Hreach) as I. split.
  - intros token lifetime e r d1 d2 Hr Hs. destruct (renew_sound _ _ _ _ _ _ Hr I) as [I1 _].
    destruct (credential_steps_sound _ _ Hs I1) as [I2 [_ Gs _ _ _]].
    apply RenewAgentSession_ok in Hr as (sid & s & a & [Hn _ _ _ Es _ _ _ _ _]).
    edestruct (Gs sid) as (s2 & Hs2 & [_ Eh _ Erev]); [rewrite Es; apply lookup_insert_eq|]. cbn in Eh, Erev.
    assert (∀ now, session_of_token now d2 (hashToken token) = None) as Hno.
    { eapply revoked_token_refused; [exact I2|exact Hs2|rewrite Eh; apply Hn|rewrite Erev; by eexists]. }
    split; [intros e'; by apply AuthenticateAgent_refused|]. intros lifetime' e' r' d3 Hr'.
    apply RenewAgentSession_ok in Hr' as (sid' & s' & a' & [[Hrow Hh Hlive _ _ _] _ _ _ _ _ _ _ _ _]).
    pose proof (revoked_token_refused token d2 sid s2 I2 Hs2) as _.
    assert (sid' = sid) as -> by (eapply (so_unique _ _ _ (ci_sessions _ _ I2)); [exact Hrow|exact Hs2|rewrite Hh, Eh; symmetry; apply Hn]).
    rewrite Hs2 in Hrow. injection Hrow as <-. rewrite Erev in Hlive; [discriminate Hlive|by eexists].
  - intros i cert e d1 d2 Hr Hs aid key e'. destruct (rotate_sound _ _ _ _ _ _ Hr I) as [I1 _].
    destruct (credential_steps_sound _ _ Hs I1) as [I2 [_ _ _ Gc _]].
    apply RotateAgentCertificate_ok in Hr as (c & [_ _ _ _ _ Ec _ _ _ _]).
    edestruct (Gc (ai_CertificateSerial i)) as (c2 & Hc2 & [_ _ _ Erev]); [rewrite Ec; apply lookup_insert_eq|]. cbn in Erev.
    specialize (Erev (mk_is_Some _ _ eq_refl)).
    unfold AuthenticateAgentCertificate, mbind, tx_bind, query, asks. cbn.
    destruct (d_agents d2 !! aid) as [a|]; cbn; [|done]. rewrite Hc2. cbn. unfold certificate_valid. rewrite Erev. cbn.
    by rewrite andb_false_r.
Qed.

(** An agent that may work, on a target that is not retired. *)
Definition in_service (d : db) (i : AgentIdentity) : Prop :=
  ∃ a t, d_agents d !! ai_AgentID i = Some a ∧ (ag_status a = "active" ∨ ag_status a = "draining") ∧
    ag_target_id a = ai_TargetID i ∧ d_targets d !! ai_TargetID i = Some t ∧ (tg_state t = "active" ∨ tg_state t = "draining").

Lemma agent_present_service d a : agent_present d a = true → (ag_status a = "active" ∨ ag_status a = "draining") ∧
  ∃ t, d_targets d !! ag_target_id a = Some t ∧ (tg_state t = "active" ∨ tg_state t = "draining").
Proof.
  unfold agent_present, exists_row. intros [Ha%slices_Contains_spec Ht]%andb_true_iff. destruct (d_targets d !! ag_target_id a) as [t|]; [|done].
  apply slices_Contains_spec in Ht. unfold present_states in *. rewrite !elem_of_cons, elem_of_nil in Ha, Ht. naive_solver.
Qed.

(** C16: an authenticated agent is the one its credential was issued for.  A session token or certificate
    that authenticates leads to an agent that an enrollment token created, in the namespace, on the target
    and generation and for the principal of that token; the agent and its target are active or draining; the session is unexpired, is the only session of the
    agent that is not revoked, and the presented token has the hash of the token derived for it. *)
Theorem authentication_sound d : credential_reachable d →
  (∀ token e i d', AuthenticateAgent token e d = Ok (i, d') →
     (∃ id t, d_enrollments d !! id = Some t ∧ en_used_by_agent_id t = Some (ai_AgentID i) ∧
        ai_NamespaceID i = en_namespace_id t ∧ ai_TargetID i = en_target_id t ∧
        ai_TargetGenerationID i = en_target_generation_id t ∧ ai_PrincipalID i = en_principal_id t) ∧ in_service d i ∧
     (∃ sid s, d_sessions d !! sid = Some s ∧ se_agent_id s = ai_AgentID i ∧ transaction_timestamp e < se_expires_at s ∧
        hashToken token = hashToken (deriveToken tokenKey "jms" sid) ∧
        ∀ sid' s', d_sessions d !! sid' = Some s' → se_agent_id s' = ai_AgentID i → (se_revoked_at s' = None ↔ sid' = sid))) ∧
  (∀ aid serial key e i d', AuthenticateAgentCertificate aid serial key e d = Ok (i, d') →
     ai_AgentID i = aid ∧
     (∃ id t, d_enrollments d !! id = Some t ∧ en_used_by_agent_id t = Some aid ∧
        ai_NamespaceID i = en_namespace_id t ∧ ai_TargetID i = en_target_id t ∧
        ai_TargetGenerationID i = en_target_generation_id t ∧ ai_PrincipalID i = en_principal_id t) ∧ in_service d i ∧
     ∃ c, d_certificates d !! serial = Some c ∧ crt_agent_id c = aid ∧ crt_public_key_digest c = key ∧
        crt_revoked_at c = None ∧ transaction_timestamp e < crt_not_after c).
Proof.
  intros [Is Ie Ik]%credential_reachable_inv.
  assert (∀ aid a, d_agents d !! aid = Some a → ∃ id t, d_enrollments d !! id = Some t ∧ en_used_by_agent_id t = Some aid ∧ bound_agent t a) as Hbound.
  { intros aid a Ha. destruct (eo_enrolled _ _ _ Ie aid) as (id & t & Ht & Hby); [by eexists|].
    destruct (eo_used _ _ _ Ie _ _ _ Ht Hby) as (b & Hb & Hbd). rewrite Ha in Hb. injection Hb as <-. eauto. }
  split.
  - intros token e i d' Hr. apply AuthenticateAgent_ok in Hr as (sid & s & a & n & Hn & _ & -> & _).
    cbn [ai_AgentID ai_NamespaceID ai_TargetID ai_TargetGenerationID ai_PrincipalID]. destruct Hn as [Hs Hh Hl He Ha Hp].
    apply agent_present_service in Hp as (Hst & tg & Htg & Hts).
    destruct (Hbound _ _ Ha) as (id & t & Ht & Hby & []). split; [by exists id, t|]. split; [by exists a, tg|]. exists sid, s.
    split_and!; [exact Hs|reflexivity|exact He|rewrite <-Hh; apply (so_hash _ _ _ Is _ _ Hs)|].
    intros sid' s' Hs' Eag. split.
    + intros Hl'. eapply (so_one _ _ _ Is); [exact Hs'|exact Hs|exact Hl'|exact Hl|exact Eag].
    + intros ->. rewrite Hs in Hs'. injection Hs' as <-. exact Hl.
  - intros aid serial key e i d' Hr. apply AuthenticateAgentCertificate_ok in Hr as (a & c & n & Ha & Hc & _ & Hk & Hag & _ & Hrev & Hexp & Hp & -> & _). cbn.
    apply agent_present_service in Hp as (Hst & tg & Htg & Hts).
    destruct (Hbound _ _ Ha) as (id & t & Ht & Hby & []). split; [done|]. split; [by exists id, t|]. split; [by exists a, tg|]. by exists c.
Qed.

(** C19: the capability projection.  In every history the observations of an agent carry exactly the
    revisions from 1 to its capability revision, no two with one digest, and the agent row shows the latest
    of them: the versions, backends, runtimes, capabilities, willingness and time of observation that
    scheduling reads are the ones the agent last reported. *)
Theorem capability_projection d aid a : credential_reachable d → d_agents d !! aid = Some a →
  (∀ k, is_Some (d_capability_snapshots d !! (aid, k)) ↔ 1 ≤ k ≤ ag_capability_revision a) ∧
  (∀ k k' c c', d_capability_snapshots d !! (aid, k) = Some c → d_capability_snapshots d !! (aid, k') = Some c' →
     cap_document_digest c = cap_document_digest c' → k = k') ∧
  (0 < ag_capability_revision a → ∃ c, d_capability_snapshots d !! (aid, ag_capability_revision a) = Some c ∧ shows c a).
Proof.
  intros [_ _ Ik]%credential_reachable_inv Ha. split_and!.
  - intros k. by apply (ko_revisions _ _ Ik).
  - apply (ko_digest _ _ Ik).
  - by apply (ko_shown _ _ Ik).
Qed.

(** ** Issued sessions work *)

(** The session a call answered with: its row, its owner and the expiry it announced. *)
Record issued (r : AgentSession) (d : db) : Prop := {
  is_token : ags_Token r = deriveToken tokenKey "jms" (ags_SessionID r);
  is_row : ∃ s, d_sessions d !! ags_SessionID r = Some s ∧ se_agent_id s = ags_AgentID r ∧ ags_ExpiresAt r = UTC (se_expires_at s) }.

Lemma EnrollAgent_issues token registration lifetime e d r d' : credentials_inv d →
  EnrollAgent tokenKey token registration lifetime e d = Ok (r, d') → issued r d'.
Proof.
  intros [Is Ie Ik] Hr. apply EnrollAgent_ok in Hr as [(id & t & target & g & H)|[(_ & Es & _) (id & t & a & s & H)]]; [| |exact Ie]; destruct H.
  - destruct enr_answer as (Ht & _ & He). split; [exact Ht|]. eexists. rewrite enr_sessions, lookup_insert_eq.
    split_and!; [reflexivity..|exact He].
  - destruct rep_answer as (Ht & _ & He). split; [exact Ht|]. exists s. rewrite Es. split_and!; assumption.
Qed.

Lemma RenewAgentSession_issues token lifetime e d r d' : RenewAgentSession tokenKey token lifetime e d = Ok (r, d') → issued r d'.
Proof.
  intros Hr. apply RenewAgentSession_ok in Hr as (sid & s & a & [Hn Ea Hnew _ Es _ _ _ _ (Ht & _ & He)]). split; [exact Ht|].
  eexists. rewrite Es, lookup_insert_ne, lookup_insert_eq by (intros E; rewrite <-E, (ns_row _ _ _ _ _ _ Hn) in Hnew; discriminate Hnew).
  split_and!; [reflexivity|symmetry; exact Ea|exact He].
Qed.

(** A touched session row satisfies the constraints of the table. *)
Lemma session_touch_constraints d sid s at_ : sessions_ok tokenKey (d_agents d) (d_sessions d) → d_sessions d !! sid = Some s →
  Forall (λ c, c.2 = true) (constraints d sid (s <| se_last_seen_at := at_ |>)).
Proof.
  intros Is Hs. repeat apply Forall_cons_2; try apply Forall_nil_2; cbn [snd].
  - apply exists_row_true. destruct (so_agent _ _ _ Is _ _ Hs) as (a & Ha & Hn). exists a. split; [exact Ha|]. by apply eqs_true.
  - apply unique_among_spec. intros i x Hx Ex%bool_decide_eq_true. eapply (so_unique _ _ _ Is); [exact Hx|exact Hs|exact Ex].
  - pose proof (so_replaced _ _ _ Is _ _ Hs) as Hr. cbn. destruct (se_replaced_by_session_id s) as [r|]; [|reflexivity].
    destruct Hr as (_ & s' & Hs' & _). apply is_some_true. by eexists.
Qed.

(** C18: an issued session works until it is replaced.  The token that [EnrollAgent] or [RenewAgentSession]
    answers with authenticates, in every later state in which its session is neither revoked nor expired and
    the agent, its target and its namespace are present, and it authenticates as the agent of the answer;
    the announced expiry is the one that is enforced. *)
Theorem issued_session_authenticates d d1 d2 r e' s a n : credential_reachable d →
  (∃ token registration lifetime e, EnrollAgent tokenKey token registration lifetime e d = Ok (r, d1)) ∨
  (∃ token lifetime e, RenewAgentSession tokenKey token lifetime e d = Ok (r, d1)) →
  rtc credential_step d1 d2 →
  d_sessions d2 !! ags_SessionID r = Some s → se_revoked_at s = None → transaction_timestamp e' < se_expires_at s →
  d_agents d2 !! ags_AgentID r = Some a → agent_present d2 a = true → d_namespaces d2 !! ag_namespace_id a = Some n →
  ags_ExpiresAt r = UTC (se_expires_at s) ∧
  ∃ i d3, AuthenticateAgent (ags_Token r) e' d2 = Ok (i, d3) ∧ ai_AgentID i = ags_AgentID r.
Proof.
  intros Hreach Hr Hsteps Hs Hl He Ha Hp Hn. pose proof (credential_reachable_inv _ Hreach) as I.
  assert (credentials_inv d1 ∧ issued r d1) as [I1 [Ht (s1 & Hs1 & Hag & Hexp)]].
  { destruct Hr as [(token & reg & life & e & Hr)|(token & life & e & Hr)].
    - split; [by apply (enroll_sound _ _ _ _ _ _ _ Hr)|by eapply EnrollAgent_issues].
    - split; [by apply (renew_sound _ _ _ _ _ _ Hr)|by eapply RenewAgentSession_issues]. }
  destruct (credential_steps_sound _ _ Hsteps I1) as [I2 [_ Gs _ _ _]]. pose proof (ci_sessions _ _ I2) as Is.
  destruct (Gs _ _ Hs1) as (s2 & Hs2 & [Eag _ Eexp _]). rewrite Hs in Hs2. injection Hs2 as <-.
  split; [congruence|].
  pose proof (so_hash _ _ _ Is _ _ Hs) as Hh. unfold sessionHash in Hh. rewrite <-Ht in Hh.
  assert (session_of_token (transaction_timestamp e') d2 (hashToken (ags_Token r)) = Some (ags_SessionID r, s, a)) as Hfound.
  { apply session_of_token_intro; [split; try assumption; congruence|].
    intros i x Hx Ex. eapply (so_unique _ _ _ Is); [exact Hx|exact Hs|rewrite Ex, Hh; reflexivity]. }
  set (s' := s <| se_last_seen_at := Some (transaction_timestamp e') |>).
  eexists _, (d2 <| d_sessions := <[ags_SessionID r := s']> (d_sessions d2) |>). split.
  - unfold AuthenticateAgent. apply tx_bind_ok. exists d2, d2. split; [reflexivity|]. apply tx_bind_ok.
    exists (transaction_timestamp e'), d2. split; [reflexivity|]. apply tx_bind_ok.
    eexists (ags_SessionID r, _), d2. split.
    { apply row_or_ok. rewrite Hfound. split; [|reflexivity]. unfold identity_of. cbn [mbind option_bind]. rewrite Hn. reflexivity. }
    apply tx_bind_ok. exists tt, (d2 <| d_sessions := <[ags_SessionID r := s']> (d_sessions d2) |>). split; [|reflexivity].
    apply wrapT_ok, UPDATE__ok. exists 1. apply UPDATE_ok. left. exists s, s'.
    split_and!; try reflexivity; [exact Hs|by apply session_touch_constraints].
  - cbn. congruence.
Qed.

(** ** With the rest of the service *)

(** An agent call is a step of the system of [System.v]: it leaves the lifecycle alone. *)
Lemma agent_call_step `{Sealer} {A} (m : tx A) e d a d' :
  Keeps d_jobs m → Keeps d_runs m → Keeps d_executions m → Keeps d_assignments m → Keeps d_events m →
  m e d = Ok (a, d') → step d d'.
Proof. intros Hj Hr Hx Ha He Hm. apply step_elsewhere; [split_and!|]; by eapply keeps_after. Qed.

Lemma agent_calls_step `{Sealer} : 
  (∀ actor ns target key digest request e d r d', CreateEnrollmentToken tokenKey actor ns target key digest request e d = Ok (r, d') → step d d') ∧
  (∀ token registration lifetime e d r d', EnrollAgent tokenKey token registration lifetime e d = Ok (r, d') → step d d') ∧
  (∀ token lifetime e d r d', RenewAgentSession tokenKey token lifetime e d = Ok (r, d') → step d d') ∧
  (∀ token e d i d', AuthenticateAgent token e d = Ok (i, d') → step d d') ∧
  (∀ aid cert e d u d', RecordAgentCertificate aid cert e d = Ok (u, d') → step d d') ∧
  (∀ i cert e d u d', RotateAgentCertificate i cert e d = Ok (u, d') → step d d') ∧
  (∀ aid serial key e d i d', AuthenticateAgentCertificate aid serial key e d = Ok (i, d') → step d d') ∧
  (∀ i c e d r d', RecordAgentCapabilities i c e d = Ok (r, d') → step d d').
Proof. split_and!; intros *; apply agent_call_step; unfold authenticates in *; credentials_tac. Qed.

(** The calls of the lifecycle leave the credentials alone. *)
Lemma same_credentials_call {A} (m : tx A) e d a d' :
  Keeps d_agents m → Keeps d_sessions m → Keeps d_enrollments m → Keeps d_certificates m → Keeps d_capability_snapshots m →
  m e d = Ok (a, d') → same_credentials d d'.
Proof. intros H1 H2 H3 H4 H5 Hm. split_and!; by eapply keeps_after. Qed.

Lemma calls_keep_credentials `{Sealer} :
  (∀ p k s e d r d', SubmitJob p k s e d = Ok (r, d') → same_credentials d d') ∧
  (∀ p k dry q e d r d', ImportCompletedHistory p k dry q e d = Ok (r, d') → same_credentials d d') ∧
  (∀ p k s e d r d', SubmitCollection p k s e d = Ok (r, d') → same_credentials d d') ∧
  (∀ p k s e d r d', SubmitGraph p k s e d = Ok (r, d') → same_credentials d d') ∧
  (∀ p n j k q e d r d', CancelJob p n j k q e d = Ok (r, d') → same_credentials d d') ∧
  (∀ p n g k q e d r d', CancelGraph p n g k q e d = Ok (r, d') → same_credentials d d') ∧
  (∀ i a e d r d', AcceptAssignment i a e d = Ok (r, d') → same_credentials d d') ∧
  (∀ i v e d r d', RecordExecutionEvent i v e d = Ok (r, d') → same_credentials d d') ∧
  (∀ e d r d', reconcile_iteration e d = Ok (r, d') → same_credentials d d') ∧
  (∀ t o e d r d', reconcileOneStale t o e d = Ok (r, d') → same_credentials d d').
Proof. split_and!; intros *; apply same_credentials_call; keeps_tac. Qed.

Lemma ListAssignments_same_credentials i limit e d l d' : ListAssignments i limit e d = Ok (l, d') → same_credentials d d'.
Proof. by intros [m ->]%ListAssignments_keeps. Qed.
End history.
