(* ===== verification/TargetRuns.v ===== *)
(** * Runs of the target methods

    What a successful call of [Targets.v] found and what it changed, one record per outcome. *)
From stdpp Require Import pretty.
From S2P Require Import Prelude Regex Names Domain TargetSpec Kahn Graph Contract Records Url Db Tx Constraints Auth Jobs Groups GraphStore Executions Coordinator Frames Targets.

(** The tables of this component, and what it reads of the namespaces. *)
Record same_targets (d d' : db) : Prop := {
  st_targets : d_targets d' = d_targets d;
  st_generations : d_generations d' = d_generations d;
  st_partitions : d_partitions d' = d_partitions d;
  st_namespaces : d_namespaces d' = d_namespaces d }.

#[export] Instance same_targets_refl : Reflexive same_targets.
Proof. by constructor. Qed.
#[export] Instance same_targets_trans : Transitive same_targets.
Proof. intros d1 d2 d3 [] []. constructor; congruence. Qed.

Lemma keeps_same_targets {A} (m : tx A) e d a d' :
  Keeps d_targets m → Keeps d_generations m → Keeps d_partitions m → Keeps d_namespaces m →
  m e d = Ok (a, d') → same_targets d d'.
Proof. intros Ht Hg Hp Hn H. constructor; by eapply keeps_after. Qed.

(** The run [H] of a statement that leaves targets alone. *)
Ltac targets_kept H := apply keeps_same_targets in H; [|solve [keeps_tac]..].

(** Identifiers come from the supply and change nothing else. *)
Lemma makeIDs_ok {A} (l : list A) e d ids d' : makeIDs l e d = Ok (ids, d') →
  length ids = length l ∧ ∃ i, d' = d <| d_ids := i |>.
Proof.
  revert d ids d'; induction l as [|x l IH]; cbn; intros d ids d' H.
  - tx_inv. split; [done|]. exists (d_ids d). by destruct d.
  - apply tx_bind_ok in H as (i & d1 & (j & _ & ->)%newID_ok & H). apply tx_bind_ok in H as (js & d2 & Hl & H).
    apply IH in Hl as (<- & i' & ->). tx_inv. split; [done|]. by exists i'.
Qed.

(** ** Insertion of a generation *)

Lemma set_partitions_id d : d <| d_partitions := d_partitions d |> = d.
Proof. by destruct d. Qed.

Lemma insert_partitions_ok ns gid l e d u d' : insert_partitions ns gid l e d = Ok (u, d') →
  ∃ m, d' = d <| d_partitions := m |> ∧ (∀ k, k.1 ≠ gid → m !! k = d_partitions d !! k) ∧
    ∀ n p, m !! (gid, n) = Some p ↔
      d_partitions d !! (gid, n) = Some p ∨ ∃ ip, ip ∈ l ∧ n = ps_Name ip.2 ∧ p = new_partition ns ip.1 ip.2.
Proof.
  unfold insert_partitions, for_eachT. destruct u. revert d; induction l as [|ip l IH]; intros d H; cbn in H.
  - tx_inv. exists (d_partitions d). split_and!; [by rewrite set_partitions_id|done|]. set_solver.
  - apply tx_bind_ok in H as ([] & d1 & [Hnone [_ ->]]%wrapT_ok%INSERT_ok & Hl). cbn in Hnone.
    apply IH in Hl as (m & -> & Hother & Hm). exists m. cbn in Hother, Hm. split_and!; [done| |].
    + intros k Hk. rewrite Hother by done. rewrite lookup_insert_ne; [done|]. by intros <-.
    + intros n p. rewrite Hm. destruct (decide (n = ps_Name ip.2)) as [->|Hne].
      * rewrite lookup_insert_eq, Hnone. split.
        -- intros [[= <-]|(jp & ? & ? & ?)]; right; [exists ip|exists jp]; split_and!; try done; set_solver.
        -- intros [?|(jp & [->|Hin]%elem_of_cons & E & ->)]; [done|by left|]. right. by exists jp.
      * rewrite lookup_insert_ne by congruence. split.
        -- intros [?|(jp & ? & ? & ?)]; [by left|]. right. exists jp. split_and!; try done; set_solver.
        -- intros [?|(jp & [->|Hin]%elem_of_cons & E & ->)]; [by left|done|]. right. by exists jp.
Qed.

(** A new generation [gid] of target [id], with the partitions of the specification. *)
Record generation_added (d d' : db) (ns id gid : string) (number : Z) (spec : TargetSpec) : Prop := {
  ga_fresh : d_generations d !! gid = None;
  ga_generations : d_generations d' = <[gid := new_generation ns id number spec]> (d_generations d);
  ga_number : 0 < number ≤ max_int64;
  ga_unique : ∀ k g, d_generations d !! k = Some g → gen_target_id g = id → gen_generation g = number → k = gid;
  ga_other : ∀ k, k.1 ≠ gid → d_partitions d' !! k = d_partitions d !! k;
  ga_partitions : ∃ ids, length ids = length (ts_Partitions spec) ∧
    ∀ n p, d_partitions d' !! (gid, n) = Some p ↔ d_partitions d !! (gid, n) = Some p ∨
      ∃ ip, ip ∈ zip ids (ts_Partitions spec) ∧ n = ps_Name ip.2 ∧ p = new_partition ns ip.1 ip.2 }.

Lemma generation_constraints d gid g : Forall (λ c, c.2 = true) (constraints d gid g) →
  (∃ t, d_targets d !! gen_target_id g = Some t ∧ tg_namespace_id t = gen_namespace_id g) ∧
  (∀ k g', d_generations d !! k = Some g' → gen_target_id g' = gen_target_id g → gen_generation g' = gen_generation g → k = gid) ∧
  0 < gen_generation g ≤ max_int64.
Proof.
  cbn. intros H. repeat (apply Forall_cons in H as [? H]). cbn in *. guard_inv. split; [eauto|]. split.
  - intros k g' Hk Ht Hn. match goal with H : ∀ _ _, d_generations d !! _ = Some _ → _ |- _ => apply (H k g' Hk) end.
    rewrite Ht, Hn, eqs_refl, bool_decide_true; done.
  - match goal with H : bigint_positive _ = true |- _ => by apply bool_decide_eq_true in H end.
Qed.

Lemma insertTargetGeneration_ok ns id gid n ids spec e d u d' : length ids = length (ts_Partitions spec) →
  insertTargetGeneration ns id gid n ids spec e d = Ok (u, d') →
  generation_added d d' ns id gid n spec ∧ d_targets d' = d_targets d ∧ d_namespaces d' = d_namespaces d ∧
  ∃ t, d_targets d !! id = Some t ∧ tg_namespace_id t = ns.
Proof.
  intros Hlen H. unfold insertTargetGeneration in H. guard_inv.
  match goal with H : INSERT _ _ _ _ = Ok _ |- _ => apply INSERT_ok in H as (Hfresh & Hc & ->) end.
  match goal with H : insert_partitions _ _ _ _ _ = Ok _ |- _ => apply insert_partitions_ok in H as (m & -> & Ho & Hp) end.
  apply generation_constraints in Hc as (Ht & Hu & Hb). cbn in *. split_and!; [|done|done|done].
  constructor; [done|done|done| |done|by exists ids].
  intros k g Hk Hg Hn. by eapply Hu.
Qed.

(** ** The outcomes *)

(** A target that did not exist, with its first generation. *)
Record target_created (e : env) (d d' : db) (ns id gid : string) (spec : TargetSpec) : Prop := {
  tc_fresh : d_targets d !! id = None;
  tc_name : ∀ k t, d_targets d !! k = Some t → tg_namespace_id t = ns → tg_name t = ts_Name spec → False;
  tc_generation : generation_added d d' ns id gid 1 spec;
  tc_targets : ∃ created, d_targets d' =
    <[id := (new_target ns spec created (transaction_timestamp e)) <| tg_current_generation_id := Some gid |>]> (d_targets d) }.

(** An existing target that selects a new generation. *)
Record target_regenerated (e : env) (d d' : db) (ns name id gid : string) (change : TargetGenerationChange) (t : target_row)
    (gid0 : string) (g0 : generation_row) : Prop := {
  tr_row : d_targets d !! id = Some t;
  tr_named : tg_namespace_id t = ns ∧ tg_name t = name ∧ tg_name t = ts_Name (tgc_Spec change);
  tr_current : tg_current_generation_id t = Some gid0;
  tr_generation0 : d_generations d !! gid0 = Some g0;
  tr_state : tg_state t ≠ "retired";
  tr_revision : tg_revision t = tgc_ExpectedRevision change;
  tr_kind : tg_kind t = ts_Kind (tgc_Spec change);
  tr_generation : generation_added d d' ns id gid (wrap64 (gen_generation g0 + 1)) (tgc_Spec change);
  tr_bound : tg_revision t + 1 ≤ max_int64;
  tr_targets : d_targets d' = <[id := t <| tg_current_generation_id := Some gid; tg_revision ::= Z.succ;
                                         tg_updated_at := transaction_timestamp e |>]> (d_targets d) }.

(** An existing target in a new state. *)
Record target_restated (e : env) (d d' : db) (ns name id : string) (change : TargetStateChange) (t : target_row) : Prop := {
  trs_row : d_targets d !! id = Some t;
  trs_named : tg_namespace_id t = ns ∧ tg_name t = name;
  trs_revision : tg_revision t = tsc_ExpectedRevision change;
  trs_legal : validTargetStateTransition (tg_state t) (tsc_State change) = true;
  trs_bound : tg_revision t + 1 ≤ max_int64;
  trs_generations : d_generations d' = d_generations d;
  trs_partitions : d_partitions d' = d_partitions d;
  trs_targets : d_targets d' = <[id := t <| tg_state := tsc_State change; tg_revision ::= Z.succ;
                                         tg_updated_at := transaction_timestamp e |>]> (d_targets d) }.

(** The answer of a method is the target as it is stored now. *)
Definition read_from (d : db) (v : Target) : Prop := ∃ t, d_targets d !! tgt_ID v = Some t ∧ scanTarget d (tgt_ID v) t = Some v.

Lemma scanTarget_id d id t v : scanTarget d id t = Some v → tgt_ID v = id.
Proof.
  unfold scanTarget. intros (n & _ & H)%bind_Some. apply bind_Some in H as (gid & _ & H).
  apply bind_Some in H as (g & _ & H). by simplify_eq.
Qed.

Lemma getTargetByID_ok ns id e d v d' : getTargetByID ns id e d = Ok (v, d') → d' = d ∧ tgt_ID v = id ∧ read_from d v.
Proof.
  unfold getTargetByID. intros H. guard_inv.
  match goal with H : _ ≫= _ = Some _ |- _ => apply bind_Some in H as (t & Ht & H) end.
  case_match; [|done]. match goal with H : scanTarget _ _ _ = Some _ |- _ => pose proof (scanTarget_id _ _ _ _ H) as E; rename H into Hs end.
  split_and!; [done|done|]. exists t. by rewrite E.
Qed.

Lemma scanTarget_current d id t v : scanTarget d id t = Some v → tg_current_generation_id t = Some (tgt_GenerationID v).
Proof.
  unfold scanTarget. intros (n & _ & H)%bind_Some. apply bind_Some in H as (gid & ? & H).
  apply bind_Some in H as (g & _ & H). by simplify_eq.
Qed.

(** The row of an [UPDATE] on [targets] that is known to be there. *)
Lemma update_target_ok id p f e d n d' t : d_targets d !! id = Some t → p t = true →
  UPDATE id p f e d = Ok (n, d') →
  d' = d <| d_targets := <[id := f t]> (d_targets d) |> ∧ 0 < tg_revision (f t) ≤ max_int64.
Proof.
  intros Ht Hp H. apply UPDATE_ok in H as [(old & row & Hk & _ & -> & Hc & _ & Ha)|(_ & _ & Hno)].
  - cbn in Hk. assert (old = t) as -> by congruence. cbn in Ha. tx_inv. split; [done|].
    cbn in Hc. repeat (apply Forall_cons in Hc as [? Hc]). cbn in *.
    match goal with H : bigint_positive _ = true |- _ => by apply bool_decide_eq_true in H end.
  - apply Hno in Ht. congruence.
Qed.

(** Evidence written before and after leaves targets alone. *)
Ltac evidence_kept := repeat
  match goal with
  | H : reserveIdempotency _ _ _ _ _ _ _ _ = Ok (?o, _) |- _ => targets_kept H
  | H : completeIdempotency _ _ _ _ _ _ _ = Ok _ |- _ => targets_kept H
  | H : audit_principal _ _ _ _ _ _ _ _ _ _ = Ok _ |- _ => targets_kept H
  | H : auditTargetCreation _ _ _ _ _ _ _ _ = Ok _ |- _ => targets_kept H
  | H : insert_outbox _ _ _ _ _ _ _ _ = Ok _ |- _ => targets_kept H
  | H : getTargetByID _ _ _ _ = Ok _ |- _ => apply getTargetByID_ok in H as (-> & ? & ?)
  end.

(** The supply of identifiers plays no part in authorization. *)
Lemma authorized_ids e d ids p n caps a : authorized e (d <| d_ids := ids |>) p n caps a → authorized e d p n caps a.
Proof. intros []. by constructor. Qed.

Lemma same_targets_ids d ids d' : same_targets (d <| d_ids := ids |>) d' → same_targets d d'.
Proof. intros []. by constructor. Qed.

(** The identifiers and the authorization at the head of the three methods. *)
Ltac head_inv :=
  repeat match goal with
  | H : newID _ _ = Ok (_, _) |- _ => apply newID_ok in H as (? & _ & ->)
  | H : makeIDs _ _ _ = Ok _ |- _ => apply makeIDs_ok in H as (? & ? & ->)
  end;
  match goal with H : authorizeNamespace _ _ _ _ _ = Ok (?a, _) |- _ =>
    apply authorizeNamespace_authorized in H as [-> H]; repeat apply authorized_ids in H; exists a; split; [exact H|] end;
  repeat match goal with H : same_targets (_ <| d_ids := _ |>) _ |- _ => apply same_targets_ids in H end.

Definition outcome (d d' : db) (r : CreateResult Target) (fresh : Prop) : Prop :=
  read_from d' (cr_Value r) ∧ d_namespaces d' = d_namespaces d ∧
  ((cr_Replayed r = true ∧ same_targets d d') ∨ (cr_Replayed r = false ∧ fresh)).

(** A creation instant is later than every earlier one of the namespace. *)
Lemma stamp_target_catalog_creation_ok ns e d created d' : stamp_target_catalog_creation ns e d = Ok (created, d') →
  d' = d <| d_target_clocks := <[ns := created]> (d_target_clocks d) |> ∧
  clock_timestamp e ≤ created ∧ ∀ last, d_target_clocks d !! ns = Some last → last < created.
Proof. unfold stamp_target_catalog_creation. intros H. tx_inv. split; [done|]. case_match; split; [lia|intros ? [= <-]; lia|lia|done]. Qed.

Lemma insertTarget_ok a id gid ids spec e d u d' : length ids = length (ts_Partitions spec) →
  insertTarget a id gid ids spec e d = Ok (u, d') →
  target_created e d d' (na_namespaceID a) id gid spec ∧ d_namespaces d' = d_namespaces d.
Proof.
  intros Hlen H. unfold insertTarget in H. apply tx_bind_ok in H as (now & d1 & [-> ->]%asks_ok & H).
  apply tx_bind_ok in H as (created & d1 & [-> _]%stamp_target_catalog_creation_ok & H).
  apply tx_bind_ok in H as ([] & d2 & Hi & H). apply tx_bind_ok in H as ([] & d3 & Hg & [n Hu]%wrapT_ok%UPDATE__ok).
  case_match eqn:Hins; [|done]. injection Hi as ->. apply INSERT_ok in Hins as (Hfresh & Hc & ->). cbn in Hfresh.
  apply insertTargetGeneration_ok in Hg as (Hadd & Ht & Hn & _); [|done]. cbn in Ht, Hn.
  eapply update_target_ok in Hu as [-> _]; [|rewrite Ht; apply lookup_insert_eq|done]. split; [|done].
  destruct Hadd as [Hf Hgens Hnum Hun Ho Hp]. cbn in *. constructor; cbn.
  - done.
  - intros k t Hk Hns Hname. repeat (apply Forall_cons in Hc as [? Hc]). cbn in *. guard_inv.
    match goal with H : ∀ _ _, d_targets d !! _ = Some _ → _ |- _ => assert (k = id) as ->; [|congruence]; apply (H k t Hk) end.
    by rewrite Hns, Hname, !eqs_refl.
  - by constructor.
  - eexists. by rewrite Ht, insert_insert_eq.
Qed.

(** The outcomes depend on the tables of targets alone. *)
Section transfer.
Context (d d1 d2 d' : db) (Hs : same_targets d d1) (Hs' : same_targets d2 d').

Lemma generation_added_same ns id gid n spec : generation_added d1 d2 ns id gid n spec → generation_added d d' ns id gid n spec.
Proof using Hs Hs'.
  destruct Hs as [Et Eg Ep _], Hs' as [Et' Eg' Ep' _]. intros [? ? ? ? ? ?].
  constructor; rewrite ?Eg', ?Ep', <-?Eg, <-?Ep; done.
Qed.
Lemma target_created_same e ns id gid spec : target_created e d1 d2 ns id gid spec → target_created e d d' ns id gid spec.
Proof using Hs Hs'.
  intros [? ? Hg ?]. apply generation_added_same in Hg. destruct Hs as [Et _ _ _], Hs' as [Et' _ _ _].
  constructor; rewrite ?Et', <-?Et; done.
Qed.
Lemma target_regenerated_same e ns name id gid c t gid0 g0 :
  target_regenerated e d1 d2 ns name id gid c t gid0 g0 → target_regenerated e d d' ns name id gid c t gid0 g0.
Proof using Hs Hs'.
  intros [? ? ? ? ? ? ? Hg ? ?]. apply generation_added_same in Hg. destruct Hs as [Et Eg _ _], Hs' as [Et' _ _ _].
  constructor; rewrite ?Et', <-?Et, <-?Eg; done.
Qed.
Lemma target_restated_same e ns name id c t : target_restated e d1 d2 ns name id c t → target_restated e d d' ns name id c t.
Proof using Hs Hs'.
  intros []. destruct Hs as [Et Eg Ep _], Hs' as [Et' Eg' Ep' _].
  constructor; rewrite ?Et', ?Eg', ?Ep', <-?Et, <-?Eg, <-?Ep; done.
Qed.
End transfer.

Lemma read_from_generation d v id t gid : read_from d v → tgt_ID v = id → d_targets d !! id = Some t →
  tg_current_generation_id t = Some gid → tgt_GenerationID v = gid.
Proof. intros (t' & Ht' & Hs) <- Ht Hg. apply scanTarget_current in Hs. congruence. Qed.

(** Join the runs that leave targets alone. *)
Ltac same_chain := repeat
  match goal with H : same_targets ?a ?b, H' : same_targets ?b ?c |- _ => apply (same_targets_trans _ _ _ H) in H'; clear H end.

(** A change between two runs that leave targets alone. *)
Lemma fresh_outcome d d1 d2 d' v (P : Prop) : same_targets d d1 → same_targets d2 d' → d_namespaces d2 = d_namespaces d1 →
  read_from d' v → P → outcome d d' {| cr_Value := v; cr_Replayed := false |} P.
Proof.
  intros [_ _ _ Hn] [_ _ _ Hn'] Hm Hread HP. split; [done|]. split; [congruence|]. by right.
Qed.
Lemma replayed_outcome d d' v (P : Prop) : same_targets d d' → read_from d' v →
  outcome d d' {| cr_Value := v; cr_Replayed := true |} P.
Proof. intros Hs Hread. split; [done|]. split; [by apply st_namespaces|]. by left. Qed.

Lemma CreateTarget_ok p n k q spec e d r d' : CreateTarget p n k q spec e d = Ok (r, d') →
  ValidateTargetSpec spec = Ok tt ∧ ∃ a, authorized e d p n [CapabilityTargetsManage] a ∧
  outcome d d' r (target_created e d d' (na_namespaceID a) (tgt_ID (cr_Value r)) (tgt_GenerationID (cr_Value r)) spec).
Proof.
  intros H. unfold CreateTarget in H. guard_inv. split; [done|]. evidence_kept. head_inv.
  match goal with H : match ?o with _ => _ end _ _ = _ |- _ => destruct o as [resourceID|]; guard_inv; evidence_kept end.
  - by apply replayed_outcome.
  - same_chain. match goal with H : insertTarget _ _ _ _ _ _ _ = Ok _ |- _ => apply insertTarget_ok in H as [Hc En]; [|done] end.
    match goal with H : same_targets d ?d1, H' : same_targets _ ?d2, R : read_from _ _ |- _ =>
      apply (target_created_same _ _ _ _ H H') in Hc; eapply fresh_outcome; [exact H|exact H'|exact En|exact R|];
      destruct (tc_targets _ _ _ _ _ _ _ Hc) as [created Et];
      eapply read_from_generation in R as Hg; [|done|rewrite Et; apply lookup_insert_eq|done] end.
    cbn. congruence.
Qed.

Lemma current_target_ok d ns name id t gid g : current_target d ns name = Some (id, t, gid, g) →
  d_targets d !! id = Some t ∧ tg_namespace_id t = ns ∧ tg_name t = name ∧
  tg_current_generation_id t = Some gid ∧ d_generations d !! gid = Some g.
Proof.
  unfold current_target. intros ([i u] & Hi & H)%bind_Some. apply bind_Some in H as (gid' & Hg & H).
  apply bind_Some in H as (g' & Hg' & H). simplify_eq.
  apply head_Some_elem_of, elem_of_select in Hi as [Hi Hp]. apply andb_true_iff in Hp as [?%eqs_true ?%eqs_true]. by split_and!.
Qed.

Lemma CreateTargetGeneration_ok p n name k q c e d r d' : CreateTargetGeneration p n name k q c e d = Ok (r, d') →
  ValidateTargetSpec (tgc_Spec c) = Ok tt ∧ ∃ a, authorized e d p n [CapabilityTargetsManage] a ∧
  outcome d d' r (∃ t gid0 g0,
    target_regenerated e d d' (na_namespaceID a) name (tgt_ID (cr_Value r)) (tgt_GenerationID (cr_Value r)) c t gid0 g0).
Proof.
  intros H. unfold CreateTargetGeneration in H. guard_inv.
  match goal with H : ValidateTargetGenerationChange _ = _ |- _ => unfold ValidateTargetGenerationChange in H; guard_inv end.
  split; [done|]. head_inv.
  match goal with H : current_target _ _ _ = Some ?x |- _ => destruct x as [[[id t] gid0] g0];
    apply current_target_ok in H as (Ht & Hns & Hname & Hg & Hg0); cbn in Ht, Hg0 end. guard_inv.
  match goal with H : match ?o with _ => _ end _ _ = _ |- _ => destruct o as [resourceID|]; guard_inv; evidence_kept end;
    repeat match goal with H : same_targets (_ <| d_ids := _ |>) _ |- _ => apply same_targets_ids in H end.
  - by apply replayed_outcome.
  - repeat match goal with H : _ || _ = false |- _ => apply orb_false_iff in H as [? ?]
      | H : negb _ = false |- _ => apply negb_false_iff in H end. guard_inv.
    repeat match goal with H : bool_decide _ = true |- _ => apply bool_decide_eq_true in H end.
    match goal with H : insertTargetGeneration _ _ _ _ _ _ _ _ = Ok _ |- _ => apply insertTargetGeneration_ok in H as (Hadd & Et1 & En1 & _); [|done] end.
    match goal with H : same_targets d ?d1 |- _ => rename H into Hbefore; rewrite <-(st_targets _ _ Hbefore) in Ht; rewrite <-(st_generations _ _ Hbefore) in Hg0 end.
    match goal with H : UPDATE _ _ _ _ _ = Ok _ |- _ => eapply update_target_ok in H as [Ed Hrev]; [|rewrite Et1; exact Ht|by rewrite Hns, eqs_refl] end.
    same_chain. match type of Hadd with generation_added ?d1 _ ?ns ?id ?gid _ _ => match goal with Ha : same_targets ?d2 ?d3, R : read_from _ _ |- _ =>
      assert (target_regenerated e d1 d2 ns (ts_Name (tgc_Spec c)) id gid c t gid0 g0) as Hr;
      [|apply (target_regenerated_same _ _ _ _ Hbefore Ha) in Hr; eapply fresh_outcome; [exact Hbefore|exact Ha|by rewrite Ed|exact R|];
        exists t, gid0, g0; eapply read_from_generation in R as Hgid; [|done|rewrite (tr_targets _ _ _ _ _ _ _ _ _ _ _ Hr); apply lookup_insert_eq|done]] end end.
    + rewrite Ed. constructor; try done; cbn in *; [|lia|by rewrite Et1]. destruct Hadd. by constructor.
    + cbn. by rewrite Hgid.
Qed.

Lemma UpdateTargetState_ok p n name k q c e d r d' : UpdateTargetState p n name k q c e d = Ok (r, d') →
  ∃ a, authorized e d p n [CapabilityTargetsOperate] a ∧
  outcome d d' r (∃ t, target_restated e d d' (na_namespaceID a) name (tgt_ID (cr_Value r)) c t).
Proof.
  intros H. unfold UpdateTargetState in H. guard_inv. head_inv.
  match goal with H : head _ = Some ?x |- _ => destruct x as [id t]; apply head_Some_elem_of, elem_of_select in H as [Ht Hp]; cbn in Ht;
    apply andb_true_iff in Hp as [Hns%eqs_true Hname%eqs_true] end. guard_inv.
  match goal with H : match ?o with _ => _ end _ _ = _ |- _ => destruct o as [resourceID|]; guard_inv; evidence_kept end;
    repeat match goal with H : same_targets (_ <| d_ids := _ |>) _ |- _ => apply same_targets_ids in H end.
  - by apply replayed_outcome.
  - repeat match goal with H : _ || _ = false |- _ => apply orb_false_iff in H as [? ?]
      | H : negb _ = false |- _ => apply negb_false_iff in H end. guard_inv.
    repeat match goal with H : bool_decide _ = true |- _ => apply bool_decide_eq_true in H end.
    match goal with H : same_targets d ?d1 |- _ => rename H into Hbefore; rewrite <-(st_targets _ _ Hbefore) in Ht end.
    match goal with H : UPDATE _ _ _ _ _ = Ok _ |- _ => eapply update_target_ok in H as [Ed Hrev]; [|exact Ht|by rewrite Hns, eqs_refl] end.
    same_chain. match type of Hbefore with same_targets _ ?d1 => match goal with Ha : same_targets ?d2 ?d3, R : read_from _ ?v |- _ =>
      assert (target_restated e d1 d2 (tg_namespace_id t) (tg_name t) (tgt_ID v) c t) as Hr;
      [|apply (target_restated_same _ _ _ _ Hbefore Ha) in Hr; eapply fresh_outcome; [exact Hbefore|exact Ha|by rewrite Ed|exact R|]; rewrite <-Hns; by exists t] end end.
    rewrite Ed. constructor; try done; cbn in *; lia.
Qed.
