(* ===== verification/TargetHistory.v ===== *)
(** * Histories of targets

    The target methods as a transition system, the invariant that ties targets, generations and partitions
    together, and what holds between two states of a history. *)
From stdpp Require Import pretty.
From S2P Require Import Prelude Regex Names Domain TargetSpec Kahn Graph Contract Records Url Json Tokens Db Tx Constraints Auth Jobs Groups GraphStore Executions Coordinator Agents Targets Lifecycle Progress LifecycleOps Frames Delivery AgentRuns TargetRuns.

(** The unique constraint on the names of namespaces. *)
Definition unique_namespaces (d : db) : Prop :=
  ∀ i j n m, d_namespaces d !! i = Some n → d_namespaces d !! j = Some m → ns_name n = ns_name m → i = j.

(** One committed call.  [tstep_elsewhere] is any change that leaves targets, generations and partitions
    alone and keeps the namespaces there are. *)
Inductive target_step : db → db → Prop :=
  | tstep_create p n k q spec e d r d' : CreateTarget p n k q spec e d = Ok (r, d') → target_step d d'
  | tstep_generation p n name k q c e d r d' : CreateTargetGeneration p n name k q c e d = Ok (r, d') → target_step d d'
  | tstep_state p n name k q c e d r d' : UpdateTargetState p n name k q c e d = Ok (r, d') → target_step d d'
  | tstep_elsewhere d d' : d_targets d' = d_targets d → d_generations d' = d_generations d → d_partitions d' = d_partitions d →
      d_namespaces d ⊆ d_namespaces d' → unique_namespaces d' → target_step d d'.

(** ** The invariant *)

Record targets_ok (d : db) : Prop := {
  to_current : ∀ id t, d_targets d !! id = Some t → ∃ gid g, tg_current_generation_id t = Some gid ∧
    d_generations d !! gid = Some g ∧ gen_target_id g = id ∧ 1 ≤ gen_generation g ≤ tg_revision t ≤ max_int64 ∧
    ∀ n, (∃ gid' g', d_generations d !! gid' = Some g' ∧ gen_target_id g' = id ∧ gen_generation g' = n) ↔ 1 ≤ n ≤ gen_generation g;
  to_number : ∀ gid gid' g g', d_generations d !! gid = Some g → d_generations d !! gid' = Some g' →
    gen_target_id g = gen_target_id g' → gen_generation g = gen_generation g' → gid = gid';
  to_owner : ∀ gid g, d_generations d !! gid = Some g → ∃ t, d_targets d !! gen_target_id g = Some t ∧ tg_namespace_id t = gen_namespace_id g;
  to_name : ∀ id id' t t', d_targets d !! id = Some t → d_targets d !! id' = Some t' →
    tg_namespace_id t = tg_namespace_id t' → tg_name t = tg_name t' → id = id';
  to_partitions : ∀ k p, d_partitions d !! k = Some p → is_Some (d_generations d !! k.1);
  to_namespaces : unique_namespaces d }.

(** ** Progress *)

Record target_advances (t t' : target_row) : Prop := {
  ta_identity : tg_namespace_id t' = tg_namespace_id t ∧ tg_name t' = tg_name t ∧ tg_kind t' = tg_kind t ∧ tg_created_at t' = tg_created_at t;
  ta_revision : tg_revision t ≤ tg_revision t';
  ta_same : tg_revision t' = tg_revision t → t' = t;
  ta_retired : tg_state t = "retired" →
    tg_state t' = "retired" ∧ tg_current_generation_id t' = tg_current_generation_id t }.

#[export] Instance target_advances_refl : Reflexive target_advances.
Proof. intros t. by constructor. Qed.
#[export] Instance target_advances_trans : Transitive target_advances.
Proof.
  intros t1 t2 t3 [(? & ? & ? & ?) ? S1 R1] [(? & ? & ? & ?) ? S2 R2]. constructor; [split_and!; congruence|lia| |].
  - intros E. rewrite S2, S1; [done|lia..].
  - intros Hr. destruct (R1 Hr) as [Hr2 ?]. destruct (R2 Hr2). split; congruence.
Qed.

Record targets_grow (d d' : db) : Prop := {
  tgw_targets : grows target_advances (d_targets d) (d_targets d');
  tgw_generations : d_generations d ⊆ d_generations d';
  tgw_partitions : ∀ k, is_Some (d_generations d !! k.1) → d_partitions d' !! k = d_partitions d !! k;
  tgw_namespaces : d_namespaces d ⊆ d_namespaces d' }.

#[export] Instance targets_grow_refl : Reflexive targets_grow.
Proof. intros d. constructor; [apply grows_refl, _|done..]. Qed.
#[export] Instance targets_grow_trans : Transitive targets_grow.
Proof.
  intros d1 d2 d3 [T1 G1 P1 N1] [T2 G2 P2 N2]. constructor; [|by etrans| |by etrans].
  - eapply grows_trans; [apply _|done|done].
  - intros k Hk. rewrite P2, P1; [done..|]. destruct Hk as [g Hg]. exists g. by eapply lookup_weaken.
Qed.

Definition target_sound (d d' : db) : Prop := targets_ok d → targets_ok d' ∧ targets_grow d d'.

(** ** Every call keeps the invariant *)

Lemma elsewhere_sound d d' : d_targets d' = d_targets d → d_generations d' = d_generations d → d_partitions d' = d_partitions d →
  d_namespaces d ⊆ d_namespaces d' → unique_namespaces d' → target_sound d d'.
Proof.
  intros Ht Hg Hp Hn Hu [I1 I2 I3 I4 I5 I6]. split.
  - constructor; rewrite ?Ht, ?Hg, ?Hp; done.
  - constructor; rewrite ?Ht, ?Hg, ?Hp; [apply grows_refl, _|done..].
Qed.

Lemma same_targets_sound d d' : same_targets d d' → target_sound d d'.
Proof.
  intros [Ht Hg Hp Hn] I. apply elsewhere_sound; try done; [by rewrite Hn|].
  unfold unique_namespaces. rewrite Hn. apply I.
Qed.

(** What a generation with the next number does to the generations and partitions. *)
Section added.
Context (d d' : db) (ns id gid : string) (number : Z) (spec : TargetSpec).
Context (Hadd : generation_added d d' ns id gid number spec) (I : targets_ok d).

Lemma added_number k k' g g' : d_generations d' !! k = Some g → d_generations d' !! k' = Some g' →
  gen_target_id g = gen_target_id g' → gen_generation g = gen_generation g' → k = k'.
Proof using Hadd I.
  destruct Hadd as [Hf Hg _ Hu _ _]. rewrite Hg, !lookup_insert_Some.
  intros [[<- <-]|[Hk Hl]] [[<- <-]|[Hk' Hl']] E1 E2; cbn in *; [done|..|by eapply (to_number _ I)].
  - symmetry. by apply (Hu _ _ Hl').
  - by apply (Hu _ _ Hl).
Qed.

Lemma added_partitions k p : d_partitions d' !! k = Some p → is_Some (d_generations d' !! k.1).
Proof using Hadd I.
  destruct Hadd as [Hf Hg _ _ Ho _]. intros Hp. rewrite Hg. destruct (decide (k.1 = gid)) as [->|Hk].
  - rewrite lookup_insert_eq. eauto.
  - rewrite lookup_insert_ne by done. rewrite Ho in Hp by done. by eapply (to_partitions _ I).
Qed.

Lemma added_grow_generations : d_generations d ⊆ d_generations d'.
Proof using Hadd. destruct Hadd as [Hf Hg _ _ _ _]. rewrite Hg. by apply insert_subseteq. Qed.
Lemma added_grow_partitions k : is_Some (d_generations d !! k.1) → d_partitions d' !! k = d_partitions d !! k.
Proof using Hadd. destruct Hadd as [Hf _ _ _ Ho _]. intros [g Hg]. apply Ho. intros E. congruence. Qed.

(** The numbers of the generations of a target. *)
Lemma added_other_numbers k n : k ≠ id →
  (∃ gid' g', d_generations d' !! gid' = Some g' ∧ gen_target_id g' = k ∧ gen_generation g' = n) ↔
  (∃ gid' g', d_generations d !! gid' = Some g' ∧ gen_target_id g' = k ∧ gen_generation g' = n).
Proof using Hadd.
  intros Hk. destruct Hadd as [Hf Hg _ _ _ _]. rewrite Hg. split; intros (gid' & g' & Hl & Ht & Hn).
  - apply lookup_insert_Some in Hl as [[_ <-]|[_ Hl]]; [by cbn in Ht|]. by exists gid', g'.
  - exists gid', g'. rewrite lookup_insert_ne; [done|]. by intros <-; congruence.
Qed.
Lemma added_numbers n :
  (∃ gid' g', d_generations d' !! gid' = Some g' ∧ gen_target_id g' = id ∧ gen_generation g' = n) ↔
  n = number ∨ (∃ gid' g', d_generations d !! gid' = Some g' ∧ gen_target_id g' = id ∧ gen_generation g' = n).
Proof using Hadd.
  destruct Hadd as [Hf Hg _ _ _ _]. rewrite Hg. split.
  - intros (gid' & g' & Hl & Ht & Hn). apply lookup_insert_Some in Hl as [[_ <-]|[_ Hl]]; [by left|]. right. by exists gid', g'.
  - intros [->|(gid' & g' & Hl & Ht & Hn)].
    + exists gid. eexists. rewrite lookup_insert_eq. by split_and!.
    + exists gid', g'. rewrite lookup_insert_ne; [done|]. by intros <-; congruence.
Qed.
End added.

(** A row of [targets] written in place: what the invariant needs of it. *)
Lemma target_names (m : gmap string target_row) id t' :
  (∀ k k' t1 t2, m !! k = Some t1 → m !! k' = Some t2 → tg_namespace_id t1 = tg_namespace_id t2 → tg_name t1 = tg_name t2 → k = k') →
  (∀ k t, m !! k = Some t → tg_namespace_id t = tg_namespace_id t' → tg_name t = tg_name t' → k = id) →
  ∀ k k' t1 t2, <[id := t']> m !! k = Some t1 → <[id := t']> m !! k' = Some t2 →
    tg_namespace_id t1 = tg_namespace_id t2 → tg_name t1 = tg_name t2 → k = k'.
Proof.
  intros Hm Hid k k' t1 t2 [[<- <-]|[Hk H1]]%lookup_insert_Some [[<- <-]|[Hk' H2]]%lookup_insert_Some E1 E2; [done|..|by eapply Hm].
  - symmetry. by eapply Hid.
  - by eapply Hid.
Qed.

Lemma created_sound e d d' ns id gid spec : d_namespaces d' = d_namespaces d → target_created e d d' ns id gid spec → target_sound d d'.
Proof.
  intros En [Hfresh Hname Hadd [created Ht]] I. pose proof (ga_fresh _ _ _ _ _ _ _ Hadd) as Hf. pose proof (ga_generations _ _ _ _ _ _ _ Hadd) as Hg.
  assert (∀ k g, d_generations d !! k = Some g → gen_target_id g ≠ id) as Hnone.
  { intros k g Hk E. destruct (to_owner _ I _ _ Hk) as (t & Htt & _). congruence. }
  split; constructor.
  - rewrite Ht. intros k t [[<- <-]|[Hk Hl]]%lookup_insert_Some.
    + exists gid, (new_generation ns id 1 spec). split_and!; try done; try (cbn; lia).
      { rewrite Hg. apply lookup_insert_eq. }
      intros n. rewrite (added_numbers _ _ _ _ _ _ _ Hadd). cbn. split; [|intros; left; lia].
      intros [->|(? & ? & Hl & E & _)]; [lia|]. by apply Hnone in Hl.
    + destruct (to_current _ I _ _ Hl) as (gid0 & g0 & Hc & Hg0 & Htg & Hb & Hnum). exists gid0, g0. split_and!; try done; try lia.
      * rewrite Hg, lookup_insert_ne; [done|]. by intros <-; congruence.
      * intros n. rewrite (added_other_numbers _ _ _ _ _ _ _ Hadd); [apply Hnum|]. intros ->. congruence.
  - intros *. by apply (added_number _ _ _ _ _ _ _ Hadd I).
  - intros k g. rewrite Hg, Ht. intros [[<- <-]|[Hk Hl]]%lookup_insert_Some.
    + cbn. rewrite lookup_insert_eq. eexists. by split.
    + destruct (to_owner _ I _ _ Hl) as (t & Htt & ?). exists t. rewrite lookup_insert_ne; [done|]. intros E. rewrite <-E in Htt. congruence.
  - rewrite Ht. apply target_names; [apply I|]. intros k t Hk E1 E2. exfalso. by eapply Hname.
  - by apply (added_partitions _ _ _ _ _ _ _ Hadd I).
  - unfold unique_namespaces. rewrite En. apply I.
  - rewrite Ht. apply grows_insert_fresh; [apply _|done].
  - by eapply added_grow_generations.
  - by eapply added_grow_partitions.
  - by rewrite En.
Qed.

Lemma positive_wrap64 z : 0 < z ≤ max_int64 → wrap64 z = z.
Proof. intros ?. apply wrap64_id. unfold int64_range, min_int64. lia. Qed.

Lemma regenerated_sound e d d' ns name id gid c t gid0 g0 : d_namespaces d' = d_namespaces d →
  target_regenerated e d d' ns name id gid c t gid0 g0 → target_sound d d'.
Proof.
  intros En [Hrow [Hns [Hname _]] Hcur Hg0 Hstate Hrev Hkind Hadd Hb Ht] I.
  destruct (to_current _ I _ _ Hrow) as (gid1 & g1 & Hc & Hg1 & Htg & Hbound & Hnum). assert (gid1 = gid0) as -> by congruence.
  assert (g1 = g0) as -> by congruence. rewrite positive_wrap64 in Hadd by lia.
  pose proof (ga_generations _ _ _ _ _ _ _ Hadd) as Hg.
  split; constructor.
  - rewrite Ht. intros k t' [[<- <-]|[Hk Hl]]%lookup_insert_Some.
    + exists gid, (new_generation ns id (gen_generation g0 + 1) (tgc_Spec c)). split_and!; try done; try (cbn; lia).
      { rewrite Hg. apply lookup_insert_eq. }
      intros n. rewrite (added_numbers _ _ _ _ _ _ _ Hadd), Hnum. cbn. lia.
    + destruct (to_current _ I _ _ Hl) as (gid2 & g2 & Hc2 & Hg2 & Htg2 & Hb2 & Hnum2). exists gid2, g2. split_and!; try done; try lia.
      * rewrite Hg, lookup_insert_ne; [done|]. intros <-. rewrite (ga_fresh _ _ _ _ _ _ _ Hadd) in Hg2. done.
      * intros n. rewrite (added_other_numbers _ _ _ _ _ _ _ Hadd); [apply Hnum2|]. congruence.
  - intros *. by apply (added_number _ _ _ _ _ _ _ Hadd I).
  - intros k g. rewrite Hg, Ht. intros [[<- <-]|[Hk Hl]]%lookup_insert_Some.
    + cbn. rewrite lookup_insert_eq. eexists. by split.
    + destruct (to_owner _ I _ _ Hl) as (t' & Htt & ?). destruct (decide (gen_target_id g = id)) as [E|Hne].
      * rewrite E, lookup_insert_eq in *. eexists. split; [done|]. cbn. congruence.
      * exists t'. by rewrite lookup_insert_ne.
  - rewrite Ht. apply target_names; [apply I|]. intros k t' Hk E1 E2. by eapply (to_name _ I).
  - by apply (added_partitions _ _ _ _ _ _ _ Hadd I).
  - unfold unique_namespaces. rewrite En. apply I.
  - rewrite Ht. apply grows_insert; [apply _|]. intros v Hv. assert (v = t) as -> by congruence.
    constructor; cbn; [done|lia|intros ?; lia|done].
  - by eapply added_grow_generations.
  - by eapply added_grow_partitions.
  - by rewrite En.
Qed.

Lemma retired_final requested : validTargetStateTransition "retired" requested = true → requested = "retired".
Proof. unfold validTargetStateTransition. cbn. rewrite orb_false_r. intros E%eqs_true. done. Qed.

Lemma restated_sound e d d' ns name id c t : d_namespaces d' = d_namespaces d → target_restated e d d' ns name id c t → target_sound d d'.
Proof.
  intros En [Hrow [Hns Hname] Hrev Hlegal Hb Hg Hp Ht] I. split; constructor; rewrite ?Hg, ?Hp; try apply I.
  - rewrite Ht. intros k t' [[<- <-]|[Hk Hl]]%lookup_insert_Some; [|by apply (to_current _ I)].
    destruct (to_current _ I _ _ Hrow) as (gid & g & Hc & Hl & Htg & Hbound & Hnum). exists gid, g. cbn. split_and!; try done; lia.
  - rewrite Ht. intros k g Hk. destruct (to_owner _ I _ _ Hk) as (t' & Htt & ?). destruct (decide (gen_target_id g = id)) as [E|Hne].
    + rewrite E, lookup_insert_eq in *. eexists. split; [done|]. cbn. congruence.
    + exists t'. by rewrite lookup_insert_ne.
  - rewrite Ht. apply target_names; [apply I|]. intros k t' Hk E1 E2. by eapply (to_name _ I).
  - unfold unique_namespaces. rewrite En. apply I.
  - rewrite Ht. apply grows_insert; [apply _|]. intros v Hv. assert (v = t) as -> by congruence.
    constructor; cbn; [done|lia|intros ?; lia|]. intros E. rewrite E in Hlegal. by apply retired_final in Hlegal.
  - done.
  - done.
  - by rewrite En.
Qed.

Lemma outcome_sound d d' r (P : Prop) : outcome d d' r P → (d_namespaces d' = d_namespaces d → P → target_sound d d') → target_sound d d'.
Proof. intros (_ & Hn & [[_ Hs]|[_ HP]]) Hf; [by apply same_targets_sound|by apply Hf]. Qed.

Lemma target_step_sound d d' : target_step d d' → target_sound d d'.
Proof.
  intros [p n k q spec e ??? (_ & a & _ & Ho)%CreateTarget_ok|p n name k q c e ??? (_ & a & _ & Ho)%CreateTargetGeneration_ok
    |p n name k q c e ??? (a & _ & Ho)%UpdateTargetState_ok|]; [..|by apply elsewhere_sound];
    eapply outcome_sound; try exact Ho; intros Hn; cbn.
  - by apply created_sound.
  - intros (t & gid0 & g0 & Hr). by eapply regenerated_sound.
  - intros (t & Hr). by eapply restated_sound.
Qed.

Lemma target_steps_sound d d' : rtc target_step d d' → target_sound d d'.
Proof.
  induction 1 as [d|d1 d2 d3 Hs _ IH]; intros I; [by split|].
  destruct (target_step_sound _ _ Hs I) as [I2 G2]. destruct (IH I2) as [I3 G3]. split; [done|by etrans].
Qed.

(** The histories that start without targets. *)
Definition target_reachable (d : db) : Prop :=
  ∃ d0, d_targets d0 = ∅ ∧ d_generations d0 = ∅ ∧ d_partitions d0 = ∅ ∧ unique_namespaces d0 ∧ rtc target_step d0 d.

Lemma target_reachable_ok d : target_reachable d → targets_ok d.
Proof.
  intros (d0 & Ht & Hg & Hp & Hu & Hs). apply (target_steps_sound _ _ Hs).
  constructor; rewrite ?Ht, ?Hg, ?Hp; done.
Qed.
Lemma target_reachable_steps d d' : target_reachable d → rtc target_step d d' → target_reachable d'.
Proof. intros (d0 & ? & ? & ? & ? & H0) Hs. exists d0. split_and!; try done. by etrans. Qed.

(** ** Versions *)

(** C22: versions of a target.  In every history a target selects one of its own generations; its
    generations carry exactly the numbers from 1 to that of the selected one, each once, so the selected
    one is the latest; its revision is at least that number; and its name is its own in its namespace. *)
Theorem target_versions d id t : target_reachable d → d_targets d !! id = Some t →
  ∃ gid g, tg_current_generation_id t = Some gid ∧ d_generations d !! gid = Some g ∧ gen_target_id g = id ∧
    gen_namespace_id g = tg_namespace_id t ∧ gen_generation g ≤ tg_revision t ≤ max_int64 ∧
    (∀ n, (exists! gid', ∃ g', d_generations d !! gid' = Some g' ∧ gen_target_id g' = id ∧ gen_generation g' = n) ↔ 1 ≤ n ≤ gen_generation g) ∧
    (∀ id' t', d_targets d !! id' = Some t' → tg_namespace_id t' = tg_namespace_id t → tg_name t' = tg_name t → id' = id).
Proof.
  intros I%target_reachable_ok Ht. destruct (to_current _ I _ _ Ht) as (gid & g & Hc & Hg & Htg & Hb & Hn).
  exists gid, g. split_and!; try done; try lia.
  - destruct (to_owner _ I _ _ Hg) as (t' & Ht' & <-). rewrite Htg in Ht'. congruence.
  - intros n. rewrite <-Hn. split; [intros (gid' & (g' & ?) & _); by exists gid', g'|].
    intros (gid' & g' & Hg' & Ht' & Hn'). exists gid'. split; [by exists g'|]. intros gid2 (g2 & Hg2 & Ht2 & Hn2).
    apply (to_number _ I _ _ _ _ Hg' Hg2); congruence.
  - intros id' t' Ht' E1 E2. by eapply (to_name _ I).
Qed.

(** ** Revisions *)

(** A change of the target [id] that expected the revision [rev] and was not a replay. *)
Inductive target_changed (id : string) (rev : Z) (d d' : db) : Prop :=
  | changed_state p n name k q c e r : UpdateTargetState p n name k q c e d = Ok (r, d') → cr_Replayed r = false →
      tgt_ID (cr_Value r) = id → tsc_ExpectedRevision c = rev → target_changed id rev d d'
  | changed_generation p n name k q c e r : CreateTargetGeneration p n name k q c e d = Ok (r, d') → cr_Replayed r = false →
      tgt_ID (cr_Value r) = id → tgc_ExpectedRevision c = rev → target_changed id rev d d'.

Lemma target_changed_step id rev d d' : target_changed id rev d d' → target_step d d'.
Proof. intros []; [by eapply tstep_state|by eapply tstep_generation]. Qed.

Lemma target_changed_revision id rev d d' : target_changed id rev d d' →
  ∃ t t', d_targets d !! id = Some t ∧ tg_revision t = rev ∧ d_targets d' !! id = Some t' ∧ tg_revision t' = rev + 1.
Proof.
  intros [p n name k q c e r (a & _ & _ & _ & Ho)%UpdateTargetState_ok Hf <- <-
    |p n name k q c e r (_ & a & _ & _ & _ & Ho)%CreateTargetGeneration_ok Hf <- <-];
    (destruct Ho as [[? _]|[_ Ho]]; [congruence|]).
  - destruct Ho as (t & [Hrow _ Hrev _ _ _ _ Ht]). exists t. eexists. rewrite Ht, lookup_insert_eq. split_and!; try done. cbn. lia.
  - destruct Ho as (t & gid0 & g0 & [Hrow _ _ _ _ Hrev _ _ _ Ht]). exists t. eexists. rewrite Ht, lookup_insert_eq.
    split_and!; try done. cbn. lia.
Qed.

(** C23: no lost update.  A change of state or of generation takes the target from the revision it expects
    to the next one, so of two changes of a target in one history the later one expects a later revision:
    no two of them were decided on the same version. *)
Theorem no_lost_target_update d d1 d2 d3 id rev rev' : target_reachable d →
  target_changed id rev d d1 → rtc target_step d1 d2 → target_changed id rev' d2 d3 →
  (∃ t, d_targets d1 !! id = Some t ∧ tg_revision t = rev + 1) ∧ rev < rev'.
Proof.
  intros Hreach Hc Hs Hc'. destruct (target_changed_revision _ _ _ _ Hc) as (t & t1 & _ & _ & Ht1 & E1).
  split; [by exists t1|]. destruct (target_changed_revision _ _ _ _ Hc') as (t2 & _ & Ht2 & <- & _).
  assert (targets_ok d1) as I1.
  { apply target_reachable_ok. eapply target_reachable_steps; [done|]. by eapply rtc_once, target_changed_step. }
  destruct (target_steps_sound _ _ Hs I1) as [_ [G _ _ _]]. destruct (G _ _ Ht1) as (t' & Ht' & [_ Hr _ _]).
  assert (t' = t2) as -> by congruence. lia.
Qed.

(** ** Changes of state *)

(** Changes of state.  A first successful [UpdateTargetState] was authorized, found the target of that
    name in the expected revision and in a state from which the requested one may follow, and left it in
    the requested state one revision later; nothing else about targets changed, and the answer is the
    target as stored. *)
Theorem target_state_change p n name k q c e d r d' : UpdateTargetState p n name k q c e d = Ok (r, d') → cr_Replayed r = false →
  ∃ a t, authorized e d p n [CapabilityTargetsOperate] a ∧
    d_targets d !! tgt_ID (cr_Value r) = Some t ∧ tg_namespace_id t = na_namespaceID a ∧ tg_name t = name ∧
    tg_revision t = tsc_ExpectedRevision c ∧
    (tsc_State c = tg_state t ∨ (tg_state t, tsc_State c) ∈ [("active", "draining"); ("active", "disabled");
       ("draining", "active"); ("draining", "disabled"); ("draining", "retired"); ("disabled", "active"); ("disabled", "retired")]) ∧
    (∀ k', k' ≠ tgt_ID (cr_Value r) → d_targets d' !! k' = d_targets d !! k') ∧
    d_generations d' = d_generations d ∧ d_partitions d' = d_partitions d ∧
    tgt_State (cr_Value r) = tsc_State c ∧ tgt_Revision (cr_Value r) = tg_revision t + 1 ∧
    Some (tgt_GenerationID (cr_Value r)) = tg_current_generation_id t.
Proof.
  intros (a & Haz & (t' & Ht' & Hscan) & _ & [[? _]|[_ (t & [Hrow [Hns Hname] Hrev Hlegal _ Hg Hp Ht])]])%UpdateTargetState_ok Hf; [congruence|].
  rewrite Ht, lookup_insert_eq in Ht'. injection Ht' as <-.
  pose proof (scanTarget_current _ _ _ _ Hscan) as Hcur. cbn in Hcur.
  unfold scanTarget in Hscan. apply bind_Some in Hscan as (nr & _ & Hscan). apply bind_Some in Hscan as (gid & _ & Hscan).
  apply bind_Some in Hscan as (g & _ & Hscan). cbn in Hscan.
  assert (tgt_State (cr_Value r) = tsc_State c ∧ tgt_Revision (cr_Value r) = tg_revision t + 1) as [Es Er].
  { injection Hscan as Ev. rewrite <-Ev. cbn. split; [done|lia]. }
  exists a, t. split_and!; try done.
  - unfold validTargetStateTransition, allowed_states in Hlegal. apply orb_true_iff in Hlegal as [->%eqs_true|Hin]; [by left|right].
    apply slices_Contains_spec in Hin.
    destruct (eqs (tg_state t) "active") eqn:E1; [|destruct (eqs (tg_state t) "draining") eqn:E2;
      [|destruct (eqs (tg_state t) "disabled") eqn:E3]]; guard_inv;
      try match goal with E : tg_state t = _ |- _ => rewrite E end;
      repeat (apply elem_of_cons in Hin as [->|Hin]; [set_solver|]); by apply not_elem_of_nil in Hin.
  - intros k' Hk. by rewrite Ht, lookup_insert_ne.
Qed.

(** ** Reading *)

Lemma select_eq {K R} `{Countable K} (p : K → R → bool) (m m' : gmap K R) :
  (∀ k r, m !! k = Some r ∧ p k r = true ↔ m' !! k = Some r ∧ p k r = true) → select p m = select p m'.
Proof.
  intros Hm. unfold select. f_equal. apply map_eq. intros k. apply option_eq. intros r. rewrite !map_lookup_filter_Some. apply Hm.
Qed.

Lemma loadPartitions_eq d d' gid : (∀ k, k.1 = gid → d_partitions d' !! k = d_partitions d !! k) → loadPartitions d' gid = loadPartitions d gid.
Proof.
  intros Hp. unfold loadPartitions. do 2 f_equal. apply select_eq. intros k r. rewrite andb_true_iff, eqs_true.
  split; intros (Hl & E & ?); (split; [|done]); by rewrite Hp in *.
Qed.

(** The answer for a row depends only on what never changes. *)
Lemma scanTarget_stable d d' id t v : targets_grow d d' → scanTarget d id t = Some v → scanTarget d' id t = Some v.
Proof.
  intros [_ G P N]. unfold scanTarget. intros (n & Hn & H)%bind_Some. apply bind_Some in H as (gid & Hgid & H).
  apply bind_Some in H as (g & Hg & H). rewrite (lookup_weaken _ _ _ _ Hn N). cbn. rewrite Hgid. cbn.
  rewrite (lookup_weaken _ _ _ _ Hg G). cbn. rewrite (loadPartitions_eq d d' gid); [done|]. intros k <-. apply P. by eexists.
Qed.

Lemma GetTarget_ok p n name e d v d' : GetTarget p n name e d = Ok (v, d') →
  d' = d ∧ read_from d v ∧ tgt_Namespace v = n ∧ tgt_Name v = name ∧ ∃ a, authorized e d p n [CapabilityTargetsRead] a.
Proof.
  unfold GetTarget. intros H. destruct (authorizeNamespace _ _ _ e d) as [[a d1]|] eqn:Ha; [|by case_match].
  apply authorizeNamespace_authorized in Ha as [-> Haz]. apply row_or_ok in H as [H ->]. split; [done|].
  apply head_Some_elem_of, list_elem_of_omap in H as ([id t] & Hin & Hscan). cbn in Hscan.
  unfold visible_targets in Hin. apply elem_of_select in Hin as [Ht Hvis]. rewrite !andb_true_iff in Hvis. destruct Hvis as [[Hname Hns] _].
  apply eqs_true in Hname. apply exists_row_true in Hns as (nr & Hnr & Hns). apply eqs_true in Hns.
  split; [exists t; by rewrite (scanTarget_id _ _ _ _ Hscan)|].
  unfold scanTarget in Hscan. rewrite Hnr in Hscan. cbn in Hscan. apply bind_Some in Hscan as (gid & _ & Hscan).
  apply bind_Some in Hscan as (g & _ & Hscan). injection Hscan as <-. split_and!; try done. by exists a.
Qed.

(** A revision names one version.  Whenever the same target is read twice in a history with the same
    revision, by whomever and with whatever in between, the two answers are equal in every field. *)
Theorem revision_determines_target d d2 p n name e v d1 p' n' name' e' v' d3 : target_reachable d →
  GetTarget p n name e d = Ok (v, d1) → rtc target_step d d2 → GetTarget p' n' name' e' d2 = Ok (v', d3) →
  tgt_ID v' = tgt_ID v → tgt_Revision v' = tgt_Revision v → v' = v.
Proof.
  intros I%target_reachable_ok (_ & (t & Ht & Hs) & _)%GetTarget_ok Hsteps (_ & (t' & Ht' & Hs') & _)%GetTarget_ok Hid Hrev.
  destruct (target_steps_sound _ _ Hsteps I) as [_ G]. destruct (tgw_targets _ _ G _ _ Ht) as (t2 & Ht2 & [_ _ Hsame _]).
  rewrite Hid in Ht', Hs'. assert (t2 = t') as -> by congruence.
  assert (∀ d id t v, scanTarget d id t = Some v → tgt_Revision v = tg_revision t) as Hscan.
  { clear. unfold scanTarget. intros d id t v (n & _ & H)%bind_Some. apply bind_Some in H as (gid & _ & H). apply bind_Some in H as (g & _ & [= <-]). done. }
  rewrite Hsame in Hs' by (rewrite <-(Hscan _ _ _ _ Hs), <-(Hscan _ _ _ _ Hs'); done).
  apply (scanTarget_stable _ _ _ _ _ G) in Hs. congruence.
Qed.

(** ** What was written is what is read *)

(** [order_by] with a text key alone. *)
Lemma order_by_text {A} (name : A → string) l :
  order_by (λ _, 0) name l ≡ₚ l ∧ StronglySorted String.le (name <$> order_by (λ _, 0) name l).
Proof.
  unfold order_by. split; [apply merge_sort_Permutation|].
  pose proof (StronglySorted_merge_sort (order_le (λ _ : A, 0) name) l) as Hs.
  induction Hs as [|x r Hs IH Hall]; cbn; constructor; [done|].
  apply Forall_fmap. eapply Forall_impl; [exact Hall|]. intros y [?|[_ ?]]; [lia|done].
Qed.

Lemma default_nullif s : default "" (nullif_text s) = s.
Proof. unfold nullif_text. destruct (eqs s "") eqn:E; [by apply eqs_true in E|done]. Qed.
Lemma default_nullif_zero z : default 0 (nullif_zero z) = z.
Proof. unfold nullif_zero. case_bool_decide; done. Qed.

(** The answer [v] offers what [spec] asks for. *)
Record describes (v : Target) (namespace : string) (spec : TargetSpec) : Prop := {
  de_namespace : tgt_Namespace v = namespace;
  de_name : tgt_Name v = ts_Name spec;
  de_kind : tgt_Kind v = ts_Kind spec;
  de_backend : tgt_ExecutionBackend v = ts_ExecutionBackend spec;
  de_transport : tgt_Transport v = "agent-api";
  de_runtimes : tgt_Runtimes v = ts_Runtimes spec;
  de_systems : tgt_OperatingSystems v = ts_OperatingSystems spec;
  de_architectures : tgt_Architectures v = ts_Architectures spec;
  de_capabilities : tgt_Capabilities v = ts_Capabilities spec;
  de_log_store : tgt_LogStoreName v = ts_LogStoreName spec ∧ tgt_LogStoreVersion v = ts_LogStoreVersion spec;
  de_artifact_stores : tgt_ArtifactStores v = ts_ArtifactStores spec;
  de_provider : tgt_Provider v = NormalizeTargetProvider (ts_Provider spec);
  de_partitions : tgt_Partitions v ≡ₚ ts_Partitions spec ∧ StronglySorted String.le (ps_Name <$> tgt_Partitions v) }.

Lemma zip_elem {A B} (l : list A) (k : list B) y : length l = length k → y ∈ k → ∃ x, (x, y) ∈ zip l k.
Proof.
  revert k; induction l as [|a l IH]; intros [|b k] Hl Hy; cbn in *; try done; try (by apply not_elem_of_nil in Hy).
  apply elem_of_cons in Hy as [->|Hy]; [exists a; set_solver|].
  destruct (IH k) as [x Hx]; [lia|done|]. exists x. set_solver.
Qed.

(** The partitions of a new generation are those of its specification. *)
Lemma added_loaded d d' ns id gid number spec : targets_ok d → generation_added d d' ns id gid number spec →
  NoDup (ps_Name <$> ts_Partitions spec) →
  loadPartitions d' gid ≡ₚ ts_Partitions spec ∧ StronglySorted String.le (ps_Name <$> loadPartitions d' gid).
Proof.
  intros I Hadd Hnd. unfold loadPartitions. set (L := select _ (d_partitions d')).
  destruct (order_by_text (λ kp : (string * string) * partition_row, kp.1.2) L) as [Hperm Hsorted].
  split; [|by rewrite <-list_fmap_compose].
  rewrite Hperm. destruct (ga_partitions _ _ _ _ _ _ _ Hadd) as (ids & Hlen & Hp).
  assert (∀ n p, (gid, n, p) ∈ L ↔ ∃ ip, ip ∈ zip ids (ts_Partitions spec) ∧ n = ps_Name ip.2 ∧ p = new_partition ns ip.1 ip.2) as HL.
  { intros n p. unfold L. rewrite elem_of_select, Hp. cbn. rewrite eqs_refl. cbn. split.
    - intros [[Hold|?] _]; [|done]. apply (to_partitions _ I) in Hold as [g Hg]. cbn in Hg. rewrite (ga_fresh _ _ _ _ _ _ _ Hadd) in Hg. done.
    - intros (ip & ? & ? & ->). split; [right; by exists ip|done]. }
  assert (∀ k p, (k, p) ∈ L → k.1 = gid) as Hk.
  { intros k p. unfold L. rewrite elem_of_select, andb_true_iff, eqs_true. tauto. }
  apply NoDup_Permutation.
  - apply NoDup_fmap_2_strong; [|apply NoDup_fmap_1 with fst, NoDup_select_keys].
    intros [[g1 n1] p1] [[g2 n2] p2] H1 H2 E. pose proof (Hk _ _ H1). pose proof (Hk _ _ H2). cbn in *. subst g1 g2.
    injection E as En _. subst n2. unfold L in H1, H2. apply elem_of_select in H1 as [H1 _], H2 as [H2 _]. congruence.
  - by eapply NoDup_fmap_1.
  - intros ps. rewrite list_elem_of_fmap. split.
    + intros ([[g n] p] & -> & Hin). pose proof (Hk _ _ Hin). cbn in *. subst g. apply HL in Hin as ([pid qs] & Hz & -> & ->).
      apply elem_of_zip_r in Hz. cbn in *. by destruct qs.
    + intros Hin. destruct (zip_elem ids (ts_Partitions spec) ps) as [pid Hz]; [done..|].
      exists ((gid, ps_Name ps), new_partition ns pid ps). cbn. split; [by destruct ps|]. apply HL. by exists (pid, ps).
Qed.

(** Whoever may read the namespace reads the target. *)
Lemma GetTarget_complete p n name e d a id t v nr : targets_ok d →
  authorizeNamespace p n [CapabilityTargetsRead] e d = Ok (a, d) →
  d_targets d !! id = Some t → d_namespaces d !! tg_namespace_id t = Some nr → ns_name nr = n → tg_name t = name →
  scanTarget d id t = Some v → GetTarget p n name e d = Ok (v, d).
Proof.
  intros I Ha Ht Hnr Hn Hname Hscan. unfold GetTarget. rewrite Ha.
  assert (na_namespaceID a = tg_namespace_id t ∧ authorized_member d (na_namespaceID a) (na_canonical a) = true) as [Ens Hmem].
  { unfold authorizeNamespace in Ha. guard_inv.
    repeat (match goal with H : (let '(_, _) := ?x in _) _ _ = _ |- _ => destruct x as [? ?] end; guard_inv). cbn.
    match goal with H : find_namespace _ _ = Some _ |- _ => apply find_namespace_some in H as [Hl E]; split; [by eapply (to_namespaces _ I)|] end.
    unfold authorized_member. match goal with H : find_principal _ _ _ = Some _ |- _ => rewrite H end.
    by rewrite bool_decide_false. }
  assert ((id, t) ∈ visible_targets d (na_canonical a) n (λ t, eqs (tg_name t) name)) as Hin.
  { apply elem_of_select. split; [done|]. rewrite <-Ens, Hmem, Ens, Hname, eqs_refl. cbn. rewrite andb_true_r.
    apply exists_row_true. exists nr. by rewrite Hn, eqs_refl. }
  assert (∀ x, x ∈ visible_targets d (na_canonical a) n (λ t, eqs (tg_name t) name) → x = (id, t)) as Hall.
  { intros [id' t'] [Ht' Hvis]%elem_of_select. rewrite !andb_true_iff in Hvis. destruct Hvis as [[E1%eqs_true Hns] _].
    apply exists_row_true in Hns as (nr' & Hnr' & E2%eqs_true).
    assert (tg_namespace_id t' = tg_namespace_id t) by (eapply (to_namespaces _ I); [done..|congruence]).
    assert (id' = id) as -> by (eapply (to_name _ I); [done..|congruence]). congruence. }
  destruct (visible_targets _ _ _ _) as [|x l]; [by apply not_elem_of_nil in Hin|].
  rewrite (Hall x) by set_solver. cbn. rewrite Hscan. done.
Qed.

(** The answer to a call that installed [spec] as generation [number] of its target. *)
Lemma installed_target e d d' ns id gid number spec r t : targets_ok d → targets_ok d' →
  generation_added d d' ns id gid number spec → ValidateTargetSpec spec = Ok tt → read_from d' r → tgt_ID r = id →
  d_targets d' !! id = Some t → tg_current_generation_id t = Some gid → tg_namespace_id t = ns → tg_name t = ts_Name spec →
  tg_kind t = ts_Kind spec → ∀ nr, d_namespaces d' !! ns = Some nr →
  describes r (ns_name nr) spec ∧ tgt_Generation r = number ∧ tgt_Revision r = tg_revision t ∧ tgt_State r = tg_state t ∧
  ∀ p a, authorizeNamespace p (ns_name nr) [CapabilityTargetsRead] e d' = Ok (a, d') →
    GetTarget p (ns_name nr) (ts_Name spec) e d' = Ok (r, d').
Proof.
  intros I I' Hadd Hval (t' & Ht' & Hscan) <- Ht Hcur Hns Hname Hkind nr Hnr. assert (t' = t) as -> by congruence.
  assert (d_generations d' !! gid = Some (new_generation ns (tgt_ID r) number spec)) as Hg.
  { rewrite (ga_generations _ _ _ _ _ _ _ Hadd). apply lookup_insert_eq. }
  apply ValidateTargetSpec_spec in Hval.
  destruct (added_loaded _ _ _ _ _ _ _ I Hadd) as [Hperm Hsorted]; [apply (tsw_partitions _ Hval)|].
  split; [|split_and!].
  5: { intros p a Ha. eapply GetTarget_complete; try done. by rewrite Hns. }
  all: unfold scanTarget in Hscan; rewrite Hns, Hnr in Hscan; cbn in Hscan; rewrite Hcur in Hscan; cbn in Hscan; rewrite Hg in Hscan;
    cbn in Hscan; injection Hscan as <-; try done.
  constructor; cbn; rewrite ?default_nullif, ?default_nullif_zero; done.
Qed.

(** What was installed is what is read.  After a first successful [CreateTarget] or
    [CreateTargetGeneration] the answer has every field of the specification, with the provider normalized
    and the partitions in the order of their names, generation 1 of a new active target or the next
    generation of the existing one; and whoever may read targets of the namespace gets exactly this answer
    from [GetTarget]. *)
Theorem installed_target_read p n name k q e d r d' spec : target_reachable d → cr_Replayed r = false →
  (CreateTarget p n k q spec e d = Ok (r, d') ∨
   ∃ revision, CreateTargetGeneration p n name k q {| tgc_Spec := spec; tgc_ExpectedRevision := revision |} e d = Ok (r, d')) →
  describes (cr_Value r) n spec ∧
  (∀ k g, d_generations d !! k = Some g → gen_target_id g = tgt_ID (cr_Value r) → gen_generation g < tgt_Generation (cr_Value r)) ∧
  ∀ p' e' a, authorizeNamespace p' n [CapabilityTargetsRead] e' d' = Ok (a, d') →
    GetTarget p' n (ts_Name spec) e' d' = Ok (cr_Value r, d').
Proof.
  intros Hreach Hf Hr. pose proof (target_reachable_ok _ Hreach) as I.
  assert (targets_ok d') as I'.
  { apply target_reachable_ok. eapply target_reachable_steps; [done|]. apply rtc_once.
    destruct Hr as [Hr|[rev Hr]]; [by eapply tstep_create|by eapply tstep_generation]. }
  destruct Hr as [(Hv & a & Haz & Hread & Hn & [[? _]|[_ Hc]])%CreateTarget_ok|[rev (Hv & a & Haz & Hread & Hn & [[? _]|[_ Hc]])%CreateTargetGeneration_ok]];
    try congruence; destruct (az_namespace _ _ _ _ _ _ Haz) as (nr & Hnr & <-); rewrite <-Hn in Hnr.
  - destruct Hc as [Hfresh _ Hadd [created Ht]].
    eassert (d_targets d' !! tgt_ID (cr_Value r) = Some _) as Hnew by (rewrite Ht; apply lookup_insert_eq).
    destruct (installed_target e d d' _ _ _ _ _ _ _ I I' Hadd Hv Hread eq_refl Hnew eq_refl) with nr as (Hd & Hgen & _); try done.
    split; [done|]. split.
    + intros k' g Hk E. destruct (to_owner _ I _ _ Hk) as (t & Ht' & _). congruence.
    + intros p' e'. by apply (installed_target e' d d' _ _ _ _ _ _ _ I I' Hadd Hv Hread eq_refl Hnew eq_refl).
  - destruct Hc as (t & gid0 & g0 & [Hrow [Hns [_ Hname]] Hcur Hg0 _ _ Hkind Hadd Hb Ht]). cbn in *.
    destruct (to_current _ I _ _ Hrow) as (gid1 & g1 & Hc & Hg1 & Htg & Hbound & Hnum). assert (gid1 = gid0) as -> by congruence.
    assert (g1 = g0) as -> by congruence.
    eassert (d_targets d' !! tgt_ID (cr_Value r) = Some _) as Hnew by (rewrite Ht; apply lookup_insert_eq).
    destruct (installed_target e d d' _ _ _ _ _ _ _ I I' Hadd Hv Hread eq_refl Hnew eq_refl) with nr as (Hd & Hgen & _); try done.
    split; [done|]. split.
    + intros k' g Hk E. rewrite Hgen, positive_wrap64 by lia. assert (1 ≤ gen_generation g ≤ gen_generation g0); [|lia]. apply Hnum. by exists k', g.
    + intros p' e'. by apply (installed_target e' d d' _ _ _ _ _ _ _ I I' Hadd Hv Hread eq_refl Hnew eq_refl).
Qed.
