(* ===== verification/Logs.v ===== *)
(** * Captured logs

    [internal/store/postgres/logs.go]: an agent commits the log of an execution in chunks, each an
    object already placed in the approved store.  Chunks may be delivered again and out of order; the
    stream row exposes the contiguous prefix.  The abstract log below is what a stream means; the
    theorems say that [CommitLogChunk] keeps it, that every order of delivery leads to the same
    complete stream, and that an execution with a log store completes only with both logs complete. *)
From stdpp Require Import pretty.
From S2P Require Import Prelude Regex Names Domain TargetSpec Kahn Graph Contract Records Url Db Tx Constraints Auth Jobs HistoryImport Groups GraphStore Executions Coordinator Lifecycle Progress LifecycleOps LifecycleEvents LifecycleSubmit Frames EventLog System.

(** ** The method *)

(** The joined row that [CommitLogChunk] reads: namespace name, execution, job and the approved store. *)
Definition log_execution (d : db) (executionID namespaceID : string) : option (string * execution_row * string * string * Z) :=
  x ← d_executions d !! executionID;
  if eqs (e_namespace_id x) namespaceID then
    r ← d_runs d !! e_run_id x;
    n ← d_namespaces d !! e_namespace_id x;
    tg ← d_generations d !! e_target_generation_id x;
    Some (ns_name n, x, r_job_id r, default "" (gen_log_store_name tg), default 0 (gen_log_store_version tg))
  else None.

(** [%08d] of a positive number. *)
Fixpoint zeros (n : nat) : string := match n with O => "" | S n => String "0" (zeros n) end.
Definition pad8 (n : Z) : string := let s := pretty n in zeros (8 - String.length s) +:+ s.
Definition expectedKey (namespace jobID executionID stream : string) (sequence : Z) : string :=
  "namespaces/" +:+ namespace +:+ "/jobs/" +:+ jobID +:+ "/executions/" +:+ executionID +:+ "/logs/" +:+ stream +:+
  "/" +:+ pad8 sequence +:+ ".chunk".

(** The first condition of [CommitLogChunk]. *)
Definition malformed_chunk (chunk : LogChunk) : bool :=
  bool_decide (lc_Sequence chunk < 1) || bool_decide (lc_ByteOffset chunk < 0) || bool_decide (lc_ByteLength chunk < 0) ||
  bool_decide (262144 < lc_ByteLength chunk) || negb (eqs (lc_Stream chunk) "stdout") && negb (eqs (lc_Stream chunk) "stderr") ||
  negb (MatchString digestPattern (lc_Checksum chunk)) || bool_decide (lc_ByteLength chunk = 0) && negb (lc_Complete chunk) ||
  lc_Truncated chunk && negb (lc_Complete chunk).

(** The chunks of a stream in the order of their sequence. *)
Definition stream_chunks (d : db) (executionID stream : string) : list (Z * log_chunk_row) :=
  order_by fst (λ _, "") ((λ kr : (string * string * Z) * log_chunk_row, (kr.1.2, kr.2)) <$>
    select (λ k _, eqs k.1.1 executionID && eqs k.1.2 stream) (d_log_chunks d)).

(** [MAX] over no rows is null. *)
Definition MAX (l : list Z) : option Z :=
  foldr (λ x m, Some (from_option (Z.max x) x m)) None l.

(** The neighbours the method inspects.  The primary key leaves at most one row of a given sequence. *)
Record neighbours := {
  nb_priorEnd : option Z; nb_nextOffset : option Z; nb_maximumSequence : Z; nb_terminalSequence : option Z }.
Definition inspect_neighbours (d : db) (chunk : LogChunk) : neighbours :=
  let at_ i := d_log_chunks d !! (lc_ExecutionID chunk, lc_Stream chunk, i) in
  let rows := stream_chunks d (lc_ExecutionID chunk) (lc_Stream chunk) in
  {| nb_priorEnd := (λ c, ch_byte_offset c + ch_byte_length c) <$> at_ (lc_Sequence chunk - 1);
     nb_nextOffset := ch_byte_offset <$> at_ (lc_Sequence chunk + 1);
     nb_maximumSequence := default 0 (MAX rows.*1);
     nb_terminalSequence := MAX (filter (λ r, ch_complete r.2 = true) rows).*1 |}.

(** The condition on the neighbours under which a chunk is refused. *)
Definition misplaced (chunk : LogChunk) (nb : neighbours) : bool :=
  bool_decide (lc_Sequence chunk = 1) && negb (bool_decide (lc_ByteOffset chunk = 0)) ||
  from_option (λ e, negb (bool_decide (e = lc_ByteOffset chunk))) false (nb_priorEnd nb) ||
  from_option (λ o, negb (bool_decide (o = wrap64 (lc_ByteOffset chunk + lc_ByteLength chunk)))) false (nb_nextOffset nb) ||
  from_option (λ t, bool_decide (t ≤ lc_Sequence chunk)) false (nb_terminalSequence nb) ||
  lc_Complete chunk && (is_some (nb_terminalSequence nb) || bool_decide (lc_Sequence chunk ≤ nb_maximumSequence nb)).

Record projection := { pj_lastSequence : Z; pj_byteLength : Z; pj_complete : bool; pj_truncated : bool }.

(** The loop of [contiguousLogProjection] over the rows in order. *)
Fixpoint project_rows (expectedSequence lastSequence byteLength : Z) (rows : list (Z * log_chunk_row)) : result projection :=
  match rows with
  | [] => Ok {| pj_lastSequence := lastSequence; pj_byteLength := byteLength; pj_complete := false; pj_truncated := false |}
  | (sequence, c) :: rows =>
      if negb (bool_decide (sequence = expectedSequence)) then
        Ok {| pj_lastSequence := lastSequence; pj_byteLength := byteLength; pj_complete := false; pj_truncated := false |}
      else
        fail_if (negb (bool_decide (ch_byte_offset c = byteLength))) ErrConflict;;
        let byteLength := wrap64 (byteLength + ch_byte_length c) in
        if ch_complete c then
          Ok {| pj_lastSequence := sequence; pj_byteLength := byteLength; pj_complete := true; pj_truncated := ch_truncated c |}
        else project_rows (wrap64 (expectedSequence + 1)) sequence byteLength rows
  end.
Definition contiguousLogProjection (chunk : LogChunk) : tx projection :=
  d ← query id;
  lift (project_rows 1 0 0 (stream_chunks d (lc_ExecutionID chunk) (lc_Stream chunk))).

Definition chunk_row (identity : AgentIdentity) (chunk : LogChunk) (document : string) : log_chunk_row :=
  {| ch_namespace_id := ai_NamespaceID identity; ch_agent_id := ai_AgentID identity;
     ch_store_name := lc_StoreName chunk; ch_store_version := lc_StoreVersion chunk; ch_object_key := lc_ObjectKey chunk;
     ch_byte_offset := lc_ByteOffset chunk; ch_byte_length := lc_ByteLength chunk; ch_checksum := lc_Checksum chunk;
     ch_captured_at := to_timestamptz (lc_CapturedAt chunk); ch_complete := lc_Complete chunk;
     ch_truncated := lc_Truncated chunk; ch_document_digest := lc_DocumentDigest chunk; ch_document := document |}.
Definition new_stream (identity : AgentIdentity) (chunk : LogChunk) (now : timestamptz) : log_stream_row :=
  {| ls_namespace_id := ai_NamespaceID identity; ls_agent_id := ai_AgentID identity;
     ls_store_name := lc_StoreName chunk; ls_store_version := lc_StoreVersion chunk; ls_state := "capturing";
     ls_byte_length := 0; ls_last_sequence := 0; ls_truncated := false; ls_completed_at := None; ls_updated_at := now;
     ls_manifest_revision := 1 |}.

(** The update of the stream row. *)
Definition advance_stream (p : projection) (now : timestamptz) (s : log_stream_row) : log_stream_row :=
  s <| ls_byte_length := pj_byteLength p; ls_last_sequence := pj_lastSequence p;
       ls_state := if pj_complete p then "complete" else ls_state s;
       ls_truncated := if pj_complete p then pj_truncated p else ls_truncated s;
       ls_completed_at := if pj_complete p then Some now else ls_completed_at s; ls_updated_at := now |>.

(** A new chunk of a stream that exists. *)
Definition insert_chunk (identity : AgentIdentity) (chunk : LogChunk) (s : log_stream_row) : tx unit :=
  let key := (lc_ExecutionID chunk, lc_Stream chunk) in
  reject (bool_decide (max_int64 - lc_ByteLength chunk < lc_ByteOffset chunk)) ErrConflict;;
  reject (negb (eqs (ls_state s) "capturing") || negb (eqs (ls_store_name s) (lc_StoreName chunk)) ||
          negb (bool_decide (ls_store_version s = lc_StoreVersion chunk))) ErrConflict;;
  d ← query id;
  wrapT "inspect log chunk neighbors" [] (reject (max_int64 <? lc_Sequence chunk + 1) (Errorf "bigint out of range" []));;
  reject (misplaced chunk (inspect_neighbours d chunk)) ErrConflict;;
  now ← asks transaction_timestamp;
  wrapT "insert log chunk" [] (document ← lift (json_Unmarshal (lc_Document chunk));
    INSERT (key, lc_Sequence chunk) (chunk_row identity chunk document));;
  p ← contiguousLogProjection chunk;
  wrapT "advance log stream" [] (UPDATE_ key (λ _, true) (advance_stream p now));;
  whenT (pj_complete p) (wrapT "audit log completion" [] (audit_agent (ai_NamespaceID identity) (ai_AgentID identity)
    "log.completed" "execution" (lc_ExecutionID chunk) (lc_DocumentDigest chunk)
    [("stream", lc_Stream chunk); ("byteLength", pretty (pj_byteLength p));
     ("truncated", if pj_truncated p then "true" else "false"); ("storeName", lc_StoreName chunk);
     ("storeVersion", pretty (lc_StoreVersion chunk))])).

(** [CommitLogChunk]: whether the chunk was a replay. *)
Definition CommitLogChunk (identity : AgentIdentity) (chunk : LogChunk) : tx bool :=
  reject (malformed_chunk chunk) ErrConflict;;
  wrapT "commit log chunk" [] (
    d ← query id;
    now ← asks transaction_timestamp;
    '(namespace, x, jobID, approvedStore, approvedVersion) ←
      row_or (log_execution d (lc_ExecutionID chunk) (ai_NamespaceID identity)) ErrNotFound;
    reject (negb (eqs (e_agent_id x) (ai_AgentID identity)) || negb (eqs (lc_AgentID chunk) (ai_AgentID identity))) ErrForbidden;;
    reject (negb (eqs (lc_StoreName chunk) approvedStore) || negb (bool_decide (lc_StoreVersion chunk = approvedVersion))) ErrForbidden;;
    reject (eqs (e_phase x) "planned") ErrConflict;;
    reject (negb (eqs (lc_ObjectKey chunk)
      (expectedKey namespace jobID (lc_ExecutionID chunk) (lc_Stream chunk) (lc_Sequence chunk)))) ErrConflict;;
    wrapT "create log stream" [] (INSERT_or_nothing (lc_ExecutionID chunk, lc_Stream chunk) (new_stream identity chunk now));;
    d ← query id;
    s ← wrapT "lock log stream" [] (row_or (d_log_streams d !! (lc_ExecutionID chunk, lc_Stream chunk)) ErrNoRows);
    let existingDigest := from_option ch_document_digest ""
      (d_log_chunks d !! (lc_ExecutionID chunk, lc_Stream chunk, lc_Sequence chunk)) in
    if negb (eqs existingDigest "") then
      reject (negb (eqs existingDigest (lc_DocumentDigest chunk))) ErrIdempotencyConflict;;
      mret true
    else
      insert_chunk identity chunk s;;
      mret false).

(** ** The abstract stream *)

(** The chunks of one stream, by sequence. *)
Definition chunk_map := Z → option log_chunk_row.
Definition chunk_end (c : log_chunk_row) : Z := ch_byte_offset c + ch_byte_length c.

(** Chunks are pieces of one byte string: they start at 0, consecutive ones abut, none follows the
    one that is marked complete, and all offsets fit. *)
Record chunks_wf (m : chunk_map) : Prop := {
  cw_sequence : ∀ i c, m i = Some c → 1 ≤ i ≤ max_int64;
  cw_range : ∀ i c, m i = Some c → 0 ≤ ch_byte_offset c ∧ 0 ≤ ch_byte_length c ∧ chunk_end c ≤ max_int64;
  cw_first : ∀ c, m 1 = Some c → ch_byte_offset c = 0;
  cw_abut : ∀ i c c', m i = Some c → m (i + 1) = Some c' → chunk_end c = ch_byte_offset c';
  cw_last : ∀ i j c c', m i = Some c → ch_complete c = true → m j = Some c' → j ≤ i }.

(** The projection of a stream: its longest prefix without a gap. *)
Record projects (m : chunk_map) (p : projection) : Prop := {
  pr_nonneg : 0 ≤ pj_lastSequence p;
  pr_stored : ∀ i, 1 ≤ i ≤ pj_lastSequence p → is_Some (m i);
  pr_next : m (pj_lastSequence p + 1) = None;
  pr_length : pj_byteLength p = from_option chunk_end 0 (m (pj_lastSequence p));
  pr_complete : pj_complete p = from_option ch_complete false (m (pj_lastSequence p));
  pr_truncated : pj_truncated p = from_option (λ c, ch_complete c && ch_truncated c) false (m (pj_lastSequence p)) }.

(** The chunks determine the projection. *)
Lemma projects_unique m p p' : projects m p → projects m p' → p = p'.
Proof.
  intros [Hn Hs Hx Hl Hc Ht] [Hn' Hs' Hx' Hl' Hc' Ht'].
  assert (pj_lastSequence p = pj_lastSequence p') as Heq.
  { destruct (Z.lt_trichotomy (pj_lastSequence p) (pj_lastSequence p')) as [Hlt|[Heq|Hlt]]; [|done|].
    - destruct (Hs' (pj_lastSequence p + 1)) as [? ?]; [lia|congruence].
    - destruct (Hs (pj_lastSequence p' + 1)) as [? ?]; [lia|congruence]. }
  destruct p as [a b c t], p' as [a' b' c' t']. cbn in *. subst a'. congruence.
Qed.

(** ** The loop computes the projection *)

(** The rows from sequence [i] on, in order, each once. *)
Definition rows_from (m : chunk_map) (i : Z) (rows : list (Z * log_chunk_row)) : Prop :=
  StronglySorted (λ x y, x.1 < y.1) rows ∧ ∀ j c, (j, c) ∈ rows ↔ i ≤ j ∧ m j = Some c.

Lemma rows_from_cons m i j c rows : rows_from m i ((j, c) :: rows) →
  i ≤ j ∧ m j = Some c ∧ (∀ k, i ≤ k < j → m k = None) ∧ rows_from m (j + 1) rows.
Proof.
  intros [Hs Hm]. apply StronglySorted_inv in Hs as [Hs Hall]. rewrite Forall_forall in Hall.
  assert (i ≤ j ∧ m j = Some c) as [Hij Hj] by (apply Hm, list_elem_of_here).
  split_and!; [done|done| |split; [done|]].
  - intros k Hk. destruct (m k) as [ck|] eqn:Hmk; [|done]. exfalso.
    assert ((k, ck) ∈ (j, c) :: rows) as [[= -> ->]|Hin]%elem_of_cons by (apply Hm; split; [lia|done]); [lia|].
    apply Hall in Hin. cbn in Hin. lia.
  - intros k ck. split.
    + intros Hin. pose proof (Hall _ Hin) as Hlt. cbn in Hlt. split; [lia|].
      by apply (proj1 (Hm k ck)), list_elem_of_further.
    + intros [Hlt Hmk]. assert ((k, ck) ∈ (j, c) :: rows) as [[= -> _]|Hin]%elem_of_cons by (apply Hm; split; [lia|done]); [lia|done].
Qed.

Lemma rows_from_nil m i : rows_from m i [] → ∀ j, i ≤ j → m j = None.
Proof.
  intros [_ Hm] j Hj. destruct (m j) as [c|] eqn:Hmj; [|done]. exfalso.
  by apply (not_elem_of_nil (j, c)), Hm.
Qed.

(** The end of the chunk before [i]. *)
Definition end_before (m : chunk_map) (i : Z) : Z := from_option chunk_end 0 (m (i - 1)).

(** The chunks before [i] are stored and open. *)
Definition open_prefix (m : chunk_map) (i : Z) : Prop :=
  ∀ j, 1 ≤ j < i → ∃ c, m j = Some c ∧ ch_complete c = false.

Lemma chunk_zero m : chunks_wf m → m 0 = None.
Proof. intros Hwf. destruct (m 0) as [c|] eqn:H0; [|done]. apply cw_sequence in H0; [lia|done]. Qed.

Lemma projects_gap m i : chunks_wf m → 1 ≤ i → open_prefix m i → m i = None →
  projects m {| pj_lastSequence := i - 1; pj_byteLength := end_before m i; pj_complete := false; pj_truncated := false |}.
Proof.
  intros Hwf Hi Hpre Hgap. assert (from_option ch_complete false (m (i - 1)) = false) as Hc.
  { destruct (decide (i = 1)) as [->|Hne]; [by rewrite chunk_zero|].
    destruct (Hpre (i - 1)) as (c & -> & Hc); [lia|done]. }
  split; cbn; [lia| | |done|done|].
  - intros j Hj. destruct (Hpre j) as (c & -> & _); [lia|by eexists].
  - by replace (i - 1 + 1) with i by lia.
  - by destruct (m (i - 1)) as [c|]; cbn in *; [rewrite Hc|].
Qed.

Lemma chunk_at_end m i c : chunks_wf m → 1 ≤ i → open_prefix m i → m i = Some c → ch_byte_offset c = end_before m i.
Proof.
  intros Hwf Hi Hpre Hc. unfold end_before. destruct (decide (i = 1)) as [->|Hne].
  - rewrite chunk_zero by done. by apply (cw_first m).
  - destruct (Hpre (i - 1)) as (c' & Hc' & _); [lia|]. rewrite Hc'. cbn. symmetry. apply (cw_abut m Hwf (i - 1)); [done|].
    by replace (i - 1 + 1) with i by lia.
Qed.

Lemma project_rows_ok m rows i :
  chunks_wf m → 1 ≤ i → rows_from m i rows → open_prefix m i →
  ∃ p, project_rows i (i - 1) (end_before m i) rows = Ok p ∧ projects m p.
Proof.
  intros Hwf. revert i. induction rows as [|[j c] rows IH]; intros i Hi Hrows Hpre; cbn [project_rows].
  - eexists. split; [done|]. apply projects_gap; [done..|]. apply (rows_from_nil _ _ Hrows). lia.
  - apply rows_from_cons in Hrows as (Hij & Hj & Hgap & Hrows). case_bool_decide as Heq; cbn [negb].
    2: { eexists. split; [done|]. apply projects_gap; [done..|]. apply Hgap. lia. }
    subst j. pose proof (chunk_at_end m i c Hwf Hi Hpre Hj) as Hoff. rewrite Hoff, bool_decide_true by done. cbn [negb fail_if mbind result_bind].
    pose proof (cw_sequence m Hwf i c Hj) as Hseq. pose proof (cw_range m Hwf i c Hj) as (Hr & Hr' & Hr'').
    assert (wrap64 (end_before m i + ch_byte_length c) = chunk_end c) as ->.
    { rewrite wrap64_id; unfold chunk_end, int64_range, min_int64 in *; lia. }
    destruct (ch_complete c) eqn:Hc.
    + eexists. split; [done|]. split; cbn; rewrite ?Hj; cbn; rewrite ?Hc; try done; [lia| |].
      * intros k Hk. destruct (decide (k = i)) as [->|Hne]; [by eexists|]. destruct (Hpre k) as (ck & -> & _); [lia|by eexists].
      * destruct (m (i + 1)) as [c'|] eqn:Hn; [|done]. pose proof (cw_last m Hwf i (i + 1) c c' Hj Hc Hn). lia.
    + assert (open_prefix m (i + 1)) as Hpre'.
      { intros k Hk. destruct (decide (k = i)) as [->|Hne]; [by exists c|]. apply Hpre. lia. }
      destruct (IH (i + 1) ltac:(lia) Hrows Hpre') as (p & Hp & Hpr). exists p. split; [|done]. rewrite <-Hp.
      unfold end_before. replace (i + 1 - 1) with i by lia. rewrite Hj. cbn.
      destruct rows as [|[k ck] rows]; [done|]. apply rows_from_cons in Hrows as (Hik & Hk & _). apply cw_sequence in Hk; [|done].
      rewrite wrap64_id; [done|]. unfold int64_range, min_int64. lia.
Qed.

(** The chunks of stream [k] in the database. *)
Definition chunks_at (d : db) (k : string * string) : chunk_map := λ i, d_log_chunks d !! (k, i).

Lemma stream_chunks_rows d k : chunks_wf (chunks_at d k) → rows_from (chunks_at d k) 1 (stream_chunks d k.1 k.2).
Proof.
  intros Hwf. assert (∀ i c, (i, c) ∈ (λ kr : (string * string * Z) * log_chunk_row, (kr.1.2, kr.2)) <$>
    select (λ k' _, eqs k'.1.1 k.1 && eqs k'.1.2 k.2) (d_log_chunks d) ↔ chunks_at d k i = Some c) as Hmem.
  { intros i c. rewrite list_elem_of_fmap. unfold chunks_at. destruct k as [x s]. cbn. split.
    - intros ([[[x' s'] i'] c'] & [= -> ->] & [Hl [Hx Hs]%andb_true_iff]%elem_of_select). cbn in *.
      apply eqs_true in Hx, Hs. by subst.
    - intros Hl. exists ((x, s, i), c). split; [done|]. apply elem_of_select. split; [done|]. cbn. by rewrite !eqs_refl. }
  unfold stream_chunks. split.
  - apply order_by_strict. rewrite <-list_fmap_compose. eapply (NoDup_fmap_same_kernel (λ kr, kr.1)); [|apply NoDup_select_keys].
    intros [[[x1 s1] i1] c1] [[[x2 s2] i2] c2] [_ [H1 H2]%andb_true_iff]%elem_of_select [_ [H3 H4]%andb_true_iff]%elem_of_select.
    cbn in *. apply eqs_true in H1, H2, H3, H4. subst. split; congruence.
  - intros i c. rewrite elem_of_order_by, Hmem. split; [|by intros [_ Hc]]. intros Hc. pose proof (cw_sequence _ Hwf _ _ Hc) as [Hi _]. by split.
Qed.

(** ** The invariant *)

Record stream_ok (m : chunk_map) (s : log_stream_row) (p : projection) : Prop := {
  so_projects : projects m p;
  so_byte_length : ls_byte_length s = pj_byteLength p;
  so_last_sequence : ls_last_sequence s = pj_lastSequence p;
  so_truncated : ls_truncated s = pj_truncated p;
  so_state : ls_state s = if pj_complete p then "complete" else "capturing";
  so_completed_at : is_some (ls_completed_at s) = pj_complete p }.

Record log_inv (d : db) : Prop := {
  li_chunks : ∀ k, chunks_wf (chunks_at d k);
  li_digest : ∀ k i c, chunks_at d k i = Some c → MatchString digestPattern (ch_document_digest c) = true;
  li_parent : ∀ k i c, chunks_at d k i = Some c → is_Some (d_log_streams d !! k);
  li_stream : ∀ k s, d_log_streams d !! k = Some s → (k.2 = "stdout" ∨ k.2 = "stderr") ∧ ∃ p, stream_ok (chunks_at d k) s p }.

(** ** Adding a chunk *)

Definition set_chunk (m : chunk_map) (i : Z) (c : log_chunk_row) : chunk_map := λ j, if decide (j = i) then Some c else m j.

Lemma set_chunk_eq m i c : set_chunk m i c i = Some c.
Proof. unfold set_chunk. by rewrite decide_True. Qed.
Lemma set_chunk_ne m i j c : j ≠ i → set_chunk m i c j = m j.
Proof. intros. unfold set_chunk. by rewrite decide_False. Qed.
Lemma set_chunk_Some m i c j c' : set_chunk m i c j = Some c' → (j = i ∧ c' = c) ∨ (j ≠ i ∧ m j = Some c').
Proof. unfold set_chunk. case_decide; naive_solver. Qed.

(** The chunk [c] fits at position [i] among the chunks of [m]. *)
Record fits (m : chunk_map) (i : Z) (c : log_chunk_row) : Prop := {
  ft_first : i = 1 → ch_byte_offset c = 0;
  ft_before : ∀ b, m (i - 1) = Some b → chunk_end b = ch_byte_offset c;
  ft_after : ∀ a, m (i + 1) = Some a → chunk_end c = ch_byte_offset a;
  ft_open : ∀ j t, m j = Some t → ch_complete t = true → i < j;
  ft_last : ch_complete c = true → ∀ j t, m j = Some t → j < i }.

Lemma chunks_wf_set m i c :
  chunks_wf m → fits m i c → 1 ≤ i ≤ max_int64 → 0 ≤ ch_byte_offset c → 0 ≤ ch_byte_length c → chunk_end c ≤ max_int64 →
  chunks_wf (set_chunk m i c).
Proof.
  intros [Hs Hr Hf Ha Hl] [Ff Fb Fa Fo Fl] Hi H0 Hlen Hend. split.
  - intros j t [[-> ->]|[_ Hj]]%set_chunk_Some; [done|by eapply Hs].
  - intros j t [[-> ->]|[_ Hj]]%set_chunk_Some; [done|by eapply Hr].
  - intros t [[<- ->]|[_ Hj]]%set_chunk_Some; [by apply Ff|by apply Hf].
  - intros j t t' [[-> ->]|[Hne Hj]]%set_chunk_Some [[Heq ->]|[Hne' Hj']]%set_chunk_Some; [lia|by apply Fa| |by eapply Ha].
    apply Fb. by replace (i - 1) with j by lia.
  - intros j j' t t' [[-> ->]|[Hne Hj]]%set_chunk_Some Ht [[-> ->]|[Hne' Hj']]%set_chunk_Some; [done| | |by eapply Hl].
    + specialize (Fl Ht j' t' Hj'). lia.
    + specialize (Fo j t Hj Ht). lia.
Qed.

(** ** The guards *)

Lemma MAX_spec l : match MAX l with None => l = [] | Some x => x ∈ l ∧ ∀ y, y ∈ l → y ≤ x end.
Proof.
  induction l as [|x l IH]; [done|]. cbn. fold (MAX l). destruct (MAX l) as [z|]; cbn.
  - destruct IH as [Hz Hl]. split.
    + destruct (Z.max_spec x z) as [[_ ->]|[_ ->]]; set_solver.
    + intros y [->|Hy]%elem_of_cons; [lia|]. specialize (Hl y Hy). lia.
  - subst l. split; [set_solver|]. intros y ->%list_elem_of_singleton. lia.
Qed.

Lemma malformed_chunk_false c : malformed_chunk c = false ↔
  1 ≤ lc_Sequence c ∧ 0 ≤ lc_ByteOffset c ∧ 0 ≤ lc_ByteLength c ≤ 262144 ∧ (lc_Stream c = "stdout" ∨ lc_Stream c = "stderr") ∧
  MatchString digestPattern (lc_Checksum c) = true ∧ (lc_ByteLength c = 0 → lc_Complete c = true) ∧
  (lc_Truncated c = true → lc_Complete c = true).
Proof.
  unfold malformed_chunk. rewrite !orb_false_iff, !bool_decide_eq_false, !andb_false_iff, !negb_false_iff, !eqs_true, bool_decide_eq_false.
  destruct (lc_Complete c), (lc_Truncated c); split; intros H; split_and?; destruct_and?; destruct_or?; split_and?; try lia; try tauto; try congruence; naive_solver lia.
Qed.

Lemma unless_differs {B} (o : option B) `{EqDecision B} (v : B) :
  from_option (λ x, negb (bool_decide (x = v))) false o = false ↔ ∀ x, o = Some x → x = v.
Proof. destruct o; cbn; rewrite ?negb_false_iff, ?bool_decide_eq_true; naive_solver. Qed.

Section guards.
Context (d : db) (chunk : LogChunk) (identity : AgentIdentity) (document : string).
Let k := (lc_ExecutionID chunk, lc_Stream chunk).
Let m := chunks_at d k.

Lemma terminal_sequence : chunks_wf m →
  match nb_terminalSequence (inspect_neighbours d chunk) with
  | None => ∀ j t, m j = Some t → ch_complete t = false
  | Some s => ∃ t, m s = Some t ∧ ch_complete t = true
  end.
Proof.
  intros Hwf. pose proof (stream_chunks_rows d k Hwf) as [_ Hrows]. cbn.
  match goal with |- context [MAX ?l] => pose proof (MAX_spec l) as Hmax; destruct (MAX l) as [s|] end.
  - destruct Hmax as [Hs _]. apply list_elem_of_fmap in Hs as ([s' t] & -> & [Ht Hin]%list_elem_of_filter).
    apply Hrows in Hin as [_ Hin]. by exists t.
  - intros j t Hj. destruct (ch_complete t) eqn:Ht; [|done]. exfalso.
    pose proof (cw_sequence _ Hwf _ _ Hj) as [Hj1 _]. apply (not_elem_of_nil j). rewrite <-Hmax. apply list_elem_of_fmap.
    exists (j, t). split; [done|]. apply list_elem_of_filter. split; [done|]. by apply Hrows.
Qed.

Lemma maximum_sequence j t : chunks_wf m → m j = Some t → j ≤ nb_maximumSequence (inspect_neighbours d chunk).
Proof.
  intros Hwf Hj. pose proof (stream_chunks_rows d k Hwf) as [_ Hrows]. cbn.
  pose proof (MAX_spec (stream_chunks d (lc_ExecutionID chunk) (lc_Stream chunk)).*1) as Hmax.
  pose proof (cw_sequence _ Hwf _ _ Hj) as [Hj1 _].
  assert (j ∈ (stream_chunks d (lc_ExecutionID chunk) (lc_Stream chunk)).*1) as Hin.
  { apply list_elem_of_fmap. exists (j, t). split; [done|]. by apply Hrows. }
  destruct (MAX _) as [s|]; cbn; [by apply Hmax|]. rewrite Hmax in Hin. by apply elem_of_nil in Hin.
Qed.

Lemma maximum_attained : chunks_wf m → nb_maximumSequence (inspect_neighbours d chunk) = 0 ∨
  is_Some (m (nb_maximumSequence (inspect_neighbours d chunk))).
Proof.
  intros Hwf. pose proof (stream_chunks_rows d k Hwf) as [_ Hrows]. cbn.
  pose proof (MAX_spec (stream_chunks d (lc_ExecutionID chunk) (lc_Stream chunk)).*1) as Hmax.
  destruct (MAX _) as [s|]; cbn; [right|by left]. destruct Hmax as [([s' t] & -> & Hin)%list_elem_of_fmap _].
  apply Hrows in Hin as [_ Hin]. by exists t.
Qed.

(** The guard accepts exactly the chunks that fit. *)
Lemma misplaced_false :
  chunks_wf m → malformed_chunk chunk = false → lc_ByteOffset chunk ≤ max_int64 - lc_ByteLength chunk →
  misplaced chunk (inspect_neighbours d chunk) = false ↔ fits m (lc_Sequence chunk) (chunk_row identity chunk document).
Proof.
  intros Hwf (Hseq & Hoff & Hlen & _)%malformed_chunk_false Hend.
  pose proof (terminal_sequence Hwf) as Hterm. pose proof (λ j t, maximum_sequence j t Hwf) as Hmax. pose proof (maximum_attained Hwf) as Hatt.
  unfold misplaced. rewrite !orb_false_iff. rewrite wrap64_id by (unfold int64_range, min_int64; lia).
  change (nb_priorEnd (inspect_neighbours d chunk)) with (chunk_end <$> m (lc_Sequence chunk - 1)).
  change (nb_nextOffset (inspect_neighbours d chunk)) with (ch_byte_offset <$> m (lc_Sequence chunk + 1)).
  rewrite !unless_differs, andb_false_iff, negb_false_iff, bool_decide_eq_false, bool_decide_eq_true.
  assert (from_option (λ t, bool_decide (t ≤ lc_Sequence chunk)) false (nb_terminalSequence (inspect_neighbours d chunk)) = false ↔
    ∀ j t, m j = Some t → ch_complete t = true → lc_Sequence chunk < j) as ->.
  { destruct (nb_terminalSequence _) as [s|]; cbn.
    - destruct Hterm as (z & Hz & Hzc). rewrite bool_decide_eq_false. split; [|intros Ho; specialize (Ho _ _ Hz Hzc); lia].
      intros Hs j t Hj Ht. pose proof (cw_last _ Hwf _ _ _ _ Hj Ht Hz). lia.
    - split; [|done]. intros _ j t Hj Ht. by rewrite (Hterm _ _ Hj) in Ht. }
  split.
  - intros ((((H1 & H2) & H3) & H4) & H5). split; cbn; [naive_solver| | |done|].
    + intros b Hb. apply H2. by rewrite Hb.
    + intros a Ha. symmetry. apply H3. by rewrite Ha.
    + intros Hc j t Hj. rewrite Hc in H5. cbn [andb] in H5. apply orb_false_iff in H5 as [_ H5%bool_decide_eq_false].
      specialize (Hmax _ _ Hj). lia.
  - intros [Ff Fb Fa Fo Fl]. cbn [ch_byte_offset ch_complete chunk_row] in *. split_and!; [| | |done|].
    + destruct (decide (lc_Sequence chunk = 1)); auto.
    + intros e (b & Hb & ->)%fmap_Some. by apply Fb.
    + intros e (a & Ha & ->)%fmap_Some. symmetry. by apply Fa.
    + destruct (lc_Complete chunk) eqn:Hc; [|done]. specialize (Fl eq_refl). apply orb_false_iff. split.
      * destruct (nb_terminalSequence _) as [s|]; [|done]. destruct Hterm as (z & Hz & Hzc). specialize (Fo _ _ Hz Hzc).
        specialize (Fl _ _ Hz). lia.
      * apply bool_decide_eq_false. destruct Hatt as [->|[t Ht]]; [lia|]. specialize (Fl _ _ Ht). lia.
Qed.
End guards.

(** ** What a commit does *)

Lemma chunks_at_insert d d' k i c :
  d_log_chunks d' = <[(k, i) := c]> (d_log_chunks d) →
  (∀ j, chunks_at d' k j = set_chunk (chunks_at d k) i c j) ∧ ∀ k', k' ≠ k → ∀ j, chunks_at d' k' j = chunks_at d k' j.
Proof.
  intros Hd. unfold chunks_at. rewrite Hd. split.
  - intros j. unfold set_chunk. case_decide as Hj; [by rewrite Hj, lookup_insert_eq|]. rewrite lookup_insert_ne; [done|congruence].
  - intros k' Hk j. rewrite lookup_insert_ne; [done|congruence].
Qed.

(** Everything the abstract stream says depends on the chunks only pointwise. *)
Lemma chunks_wf_ext m m' : (∀ j, m' j = m j) → chunks_wf m → chunks_wf m'.
Proof.
  intros He [Hs Hr Hf Ha Hl]. split; intros *; rewrite !He; [apply Hs|apply Hr|apply Hf|apply Ha|apply Hl].
Qed.
Lemma projects_ext m m' p : (∀ j, m' j = m j) → projects m p → projects m' p.
Proof. intros He [Hn Hs Hx Hl Hc Ht]. split; rewrite ?He; try done. intros i Hi. rewrite He. by apply Hs. Qed.
Lemma stream_ok_ext m m' s p : (∀ j, m' j = m j) → stream_ok m s p → stream_ok m' s p.
Proof. intros He []. split; try done. by eapply projects_ext. Qed.

Record inserted (identity : AgentIdentity) (chunk : LogChunk) (s : log_stream_row) (e : env) (d d' : db)
    (document : string) (p : projection) : Prop := {
  in_end : lc_ByteOffset chunk ≤ max_int64 - lc_ByteLength chunk;
  in_capturing : ls_state s = "capturing";
  in_digest : MatchString digestPattern (lc_DocumentDigest chunk) = true;
  in_sequence : lc_Sequence chunk ≤ max_int64;
  in_fresh : chunks_at d (lc_ExecutionID chunk, lc_Stream chunk) (lc_Sequence chunk) = None;
  in_fits : fits (chunks_at d (lc_ExecutionID chunk, lc_Stream chunk)) (lc_Sequence chunk) (chunk_row identity chunk document);
  in_wf : chunks_wf (set_chunk (chunks_at d (lc_ExecutionID chunk, lc_Stream chunk)) (lc_Sequence chunk) (chunk_row identity chunk document));
  in_projects : projects (set_chunk (chunks_at d (lc_ExecutionID chunk, lc_Stream chunk)) (lc_Sequence chunk) (chunk_row identity chunk document)) p;
  in_chunks : d_log_chunks d' = <[((lc_ExecutionID chunk, lc_Stream chunk), lc_Sequence chunk) := chunk_row identity chunk document]> (d_log_chunks d);
  in_streams : d_log_streams d' = <[(lc_ExecutionID chunk, lc_Stream chunk) :=
    bump_log_manifest_revision s (advance_stream p (transaction_timestamp e) s)]> (d_log_streams d) }.

(** The projection after adding a chunk that fits is never a conflict. *)
Lemma contiguousLogProjection_ok chunk e d :
  chunks_wf (chunks_at d (lc_ExecutionID chunk, lc_Stream chunk)) →
  ∃ p, contiguousLogProjection chunk e d = Ok (p, d) ∧ projects (chunks_at d (lc_ExecutionID chunk, lc_Stream chunk)) p.
Proof.
  intros Hwf. pose proof (stream_chunks_rows _ _ Hwf) as Hrows.
  destruct (project_rows_ok _ _ 1 Hwf ltac:(lia) Hrows) as (p & Hp & Hpr); [intros j Hj; lia|].
  exists p. split; [|done]. unfold end_before in Hp. change (1 - 1) with 0 in Hp.
  rewrite chunk_zero in Hp by done. cbn [from_option fst snd] in Hp.
  unfold contiguousLogProjection. apply tx_bind_ok. exists d, d. split; [done|]. by apply lift_ok.
Qed.

Lemma chunk_constraints d k i c : Forall (λ c, c.2 = true) (constraints d (k, i) c) →
  1 ≤ i ≤ max_int64 ∧ MatchString digestPattern (ch_document_digest c) = true.
Proof.
  cbn. intros H. repeat (apply Forall_cons in H as [? H]). cbn in *. split; [|done].
  match goal with H : bigint_positive i = true |- _ => apply bool_decide_eq_true in H end. lia.
Qed.

Lemma insert_chunk_ok identity chunk s e d u d' :
  insert_chunk identity chunk s e d = Ok (u, d') →
  chunks_wf (chunks_at d (lc_ExecutionID chunk, lc_Stream chunk)) → malformed_chunk chunk = false →
  d_log_streams d !! (lc_ExecutionID chunk, lc_Stream chunk) = Some s →
  ∃ document p, inserted identity chunk s e d d' document p.
Proof.
  intros H Hwf Hm Hs. unfold insert_chunk in H. guard_inv.
  match goal with H : json_Unmarshal _ = Ok ?x |- _ => rename x into document end.
  match goal with H : INSERT _ _ _ _ = _ |- _ => apply INSERT_ok in H as (Hnone & Hcs & ->) end.
  match goal with H : contiguousLogProjection _ _ _ = Ok (?x, _) |- _ => rename H into Hproj; rename x into p end.
  match goal with H : UPDATE _ _ _ _ _ = _ |- _ => rename H into Hup end.
  match goal with H : whenT _ _ _ _ = _ |- _ => rename H into Hw end.
  apply chunk_constraints in Hcs as [Hseq Hdig].
  match goal with H : misplaced _ _ = false |- _ => pose proof H as Hfit end.
  rewrite (misplaced_false d chunk identity document Hwf Hm) in Hfit by lia.
  pose proof (proj1 (malformed_chunk_false _) Hm) as (Hseq1 & Hoff & Hlen & _).
  pose proof (chunks_wf_set _ _ _ Hwf Hfit ltac:(lia) Hoff ltac:(cbn; lia) ltac:(unfold chunk_end; cbn; lia)) as Hwf'.
  match type of Hproj with contiguousLogProjection _ _ ?dd = _ => set (d1 := dd) in * end.
  destruct (chunks_at_insert d d1 (lc_ExecutionID chunk, lc_Stream chunk) (lc_Sequence chunk) (chunk_row identity chunk document) eq_refl) as [Hat _].
  destruct (contiguousLogProjection_ok chunk e d1) as (p' & Hp' & Hpr); [by eapply chunks_wf_ext|].
  rewrite Hp' in Hproj. injection Hproj as -> <-.
  apply UPDATE_ok in Hup as [(old & row & Hold & _ & -> & _ & _ & Ha)|(_ & _ & Hno)].
  2: { discriminate (Hno s). exact Hs. }
  change (tbl d1 !! (lc_ExecutionID chunk, lc_Stream chunk)) with (d_log_streams d !! (lc_ExecutionID chunk, lc_Stream chunk)) in Hold.
  rewrite Hs in Hold. injection Hold as <-. cbn in Ha. apply tx_ret_ok in Ha as [_ ->].
  pose proof Hw as Hw2. apply (keeps_after d_log_chunks) in Hw; [|solve [keeps_tac]]. apply (keeps_after d_log_streams) in Hw2; [|solve [keeps_tac]].
  exists document, p. split; try done; [lia|lia|].
  eapply projects_ext; [|exact Hpr]. done.
Qed.

(** What the context of a commit established. *)
Record log_admitted (identity : AgentIdentity) (chunk : LogChunk) (d : db) : Prop := {
  la_chunk : malformed_chunk chunk = false;
  la_execution : ∃ namespace x jobID store version,
    log_execution d (lc_ExecutionID chunk) (ai_NamespaceID identity) = Some (namespace, x, jobID, store, version) ∧
    e_agent_id x = ai_AgentID identity ∧ lc_AgentID chunk = ai_AgentID identity ∧ lc_StoreName chunk = store ∧
    lc_StoreVersion chunk = version ∧ e_phase x ≠ "planned" ∧
    lc_ObjectKey chunk = expectedKey namespace jobID (lc_ExecutionID chunk) (lc_Stream chunk) (lc_Sequence chunk) }.

(** The stream row a first chunk finds or creates. *)
Definition stream_for (identity : AgentIdentity) (chunk : LogChunk) (now : timestamptz) (d : db) : log_stream_row :=
  default (new_stream identity chunk now) (d_log_streams d !! (lc_ExecutionID chunk, lc_Stream chunk)).

Lemma checked_digest_nonempty s : MatchString digestPattern s = true → s ≠ "".
Proof. intros H ->. vm_compute in H. discriminate. Qed.

Lemma create_stream_ok identity chunk e d n d1 s :
  INSERT_or_nothing (lc_ExecutionID chunk, lc_Stream chunk) (new_stream identity chunk (transaction_timestamp e)) e d = Ok (n, d1) →
  d_log_streams d1 !! (lc_ExecutionID chunk, lc_Stream chunk) = Some s →
  s = stream_for identity chunk (transaction_timestamp e) d ∧ d_log_chunks d1 = d_log_chunks d ∧
  (d1 = d ∧ is_Some (d_log_streams d !! (lc_ExecutionID chunk, lc_Stream chunk)) ∨
   d_log_streams d !! (lc_ExecutionID chunk, lc_Stream chunk) = None ∧
   d_log_streams d1 = <[(lc_ExecutionID chunk, lc_Stream chunk) := s]> (d_log_streams d)).
Proof.
  rewrite INSERT_or_nothing_ok. unfold stream_for. intros [(_ & -> & Hsome)|(_ & Hnone & _ & ->)] Hs.
  - rewrite Hs. split_and!; [done..|]. left. by split.
  - cbn in Hnone, Hs. rewrite lookup_insert_eq in Hs. injection Hs as <-. rewrite Hnone. split_and!; [done..|]. by right.
Qed.

Lemma CommitLogChunk_ok identity chunk e d b d' :
  CommitLogChunk identity chunk e d = Ok (b, d') → log_inv d →
  log_admitted identity chunk d ∧
  if b then d' = d ∧ ∃ c, chunks_at d (lc_ExecutionID chunk, lc_Stream chunk) (lc_Sequence chunk) = Some c ∧
                          ch_document_digest c = lc_DocumentDigest chunk
  else ∃ document p, inserted identity chunk (stream_for identity chunk (transaction_timestamp e) d) e d d' document p.
Proof.
  intros H I. unfold CommitLogChunk in H. guard_inv.
  match goal with H : log_execution _ _ _ = Some ?t |- _ => destruct t as [[[[namespace x] jobID] store] version]; rename H into Hx end.
  guard_inv.
  match goal with H : INSERT_or_nothing _ _ _ _ = Ok (_, ?dd), H' : d_log_streams _ !! _ = Some ?ss |- _ =>
    rename H into Hi; rename H' into Hs; rename dd into d1; rename ss into s end.
  match goal with H : (if _ then _ else _) _ _ = Ok _ |- _ => rename H into Hr end.
  split; [split; [done|by exists namespace, x, jobID, (lc_StoreName chunk), (lc_StoreVersion chunk)]|].
  destruct (create_stream_ok _ _ _ _ _ _ _ Hi Hs) as (Hst & Hch & Hd1).
  change (d_log_chunks d1 !! (lc_ExecutionID chunk, lc_Stream chunk, lc_Sequence chunk)) with
    (chunks_at d1 (lc_ExecutionID chunk, lc_Stream chunk) (lc_Sequence chunk)) in Hr.
  assert (∀ k j, chunks_at d1 k j = chunks_at d k j) as Hat by (intros; unfold chunks_at; by rewrite Hch).
  rewrite Hat in Hr. destruct (chunks_at d _ (lc_Sequence chunk)) as [c|] eqn:Hc.
  - pose proof (li_digest _ I _ _ _ Hc) as Hdig%checked_digest_nonempty%eqs_false. cbn [from_option] in Hr. rewrite Hdig in Hr. cbn [negb] in Hr.
    guard_inv. split; [|by exists c]. destruct Hd1 as [[? _]|[Hno _]]; [done|].
    destruct (li_parent _ I _ _ _ Hc) as [? Hsome]. congruence.
  - cbn [from_option] in Hr. rewrite eqs_refl in Hr. cbn [negb] in Hr. guard_inv.
    match goal with H : insert_chunk _ _ _ _ _ = _ |- _ => apply insert_chunk_ok in H as (document & p & [? ? ? ? Hf Hfit Hwf Hpr Hcs Hss]) end; [|eapply chunks_wf_ext; [apply Hat|apply (li_chunks _ I)]|done|done].
    exists document, p. unfold chunks_at in *. rewrite Hch in *. split; try done.
    rewrite Hss. destruct Hd1 as [[-> _]|[_ ->]]; [done|]. apply insert_insert_eq.
Qed.

(** ** The invariant is kept *)

Lemma log_inv_empty d : d_log_streams d = ∅ → d_log_chunks d = ∅ → log_inv d.
Proof.
  intros Hs Hc. assert (∀ k i, chunks_at d k i = None) as Hno by (intros; unfold chunks_at; by rewrite Hc).
  split; [intros k; split; intros *; rewrite ?Hno; done|intros *; by rewrite Hno..|intros *; by rewrite Hs].
Qed.

Lemma log_inv_same d d' : d_log_streams d' = d_log_streams d → d_log_chunks d' = d_log_chunks d → log_inv d → log_inv d'.
Proof.
  intros Hs Hc [? ? ? ?]. assert (∀ k, chunks_at d' k = chunks_at d k) as Hat by (intros; unfold chunks_at; by rewrite Hc).
  split; intros *; rewrite ?Hat, ?Hs; eauto.
Qed.

Lemma projects_truncated m p : projects m p → pj_truncated p = true → pj_complete p = true.
Proof. intros [_ _ _ _ -> ->]. destruct (m _) as [c|]; [|done]. cbn. by destruct (ch_complete c). Qed.

Lemma capturing_row m s p : stream_ok m s p → ls_state s = "capturing" →
  pj_complete p = false ∧ ls_truncated s = false ∧ ls_completed_at s = None.
Proof.
  intros [Hp _ _ Ht Hst Hat] Hcap. rewrite Hcap in Hst. destruct (pj_complete p) eqn:Hc; [done|].
  split_and!; [done| |by apply is_some_false]. rewrite Ht. destruct (pj_truncated p) eqn:Hpt; [|done].
  by rewrite (projects_truncated m p) in Hc.
Qed.

(** The row of the stream after a commit says what the projection says. *)
Lemma advance_stream_ok m s p now :
  ls_state s = "capturing" → ls_truncated s = false → ls_completed_at s = None → projects m p →
  stream_ok m (bump_log_manifest_revision s (advance_stream p now s)) p.
Proof.
  intros Hst Ht Hat Hp. split; cbn; try done; destruct (pj_complete p) eqn:Hc; try done.
  - rewrite Ht. destruct (pj_truncated p) eqn:Hpt; [|done]. by rewrite (projects_truncated m p) in Hc.
  - by rewrite Hat.
Qed.

Lemma stream_for_capturing identity chunk now d : log_inv d →
  ls_state (stream_for identity chunk now d) = "capturing" →
  ls_truncated (stream_for identity chunk now d) = false ∧ ls_completed_at (stream_for identity chunk now d) = None.
Proof.
  intros I. unfold stream_for. destruct (d_log_streams d !! _) as [s|] eqn:Hs; [|done]. cbn. intros Hcap.
  destruct (li_stream _ I _ _ Hs) as (_ & p & Hok). by destruct (capturing_row _ _ _ Hok Hcap).
Qed.

Lemma inserted_inv identity chunk e d d' document p :
  log_inv d → malformed_chunk chunk = false →
  inserted identity chunk (stream_for identity chunk (transaction_timestamp e) d) e d d' document p → log_inv d'.
Proof.
  intros I (_ & _ & _ & Hstream & _)%malformed_chunk_false [Hend Hcap Hdig Hseq Hfresh Hfit Hwf Hpr Hcs Hss].
  set (k := (lc_ExecutionID chunk, lc_Stream chunk)) in *.
  destruct (chunks_at_insert d d' k _ _ Hcs) as [Hat Hother].
  assert (∀ k', k' ≠ k → ∀ j, chunks_at d' k' j = chunks_at d k' j) as Hother' by done. split.
  - intros k'. destruct (decide (k' = k)) as [->|Hne]; [by eapply chunks_wf_ext|].
    eapply chunks_wf_ext; [by apply Hother|apply (li_chunks _ I)].
  - intros k' i c Hc. destruct (decide (k' = k)) as [->|Hne].
    + rewrite Hat in Hc. apply set_chunk_Some in Hc as [[_ ->]|[_ Hc]]; [done|by eapply (li_digest _ I)].
    + rewrite Hother in Hc by done. by eapply (li_digest _ I).
  - intros k' i c Hc. rewrite Hss. destruct (decide (k' = k)) as [->|Hne]; [rewrite lookup_insert_eq; by eexists|].
    rewrite lookup_insert_ne by done. rewrite Hother in Hc by done. by eapply (li_parent _ I).
  - intros k' s' Hs'. rewrite Hss in Hs'. apply lookup_insert_Some in Hs' as [[<- <-]|[Hne Hs']].
    + split; [exact Hstream|]. exists p. destruct (stream_for_capturing _ _ _ _ I Hcap) as [Ht Hat'].
      eapply stream_ok_ext; [exact Hat|]. by apply advance_stream_ok.
    + destruct (li_stream _ I _ _ Hs') as (Hk & q & Hq). split; [done|]. exists q.
      eapply stream_ok_ext; [|exact Hq]. by apply Hother.
Qed.

Lemma CommitLogChunk_inv identity chunk e d b d' : CommitLogChunk identity chunk e d = Ok (b, d') → log_inv d → log_inv d'.
Proof.
  intros H I. apply CommitLogChunk_ok in H as [[Hm _] Hb]; [|done]. destruct b; [by destruct Hb as [-> _]|].
  destruct Hb as (document & p & Hin). by eapply inserted_inv.
Qed.

(** ** Contiguous content *)

Fixpoint laid_out (offset : Z) (l : list log_chunk_row) : Prop :=
  match l with
  | [] => True
  | c :: l => ch_byte_offset c = offset ∧ laid_out (offset + ch_byte_length c) l
  end.
Definition total_length (l : list log_chunk_row) : Z := foldr (λ c n, ch_byte_length c + n) 0 l.

Lemma laid_out_snoc offset l c :
  laid_out offset (l ++ [c]) ↔ laid_out offset l ∧ ch_byte_offset c = offset + total_length l.
Proof.
  revert offset. induction l as [|x l IH]; intros offset; cbn.
  - rewrite Z.add_0_r. naive_solver.
  - rewrite IH, Z.add_assoc. naive_solver.
Qed.
Lemma total_length_snoc l c : total_length (l ++ [c]) = total_length l + ch_byte_length c.
Proof. unfold total_length. induction l as [|x l IH]; cbn; [lia|]. rewrite IH. lia. Qed.

(** The chunks [1 .. n] of a stream, as a list. *)
Definition prefix_of (m : chunk_map) (n : Z) (l : list log_chunk_row) : Prop :=
  Z.of_nat (length l) = n ∧ ∀ i, 1 ≤ i ≤ n → m i = l !! Z.to_nat (i - 1).

Lemma prefix_exists m n : chunks_wf m → 0 ≤ n → (∀ i, 1 ≤ i ≤ n → is_Some (m i)) →
  ∃ l, prefix_of m n l ∧ laid_out 0 l ∧ total_length l = from_option chunk_end 0 (m n).
Proof.
  intros Hwf Hn. revert n Hn. apply (natlike_ind (λ n, (∀ i, 1 ≤ i ≤ n → is_Some (m i)) →
    ∃ l, prefix_of m n l ∧ laid_out 0 l ∧ total_length l = from_option chunk_end 0 (m n))).
  - intros _. exists []. split; [by split; [|intros i Hi; lia]|]. by rewrite chunk_zero.
  - intros n Hn IH Hall. destruct IH as (l & [Hlen Hl] & Hlay & Htot); [intros i Hi; apply Hall; lia|].
    destruct (Hall (Z.succ n)) as [c Hc]; [lia|]. exists (l ++ [c]).
    assert (ch_byte_offset c = total_length l) as Hoff.
    { rewrite Htot. destruct (decide (n = 0)) as [->|Hne].
      - rewrite chunk_zero by done. by apply (cw_first m Hwf).
      - destruct (Hall n) as [b Hb]; [lia|]. rewrite Hb. symmetry. by apply (cw_abut m Hwf n). }
    split_and!.
    + split; [rewrite length_app; cbn; lia|]. intros i Hi. destruct (decide (i = Z.succ n)) as [->|Hne].
      * rewrite Hc, lookup_app_r by lia. by replace (Z.to_nat (Z.succ n - 1) - length l)%nat with 0%nat by lia.
      * rewrite Hl, lookup_app_l by lia. done.
    + apply laid_out_snoc. split; [done|lia].
    + rewrite total_length_snoc, Hc. cbn. unfold chunk_end. lia.
Qed.

(** ** Histories *)

(** One committed call.  Only [CommitLogChunk] touches the log tables. *)
Definition same_logs (d d' : db) : Prop := d_log_streams d' = d_log_streams d ∧ d_log_chunks d' = d_log_chunks d.
Inductive log_step `{Sealer} : db → db → Prop :=
  | log_commit i c e d b d' : CommitLogChunk i c e d = Ok (b, d') → log_step d d'
  | log_elsewhere d d' : step d d' → same_logs d d' → log_step d d'.

Section histories.
Context `{Sealer}.

Definition log_reachable (d : db) : Prop :=
  ∃ d0, initial d0 ∧ d_log_streams d0 = ∅ ∧ d_log_chunks d0 = ∅ ∧ rtc log_step d0 d.

Lemma CommitLogChunk_step i c e d b d' : CommitLogChunk i c e d = Ok (b, d') → step d d'.
Proof.
  intros Hr. apply step_elsewhere.
  - split_and!; eapply keeps_after; [|exact Hr| |exact Hr| |exact Hr| |exact Hr]; keeps_tac.
  - eapply keeps_after; [|exact Hr]. keeps_tac.
Qed.

Lemma log_step_step d d' : log_step d d' → step d d'.
Proof. destruct 1; [by eapply CommitLogChunk_step|done]. Qed.

Lemma log_step_inv d d' : log_step d d' → log_inv d → log_inv d'.
Proof. destruct 1 as [|d d' _ [Hs Hc]]; [by eapply CommitLogChunk_inv|by apply log_inv_same]. Qed.

Lemma log_reachable_ok d : log_reachable d → reachable d ∧ log_inv d.
Proof.
  intros (d0 & Hi & Hs & Hc & Hsteps). split.
  - exists d0. split; [done|]. clear Hi Hs Hc. induction Hsteps; [done|]. eapply rtc_l; [by apply log_step_step|done].
  - pose proof (log_inv_empty d0 Hs Hc) as I. clear Hi Hs Hc. induction Hsteps; [done|]. eauto using log_step_inv.
Qed.

(** The calls of the lifecycle leave the log tables alone. *)
Lemma calls_keep_logs : (∀ p k s, Keeps d_log_streams (SubmitJob p k s) ∧ Keeps d_log_chunks (SubmitJob p k s)) ∧
  (∀ p k dry q, Keeps d_log_streams (ImportCompletedHistory p k dry q) ∧ Keeps d_log_chunks (ImportCompletedHistory p k dry q)) ∧
  (∀ p k s, Keeps d_log_streams (SubmitCollection p k s) ∧ Keeps d_log_chunks (SubmitCollection p k s)) ∧
  (∀ p k s, Keeps d_log_streams (SubmitGraph p k s) ∧ Keeps d_log_chunks (SubmitGraph p k s)) ∧
  (∀ p n j k q, Keeps d_log_streams (CancelJob p n j k q) ∧ Keeps d_log_chunks (CancelJob p n j k q)) ∧
  (∀ p n g k q, Keeps d_log_streams (CancelGraph p n g k q) ∧ Keeps d_log_chunks (CancelGraph p n g k q)) ∧
  (∀ i a, Keeps d_log_streams (AcceptAssignment i a) ∧ Keeps d_log_chunks (AcceptAssignment i a)) ∧
  (∀ i v, Keeps d_log_streams (RecordExecutionEvent i v) ∧ Keeps d_log_chunks (RecordExecutionEvent i v)) ∧
  (Keeps d_log_streams reconcile_iteration ∧ Keeps d_log_chunks reconcile_iteration) ∧
  (∀ t o, Keeps d_log_streams (reconcileOneStale t o) ∧ Keeps d_log_chunks (reconcileOneStale t o)).
Proof. repeat apply conj; try solve [keeps_tac]; intros; split; keeps_tac. Qed.

(** A stream exposes a contiguous prefix of the log, chunk by chunk. *)
Record exposes (m : chunk_map) (s : log_stream_row) (l : list log_chunk_row) : Prop := {
  ex_prefix : prefix_of m (ls_last_sequence s) l;
  ex_maximal : m (ls_last_sequence s + 1) = None;
  ex_laid_out : laid_out 0 l;
  ex_length : ls_byte_length s = total_length l;
  ex_state : ls_state s = if from_option ch_complete false (last l) then "complete" else "capturing";
  ex_complete : ls_state s = "complete" → ∀ i c, m i = Some c → 1 ≤ i ≤ ls_last_sequence s }.

Lemma exposes_stream d k s : log_inv d → d_log_streams d !! k = Some s → ∃ l, exposes (chunks_at d k) s l.
Proof.
  intros I Hs. destruct (li_stream _ I _ _ Hs) as (_ & p & [[Hn Hst Hnext Hlen Hcomp _] Hb Hl _ Hstate _]).
  destruct (prefix_exists _ _ (li_chunks _ I k) Hn Hst) as (l & Hpre & Hlay & Htot). exists l.
  assert (chunks_at d k (pj_lastSequence p) = last l) as Hlast.
  { destruct Hpre as [Hlen' Hl']. rewrite last_lookup. destruct (decide (pj_lastSequence p = 0)) as [H0|Hne].
    - rewrite H0, chunk_zero by apply (li_chunks _ I). rewrite H0 in Hlen'. by destruct l.
    - rewrite Hl' by lia. f_equal. lia. }
  split; rewrite ?Hl; try done; [congruence|by rewrite Hstate, Hcomp, Hlast|].
  intros Hc i c Hi. pose proof (cw_sequence _ (li_chunks _ I k) _ _ Hi) as [H1 _]. split; [done|].
  rewrite Hstate, Hcomp in Hc. destruct (chunks_at d k (pj_lastSequence p)) as [z|] eqn:Hz; [|done].
  cbn in Hc. destruct (ch_complete z) eqn:Hzc; [|done]. by apply (cw_last _ (li_chunks _ I k) _ _ z c).
Qed.

(** C12: a log is exposed without a gap or an overlap.  In every history, whatever chunks agents deliver
    in whatever order, the chunks a stream row covers are laid end to end from offset 0, their lengths
    add up to the byte length of the row, the next one is missing, and the row is complete exactly when
    its last chunk is the final one, after which no chunk exists. *)
Theorem log_stream_invariant d k s :
  log_reachable d → d_log_streams d !! k = Some s → ∃ l, exposes (chunks_at d k) s l.
Proof. intros [_ I]%log_reachable_ok. by apply exposes_stream. Qed.

(** Two complete streams of an execution can only be its two streams. *)
Lemma complete_streams_both d executionID : log_inv d → complete_streams d executionID = 2 →
  ∀ stream, stream = "stdout" ∨ stream = "stderr" →
  ∃ s, d_log_streams d !! (executionID, stream) = Some s ∧ ls_state s = "complete".
Proof.
  intros I. unfold complete_streams, slice_len.
  set (l := select _ (d_log_streams d)). intros Hlen stream Hstream.
  assert (∀ k s, (k, s) ∈ l → k.1 = executionID ∧ (k.2 = "stdout" ∨ k.2 = "stderr") ∧ d_log_streams d !! k = Some s ∧ ls_state s = "complete") as Hl.
  { intros k s (Hs & [Hk Hc]%andb_true_iff)%elem_of_select. apply eqs_true in Hk, Hc. destruct (li_stream _ I _ _ Hs) as [Hk2 _]. done. }
  pose proof (NoDup_select_keys (λ k s, eqs k.1 executionID && eqs (ls_state s) "complete") (d_log_streams d)) as Hd. fold l in Hd.
  destruct l as [|[[x1 s1] r1] [|[[x2 s2] r2] [|? ?]]]; cbn in Hlen; try lia.
  destruct (Hl (x1, s1) r1) as (E1 & H1 & L1 & C1); [set_solver|]. destruct (Hl (x2, s2) r2) as (E2 & H2 & L2 & C2); [set_solver|].
  cbn in *. subst x1 x2. apply NoDup_cons in Hd as [Hne _].
  assert (s1 ≠ s2) as Hss by (intros ->; apply Hne; set_solver).
  destruct (decide (stream = s1)) as [->|Hn1]; [by exists r1|]. destruct (decide (stream = s2)) as [->|Hn2]; [by exists r2|].
  exfalso. destruct Hstream, H1, H2; congruence.
Qed.

(** C14: no execution with a log store completes before its logs do.  When a completion is recorded for
    an execution whose target generation has a log store, both its streams expose their whole log. *)
Theorem completion_has_full_logs identity event e d d' x tg :
  log_reachable d → RecordExecutionEvent identity event e d = Ok (false, d') → completionEvent (eo_Type event) = true →
  d_executions d !! eo_ExecutionID event = Some x → d_generations d !! e_target_generation_id x = Some tg →
  is_Some (gen_log_store_name tg) →
  ∀ stream, stream = "stdout" ∨ stream = "stderr" → ∃ s l, d_log_streams d !! (eo_ExecutionID event, stream) = Some s ∧
    exposes (chunks_at d (eo_ExecutionID event, stream)) s l ∧ from_option ch_complete false (last l) = true.
Proof.
  intros [Hr I]%log_reachable_ok Hrun Hc Hx Htg Hstore stream Hstream.
  apply RecordExecutionEvent_run in Hrun as (x' & r & tg' & j & aid & a & doc & d1 & d2 & d3 & d4 & R); [|by apply reachable_inv].
  destruct R as [Hq _ Htg' _ _ _ _ _ Hlogs _ _ _ _ _ _]. destruct Hq as [_ _ Hx' _ _ _ _].
  rewrite Hx in Hx'. injection Hx' as <-. rewrite Htg in Htg'. injection Htg' as <-.
  specialize (Hlogs Hc (proj2 (is_some_true _) Hstore)).
  destruct (complete_streams_both d (eo_ExecutionID event) I Hlogs stream Hstream) as (s & Hs & Hcomp).
  destruct (exposes_stream _ _ _ I Hs) as (l & Hl). exists s, l. split_and!; [done..|].
  rewrite (ex_state _ _ _ Hl) in Hcomp. by destruct (from_option _ _ _).
Qed.
End histories.
