(* ===== verification/LogDelivery.v ===== *)
(** * Delivery of a log

    However the chunks of one log reach the service, in any order and any number of times, every
    delivery is accepted, and once each chunk has arrived the stream is complete. *)
From Stdlib Require Import Ascii.
From stdpp Require Import pretty.
From S2P Require Import Prelude Regex Names Domain TargetSpec Kahn Graph Contract Records Url Db Tx Constraints Auth Jobs Groups GraphStore Executions Coordinator Frames System Logs.

(** ** Object keys *)

(** The number a text begins with, up to a point. *)
Definition digit (c : ascii) : N := N_of_ascii c - 48.
Fixpoint decimal (acc : N) (s : string) : N :=
  match s with
  | "" => acc
  | String c s => if bool_decide (c = "."%char) then acc else decimal (acc * 10 + digit c) s
  end.

Lemma decimal_digit acc m s : (m < 10)%N → decimal acc (String (pretty_N_char m) s) = decimal (acc * 10 + m) s.
Proof.
  intros Hm. assert (m = 0 ∨ m = 1 ∨ m = 2 ∨ m = 3 ∨ m = 4 ∨ m = 5 ∨ m = 6 ∨ m = 7 ∨ m = 8 ∨ m = 9)%N as Hcases by lia.
  destruct_or! Hcases; subst m; done.
Qed.

Lemma decimal_go x s : decimal 0 (pretty_N_go x s) = decimal x s.
Proof.
  revert s. induction x as [x IH] using (well_founded_induction N.lt_wf_0). intros s.
  destruct (decide (x = 0)%N) as [->|Hx]; [by rewrite pretty_N_go_0|].
  rewrite pretty_N_go_step by lia. rewrite IH by (apply N.div_lt; lia). rewrite decimal_digit by (apply N.mod_lt; lia).
  f_equal. pose proof (N.div_mod x 10 ltac:(done)). lia.
Qed.

Lemma pretty_N_go_app x s t : pretty_N_go x s +:+ t = pretty_N_go x (s +:+ t).
Proof.
  revert s. induction x as [x IH] using (well_founded_induction N.lt_wf_0). intros s.
  destruct (decide (x = 0)%N) as [->|Hx]; [by rewrite !pretty_N_go_0|].
  rewrite (pretty_N_go_step x s), (pretty_N_go_step x (s +:+ t)) by lia. rewrite IH by (apply N.div_lt; lia). reflexivity.
Qed.

Lemma decimal_zeros n s : decimal 0 (zeros n +:+ s) = decimal 0 s.
Proof. induction n as [|n IH]; [done|]. exact IH. Qed.

Lemma string_app_assoc (a b c : string) : (a +:+ b) +:+ c = a +:+ (b +:+ c).
Proof. induction a as [|x a IH]; [done|]. change (String x ((a +:+ b) +:+ c) = String x (a +:+ (b +:+ c))). by rewrite IH. Qed.

Lemma decimal_pad8 n : 0 < n → decimal 0 (pad8 n +:+ ".chunk") = Z.to_N n.
Proof.
  intros Hn. unfold pad8. rewrite string_app_assoc, decimal_zeros. destruct n as [|p|p]; [done| |done].
  unfold pretty, pretty_Z, pretty, pretty_positive, pretty, pretty_N. rewrite decide_False by done.
  rewrite pretty_N_go_app, decimal_go. done.
Qed.

Lemma expectedKey_inj ns j x s a b : 0 < a → 0 < b → expectedKey ns j x s a = expectedKey ns j x s b → a = b.
Proof.
  intros Ha Hb Heq. unfold expectedKey in Heq. repeat apply (inj (String.append _)) in Heq.
  apply (f_equal (decimal 0)) in Heq. rewrite !decimal_pad8 in Heq by done. lia.
Qed.

(** A step that succeeds, and then the rest. *)
Lemma bind_runs {A B} (m : tx A) (f : A → tx B) e d a d1 b :
  m e d = Ok (a, d1) → (∃ d', f a e d1 = Ok (b, d')) → ∃ d', (m ≫= f) e d = Ok (b, d').
Proof. intros Hm [d' Hf]. exists d'. apply tx_bind_ok. by exists a, d1. Qed.

(** ** One log, cut into chunks *)

Section delivery.
Context (identity : AgentIdentity) (k : string * string) (namespace jobID store : string) (version : Z) (cut : list LogChunk).

(** The execution is known, launched and assigned to the agent, and its logs go to the store. *)
Record log_context (d : db) : Prop := {
  lx_execution : ∃ x, log_execution d k.1 (ai_NamespaceID identity) = Some (namespace, x, jobID, store, version) ∧
    e_agent_id x = ai_AgentID identity ∧ e_phase x ≠ "planned";
  lx_agent : ∃ g, d_agents d !! ai_AgentID identity = Some g ∧ ag_namespace_id g = ai_NamespaceID identity;
  lx_store : MatchString logStorePattern store = true;
  lx_version : 0 < version ≤ max_int64 }.

Definition lengths (l : list LogChunk) : Z := foldr (λ c n, lc_ByteLength c + n) 0 l.

(** What an agent sends for chunk [i]. *)
Record piece (i : nat) (c : LogChunk) : Prop := {
  pc_key : (lc_ExecutionID c, lc_Stream c) = k;
  pc_sequence : lc_Sequence c = Z.of_nat i + 1;
  pc_agent : lc_AgentID c = ai_AgentID identity;
  pc_store : lc_StoreName c = store ∧ lc_StoreVersion c = version;
  pc_object : lc_ObjectKey c = expectedKey namespace jobID k.1 k.2 (Z.of_nat i + 1) ∧ 1 ≤ len (lc_ObjectKey c) ≤ 1024;
  pc_wellformed : malformed_chunk c = false;
  pc_digest : MatchString digestPattern (lc_DocumentDigest c) = true;
  pc_document : ∃ document, json_Unmarshal (lc_Document c) = Ok document;
  pc_offset : lc_ByteOffset c = lengths (take i cut);
  pc_complete : lc_Complete c = bool_decide (S i = length cut) }.

Record log_cut : Prop := {
  lk_pieces : ∀ i c, cut !! i = Some c → piece i c;
  lk_nonempty : (0 < length cut)%nat;
  lk_count : Z.of_nat (length cut) < max_int64;
  lk_total : lengths cut ≤ max_int64 }.

(** No chunk of another stream has an object of this log. *)
Definition keys_free (d : db) : Prop :=
  ∀ k' i c j, k' ≠ k → chunks_at d k' i = Some c → ch_store_name c = store → ch_store_version c = version →
  ch_object_key c ≠ expectedKey namespace jobID k.1 k.2 j.

(** The stored chunk is the one that was sent. *)
Definition stored_as (c : LogChunk) (row : log_chunk_row) : Prop := ∃ document, row = chunk_row identity c document.

(** The chunks of [S] have been delivered. *)
Record delivered (S : gset nat) (d : db) : Prop := {
  dv_inv : log_inv d;
  dv_context : log_context d;
  dv_free : keys_free d;
  dv_bound : ∀ i, i ∈ S → (i < length cut)%nat;
  dv_stored : ∀ j row, chunks_at d k j = Some row → ∃ i c, i ∈ S ∧ cut !! i = Some c ∧ j = Z.of_nat i + 1 ∧ stored_as c row;
  dv_present : ∀ i, i ∈ S → is_Some (chunks_at d k (Z.of_nat i + 1));
  dv_stream : ∀ s, d_log_streams d !! k = Some s → ls_store_name s = store ∧ ls_store_version s = version ∧
    ls_agent_id s = ai_AgentID identity ∧ ls_namespace_id s = ai_NamespaceID identity ∧
    ls_manifest_revision s = 1 + Z.of_nat (size S) }.

Lemma lengths_app l l' : lengths (l ++ l') = lengths l + lengths l'.
Proof. unfold lengths. induction l as [|x l IH]; cbn; [lia|]. rewrite IH. lia. Qed.

Lemma lengths_nonneg l : Forall (λ c, 0 ≤ lc_ByteLength c) l → 0 ≤ lengths l.
Proof. induction 1 as [|x l Hx _ IH]; [done|]. change (0 ≤ lc_ByteLength x + lengths l). lia. Qed.

Lemma lengths_take_S i c : cut !! i = Some c → lengths (take (S i) cut) = lengths (take i cut) + lc_ByteLength c.
Proof.
  intros Hc. rewrite (take_S_r _ _ _ Hc), lengths_app. cbn. lia.
Qed.

Lemma piece_range (K : log_cut) i c : cut !! i = Some c →
  0 ≤ lc_ByteOffset c ∧ 0 ≤ lc_ByteLength c ∧ lc_ByteOffset c + lc_ByteLength c ≤ max_int64 ∧ Z.of_nat i + 1 ≤ max_int64.
Proof.
  intros Hc. pose proof (lk_pieces K _ _ Hc) as P. pose proof (proj1 (malformed_chunk_false _) (pc_wellformed _ _ P)) as (_ & Hoff & Hlen & _).
  split_and!; [done|lia| |].
  - rewrite (pc_offset _ _ P), <-lengths_take_S by done. pose proof (lk_total K) as Ht.
    rewrite <-(take_drop (S i) cut), lengths_app in Ht. assert (0 ≤ lengths (drop (S i) cut)); [|lia].
    assert (Forall (λ c, 0 ≤ lc_ByteLength c) (drop (S i) cut)) as Hall.
    { apply Forall_drop, Forall_lookup_2. intros j x Hx.
      pose proof (proj1 (malformed_chunk_false _) (pc_wellformed _ _ (lk_pieces K _ _ Hx))) as (_ & _ & ? & _). lia. }
    by apply lengths_nonneg.
  - apply lookup_lt_Some in Hc. pose proof (lk_count K). lia.
Qed.

(** A chunk that has not been delivered fits. *)
Lemma piece_fits (K : log_cut) S d i c document :
  delivered S d → cut !! i = Some c → i ∉ S → fits (chunks_at d k) (lc_Sequence c) (chunk_row identity c document).
Proof.
  intros D Hc Hi. pose proof (lk_pieces K _ _ Hc) as P. rewrite (pc_sequence _ _ P).
  assert (∀ j row, chunks_at d k j = Some row → ∃ i' c', i' ≠ i ∧ cut !! i' = Some c' ∧ piece i' c' ∧ j = Z.of_nat i' + 1 ∧
    ch_byte_offset row = lc_ByteOffset c' ∧ ch_byte_length row = lc_ByteLength c' ∧ ch_complete row = lc_Complete c') as Hst.
  { intros j row (i' & c' & Hi' & Hc' & -> & doc & ->)%(dv_stored _ _ D). exists i', c'. split_and!; try done; [congruence|by apply (lk_pieces K)]. }
  split; cbn.
  - intros H1. rewrite (pc_offset _ _ P). by replace i with 0%nat by lia.
  - intros b (i' & c' & Hne & Hc' & P' & Hj & Ho & Hl & _)%Hst. unfold chunk_end. rewrite Ho, Hl, (pc_offset _ _ P), (pc_offset _ _ P').
    replace i with (Datatypes.S i') by lia. by rewrite lengths_take_S with (c := c').
  - intros a (i' & c' & Hne & Hc' & P' & Hj & Ho & Hl & _)%Hst. unfold chunk_end. cbn. rewrite Ho, (pc_offset _ _ P), (pc_offset _ _ P').
    replace i' with (Datatypes.S i) by lia. by rewrite lengths_take_S with (c := c).
  - intros j t (i' & c' & Hne & Hc' & P' & -> & _ & _ & Hcomp)%Hst Ht. rewrite Hcomp, (pc_complete _ _ P') in Ht.
    apply bool_decide_eq_true in Ht. apply lookup_lt_Some in Hc. lia.
  - rewrite (pc_complete _ _ P). intros Hlast%bool_decide_eq_true j t (i' & c' & Hne & Hc' & P' & -> & _)%Hst.
    apply lookup_lt_Some in Hc'. lia.
Qed.

Lemma log_context_namespace d : log_context d → ∃ x, d_executions d !! k.1 = Some x ∧ e_namespace_id x = ai_NamespaceID identity ∧
  is_Some (d_namespaces d !! ai_NamespaceID identity).
Proof.
  intros [(x & Hx & _) _ _ _]. unfold log_execution in Hx. apply bind_Some in Hx as (x' & Hx' & Hx).
  destruct (eqs (e_namespace_id x') _) eqn:Hn; [|done]. apply eqs_true in Hn.
  apply bind_Some in Hx as (r & _ & Hx). apply bind_Some in Hx as (n & Hns & _). exists x'. rewrite <-Hn. by split_and!.
Qed.

Lemma new_stream_constraints d c i e : log_context d → piece i c →
  Forall (λ c, c.2 = true) (constraints d k (new_stream identity c (transaction_timestamp e))).
Proof.
  intros L P. destruct (log_context_namespace d L) as (x & Hx & Hn & _). destruct (lx_agent _ L) as (g & Hg & Hgn).
  destruct (pc_store _ _ P) as [Hst Hv]. pose proof (lx_store _ L) as Hpat. pose proof (lx_version _ L) as Hver.
  pose proof (proj1 (malformed_chunk_false _) (pc_wellformed _ _ P)) as (_ & _ & _ & Hstream & _).
  assert (k.2 = lc_Stream c) as Hk by (by rewrite <-(pc_key _ _ P)).
  cbn [constraints log_streams_table new_stream ls_namespace_id ls_agent_id ls_store_name ls_store_version ls_state ls_byte_length
    ls_last_sequence ls_truncated ls_completed_at ls_manifest_revision].
  repeat (apply Forall_cons; split; [cbn [snd]|]); try done.
  - apply exists_row_true. exists x. split; [done|by apply eqs_true].
  - apply exists_row_true. exists g. split; [done|by apply eqs_true].
  - rewrite Hk. by destruct Hstream as [->| ->].
  - by rewrite Hst.
  - rewrite Hv. apply bool_decide_eq_true. lia.
Qed.

Lemma create_stream d c i e : log_context d → piece i c → ∃ n d1,
  INSERT_or_nothing (lc_ExecutionID c, lc_Stream c) (new_stream identity c (transaction_timestamp e)) e d = Ok (n, d1) ∧
  d_log_streams d1 !! k = Some (stream_for identity c (transaction_timestamp e) d) ∧ d_log_chunks d1 = d_log_chunks d ∧
  log_context d1 ∧
  (is_Some (d_log_streams d !! k) → d1 = d).
Proof.
  intros L P. unfold stream_for. rewrite (pc_key _ _ P). destruct (d_log_streams d !! k) as [s|] eqn:Hs.
  - exists 0, d. split; [|done]. apply INSERT_or_nothing_ok. left. split_and!; try done; by exists s.
  - eexists 1, _. split; [apply INSERT_or_nothing_ok; right; split_and!; [done|exact Hs| |reflexivity]|].
    + by eapply new_stream_constraints.
    + cbn. rewrite lookup_insert_eq. split_and!; [done|done|by destruct L|by intros [? ?]].
Qed.

Lemma chunk_row_constraints d c i document :
  log_context d → piece i c → Z.of_nat i + 1 ≤ max_int64 → 0 ≤ lc_ByteOffset c ≤ max_int64 → is_Some (d_log_streams d !! k) →
  (∀ k' j row, chunks_at d k' j = Some row → (k', j) ≠ (k, lc_Sequence c) → ch_store_name row = store → ch_store_version row = version →
     ch_object_key row ≠ lc_ObjectKey c) →
  Forall (λ c, c.2 = true) (constraints d (k, lc_Sequence c) (chunk_row identity c document)).
Proof.
  intros L P Hi Hoff Hs Hfree. destruct (log_context_namespace d L) as (x & Hx & Hn & _). destruct (lx_agent _ L) as (g & Hg & Hgn).
  destruct (pc_store _ _ P) as [Hst Hv]. pose proof (lx_store _ L) as Hpat. pose proof (lx_version _ L) as Hver.
  pose proof (proj1 (malformed_chunk_false _) (pc_wellformed _ _ P)) as (Hseq & Ho & Hlen & Hstream & Hsum & Hempty & Htrunc).
  assert (k.2 = lc_Stream c) as Hk by (by rewrite <-(pc_key _ _ P)).
  destruct (pc_object _ _ P) as [_ Hkey]. pose proof (pc_digest _ _ P) as Hdig. pose proof (pc_sequence _ _ P) as Hsq.
  cbn [constraints log_chunks_table chunk_row ch_namespace_id ch_agent_id ch_store_name ch_store_version ch_object_key ch_byte_offset
    ch_byte_length ch_checksum ch_complete ch_truncated ch_document_digest fst snd].
  repeat (apply Forall_cons; split; [cbn [snd]|]); [..|done].
  - by apply is_some_true.
  - apply exists_row_true. exists x. split; [done|by apply eqs_true].
  - apply exists_row_true. exists g. split; [done|by apply eqs_true].
  - rewrite Hk. by destruct Hstream as [->| ->].
  - apply bool_decide_eq_true. lia.
  - rewrite Hv. apply bool_decide_eq_true. lia.
  - by rewrite Hst.
  - by apply bool_decide_eq_true.
  - by apply bool_decide_eq_true.
  - by apply bool_decide_eq_true.
  - destruct (decide (lc_ByteLength c = 0)) as [H0|H0]; [rewrite Hempty by done; by rewrite orb_true_r|].
    rewrite bool_decide_true by lia. done.
  - destruct (lc_Truncated c); [by rewrite Htrunc|done].
  - done.
  - done.
  - apply unique_among_spec. intros [k' j] row Hrow Heq. apply andb_true_iff in Heq as [[Hs1 Hv1]%andb_true_iff Hk1].
    apply eqs_true in Hs1, Hk1. apply bool_decide_eq_true in Hv1. destruct (decide ((k', j) = (k, lc_Sequence c))) as [He|Hne]; [done|].
    exfalso. apply (Hfree k' j row); [done|done|congruence|congruence|done].
Qed.

Lemma stream_row_constraints d c i e s p m : log_context d → piece i c → stream_ok m (bump_log_manifest_revision s (advance_stream p (transaction_timestamp e) s)) p →
  ls_namespace_id s = ai_NamespaceID identity → ls_agent_id s = ai_AgentID identity → ls_store_name s = store → ls_store_version s = version →
  1 ≤ ls_manifest_revision s < max_int64 → 0 ≤ pj_byteLength p ≤ max_int64 → 0 ≤ pj_lastSequence p ≤ max_int64 →
  Forall (λ c, c.2 = true) (constraints d k (bump_log_manifest_revision s (advance_stream p (transaction_timestamp e) s))).
Proof.
  intros L P Hok Hns Hag Hst Hv Hrev Hb Hl.
  destruct (log_context_namespace d L) as (x & Hx & Hn & _). destruct (lx_agent _ L) as (g & Hg & Hgn).
  pose proof (lx_store _ L) as Hpat. pose proof (lx_version _ L) as Hver.
  pose proof (proj1 (malformed_chunk_false _) (pc_wellformed _ _ P)) as (_ & _ & _ & Hstream & _).
  assert (k.2 = lc_Stream c) as Hk by (by rewrite <-(pc_key _ _ P)).
  destruct Hok as [Hp _ _ Htr Hstate Hat]. set (s' := bump_log_manifest_revision _ _) in *.
  assert (ls_namespace_id s' = ls_namespace_id s ∧ ls_agent_id s' = ls_agent_id s ∧ ls_store_name s' = ls_store_name s ∧
    ls_store_version s' = ls_store_version s ∧ ls_byte_length s' = pj_byteLength p ∧ ls_last_sequence s' = pj_lastSequence p ∧
    ls_manifest_revision s' = ls_manifest_revision s + 1) as (E1 & E2 & E3 & E4 & E5 & E6 & E7) by done.
  clearbody s'. cbn [constraints log_streams_table].
  repeat (apply Forall_cons; split; [cbn [snd]|]); [..|done].
  - apply exists_row_true. exists x. split; [done|apply eqs_true; congruence].
  - apply exists_row_true. exists g. rewrite E2, Hag. split; [done|apply eqs_true; congruence].
  - rewrite Hk. by destruct Hstream as [->| ->].
  - by rewrite E3, Hst.
  - rewrite E4, Hv. apply bool_decide_eq_true. lia.
  - rewrite Hstate. by destruct (pj_complete p).
  - apply bool_decide_eq_true. lia.
  - apply bool_decide_eq_true. lia.
  - rewrite Hstate, Hat, Htr. destruct (pj_complete p) eqn:Hc; [done|]. destruct (pj_truncated p) eqn:Hpt; [|done].
    by rewrite (projects_truncated m p) in Hc.
  - rewrite E7. apply bool_decide_eq_true. lia.
Qed.

(** While a chunk is missing the stream is capturing. *)
Lemma missing_capturing (K : log_cut) S d i c now :
  delivered S d → cut !! i = Some c → i ∉ S → ls_state (stream_for identity c now d) = "capturing".
Proof.
  intros D Hc Hi. pose proof (lk_pieces K _ _ Hc) as P. unfold stream_for. rewrite (pc_key _ _ P).
  destruct (d_log_streams d !! k) as [s|] eqn:Hs; [|done]. cbn.
  destruct (li_stream _ (dv_inv _ _ D) _ _ Hs) as (_ & p & [[_ Hst _ _ Hcomp _] _ _ _ Hstate _]). rewrite Hstate, Hcomp.
  destruct (chunks_at d k (pj_lastSequence p)) as [z|] eqn:Hz; [|done]. cbn. destruct (ch_complete z) eqn:Hzc; [|done]. exfalso.
  destruct (dv_stored _ _ D _ _ Hz) as (i' & c' & _ & Hc' & Hlast & doc & ->). cbn in Hzc.
  rewrite (pc_complete _ _ (lk_pieces K _ _ Hc')) in Hzc. apply bool_decide_eq_true in Hzc.
  pose proof (lookup_lt_Some _ _ _ Hc). destruct (Hst (Z.of_nat i + 1)) as [row Hrow]; [lia|].
  destruct (dv_stored _ _ D _ _ Hrow) as (i2 & _ & Hi2 & _ & He & _). replace i with i2 in Hi by lia. done.
Qed.

(** The row of the stream a missing chunk goes to. *)
Lemma stream_for_row (K : log_cut) S d i c now :
  delivered S d → cut !! i = Some c → S = ∅ ∨ is_Some (d_log_streams d !! k) →
  let s := stream_for identity c now d in
  ls_store_name s = store ∧ ls_store_version s = version ∧ ls_agent_id s = ai_AgentID identity ∧
  ls_namespace_id s = ai_NamespaceID identity ∧ ls_manifest_revision s = 1 + Z.of_nat (size S).
Proof.
  intros D Hc HS s. subst s. pose proof (lk_pieces K _ _ Hc) as P. unfold stream_for. rewrite (pc_key _ _ P).
  destruct (d_log_streams d !! k) as [s|] eqn:Hs; [by apply (dv_stream _ _ D)|]. cbn.
  destruct HS as [->|[? ?]]; [|done]. destruct (pc_store _ _ P) as [-> ->]. by rewrite size_empty.
Qed.

Lemma delivered_stream S d : delivered S d → S = ∅ ∨ is_Some (d_log_streams d !! k).
Proof.
  intros D. destruct (decide (S = ∅)) as [?|[i Hi]%set_choose_L]; [by left|right].
  destruct (dv_present _ _ D i Hi) as [row Hrow]. by apply (li_parent _ (dv_inv _ _ D) _ _ _ Hrow).
Qed.

Lemma audit_completion_ok d e p c : log_context d →
  ∃ d', whenT (pj_complete p) (wrapT "audit log completion" [] (audit_agent (ai_NamespaceID identity) (ai_AgentID identity)
    "log.completed" "execution" (lc_ExecutionID c) (lc_DocumentDigest c)
    [("stream", lc_Stream c); ("byteLength", pretty (pj_byteLength p));
     ("truncated", if pj_truncated p then "true" else "false"); ("storeName", lc_StoreName c);
     ("storeVersion", pretty (lc_StoreVersion c))])) e d = Ok (tt, d').
Proof.
  intros L. destruct (log_context_namespace d L) as (x & Hx & Hn & Hns). destruct (lx_agent _ L) as (g & Hg & Hgn).
  unfold whenT. destruct (pj_complete p); [|by exists d]. eexists. apply wrapT_ok. unfold audit_agent.
  apply tx_bind_ok. eexists _, _. split; [by apply asks_ok|]. unfold insert_audit. apply bind_unit_ok. split; [|reflexivity].
  apply check_all_ok. repeat (apply Forall_cons; split; [cbn|]); [by apply is_some_true|done| |done].
  apply exists_row_true. exists g. split; [done|by apply eqs_true].
Qed.

Lemma projected_bounds m p : chunks_wf m → projects m p → 0 ≤ pj_byteLength p ≤ max_int64 ∧ 0 ≤ pj_lastSequence p ≤ max_int64.
Proof.
  intros Hwf [Hn Hst _ Hlen _ _]. rewrite Hlen. destruct (m (pj_lastSequence p)) as [c|] eqn:Hc; cbn.
  - pose proof (cw_sequence _ Hwf _ _ Hc). pose proof (cw_range _ Hwf _ _ Hc). unfold chunk_end in *. lia.
  - destruct (decide (pj_lastSequence p = 0)) as [->|Hne]; [unfold max_int64; lia|]. destruct (Hst (pj_lastSequence p)) as [? ?]; [lia|congruence].
Qed.

Lemma size_bounded (S : gset nat) n : (∀ i, i ∈ S → (i < n)%nat) → (size S ≤ n)%nat.
Proof.
  intros Hb. assert (S ⊆ list_to_set (seq 0 n)) as Hs.
  { intros i Hi. apply elem_of_list_to_set, elem_of_seq. specialize (Hb i Hi). lia. }
  apply subseteq_size in Hs. rewrite size_list_to_set in Hs by apply NoDup_seq. by rewrite length_seq in Hs.
Qed.

(** Inserting a missing chunk succeeds. *)
Lemma insert_piece (K : log_cut) S d d1 i c e :
  delivered S d → cut !! i = Some c → i ∉ S → log_context d1 → d_log_chunks d1 = d_log_chunks d →
  d_log_streams d1 !! k = Some (stream_for identity c (transaction_timestamp e) d) →
  ∃ d', insert_chunk identity c (stream_for identity c (transaction_timestamp e) d) e d1 = Ok (tt, d').
Proof.
  intros D Hc Hi L1 Hch Hs1. pose proof (lk_pieces K _ _ Hc) as P. destruct (piece_range K _ _ Hc) as (Hoff & Hlen & Hend & Hseq).
  destruct (stream_for_row K S d i c (transaction_timestamp e) D Hc (delivered_stream _ _ D)) as (Rst & Rv & Rag & Rns & Rrev).
  pose proof (missing_capturing K S d i c (transaction_timestamp e) D Hc Hi) as Hcap.
  destruct (stream_for_capturing identity c (transaction_timestamp e) d (dv_inv _ _ D) Hcap) as [Rtr Rat].
  set (s := stream_for identity c (transaction_timestamp e) d) in *.
  destruct (pc_document _ _ P) as [document Hdoc]. pose proof (piece_fits K S d i c document D Hc Hi) as Hfit.
  assert (chunks_at d1 = chunks_at d) as Hat by (unfold chunks_at; by rewrite Hch).
  pose proof (li_chunks _ (dv_inv _ _ D) k) as Hwf. rewrite <-Hat in Hwf, Hfit.
  assert (chunks_at d1 k (lc_Sequence c) = None) as Hnone.
  { rewrite Hat, (pc_sequence _ _ P). destruct (chunks_at d k (Z.of_nat i + 1)) as [row|] eqn:Hrow; [|done]. exfalso.
    destruct (dv_stored _ _ D _ _ Hrow) as (i2 & _ & Hi2 & _ & He & _). by replace i with i2 in Hi by lia. }
  pose proof (pc_wellformed _ _ P) as Hm. pose proof (chunks_wf_set _ _ _ Hwf Hfit ltac:(rewrite (pc_sequence _ _ P); lia) Hoff Hlen Hend) as Hwf'.
  unfold insert_chunk. rewrite (pc_key _ _ P).
  eapply (bind_runs _ _ _ _ tt d1); [apply reject_ok; split; [apply bool_decide_eq_false; lia|done]|].
  eapply (bind_runs _ _ _ _ tt d1).
  { apply reject_ok. split; [|done]. destruct (pc_store _ _ P) as [-> ->]. rewrite Hcap, Rst, Rv, !eqs_refl, bool_decide_true by done. done. }
  eapply (bind_runs _ _ _ _ d1 d1); [done|].
  eapply (bind_runs _ _ _ _ tt d1).
  { apply wrapT_ok, reject_ok. split; [|done]. apply Z.ltb_ge. rewrite (pc_sequence _ _ P).
    pose proof (lookup_lt_Some _ _ _ Hc). pose proof (lk_count K). lia. }
  eapply (bind_runs _ _ _ _ tt d1).
  { apply reject_ok. split; [|done]. apply (misplaced_false d1 c identity document); rewrite ?(pc_key _ _ P); try done. lia. }
  eapply (bind_runs _ _ _ _ (transaction_timestamp e) d1); [by apply asks_ok|].
  eapply (bind_runs _ _ _ _ tt).
  { apply wrapT_ok, tx_bind_ok. exists document, d1. split; [by apply lift_ok|]. apply INSERT_ok. split_and!; [exact Hnone| |reflexivity].
    eapply chunk_row_constraints; [done|done|lia|lia|by eexists|]. intros k' j row Hrow Hne Hst Hv. rewrite Hat in Hrow.
    destruct (pc_object _ _ P) as [-> _]. destruct (decide (k' = k)) as [->|Hk]; [|by eapply (dv_free _ _ D)].
    destruct (dv_stored _ _ D _ _ Hrow) as (i2 & c2 & _ & Hc2 & -> & doc & ->). cbn.
    destruct (pc_object _ _ (lk_pieces K _ _ Hc2)) as [-> _]. intros He%expectedKey_inj; [|lia..]. apply Hne. f_equal.
    rewrite (pc_sequence _ _ P). lia. }
  set (d2 := set_tbl _ d1).
  assert (chunks_wf (chunks_at d2 k)) as Hwf2.
  { destruct (chunks_at_insert d1 d2 k (lc_Sequence c) (chunk_row identity c document) eq_refl) as [Hat2 _]. by eapply chunks_wf_ext. }
  destruct (contiguousLogProjection_ok c e d2) as (p & Hp & Hproj); [by rewrite (pc_key _ _ P)|]. rewrite (pc_key _ _ P) in Hproj.
  eapply (bind_runs _ _ _ _ p d2); [done|].
  assert (log_context d2) as L2 by (destruct L1; split; done).
  destruct (projected_bounds _ _ Hwf2 Hproj) as [Hpb Hpl].
  eapply (bind_runs _ _ _ _ tt).
  { apply wrapT_ok, UPDATE__ok. exists 1. apply UPDATE_ok. left. exists s. eexists. split_and!; [exact Hs1|done|reflexivity| |done|].
    - eapply stream_row_constraints; [exact L2|exact P|by apply advance_stream_ok|done..| |done|done].
      rewrite Rrev. assert (size ({[i]} ∪ S) ≤ length cut)%nat as Hsize.
      { apply size_bounded. intros j [->%elem_of_singleton|Hj]%elem_of_union; [by eapply lookup_lt_Some|by apply (dv_bound _ _ D)]. }
      rewrite size_union, size_singleton in Hsize by set_solver. pose proof (lk_count K). lia.
    - cbn. apply tx_ret_ok. split; [done|reflexivity]. }
  apply audit_completion_ok. destruct L2; split; done.
Qed.

(** What holds after a new chunk has been inserted. *)
Lemma delivered_insert (K : log_cut) S d i c e document p d' :
  delivered S d → cut !! i = Some c → i ∉ S → log_inv d' → log_context d' →
  inserted identity c (stream_for identity c (transaction_timestamp e) d) e d d' document p → delivered ({[i]} ∪ S) d'.
Proof.
  intros D Hc Hi I' L' [_ _ _ _ _ _ _ _ Hcs Hss]. pose proof (lk_pieces K _ _ Hc) as P. rewrite (pc_key _ _ P) in Hcs, Hss.
  destruct (chunks_at_insert _ _ _ _ _ Hcs) as [Hat Hother]. split; [done|done| | | | |].
  - intros k' j row n Hk Hrow. rewrite Hother in Hrow by done. by eapply (dv_free _ _ D).
  - intros j [->%elem_of_singleton|Hj]%elem_of_union; [by eapply lookup_lt_Some|by apply (dv_bound _ _ D)].
  - intros j row Hrow. rewrite Hat in Hrow. apply set_chunk_Some in Hrow as [[-> ->]|[_ Hrow]].
    + exists i, c. split_and!; [set_solver|done|by apply (pc_sequence _ _ P)|by exists document].
    + destruct (dv_stored _ _ D _ _ Hrow) as (i' & c' & ? & ? & ? & ?). exists i', c'. split_and!; [set_solver|done..].
  - intros j Hj. rewrite Hat. unfold set_chunk. case_decide as Hd; [by eexists|]. apply (dv_present _ _ D).
    rewrite (pc_sequence _ _ P) in Hd. assert (j ≠ i) by (intros ->; done). set_solver.
  - intros s Hs. rewrite Hss, lookup_insert_eq in Hs. injection Hs as <-.
    destruct (stream_for_row K S d i c (transaction_timestamp e) D Hc (delivered_stream _ _ D)) as (Rst & Rv & Rag & Rns & Rrev).
    split_and!; try done. cbn. rewrite Rrev, size_union, size_singleton by set_solver. lia.
Qed.

Lemma CommitLogChunk_context c e d b d' : CommitLogChunk identity c e d = Ok (b, d') → log_context d → log_context d'.
Proof.
  intros Hr [Hx Hg Hs Hv].
  assert (d_executions d' = d_executions d ∧ d_runs d' = d_runs d ∧ d_namespaces d' = d_namespaces d ∧
    d_generations d' = d_generations d ∧ d_agents d' = d_agents d) as (Ex & Er & En & Eg & Ea).
  { split_and!; eapply keeps_after; [|exact Hr| |exact Hr| |exact Hr| |exact Hr| |exact Hr]; keeps_tac. }
  split; try done; [|by rewrite Ea]. unfold log_execution. by rewrite Ex, Er, En, Eg.
Qed.

(** Every delivery is accepted: a new chunk is added, an old one is acknowledged. *)
Lemma deliver_piece (K : log_cut) S d i c e :
  delivered S d → cut !! i = Some c → ∃ d', CommitLogChunk identity c e d = Ok (bool_decide (i ∈ S), d') ∧ delivered ({[i]} ∪ S) d'.
Proof.
  intros D Hc. pose proof (lk_pieces K _ _ Hc) as P. pose proof (dv_context _ _ D) as L. pose proof (dv_inv _ _ D) as I.
  destruct (create_stream d c i e L P) as (n & d1 & Hcreate & Hs1 & Hch & L1 & Hkeep).
  assert (chunks_at d1 = chunks_at d) as Hat by (unfold chunks_at; by rewrite Hch).
  assert (lc_ExecutionID c = k.1 ∧ lc_Stream c = k.2) as [Hk1 Hk2] by (by rewrite <-(pc_key _ _ P)).
  assert (∃ d', CommitLogChunk identity c e d = Ok (bool_decide (i ∈ S), d')) as [d' Hrun].
  { unfold CommitLogChunk. eapply (bind_runs _ _ _ _ tt d); [by apply reject_ok; split; [apply (pc_wellformed _ _ P)|]|].
    setoid_rewrite wrapT_ok. eapply (bind_runs _ _ _ _ d d); [done|]. eapply (bind_runs _ _ _ _ (transaction_timestamp e) d); [by apply asks_ok|].
    destruct L as [(x & Hx & Hagent & Hphase) _ _ _]. eapply (bind_runs _ _ _ _ _ d).
    { apply row_or_ok. split; [|done]. rewrite Hk1. exact Hx. }
    cbn beta iota. eapply (bind_runs _ _ _ _ tt d); [apply reject_ok; split; [|done]|].
    { by rewrite Hagent, (pc_agent _ _ P), !eqs_refl. }
    eapply (bind_runs _ _ _ _ tt d); [apply reject_ok; split; [|done]|].
    { destruct (pc_store _ _ P) as [-> ->]. by rewrite eqs_refl, bool_decide_true. }
    eapply (bind_runs _ _ _ _ tt d); [apply reject_ok; split; [by apply eqs_false|done]|].
    eapply (bind_runs _ _ _ _ tt d); [apply reject_ok; split; [|done]|].
    { rewrite Hk1, Hk2, (pc_sequence _ _ P), (proj1 (pc_object _ _ P)). by rewrite eqs_refl. }
    eapply (bind_runs _ _ _ _ n d1); [by apply wrapT_ok|]. eapply (bind_runs _ _ _ _ d1 d1); [done|]. rewrite (pc_key _ _ P).
    eapply (bind_runs _ _ _ _ _ d1); [by apply wrapT_ok, row_or_ok|].
    change (d_log_chunks d1 !! (k, lc_Sequence c)) with (chunks_at d1 k (lc_Sequence c)). rewrite Hat.
    case_bool_decide as Hi.
    - destruct (dv_present _ _ D i Hi) as [row Hrow]. rewrite (pc_sequence _ _ P), Hrow.
      destruct (dv_stored _ _ D _ _ Hrow) as (i' & c' & _ & Hc' & He & doc & ->). replace i' with i in Hc' by lia.
      rewrite Hc in Hc'. injection Hc' as <-. pose proof (checked_digest_nonempty _ (pc_digest _ _ P)) as Hdig%eqs_false.
      cbn [from_option chunk_row ch_document_digest]. rewrite Hdig, eqs_refl. cbn [negb].
      eapply (bind_runs _ _ _ _ tt d1); [by apply reject_ok|]. by exists d1.
    - assert (chunks_at d k (lc_Sequence c) = None) as ->.
      { rewrite (pc_sequence _ _ P). destruct (chunks_at d k (Z.of_nat i + 1)) as [row|] eqn:Hrow; [|done]. exfalso.
        destruct (dv_stored _ _ D _ _ Hrow) as (i2 & _ & Hi2 & _ & He & _). by replace i with i2 in Hi by lia. }
      cbn [from_option]. rewrite eqs_refl. cbn [negb].
      destruct (insert_piece K S d d1 i c e D Hc Hi L1 Hch Hs1) as [d2 Hins].
      eapply (bind_runs _ _ _ _ tt d2); [done|]. by exists d2. }
  exists d'. split; [done|]. pose proof (CommitLogChunk_inv _ _ _ _ _ _ Hrun I) as I'. pose proof (CommitLogChunk_context _ _ _ _ _ Hrun L) as L'.
  pose proof Hrun as Hok. apply CommitLogChunk_ok in Hok as [_ Hok]; [|done]. case_bool_decide as Hi.
  - destruct Hok as [-> _]. by replace ({[i]} ∪ S) with S by set_solver.
  - destruct Hok as (document & p & Hin). by eapply delivered_insert.
Qed.

(** ** All chunks, in any order *)

(** The deliveries one after another, each in a transaction of its own. *)
Fixpoint deliver (l : list (env * LogChunk)) (d : db) : result db :=
  match l with
  | [] => Ok d
  | (e, c) :: l => '(_, d) ← CommitLogChunk identity c e d; deliver l d
  end.

Lemma deliver_ok (K : log_cut) l S d : delivered S d → Forall (λ ec, ec.2 ∈ cut) l →
  ∃ S' d', deliver l d = Ok d' ∧ delivered S' d' ∧ S ⊆ S' ∧ ∀ i c, cut !! i = Some c → c ∈ l.*2 → i ∈ S'.
Proof.
  intros D Hl. revert S d D. induction Hl as [|[e c] l Hc _ IH]; intros S d D; cbn.
  - exists S, d. split_and!; [done|done|done|]. by intros i c _ ?%elem_of_nil.
  - apply list_elem_of_lookup in Hc as [i Hc]. destruct (deliver_piece K S d i c e D Hc) as (d1 & Hrun & D1).
    rewrite Hrun. cbn. destruct (IH _ _ D1) as (S' & d' & Hd' & D' & Hsub & Hall). exists S', d'. split_and!; [done|done|set_solver|].
    intros j c' Hj [->|Hin]%elem_of_cons; [|by eapply Hall]. cbn in *.
    assert (i = j) as -> by (pose proof (pc_sequence _ _ (lk_pieces K _ _ Hc)); pose proof (pc_sequence _ _ (lk_pieces K _ _ Hj)); lia).
    set_solver.
Qed.

Lemma delivered_none d : log_inv d → log_context d → keys_free d → d_log_streams d !! k = None → delivered ∅ d.
Proof.
  intros I L F Hs. split; [done|done|done|set_solver| |set_solver|].
  - intros j row Hrow. apply (li_parent _ I) in Hrow as [? ?]. congruence.
  - intros s Hs'. congruence.
Qed.

(** When everything has been delivered the stream is complete. *)
Lemma delivered_all (K : log_cut) S d : delivered S d → (∀ i, (i < length cut)%nat → i ∈ S) →
  ∃ s z, d_log_streams d !! k = Some s ∧ last cut = Some z ∧ ls_state s = "complete" ∧ ls_last_sequence s = Z.of_nat (length cut) ∧
    ls_byte_length s = lengths cut ∧ ls_truncated s = lc_Truncated z.
Proof.
  intros D Hall. destruct (delivered_stream S d D) as [->|[s Hs]].
  { specialize (Hall 0%nat (lk_nonempty K)). set_solver. }
  destruct (li_stream _ (dv_inv _ _ D) _ _ Hs) as (_ & p & [Hp Hb Hl Ht Hstate _]).
  pose proof (lk_nonempty K) as Hne. destruct (lookup_lt_is_Some_2 cut (length cut - 1)) as [z Hz]; [lia|].
  assert (last cut = Some z) as Hlast by (rewrite last_lookup; by replace (pred (length cut)) with (length cut - 1)%nat by lia).
  assert (pj_lastSequence p = Z.of_nat (length cut)) as Hseq.
  { destruct Hp as [Hn Hst Hnext _ _ _]. destruct (Z.lt_trichotomy (pj_lastSequence p) (Z.of_nat (length cut))) as [Hlt|[?|Hgt]]; [|done|].
    - destruct (dv_present _ _ D (Z.to_nat (pj_lastSequence p))) as [row Hrow]; [apply Hall; lia|].
      rewrite Z2Nat.id in Hrow by done. congruence.
    - destruct (Hst (pj_lastSequence p)) as [row Hrow]; [lia|]. destruct (dv_stored _ _ D _ _ Hrow) as (i & c & Hi & _ & He & _).
      apply (dv_bound _ _ D) in Hi. lia. }
  assert (∃ document, chunks_at d k (pj_lastSequence p) = Some (chunk_row identity z document)) as [document Hrow].
  { destruct (pr_stored _ _ Hp (pj_lastSequence p)) as [row Hrow]; [lia|].
    destruct (dv_stored _ _ D _ _ Hrow) as (i & c & _ & Hc & He & document & ->). replace i with (length cut - 1)%nat in Hc by lia.
    rewrite Hz in Hc. injection Hc as <-. by exists document. }
  pose proof (lk_pieces K _ _ Hz) as P. assert (lc_Complete z = true) as Hcomp.
  { rewrite (pc_complete _ _ P). apply bool_decide_eq_true. lia. }
  exists s, z. destruct Hp as [_ _ _ Hlen Hpc Hpt]. rewrite Hrow in Hlen, Hpc, Hpt. cbn in Hlen, Hpc, Hpt. rewrite Hcomp in Hpc, Hpt.
  split_and!; [done|done|by rewrite Hstate, Hpc|lia| |by rewrite Ht, Hpt].
  rewrite Hb, Hlen. unfold chunk_end. cbn. rewrite (pc_offset _ _ P), <-lengths_take_S by done. by rewrite take_ge by lia.
Qed.
End delivery.

(** C13: a log arrives whatever the network does.  The chunks of one log, each of at most 256 KiB, are
    delivered in any order and any number of times: every delivery is accepted, and once every chunk has
    been delivered the stream is complete, with as many bytes as the chunks have together and the
    truncation mark of the last. *)
Theorem log_delivered_in_any_order identity k namespace jobID store version cut l d :
  log_cut identity k namespace jobID store version cut → log_inv d →
  log_context identity k namespace jobID store version d → keys_free k namespace jobID store version d →
  d_log_streams d !! k = None → Forall (λ ec, ec.2 ∈ cut) l →
  ∃ d', deliver identity l d = Ok d' ∧ log_inv d' ∧
    ((∀ c, c ∈ cut → c ∈ l.*2) →
     ∃ s z, d_log_streams d' !! k = Some s ∧ last cut = Some z ∧ ls_state s = "complete" ∧
       ls_last_sequence s = Z.of_nat (length cut) ∧ ls_byte_length s = lengths cut ∧ ls_truncated s = lc_Truncated z).
Proof.
  intros K I L F Hs Hl. pose proof (delivered_none identity k namespace jobID store version cut d I L F Hs) as D.
  destruct (deliver_ok identity k namespace jobID store version cut K l ∅ d D Hl) as (S & d' & Hd & D' & _ & Hall).
  exists d'. split; [done|]. split; [by apply (dv_inv _ _ _ _ _ _ _ _ _ D')|]. intros Heach.
  eapply (delivered_all identity k namespace jobID store version cut K S d' D'). intros i [c Hc]%lookup_lt_is_Some_2.
  apply (Hall i c Hc), Heach. by eapply list_elem_of_lookup_2.
Qed.
