(* ===== verification/Events.v ===== *)
(** * Recording events

    What a recorded event establishes about its origin, its order, its evidence
    and its artifacts; replays of recorded events; and what a failed member of a
    fail-fast collection does to the others. *)
From stdpp Require Import pretty.
From S2P Require Import Prelude Regex Names Domain TargetSpec Kahn Graph Contract Records Url Db Tx Constraints Auth Jobs Groups GraphStore Executions Coordinator Lifecycle Progress LifecycleOps LifecycleEvents LifecycleSubmit Frames EventLog System.

(** ** Artifact publication *)

(** The published artifact is the declared output of its name, at the resolved
    destination. *)
Definition publishes (effective : EffectiveExecution) (artifact : PublishedArtifact) : Prop :=
  ∃ output destination, declared_outputs effective !! pa_Name artifact = Some output ∧
    url_Parse (oa_Destination output) = Some destination ∧
    u_Host destination = pa_StoreName artifact ∧ trim_slash (u_Path destination) = pa_ObjectKey artifact ∧
    default 0 (store_bindings effective !! pa_StoreName artifact) = pa_StoreVersion artifact.

Lemma publish_artifact_ok effective published artifact published' :
  publish_artifact (declared_outputs effective) (store_bindings effective) published artifact = Ok published' ↔
  publishes effective artifact ∧ published' = {[pa_Name artifact]} ∪ published.
Proof.
  unfold publish_artifact, publishes.
  destruct (declared_outputs effective !! pa_Name artifact) as [o|]; [|naive_solver].
  destruct (url_Parse (oa_Destination o)) as [u|] eqn:Hu; [|naive_solver].
  destruct (eqs (u_Host u) (pa_StoreName artifact)) eqn:H1; cbn; bool_step; [|naive_solver].
  destruct (eqs (trim_slash (u_Path u)) (pa_ObjectKey artifact)) eqn:H2; cbn; bool_step; [|naive_solver].
  case_bool_decide as H3; cbn; naive_solver.
Qed.

Lemma publish_all_ok effective l published published' :
  for_range (publish_artifact (declared_outputs effective) (store_bindings effective)) published l = Ok published' ↔
  Forall (publishes effective) l ∧ published' = list_to_set (pa_Name <$> l) ∪ published.
Proof.
  revert published. induction l as [|a l IH]; intros published; cbn.
  - split; [intros [= <-]; split; [done|set_solver]|]. intros [_ ->]. f_equal. set_solver.
  - rewrite bind_ok. setoid_rewrite publish_artifact_ok. setoid_rewrite IH. rewrite Forall_cons. split.
    + intros (p1 & [Ha ->] & Hl & ->). split; [done|]. set_solver.
    + intros [[Ha Hl] ->]. eexists. split; [by split|]. split; [done|]. set_solver.
Qed.

Definition succeeded (event : ExecutionEvent) : bool :=
  from_option (λ r, eqs (pr_Outcome r) "success") false (evs_Result (ev_Spec event)).

(** [validateArtifactPublication] accepts a completion exactly when every
    published artifact is a declared output at its resolved destination and store
    version, and a successful completion publishes every required output. *)
Theorem validateArtifactPublication_spec effective document event :
  json_Unmarshal document = Ok event →
  validateArtifactPublication effective document = Ok tt ↔
  (∀ artifact, artifact ∈ evs_Artifacts (ev_Spec event) → publishes effective artifact) ∧
  (succeeded event = true → ∀ name output, declared_outputs effective !! name = Some output →
     oa_Required output = true →
     ∃ artifact, artifact ∈ evs_Artifacts (ev_Spec event) ∧ pa_Name artifact = name).
Proof.
  intros Hev. unfold validateArtifactPublication. rewrite Hev. cbn. rewrite bind_ok.
  setoid_rewrite publish_all_ok. setoid_rewrite for_each_ok. rewrite ?Forall_forall.
  setoid_rewrite Forall_forall. setoid_rewrite fail_if_ok. fold (succeeded event). split.
  - intros (published & [Hall ->] & Hreq). split; [done|]. intros Hs name o Hn Ho.
    specialize (Hreq (name, o) ltac:(by apply elem_of_map_to_list)). cbn in Hreq. rewrite Ho, Hs in Hreq. cbn in Hreq.
    rewrite andb_true_r, negb_false_iff, bool_decide_eq_true in Hreq. set_solver.
  - intros [Hall Hreq]. eexists. split; [by split|]. intros [name o] Hin%elem_of_map_to_list. cbn.
    destruct (oa_Required o) eqn:Ho; [|done]. destruct (succeeded event); [|by rewrite andb_false_r].
    destruct (Hreq eq_refl _ _ Hin Ho) as (a & Ha & <-). rewrite bool_decide_true; [done|]. set_solver.
Qed.

(** ** Recording *)

(** What a recorded event establishes. *)
Record event_sound (identity : AgentIdentity) (event : ExecutionObservation) (d d' : db) : Prop := {
  es_origin : ∃ x, d_executions d !! eo_ExecutionID event = Some x ∧
    e_agent_id x = ai_AgentID identity ∧ eo_AgentID event = ai_AgentID identity ∧
    e_namespace_id x = ai_NamespaceID identity ∧
    eo_Sequence event = e_last_event_sequence x + 1 ∧
    validEventTransition (e_phase x) (eo_Type event) = true ∧
    (completionEvent (eo_Type event) = true → ∃ document, json_Unmarshal (eo_Document event) = Ok document ∧
       ∀ artifact, artifact ∈ evs_Artifacts (ev_Spec document) → publishes (e_effective_spec x) artifact);
  es_result : ∃ document x r j x' r' j', json_Unmarshal (eo_Document event) = Ok document ∧
    (d_executions d !! eo_ExecutionID event = Some x ∧ d_runs d !! e_run_id x = Some r ∧ d_jobs d !! r_job_id r = Some j) ∧
    (d_executions d' !! eo_ExecutionID event = Some x' ∧ d_runs d' !! e_run_id x = Some r' ∧ d_jobs d' !! r_job_id r = Some j') ∧
    execution_reports event document x x' ∧ e_observation_confidence x' = event_confidence event ∧
    (r_phase r' = event_phase event (r_phase r) ∧ r_outcome r' = event_outcome event (r_outcome r)) ∧
    (j_phase j' = event_phase event (j_phase j) ∧ j_outcome j' = event_outcome event (j_outcome j));
  es_stored : ∃ ev, d_events d' = <[eo_EventID event := ev]> (d_events d) ∧ d_events d !! eo_EventID event = None ∧
    evt_execution_id ev = eo_ExecutionID event ∧ evt_agent_id ev = eo_AgentID event ∧
    evt_document_digest ev = eo_DocumentDigest event }.

(** The job of every run. *)
Definition run_jobs (d : db) : gmap string string := r_job_id <$> d_runs d.

Lemma keeps_run_jobs_UPDATE k q (f : run_row → run_row) : (∀ r, r_job_id (f r) = r_job_id r) → Keeps run_jobs (UPDATE k q f).
Proof.
  intros Hf e d n d' Hr. apply UPDATE_runs_ok in Hr as [(_ & -> & _)|(_ & old & Hk & _ & _ & ->)]; [done|].
  unfold run_jobs. cbn. rewrite fmap_insert, Hf, insert_id; [done|]. by rewrite lookup_fmap, Hk.
Qed.
Lemma RecordExecutionEvent_keeps_run_jobs i v : Keeps run_jobs (RecordExecutionEvent i v).
Proof. repeat first [apply keeps_run_jobs_UPDATE; reflexivity | keeps_step]. Qed.

Lemma event_sound_of_run identity event e d d' x r tg j aid a document d1 d2 d3 d4 :
  lifecycle_inv d → run_jobs d' = run_jobs d → event_run identity event e d d' x r tg j aid a document d1 d2 d3 d4 →
  event_sound identity event d d'.
Proof.
  intros I Hjobs R. pose proof (event_run_ok I R) as (Rec & _ & _ & _).
  pose proof (event_run_log _ _ _ _ _ _ _ _ _ _ _ _ _ _ _ _ R) as (Hfresh & Hev & _).
  destruct Rec as [[I' _] _]. pose proof (rn_quad _ _ _ _ _ _ _ _ _ _ _ _ _ _ _ _ R) as [Hj Hr Hx _ _ _ _].
  destruct (rn_agent _ _ _ _ _ _ _ _ _ _ _ _ _ _ _ _ R) as [Ha1 Ha2].
  split.
  - exists x. split_and!; try done; try apply R. intros Hcomp. exists document.
    pose proof (rn_document _ _ _ _ _ _ _ _ _ _ _ _ _ _ _ _ R) as Hd. split; [done|].
    pose proof (rn_publication _ _ _ _ _ _ _ _ _ _ _ _ _ _ _ _ R Hcomp) as Hpub.
    apply is_ok_spec in Hpub as [[] Hpub]. unfold validateArtifactPublication in Hpub. rewrite Hd in Hpub. cbn in Hpub.
    apply bind_ok in Hpub as (p & [Hall _]%publish_all_ok & _). by rewrite Forall_forall in Hall.
  - destruct (event_run_rows I R) as (x3 & Rep & Hx3 & Hrows).
    set (x' := x3 <| e_observation_confidence := _; e_confidence_updated_at := _ |>) in *.
    destruct (quad_of_execution _ _ _ _ _ _ I' Hx3) as (jid' & rid' & aid' & j' & r' & a' & [Hj' Hr' _ _ Ej Er _] & Hc').
    change (e_run_id x') with (e_run_id x3) in Er. rewrite (xr_run _ _ _ _ Rep) in Er. subst rid' jid'.
    assert (r_job_id r' = r_job_id r) as Ejob.
    { apply (f_equal (lookup (e_run_id x))) in Hjobs. unfold run_jobs in Hjobs. rewrite !lookup_fmap, Hr, Hr' in Hjobs. by injection Hjobs. }
    rewrite Ejob in Hj'. exists document, x, r, j, x', r', j'. pose proof (rn_document _ _ _ _ _ _ _ _ _ _ _ _ _ _ _ _ R) as Hd.
    assert (execution_reports event document x x') as Rep' by (destruct Rep; by constructor).
    split_and!; try done.
    1,2,3,4: destruct (completionEvent (eo_Type event)) eqn:Hcomp;
      [|destruct (Hrows eq_refl) as [(r3 & Hr3 & ? & ?) (j3 & Hj3 & ? & ?)]; congruence].
    all: pose proof (cp_outcome_execution _ _ _ _ Hc') as Ho'; pose proof (cp_outcome_run _ _ _ _ Hc') as Hor;
      pose proof (xr_phase _ _ _ _ Rep') as Hp; pose proof (xr_outcome _ _ _ _ Rep') as Ho; destruct Hc' as [Hst];
      unfold event_phase, event_outcome in *; rewrite Hcomp in *; rewrite Hp in Hst; first [congruence|by inversion Hst].
  - eexists. split_and!; [exact Hev|done|done| |done]. cbn. congruence.
Qed.

Section system.
Context `{Sealer}.

(** C4: an event is recorded only if it comes from the agent its execution is
    assigned to, is the next in sequence, is a legal transition of a live
    execution and, for a completion, publishes only declared artifacts.  It is then
    stored, the execution carries its sequence and, for a completion, execution
    and job are terminal with the reported outcome. *)
Theorem event_recording_sound identity event e d d' :
  reachable d → RecordExecutionEvent identity event e d = Ok (false, d') → event_sound identity event d d'.
Proof.
  intros Hr Hrun. pose proof (reachable_inv _ Hr) as I.
  pose proof (keeps_after _ _ _ _ _ _ (RecordExecutionEvent_keeps_run_jobs _ _) Hrun) as Hjobs. apply RecordExecutionEvent_run in Hrun; [|done].
  destruct Hrun as (x & r & tg & j & aid & a & doc & d1 & d2 & d3 & d4 & R). by eapply event_sound_of_run.
Qed.

Lemma empty_digest_refused : MatchString digestPattern "" = false.
Proof. vm_compute. reflexivity. Qed.

Lemma stored_digest identity event e d d' x r tg j aid a document d1 d2 d3 d4 :
  event_run identity event e d d' x r tg j aid a document d1 d2 d3 d4 → eo_DocumentDigest event ≠ "".
Proof.
  intros R Hempty. pose proof (rn_insert _ _ _ _ _ _ _ _ _ _ _ _ _ _ _ _ R) as Hins.
  apply INSERT_ok in Hins as (_ & Hc & _). rewrite Forall_forall in Hc.
  assert (MatchString digestPattern (eo_DocumentDigest event) = true) as Hd.
  { apply (Hc ("execution_events_digest_format", MatchString digestPattern (eo_DocumentDigest event))).
    do 5 (apply elem_of_cons; right). apply elem_of_cons. by left. }
  by rewrite Hempty, empty_digest_refused in Hd.
Qed.

(** C5: delivery is at least once, recording exactly once.  When a recorded event
    is delivered again, however much later, it is acknowledged as a replay and
    nothing changes; another document under the same event identifier is refused.
    (The target generation must still exist: the schema never deletes one.) *)
Theorem event_replay_idempotent identity event e d d1 again e2 d2 :
  reachable d → RecordExecutionEvent identity event e d = Ok (false, d1) → rtc step d1 d2 →
  (∀ g, is_Some (d_generations d !! g) → is_Some (d_generations d2 !! g)) →
  eo_EventID again = eo_EventID event → eo_ExecutionID again = eo_ExecutionID event →
  eo_AgentID again = eo_AgentID event →
  RecordExecutionEvent identity again e2 d2 =
    if decide (eo_DocumentDigest again = eo_DocumentDigest event) then Ok (true, d2)
    else Err (Wrapf "record execution event" [] ErrIdempotencyConflict).
Proof.
  intros Hr Hrun Hs Hgen Hid Hexe Hag. pose proof (reachable_inv _ Hr) as I.
  pose proof (keeps_after _ _ _ _ _ _ (RecordExecutionEvent_keeps_run_jobs _ _) Hrun) as Hjobs.
  apply RecordExecutionEvent_run in Hrun; [|done].
  destruct Hrun as (x & r & tg & j & aid & a & doc & e1 & e2' & e3 & e4 & R).
  pose proof (stored_digest _ _ _ _ _ _ _ _ _ _ _ _ _ _ _ _ R) as Hne.
  pose proof (event_run_ok I R) as ([[I1 P1] _] & _ & _ & _).
  pose proof (event_sound_of_run _ _ _ _ _ _ _ _ _ _ _ _ _ _ _ _ I Hjobs R) as [_ _ (ev & Hev & _ & He1 & _ & Hed)].
  pose proof (steps_events _ _ I1 Hs) as Hsub. destruct (steps_evolve _ _ Hs I1) as [I2 P2].
  pose proof (rn_quad _ _ _ _ _ _ _ _ _ _ _ _ _ _ _ _ R) as [_ _ Hx _ _ _ _].
  destruct (pg_executions _ _ (transitivity P1 P2) _ _ Hx) as (x2 & Hx2 & Ax).
  destruct (lc_execution _ _ _ _ I2 _ _ Hx2) as [r2 Hr2].
  destruct (Hgen (e_target_generation_id x)) as [tg2 Htg2]; [by rewrite (rn_generation _ _ _ _ _ _ _ _ _ _ _ _ _ _ _ _ R)|].
  assert (d_events d2 !! eo_EventID event = Some ev) as Hev2.
  { eapply lookup_weaken; [|exact Hsub]. by rewrite Hev, lookup_insert_eq. }
  destruct (rn_agent _ _ _ _ _ _ _ _ _ _ _ _ _ _ _ _ R) as [Ha1 Ha2].
  pose proof (rn_namespace _ _ _ _ _ _ _ _ _ _ _ _ _ _ _ _ R) as Hns.
  assert (event_row_of d2 (eo_ExecutionID again) (ai_NamespaceID identity) (eo_EventID again) =
    Some (x2, r2, tg2, Some ev)) as Hrow.
  { unfold event_row_of. rewrite Hid, Hexe, Hx2. cbn. rewrite (xa_namespace _ _ Ax), Hns, eqs_refl, Hr2. cbn.
    rewrite (xa_generation _ _ Ax), Htg2, Hev2. cbn. by rewrite He1, eqs_refl. }
  unfold RecordExecutionEvent, wrapT, mbind, tx_bind, query, asks, row_or, reject, id. rewrite Hrow.
  unfold mret, tx_ret. cbn. rewrite (xa_agent _ _ Ax), Ha1, Hag, Ha2, !eqs_refl. cbn.
  rewrite Hed, (proj2 (eqs_false _ _) Hne). cbn. unfold eqs.
  destruct (decide (eo_DocumentDigest again = eo_DocumentDigest event)) as [Heq|Hneq].
  - by rewrite bool_decide_true by congruence.
  - by rewrite bool_decide_false by congruence.
Qed.
End system.
