(* ===== verification/Cancellation.v ===== *)
(** * Cancellation and group completion

    A cancelled job stays cancelled; a failed member of a fail-fast collection
    stops the others; and the resolution of a graph's unsatisfiable nodes
    terminates and leaves none behind. *)
From stdpp Require Import pretty.
From S2P Require Import Prelude Regex Names Domain TargetSpec Kahn Graph Contract Records Url Db Tx Constraints Auth Jobs Groups GraphStore Executions Coordinator Lifecycle Progress LifecycleOps LifecycleEvents LifecycleSubmit Frames EventLog System.

(** ** [CancelJob] and [CancelGraph] *)

(** No request has used this idempotency key yet. *)
Definition fresh_key (d : db) (operation key : string) : Prop :=
  ∀ ns principal, d_idempotency d !! (ns, principal, operation, key) = None.

Lemma reserveIdempotency_fresh a op t k q n e d o d' :
  fresh_key d op k → reserveIdempotency a op t k q n e d = Ok (o, d') → o = None.
Proof.
  unfold reserveIdempotency. intros Hf Hrun. tx_inv.
  match goal with H : INSERT_or_nothing _ _ _ _ = _ |- _ => apply INSERT_or_nothing_ok in H as
    [(_ & _ & [row Hk])|(-> & _)] end.
  - cbn in Hk. by rewrite Hf in Hk.
  - match goal with H : (if _ then _ else _) _ _ = _ |- _ => rewrite bool_decide_true in H by done end. by tx_inv.
Qed.

Lemma CancelJob_stops p n jid k q e d job d' :
  lifecycle_inv d → fresh_key d "jobs.cancel" k → CancelJob p n jid k q e d = Ok (job, d') → stopped d' jid.
Proof.
  intros I Hf Hrun. unfold CancelJob in Hrun. guard_inv. cbn in *.
  match goal with H : newID _ _ = _ |- _ => pose proof H as Hid; apply newID_same_lifecycle in H as S0; apply newID_ok in Hid as (ids & _ & ->) end.
  assert (fresh_key (d <| d_ids := ids |>) "jobs.cancel" k) as Hf' by exact Hf.
  match goal with H : authorizeNamespace _ _ _ _ _ = _ |- _ => apply authorizeNamespace_frame in H as -> end.
  match goal with H : reserveIdempotency _ _ _ _ _ _ _ _ = _ |- _ =>
    pose proof (reserveIdempotency_fresh _ _ _ _ _ _ _ _ _ _ Hf' H) as ->; apply reserveIdempotency_same in H as S1 end.
  match goal with H : d_jobs _ !! jid = Some ?j |- _ => rename H into Hj; cbn in Hj end.
  pose proof (evolved_same d d _ (conj I (reflexivity d)) (transitivity S0 S1)) as [I1 _].
  pose proof S1 as (Hjs & _). cbn in Hjs. rewrite <-Hjs in Hj.
  case_match; guard_inv.
  - match goal with H : completeIdempotency _ _ _ _ _ _ _ = _ |- _ => apply completeIdempotency_same in H as (Hjs' & _) end.
    match goal with H : getJobByID _ _ _ _ = _ |- _ => apply getJobByID_frame in H as -> end.
    eexists. rewrite Hjs'. split; [done|]. by match goal with H : _ || _ = true |- _ =>
      apply orb_true_iff in H as [?%eqs_true|?%eqs_true]; [left|right] end.
  - match goal with H : cancel_by_phase _ _ _ _ _ = _ |- _ =>
      eapply cancel_by_phase_ok in H as [[I2 _] Hst]; [|exact Hj|done|exact I1] end.
    match goal with H : completeIdempotency _ _ _ _ _ _ _ = _ |- _ => apply completeIdempotency_same in H as S2 end.
    match goal with H : getJobByID _ _ _ _ = _ |- _ => apply getJobByID_frame in H as -> end.
    destruct (same_lifecycle_evolves _ _ S2 I2) as [I3 P3]. eapply stopped_progress in Hst; [|exact P3].
    match goal with H : whenT _ _ _ _ = _ |- _ => apply whenT_ok in H as [[_ H]|[_ ->]] end; [|done].
    match goal with H : applyGraphCompletion _ _ _ _ = _ |- _ => apply applyGraphCompletion_ok in H as E4 end.
    eapply stopped_progress; [|exact Hst]. by apply E4.
Qed.

Lemma CancelGraph_stops p n gid k q e d g d' :
  lifecycle_inv d → fresh_key d "graphs.cancel" k → CancelGraph p n gid k q e d = Ok (g, d') →
  ∀ jid j, d_jobs d !! jid = Some j → j_graph_id j = Some gid → stopped d' jid.
Proof.
  unfold CancelGraph. intros I Hf Hrun jid j Hj Hg. tx_inv.
  match goal with H : authorizeNamespace _ _ _ _ _ = _ |- _ => apply authorizeNamespace_frame in H as -> end.
  match goal with H : reserveIdempotency _ _ _ _ _ _ _ _ = _ |- _ =>
    pose proof (reserveIdempotency_fresh _ _ _ _ _ _ _ _ _ _ Hf H) as ->; apply reserveIdempotency_same in H as S1 end.
  pose proof (evolved_same d d _ (conj I (reflexivity d)) S1) as [I1 _]. destruct S1 as (Hjs & _). rewrite <-Hjs in Hj.
  tx_inv. match goal with H : getGraphByID _ _ _ _ = _ |- _ => apply getGraphByID_frame in H as -> end.
  match goal with H : for_eachT _ (open_nodes ?d0 _) _ _ = _ |- _ =>
    pose proof (open_nodes_ready d0 gid I1) as (? & ? & Hin);
    eapply (cancel_siblings_ok _ (na_namespaceID x)) in H as [[I2 P2] Hall]; [| |done|done|done] end.
  2: { intros. tx_inv. done. }
  match goal with H : completeIdempotency _ _ _ _ _ _ _ = _ |- _ => apply completeIdempotency_same in H as Sc end.
  repeat outside_step.
  match type of I2 with lifecycle_inv ?b =>
    match goal with |- stopped ?a _ => assert (evolves b a) as E by chain_evolves end end.
  assert (j_phase j = "terminal" ∨ j_phase j ≠ "terminal") as [Ht|Ht] by (destruct (decide (j_phase j = "terminal")); auto).
  - eapply stopped_progress; [apply E; exact I2|]. eapply stopped_progress; [exact P2|]. exists j. auto.
  - eapply stopped_progress; [apply E; exact I2|]. rewrite Forall_forall in Hall. by apply Hall, (Hin _ j).
Qed.

(** ** Fail-fast collections *)

Lemma applyCollectionCompletion_stops ns jid outcome cid c j e d u d' :
  lifecycle_inv d → d_jobs d !! jid = Some j → j_phase j = "terminal" → j_namespace_id j = ns →
  j_collection_id j = Some cid → d_collections d !! cid = Some c →
  co_failure_policy c = "fail-fast" → outcome ≠ "success" →
  applyCollectionCompletion ns jid outcome e d = Ok (u, d') →
  ∀ k jk, d_jobs d !! k = Some jk → j_collection_id jk = Some cid → stopped d' k.
Proof.
  intros I Hj Ht Hns Hcid Hc Hff Hout Hrun k jk Hk Hkc. unfold applyCollectionCompletion in Hrun. tx_inv.
  match goal with H : match d_jobs _ !! _ with _ => _ end _ _ = _ |- _ => rename H into Hrun end.
  rewrite Hj, eqs_refl, Hcid, Hc, Hff, (proj2 (eqs_false _ _) Hout) in Hrun. cbn in Hrun. tx_inv.
  destruct (open_siblings_ready d cid jid I) as (Hnd & Hready & Hin).
  match goal with H : whenT _ _ _ _ = _ |- _ => cbn in H;
    eapply (cancel_siblings_ok (cancelCollectionSibling (j_namespace_id j))) in H as [[I2 P2] Hall]; [|done|done|done|done] end.
  match goal with H : UPDATE _ _ _ _ _ = _ |- _ => apply UPDATE_outside in H as S end.
  destruct (same_lifecycle_evolves _ _ S I2) as [_ P3]. eapply stopped_progress; [exact P3|].
  destruct (decide (j_phase jk = "terminal")) as [Htk|Htk].
  { eapply stopped_progress; [exact P2|]. exists jk. auto. }
  rewrite Forall_forall in Hall. apply Hall, (Hin k jk); try done. intros ->. congruence.
Qed.

(** ** Resolution of unsatisfiable nodes *)

Lemma terminalize_node_errors ns g policy jid e d err :
  terminalize_node ns g policy jid e d = Err err → err ≠ loop_bound_error.
Proof.
  unfold terminalize_node, mbind, tx_bind, asks, wrapT. destruct (disposition_of policy) as [[dn o] ds].
  unfold loop_bound_error. repeat case_match; intros Herr; simplify_eq; done.
Qed.

(** Every iteration lowers the number of waiting jobs. *)
Lemma terminalize_node_waiting ns g policy jid e d u d' j :
  d_jobs d !! jid = Some j → j_phase j = "accepted" →
  terminalize_node ns g policy jid e d = Ok (u, d') → (waiting_count d' < waiting_count d)%nat.
Proof.
  intros Hj Hp Hrun. eapply terminalize_node_frame in Hrun as (s & c & o & ids & l & _ & ->); [|done].
  unfold waiting_count. cbn. rewrite (count_insert _ _ _ _ _ Hj), phase_with_lifecycle, Hp, eqs_refl.
  assert (j_phase (unsatisfied_row (transaction_timestamp e) policy j) = "terminal") as ->.
  { unfold unsatisfied_row. by destruct (disposition_of policy) as [[? ?] ?]. }
  pose proof (count_pos (λ j, eqs (j_phase j) "accepted") _ _ _ Hj) as Hpos. cbn in Hpos.
  rewrite Hp, eqs_refl in Hpos. specialize (Hpos eq_refl). cbn. rewrite (proj2 (eqs_false _ _)) by done. lia.
Qed.

(** The loop within its bound: it never runs out, and stops only when no
    candidate is left. *)
Lemma resolve_nodes_bounded fuel ns gid policy e d :
  (waiting_count d < fuel)%nat →
  match resolve_nodes fuel ns gid policy e d with
  | Ok (_, d') => next_unsatisfiable e d' gid = None
  | Err err => err ≠ loop_bound_error
  end.
Proof.
  revert d. induction fuel as [|fuel IH]; intros d Hlt; [lia|]. cbn. unfold mbind, tx_bind, asks, query, id.
  destruct (next_unsatisfiable e d gid) as [jid|] eqn:Hn; [|done].
  apply next_unsatisfiable_some in Hn as (j & Hj & Hu & _). apply unsatisfiable_waiting in Hu as [Hp _].
  destruct (terminalize_node ns gid policy jid e d) as [[[] d1]|err] eqn:Ht.
  - apply IH. eapply terminalize_node_waiting in Ht; [|exact Hj|exact Hp]. lia.
  - by eapply terminalize_node_errors.
Qed.

(** What the loop does to each job. *)
Definition resolved (now : timestamptz) (gid policy : string) (j j' : job_row) : Prop :=
  j' = j ∨ (j_phase j = "accepted" ∧ j_graph_id j = Some gid ∧
            ∃ s c, j' = with_lifecycle (unsatisfied_row now policy j) s c).

Lemma resolve_nodes_rows fuel ns gid policy e d u d' :
  resolve_nodes fuel ns gid policy e d = Ok (u, d') →
  ∀ k j, d_jobs d !! k = Some j → ∃ j', d_jobs d' !! k = Some j' ∧ resolved (transaction_timestamp e) gid policy j j'.
Proof.
  revert d u. induction fuel as [|fuel IH]; intros d u Hrun k j Hk; cbn in Hrun; [done|]. tx_inv.
  destruct (next_unsatisfiable _ _ _) as [jid|] eqn:Hn; tx_inv; [|exists j; split; [done|by left]].
  apply next_unsatisfiable_some in Hn as (j0 & Hj & Hu & _). apply unsatisfiable_waiting in Hu as [Hp Hg].
  eapply terminalize_node_frame in H as (s & c & o & ids & l & _ & Heq); [|exact Hj]. cbv zeta in Heq. subst x0.
  match goal with H : resolve_nodes _ _ _ _ _ _ = _ |- _ => rename H into Hrest end.
  destruct (decide (k = jid)) as [->|Hne].
  - destruct (IH _ _ Hrest jid _ (lookup_insert_eq _ _ _)) as (j' & Hj' & [->|(Hp' & _)]).
    + exists (with_lifecycle (unsatisfied_row (transaction_timestamp e) policy j0) s c). split; [done|]. right.
      assert (j0 = j) as -> by congruence. eauto.
    + exfalso. rewrite phase_with_lifecycle in Hp'. unfold unsatisfied_row in Hp'.
      by destruct (disposition_of policy) as [[? ?] ?].
  - destruct (IH _ _ Hrest k j) as (j' & Hj' & Hres); [cbn; by rewrite lookup_insert_ne|]. eauto.
Qed.

(** ** Claims *)

Section system.
Context `{Sealer}.

(** Cancellation is final.  A first successful [CancelJob] leaves the job
    terminal or with cancellation desired, and it remains so whatever happens
    later: no event, dispatch or other request ever wants it to run again. *)
Theorem cancel_job_final p n jid k q e d job d1 d2 :
  reachable d → fresh_key d "jobs.cancel" k → CancelJob p n jid k q e d = Ok (job, d1) → rtc step d1 d2 →
  stopped d2 jid.
Proof.
  intros Hr Hf Hrun Hs. pose proof (reachable_inv _ Hr) as I. apply CancelJob_stops in Hrun as Hst; [|done|done].
  apply CancelJob_evolves in Hrun. destruct (steps_evolve _ _ Hs (proj1 (Hrun I))) as [_ P].
  by eapply stopped_progress.
Qed.

(** C28: cancelling a graph reaches every node.  After a first successful
    [CancelGraph] every job of the graph is terminal or has cancellation desired,
    for ever. *)
Theorem cancel_graph_final p n gid k q e d g d1 d2 :
  reachable d → fresh_key d "graphs.cancel" k → CancelGraph p n gid k q e d = Ok (g, d1) → rtc step d1 d2 →
  ∀ jid j, d_jobs d !! jid = Some j → j_graph_id j = Some gid → stopped d2 jid.
Proof.
  intros Hr Hf Hrun Hs jid j Hj Hg. pose proof (reachable_inv _ Hr) as I.
  pose proof (CancelGraph_stops _ _ _ _ _ _ _ _ _ I Hf Hrun _ _ Hj Hg) as Hst.
  apply CancelGraph_ok in Hrun as [I1 _]; [|done]. destruct (steps_evolve _ _ Hs I1) as [_ P].
  by eapply stopped_progress.
Qed.

(** C29: fail-fast.  When a member of a fail-fast collection completes without
    success, the same transaction leaves every member of that collection terminal
    or with cancellation desired. *)
Theorem fail_fast_stops_siblings identity event e d d' x r j cid c :
  reachable d → RecordExecutionEvent identity event e d = Ok (false, d') →
  completionEvent (eo_Type event) = true → eo_Outcome event ≠ "success" →
  d_executions d !! eo_ExecutionID event = Some x → d_runs d !! e_run_id x = Some r →
  d_jobs d !! r_job_id r = Some j → j_collection_id j = Some cid →
  d_collections d !! cid = Some c → co_failure_policy c = "fail-fast" →
  ∀ k jk, d_jobs d !! k = Some jk → j_collection_id jk = Some cid → stopped d' k.
Proof.
  intros Hr Hrun Hcomp Hout Hx Hrr Hj Hcid Hc Hff k jk Hk Hkc. pose proof (reachable_inv _ Hr) as I.
  apply RecordExecutionEvent_run in Hrun; [|done].
  destruct Hrun as (x0 & r0 & tg & j0 & aid & a & doc & d1 & d2 & d3 & d4 & R).
  pose proof (rn_quad _ _ _ _ _ _ _ _ _ _ _ _ _ _ _ _ R) as [Hj0 Hr0 Hx0 _ _ _ _].
  assert (x0 = x) as -> by congruence. assert (r0 = r) as -> by congruence. assert (j0 = j) as -> by congruence.
  pose proof (event_run_ok I R) as (_ & [I3 P3] & _ & Hjs).
  destruct (event_run_applied I R) as ([_ _ _ (j3 & Hj3 & Hj3t & _)] & _ & _).
  unfold event_phase in Hj3t. rewrite Hcomp in Hj3t.
  destruct (pg_jobs _ _ P3 _ _ Hj) as (j3' & Hj3' & Aj). assert (j3' = j3) as -> by congruence.
  destruct (pg_jobs _ _ P3 _ _ Hk) as (jk3 & Hk3 & Ak).
  pose proof (rn_insert _ _ _ _ _ _ _ _ _ _ _ _ _ _ _ _ R) as Hins.
  pose proof (rn_artifacts _ _ _ _ _ _ _ _ _ _ _ _ _ _ _ _ R) as Hart.
  pose proof (rn_apply _ _ _ _ _ _ _ _ _ _ _ _ _ _ _ _ R) as Happ.
  kept d_collections by (keeps_tac) on Hins as C1. kept d_collections by (keeps_tac) on Hart as C2.
  kept d_collections by (keeps_tac) on Happ as C3.
  pose proof (rn_group _ _ _ _ _ _ _ _ _ _ _ _ _ _ _ _ R) as Hg. rewrite Hcomp in Hg. cbn in Hg. tx_inv.
  match goal with H : applyCollectionCompletion _ _ _ _ _ = _ |- _ => rename H into Hac end.
  match goal with H : applyGraphCompletion _ _ _ _ = _ |- _ => rename H into Hgc end.
  pose proof (applyCollectionCompletion_ok _ _ _ _ _ _ _ Hac I3) as [I4 _].
  assert (stopped d4 k) as (j4 & Hj4 & Hs4); [|exists j4; by rewrite Hjs].
  eapply stopped_progress; [by apply (applyGraphCompletion_ok _ _ _ _ _ _ Hgc)|].
  eapply applyCollectionCompletion_stops; [exact I3|exact Hj3|exact Hj3t| | | |exact Hff|exact Hout|exact Hac|exact Hk3|].
  - rewrite (ja_namespace _ _ Aj). pose proof (rn_coupled _ _ _ _ _ _ _ _ _ _ _ _ _ _ _ _ R) as Hcp.
    destruct (cp_namespace _ _ _ _ Hcp) as (_ & <- & _). by apply R.
  - destruct (ja_group _ _ Aj) as [-> _]. exact Hcid.
  - by rewrite C3, C2, C1.
  - destruct (ja_group _ _ Ak) as [-> _]. exact Hkc.
Qed.
End system.

