(* ===== verification/Dispatch.v ===== *)
(** * Dispatch

    What the coordinator may offer: the limits and dependencies that hold when it
    does, the agent it offers to, the order in which namespaces are served, and
    what a bounded reconciliation pass adds. *)
From stdpp Require Import pretty.
From S2P Require Import Prelude Regex Names Domain TargetSpec Kahn Graph Contract Records Url Db Tx Ordered Constraints Auth Jobs Groups GraphStore Executions Coordinator Lifecycle Progress LifecycleOps LifecycleEvents LifecycleSubmit Frames EventLog System.

(** ** Active jobs *)

(** A predicate that dispatch does not change. *)
Definition stable (p : job_row → bool) : Prop :=
  ∀ now s c j, p (with_lifecycle (assigning_row now j) s c) = p j.

Lemma stable_namespace ns : stable (λ o, eqs (j_namespace_id o) ns).
Proof. by intros now s c []. Qed.
Lemma stable_collection cid : stable (in_collection cid).
Proof. by intros now s c []. Qed.
Lemma stable_graph gid : stable (in_graph gid).
Proof. by intros now s c []. Qed.

Lemma assigning_active now s c j : is_active (with_lifecycle (assigning_row now j) s c) = true.
Proof. by destruct j. Qed.

Section dispatch.
Context `{Sealer}.

(** A dispatch makes one more job active in every group the job belongs to. *)
Lemma active_after_dispatch rid eid aid e d d' c j policy x a p :
  offer_made rid eid aid e d d' c j policy x a → stable p → p j = true →
  active_in d' p = active_in d p + 1.
Proof.
  intros [Hj _ _ Hdis _ _ (s & cc & Hjs & _) _ _] Hst Hp. apply dispatchable_waiting in Hdis as (_ & Hph & _).
  unfold active_in. rewrite Hjs, (count_insert _ _ _ _ _ Hj), (Hst _ _ _ j), assigning_active, Hp.
  unfold is_active. rewrite Hph. replace (slices_Contains ["accepted"; "terminal"] "accepted") with true by done. cbn. lia.
Qed.

(** ** Soundness of a dispatch *)

(** The incoming edges of a node allow it to run. *)
Definition ready (d : db) (jobID : string) : Prop :=
  ∀ k edge upstream, d_graph_edges d !! k = Some edge → k.2 = jobID → d_jobs d !! k.1.2 = Some upstream →
    j_phase upstream = "terminal" ∧ ∀ outcome, j_outcome upstream = Some outcome → predicate_holds edge outcome = true.

Lemma dependencies_met_ready d jobID : dependencies_met d jobID = true → ready d jobID.
Proof.
  unfold dependencies_met. rewrite forallb_forall. intros Hall k edge up Hk Hkj Hup.
  assert ((k, edge, up) ∈ incoming d jobID) as Hin.
  { unfold incoming. apply list_elem_of_bind. exists (k, edge). split.
    - cbn. rewrite Hup. by left.
    - apply elem_of_select. split; [done|]. by rewrite Hkj, eqs_refl. }
  apply list_elem_of_In, Hall in Hin. cbn in Hin. apply andb_true_iff in Hin as [Ht%eqs_true Hr].
  split; [done|]. intros o Ho. unfold edge_refuted in Hr. rewrite Ho in Hr. cbn in Hr.
  by destruct (predicate_holds edge o).
Qed.

(** What makes an agent fit to run a job: whose it is and where, that it is active, accepts work, was observed
    within ten minutes and has a live session, that it provides what the workload requires, and that the
    tasks of one Slurm array stay together. *)
Record suits (e : env) (d : db) (j : job_row) (tg : generation_row) (w : Workload) (collection : option collection_row)
    (agentID : string) (a : agent_row) : Prop := {
  su_bound : ag_namespace_id a = j_namespace_id j ∧ ag_principal_id a = j_owner_principal_id j ∧
    Some (ag_target_id a) = j_target_id j ∧ Some (ag_target_generation_id a) = j_target_generation_id j;
  su_active : ag_status a = "active" ∧ ag_accepting_assignments a = true;
  su_observed : ∃ t, ag_last_capability_at a = Some t ∧ transaction_timestamp e - seconds 600 < t;
  su_backend : gen_execution_backend tg ∈ ag_execution_backends a;
  su_runtime : rt_Kind (ws_Runtime (w_Spec w)) ∈ ag_runtimes a;
  su_system : requirement req_OperatingSystems w = [] ∨ ag_operating_system a ∈ requirement req_OperatingSystems w;
  su_architecture : requirement req_Architectures w = [] ∨ ag_architecture a ∈ requirement req_Architectures w;
  su_capabilities : ∀ c, c ∈ requirement req_Capabilities w → c ∈ ag_capabilities a;
  su_session : ∃ sid s, d_sessions d !! sid = Some s ∧ se_agent_id s = agentID ∧ se_revoked_at s = None ∧
    transaction_timestamp e < se_expires_at s;
  su_array : ∀ c first, collection = Some c → co_array_mode c = "slurm-array" →
    j_collection_id j ≫= array_agent d = Some first → agentID = first }.

Lemma live_session_spec e d agentID : live_session e d agentID = true ↔
  ∃ sid s, d_sessions d !! sid = Some s ∧ se_agent_id s = agentID ∧ se_revoked_at s = None ∧ transaction_timestamp e < se_expires_at s.
Proof.
  unfold live_session. rewrite existsb_exists. split.
  - intros ([sid s] & Hin%list_elem_of_In%elem_of_map_to_list & Hs). rewrite !andb_true_iff, negb_true_iff, eqs_true, bool_decide_eq_true in Hs.
    destruct Hs as [[Ha Hr] He]. exists sid, s. split_and!; try done. cbn in Hr. by destruct (se_revoked_at s).
  - intros (sid & s & Hs & Ha & Hr & He). exists (sid, s). split; [by apply list_elem_of_In, elem_of_map_to_list|]. cbn.
    by rewrite (proj2 (eqs_true _ _) Ha), Hr, bool_decide_true.
Qed.

Lemma agent_eligible_spec e d j tg w collection agentID a :
  agent_eligible e d j tg w collection agentID a = true ↔ suits e d j tg w collection agentID a.
Proof.
  unfold agent_eligible, unconstrained_or_in. rewrite !andb_true_iff, !orb_true_iff, !eqs_true, !bool_decide_eq_true, !slices_Contains_spec,
    forallb_forall, live_session_spec. split.
  - intros (((((((((((((Hn & Ht) & Hg) & Hp) & Hs) & Hacc) & Hcap) & Hb) & Hr) & Ho) & Har) & Hc) & Hl) & Hcol).
    constructor; try done.
    + destruct (ag_last_capability_at a) as [t|]; [|done]. exists t. by apply bool_decide_eq_true in Hcap.
    + intros c Hin. apply list_elem_of_In in Hin. by apply Hc, slices_Contains_spec in Hin.
    + intros c first -> Hm Hf. rewrite Hm, Hf in Hcol. by apply eqs_true in Hcol.
  - intros [(Hn & Hp & Ht & Hg) [Hs Hacc] (t & Ht' & Hlt) Hb Hr Ho Har Hc Hl Harr]. rewrite Ht', bool_decide_true by done.
    split_and!; try done.
    + intros c Hin. apply slices_Contains_spec, Hc. by apply list_elem_of_In.
    + destruct collection as [c|]; [|done]. destruct (eqs (co_array_mode c) "slurm-array") eqn:Hm; [|done]. apply eqs_true in Hm.
      destruct (j_collection_id j ≫= array_agent d) as [first|] eqn:Hf; cbn; [|apply eqs_refl]. apply eqs_true. by eapply Harr.
Qed.

(** What holds when a job is offered, and after. *)
Record dispatch_sound (e : env) (d d' : db) (jobID : string) (j : job_row) (agentID : string) : Prop := {
  ds_hold : d_reconciliation_hold d = false;
  ds_waiting : j_phase j = "accepted" ∧ j_desired_state j = "run";
  ds_agent : ∃ agent tg t w, d_agents d !! agentID = Some agent ∧
    j_target_id j ≫= (λ t, d_targets d !! t) = Some t ∧ tg_state t = "active" ∧
    j_target_generation_id j ≫= (λ g, d_generations d !! g) = Some tg ∧
    d_workload_revisions d !! (j_namespace_id j, j_workload_digest j) = Some w ∧
    let collection := j_collection_id j ≫= (λ c, d_collections d !! c) in
    suits e d j tg (wr_document w) collection agentID agent ∧
    ∀ other a, d_agents d !! other = Some a → suits e d j tg (wr_document w) collection other a →
      ag_created_at agent < ag_created_at a ∨ (ag_created_at agent = ag_created_at a ∧ String.le agentID other);
  ds_namespace_limit : ∃ policy, d_policies d !! j_namespace_id j = Some policy ∧
    active_in d' (λ o, eqs (j_namespace_id o) (j_namespace_id j)) ≤ po_max_active_jobs policy;
  ds_collection_limit : ∀ cid, j_collection_id j = Some cid → ∃ c, d_collections d !! cid = Some c ∧
    (co_array_mode c = "slurm-array" ∨ active_in d' (in_collection cid) ≤ co_max_active c);
  ds_graph_limit : ∀ gid, j_graph_id j = Some gid → ready d jobID ∧ ∃ g, d_graphs d !! gid = Some g ∧
    active_in d' (in_graph gid) ≤ gr_max_active g }.

Lemma unlocked_Some {R} e (m : gmap string R) k r : unlocked e m (Some k) = Some r → m !! k = Some r.
Proof. unfold unlocked. cbn. by destruct (row_locked e k). Qed.

Lemma candidate_agent e d jid j policy c :
  candidate_of e d jid j = Some (policy, c) →
  ∃ agent tg t w, d_agents d !! ca_agentID c = Some agent ∧
    j_target_id j ≫= (λ t, d_targets d !! t) = Some t ∧ tg_state t = "active" ∧
    j_target_generation_id j ≫= (λ g, d_generations d !! g) = Some tg ∧
    d_workload_revisions d !! (j_namespace_id j, j_workload_digest j) = Some w ∧
    let collection := unlocked e (d_collections d) (j_collection_id j) in
    suits e d j tg (wr_document w) collection (ca_agentID c) agent ∧
    ∀ other a, d_agents d !! other = Some a → suits e d j tg (wr_document w) collection other a →
      ag_created_at agent < ag_created_at a ∨ (ag_created_at agent = ag_created_at a ∧ String.le (ca_agentID c) other).
Proof.
  unfold candidate_of. intros Hcand.
  apply bind_Some in Hcand as (n & _ & Hcand). apply bind_Some in Hcand as (pol & _ & Hcand).
  apply bind_Some in Hcand as (t & Ht & Hcand). apply bind_Some in Hcand as (tr & Htr & Hcand). case_match eqn:Hst; [done|].
  apply negb_false_iff, eqs_true in Hst.
  apply bind_Some in Hcand as (g & Hg & Hcand). apply bind_Some in Hcand as (tg & Htg & Hcand).
  apply bind_Some in Hcand as (w & Hw & Hcand). apply bind_Some in Hcand as (aid & Ha & Hcand). simplify_eq. cbn.
  unfold chosen_agent in Ha. apply fmap_Some in Ha as ([k agent] & Hh & ->). rewrite Hg, Ht. cbn.
  pose proof (head_order_by (λ kr : string * agent_row, ag_created_at kr.2) fst _ _ Hh) as Hmin.
  apply head_Some_elem_of, elem_of_order_by, elem_of_select in Hh as [Hk He]. exists agent, tg, tr, w.
  split_and!; try done; [by apply agent_eligible_spec|]. intros other a Ho Hs.
  apply (Hmin (other, a)). apply elem_of_select. split; [done|]. by apply agent_eligible_spec.
Qed.

Lemma offer_sound rid eid aid e d d' c j policy x a :
  offer_made rid eid aid e d d' c j policy x a → dispatch_sound e d d' (ca_jobID c) j (ca_agentID c).
Proof.
  intros Ho. pose proof Ho as [Hj Hpol Hcand Hdis _ _ _ _ _].
  destruct (dispatchable_waiting _ _ _ _ _ Hdis) as (Hh & Hp & Hd).
  unfold dispatchable in Hdis. rewrite !andb_true_iff in Hdis. destruct Hdis as (((_ & Hns) & Hcol) & Hgr).
  apply bool_decide_eq_true in Hns. split; try done.
  - destruct (candidate_agent _ _ _ _ _ _ Hcand) as (agent & tg & t & w & Hag & Htg & Hst & Hgen & Hw & Hsuits & Hfirst).
    assert (unlocked e (d_collections d) (j_collection_id j) = j_collection_id j ≫= (λ c, d_collections d !! c)) as Ecol.
    { destruct (j_collection_id j) as [cid|]; [|done]. destruct (unlocked e (d_collections d) (Some cid)) as [row|] eqn:Hu; [|done].
      symmetry. by apply unlocked_Some in Hu. }
    rewrite Ecol in Hsuits, Hfirst. by exists agent, tg, t, w.
  - exists policy. split; [done|].
    rewrite (active_after_dispatch _ _ _ _ _ _ _ _ _ _ _ _ Ho (stable_namespace _)); [lia|apply eqs_refl].
  - intros cid Hc. rewrite Hc in Hcol. destruct (unlocked e (d_collections d) (Some cid)) as [row|] eqn:Hu; [|done].
    apply unlocked_Some in Hu. exists row. split; [done|].
    apply orb_true_iff in Hcol as [?%eqs_true|Hlt%bool_decide_eq_true]; [by left|right].
    rewrite (active_after_dispatch _ _ _ _ _ _ _ _ _ _ _ _ Ho (stable_collection _)); [lia|].
    unfold in_collection. by rewrite bool_decide_true.
  - intros gid Hg. rewrite Hg in Hgr. destruct (unlocked e (d_graphs d) (Some gid)) as [row|] eqn:Hu; [|done].
    apply unlocked_Some in Hu. apply andb_true_iff in Hgr as [Hlt%bool_decide_eq_true Hdep].
    split; [by apply dependencies_met_ready|]. exists row. split; [done|].
    rewrite (active_after_dispatch _ _ _ _ _ _ _ _ _ _ _ _ Ho (stable_graph _)); [lia|].
    unfold in_graph. by rewrite bool_decide_true.
Qed.

(** C24: a dispatch is safe.  The coordinator offers a job only outside a recovery
    hold, while it waits and is wanted, to the oldest agent that suits it ([suits]: of its owner, on its own
    active target and generation, active, accepting, lately observed, with a live session and with all that
    the workload requires), when every dependency is over with an outcome its
    edge accepts; and with the new job counted, the active jobs of the namespace,
    the collection (unless one Slurm array) and the graph are within their limits. *)
Theorem dispatch_within_limits rid eid aid oid e d d' :
  reconcileOneAssignment rid eid aid oid e d = Ok (true, d') →
  ∃ jid j agentID a, d_jobs d !! jid = Some j ∧ dispatch_sound e d d' jid j agentID ∧
    d_assignments d' !! aid = Some a ∧ a_agent_id a = agentID ∧ a_state a = "offered" ∧
    ∃ r x, d_executions d' !! a_execution_id a = Some x ∧ d_runs d' !! e_run_id x = Some r ∧ r_job_id r = jid.
Proof.
  intros Hrun. apply reconcileOneAssignment_run in Hrun as (c & j & policy & x & a & Ho).
  exists (ca_jobID c), j, (ca_agentID c), a. pose proof (offer_sound _ _ _ _ _ _ _ _ _ _ _ Ho) as Hs.
  destruct Ho as [Hj _ _ _ _ _ (s & cc & _ & Hrs & Hxs & Has) (_ & Hxr & _) (_ & Hae & Hag & Hao)].
  split_and!; try done; [by rewrite Has, lookup_insert_eq|].
  exists (offered_run (transaction_timestamp e) c), x. by rewrite Hxs, Hrs, Hae, Hxr, !lookup_insert_eq.
Qed.

(** What the two seals of an offer keep of the document that was built. *)
Lemma built_document `{!SealerLaws} c rid eid aid document dig :
  buildAssignmentDocument c rid eid aid = Ok (document, dig) →
  let doc := saa_Document document in
  let effective := aas_EffectiveExecution (aa_Spec doc) in
  aa_Metadata doc = {| aam_DeliveryID := aid; aam_AgentID := ca_agentID c |} ∧
  aas_EffectiveExecutionDigest (aa_Spec doc) = dig ∧
  eem_ExecutionID (ee_Metadata effective) = eid ∧ eem_RunID (ee_Metadata effective) = rid ∧
  eem_JobID (ee_Metadata effective) = ca_jobID c ∧ eem_Namespace (ee_Metadata effective) = ca_namespace c ∧
  epl_TargetID (ees_Placement (ee_Spec effective)) = ca_targetID c ∧
  epl_TargetGenerationID (ees_Placement (ee_Spec effective)) = ca_targetGenerationID c.
Proof.
  unfold buildAssignmentDocument. intros (s & Hs%wrap_ok & (t & Ht%wrap_ok & [= -> <-])%bind_ok)%bind_ok.
  apply seal_effective_metadata in Hs as (Hm & Hp & Hne).
  apply seal_assignment_metadata in Ht as (Ht & Hd & Hkeep & Hem & Hpl). cbn in *.
  rewrite Ht, Hd, Hem, Hpl, Hm, Hp. cbn. by rewrite Hkeep.
Qed.

(** C25: the document of an offer is bound to its rows.  The assignment that a
    dispatch stores carries the delivery and the agent it is stored for, its
    effective execution is the one of the execution row, with that row's digest,
    and that execution names the rows of the execution, its run and its job, and
    the target and target generation the execution was planned on. *)
Theorem offered_document_bound `{!SealerLaws} rid eid aid oid e d d' :
  reconcileOneAssignment rid eid aid oid e d = Ok (true, d') →
  ∃ a x r, d_assignments d' !! aid = Some a ∧ d_executions d' !! eid = Some x ∧ d_runs d' !! rid = Some r ∧
    a_execution_id a = eid ∧ e_run_id x = rid ∧
    aa_Metadata (a_document a) = {| aam_DeliveryID := aid; aam_AgentID := a_agent_id a |} ∧
    aas_EffectiveExecution (aa_Spec (a_document a)) = e_effective_spec x ∧
    aas_EffectiveExecutionDigest (aa_Spec (a_document a)) = e_effective_spec_digest x ∧
    eem_ExecutionID (ee_Metadata (e_effective_spec x)) = eid ∧ eem_RunID (ee_Metadata (e_effective_spec x)) = rid ∧
    eem_JobID (ee_Metadata (e_effective_spec x)) = r_job_id r ∧
    epl_TargetID (ees_Placement (ee_Spec (e_effective_spec x))) = e_target_id x ∧
    epl_TargetGenerationID (ees_Placement (ee_Spec (e_effective_spec x))) = e_target_generation_id x.
Proof.
  intros Hrun. apply reconcileOneAssignment_run in Hrun as (c & j & policy & x & a & Ho).
  destruct Ho as [_ _ _ _ _ (document & Hb & Hdoc & Hspec & Htgt) (s & cc & _ & Hrs & Hxs & Has)
    (_ & Hxr & _ & _ & _ & _ & Hgen) (_ & Hae & Hag & _)].
  apply built_document in Hb as (Hm & Hd & Hx & Hr & Hj & _ & Ht & Hg).
  exists a, x, (offered_run (transaction_timestamp e) c). rewrite Has, Hxs, Hrs, !lookup_insert_eq.
  rewrite Hspec, Hdoc, Hag, Htgt, Hgen. by split_and!.
Qed.

(** ** Fairness *)

(** The sort keys of a dispatchable job: its namespace's last dispatch, never
    served first, and then its age. *)
Definition dispatch_keys (policy : policy_row) (j : job_row) : Z * Z * Z :=
  (nulls_first (po_last_dispatched_at policy), j_created_at j).

Lemma elem_of_dispatch_candidates e d keys c :
  (keys, c) ∈ dispatch_candidates e d ↔
  ∃ jid j policy, d_jobs d !! jid = Some j ∧ candidate_of e d jid j = Some (policy, c) ∧
    dispatchable e d jid j policy = true ∧ row_locked e jid = false ∧
    row_locked e (j_namespace_id j) = false ∧ keys = dispatch_keys policy j.
Proof.
  unfold dispatch_candidates. rewrite list_elem_of_bind. split.
  - intros ([jid j] & Hin & Hj%elem_of_map_to_list). cbn in *.
    destruct (candidate_of e d jid j) as [[policy c']|] eqn:Hc; [|by apply not_elem_of_nil in Hin].
    destruct (dispatchable e d jid j policy) eqn:Hd, (row_locked e jid) eqn:Hl1,
      (row_locked e (j_namespace_id j)) eqn:Hl2; cbn in Hin; try (by apply not_elem_of_nil in Hin).
    apply list_elem_of_singleton in Hin. simplify_eq. eauto 10.
  - intros (jid & j & policy & Hj & Hc & Hd & Hl1 & Hl2 & ->). exists (jid, j). cbn.
    rewrite Hc, Hd, Hl1, Hl2. cbn. split; [by left|by apply elem_of_map_to_list].
Qed.

(** C30: dispatch is fair.  Among all unlocked dispatchable jobs the coordinator
    claims one whose namespace has waited longest since its last dispatch, a
    namespace that was never served coming first, and within that the oldest; it
    claims none only if there is none. *)
Theorem claim_is_fair e d claimed d1 :
  claimAssignmentCandidate e d = Ok (claimed, d1) →
  match claimed with
  | None => ∀ jid j policy c, d_jobs d !! jid = Some j → candidate_of e d jid j = Some (policy, c) →
      dispatchable e d jid j policy = true → row_locked e jid = true ∨ row_locked e (j_namespace_id j) = true
  | Some c => ∃ j policy, d_jobs d !! ca_jobID c = Some j ∧ candidate_of e d (ca_jobID c) j = Some (policy, c) ∧
      dispatchable e d (ca_jobID c) j policy = true ∧
      ∀ jid j' policy' c', d_jobs d !! jid = Some j' → candidate_of e d jid j' = Some (policy', c') →
        dispatchable e d jid j' policy' = true → row_locked e jid = false → row_locked e (j_namespace_id j') = false →
        dispatch_keys policy j = dispatch_keys policy' j' ∨ triple_lt (dispatch_keys policy j) (dispatch_keys policy' j')
  end.
Proof.
  unfold claimAssignmentCandidate. intros [= Hc _].
  destruct (head (order_by_keys _ _ (dispatch_candidates e d))) as [[keys c]|] eqn:Hh; cbn in Hc; subst claimed.
  - pose proof Hh as Hin. apply head_Some_elem_of, elem_of_order_by_keys, elem_of_dispatch_candidates in Hin
      as (jid & j & policy & Hj & Hcand & Hd & _ & _ & ->).
    destruct (candidate_of_fields _ _ _ _ _ _ Hcand) as [Hid _]. rewrite Hid. exists j, policy. split_and!; try done.
    intros jid' j' policy' c' Hj' Hc' Hd' Hl1 Hl2.
    assert ((dispatch_keys policy' j', c') ∈ dispatch_candidates e d) as Hin'
      by (apply elem_of_dispatch_candidates; eauto 10).
    eapply head_order_by_keys in Hin' as [Heq|[Hlt|[Heq _]]]; [| | |exact Hh]; cbn in *; [|by right|by left].
    left. congruence.
  - intros jid j policy c Hj Hcand Hd. destruct (row_locked e jid) eqn:Hl1; [by left|].
    destruct (row_locked e (j_namespace_id j)) eqn:Hl2; [by right|]. exfalso.
    assert ((dispatch_keys policy j, c) ∈ dispatch_candidates e d) as Hin
      by (apply elem_of_dispatch_candidates; eauto 10).
    eapply elem_of_order_by_keys in Hin.
    match type of Hh with head ?l = None => assert (l = []) as Hnil by (by destruct l) end.
    erewrite Hnil in Hin. by apply not_elem_of_nil in Hin.
Qed.

(** ** A reconciliation pass *)

Lemma reconcile_iteration_run e d b d' :
  reconcile_iteration e d = Ok (b, d') →
  size (d_assignments d') = (size (d_assignments d) + if b then 1 else 0)%nat.
Proof.
  unfold reconcile_iteration. intros Hrun. tx_inv.
  match goal with H : newIDs _ _ _ = _ |- _ => apply newIDs_same in H as (_ & _ & _ & Hsame) end.
  repeat case_match; tx_inv; try done.
  all: match goal with H : reconcileOneAssignment _ _ _ _ _ _ = _ |- _ =>
    rename H into Hone; apply reconcileOneAssignment_run in Hone end.
  - destruct Hone as (c & j & policy & x & a & [_ _ _ _ (_ & _ & Ha & _) _ (st & cc & _ & _ & _ & Has) _ _]).
    rewrite Has, <-Hsame, map_size_insert_None by done. lia.
  - rewrite Hone, Hsame. lia.
Qed.

Lemma reconcile_loop_steps n es d created k err d' :
  reconcile_loop n es d created = (k, err, d') →
  rtc step d d' ∧ created ≤ k ≤ created + Z.of_nat n ∧
  Z.of_nat (size (d_assignments d')) = Z.of_nat (size (d_assignments d)) + (k - created).
Proof.
  revert d created. induction n as [|n IH]; intros d created Hrun; cbn [reconcile_loop] in Hrun.
  { simplify_eq. split; [done|]. lia. }
  destruct (inTransaction_cases reconcile_iteration (es n) d) as [(b & d1 & Hok & Htx)|(er & Herr & Htx)];
    rewrite Htx in Hrun.
  - pose proof (reconcile_iteration_run _ _ _ _ Hok) as Hsize.
    assert (step d d1) as Hstep by (eapply step_reconcile_assignment; exact Hok). destruct b.
    + apply IH in Hrun as (Hs & ? & ?). split; [by eapply rtc_l|]. lia.
    + simplify_eq. split; [by apply rtc_once|]. lia.
  - simplify_eq. split; [done|]. lia.
Qed.

(** A reconciliation pass is bounded and its count is exact.  It offers at most
    [limit] jobs, each in its own committed step, and reports exactly how many
    assignments it added, also when an error ends it early; a limit outside
    1..1000 is refused and changes nothing. *)
Theorem reconcile_pass_exact limit es d k err d' :
  ReconcileAssignments limit es d = (k, err, d') →
  rtc step d d' ∧ 0 ≤ k ∧ Z.of_nat (size (d_assignments d')) = Z.of_nat (size (d_assignments d)) + k ∧
  if decide (1 ≤ limit ≤ 1000) then k ≤ limit else d' = d ∧ err ≠ None.
Proof.
  unfold ReconcileAssignments. destruct (decide (1 ≤ limit ≤ 1000)) as [Hl|Hl].
  - rewrite !bool_decide_false by lia. cbn. intros Hrun. apply reconcile_loop_steps in Hrun as (Hs & ? & ?).
    split; [done|]. lia.
  - intros Hrun. assert (bool_decide (limit < 1) || bool_decide (1000 < limit) = true) as Hb.
    { apply orb_true_iff. rewrite !bool_decide_eq_true. lia. }
    rewrite Hb in Hrun. simplify_eq. split_and!; try done; lia.
Qed.
End dispatch.
