(* ===== verification/Submission.v ===== *)
(** * Submission

    What a submission adds and what it may not exceed, and idempotency: a key names
    one request, and repeating that request returns its result and adds nothing.
    Delegated identities never submit or cancel. *)
From stdpp Require Import pretty.
From S2P Require Import Prelude Regex Names Domain TargetSpec Kahn Graph Contract Records Url Db Tx Constraints Auth Jobs HistoryImport Groups GraphStore Executions Coordinator Lifecycle Progress LifecycleOps LifecycleEvents LifecycleSubmit Frames.

(** ** Delegation *)

Lemma delegated_not_authorized p actor n caps e d a d' :
  p_Delegation p = Some actor → (∀ c, caps = [c] → DelegationReadOperation c = false) →
  authorizeNamespace p n caps e d ≠ Ok (a, d').
Proof. intros Ha Hc. by rewrite (authorizeNamespace_delegated_refused _ _ _ _ _ _ Ha Hc). Qed.

(** C40: delegation is read-only.  A request made through a delegation assertion
    never succeeds in submitting, importing or cancelling anything, whatever
    capabilities its principal holds. *)
Theorem delegated_never_mutates p actor e d d' :
  p_Delegation p = Some actor →
  (∀ k s r, SubmitJob p k s e d ≠ Ok (r, d')) ∧ (∀ k dry q r, ImportCompletedHistory p k dry q e d ≠ Ok (r, d')) ∧
  (∀ k s r, SubmitCollection p k s e d ≠ Ok (r, d')) ∧
  (∀ k s r, SubmitGraph p k s e d ≠ Ok (r, d')) ∧
  (∀ n j k q r, CancelJob p n j k q e d ≠ Ok (r, d')) ∧ (∀ n g k q r, CancelGraph p n g k q e d ≠ Ok (r, d')).
Proof.
  intros Ha. split_and!; intros * Hrun;
    [unfold SubmitJob in Hrun|unfold ImportCompletedHistory in Hrun|unfold SubmitCollection in Hrun|unfold SubmitGraph in Hrun
    |unfold CancelJob in Hrun|unfold CancelGraph in Hrun]; unfold authorizeSubmission in *; tx_inv;
    match goal with H : authorizeNamespace _ _ _ _ _ = _ |- _ =>
      revert H; apply (delegated_not_authorized _ _ _ _ _ _ _ _ Ha); intros c Hc; by simplify_eq end.
Qed.

(** ** Identities *)

(** The rows that name a request's namespace and principal. *)
Definition request_ids (d : db) (p : Principal) (namespace : string) (a : namespaceAuthorization) : Prop :=
  (∃ row, find_namespace d namespace = Some (na_namespaceID a, row)) ∧
  ∃ row, find_principal d (p_Issuer (resolve_alias d p)) (p_Subject (resolve_alias d p)) = Some (na_principalID a, row).

Lemma authorize_ids p n caps e d a d' :
  p_Delegation p = None → authorizeNamespace p n caps e d = Ok (a, d') → request_ids d p n a.
Proof.
  intros Hp Hrun. unfold authorizeNamespace, canonicalPrincipal in Hrun. rewrite Hp in Hrun. tx_inv.
  match goal with H : (let '(_, _) := ?t in _) _ _ = _ |- _ => destruct t as [pid prow] end. tx_inv.
  match goal with H : (let '(_, _) := ?t in _) _ _ = _ |- _ => destruct t as [nid nrow] end. tx_inv.
  split; cbn; eauto.
Qed.

Lemma request_ids_unique d d' p n a a' :
  d_principals d' = d_principals d → d_principal_aliases d' = d_principal_aliases d →
  d_namespaces d' = d_namespaces d → request_ids d p n a → request_ids d' p n a' →
  na_namespaceID a' = na_namespaceID a ∧ na_principalID a' = na_principalID a.
Proof.
  intros Hp Hal Hn [[r1 H1] [r2 H2]] [[r3 H3] [r4 H4]]. revert H3 H4.
  unfold resolve_alias, find_namespace, find_principal in *. rewrite Hp, Hal, Hn. intros H3 H4. by simplify_eq.
Qed.

Lemma authorizeSubmission_undelegated p n e d a d' :
  authorizeSubmission p n e d = Ok (a, d') → p_Delegation p = None.
Proof.
  unfold authorizeSubmission. intros Hrun. destruct (p_Delegation p) as [actor|] eqn:Ha; [|done].
  exfalso. revert Hrun. apply (delegated_not_authorized _ _ _ _ _ _ _ _ Ha). intros c Hc. by simplify_eq.
Qed.

(** ** Idempotency records *)

Definition record_key (a : namespaceAuthorization) (operation key : string) :=
  (na_namespaceID a, na_principalID a, operation, key).

(** A completed record. *)
Definition records (d : db) (a : namespaceAuthorization) (operation key digest kind resource : string) (status : Z) : Prop :=
  ∃ row, d_idempotency d !! record_key a operation key = Some row ∧
    id_request_digest row = digest ∧ id_resource_type row = kind ∧
    id_resource_id row = Some resource ∧ id_response_status row = Some status.

Lemma reserveIdempotency_cases a op kind k q n e d o d' :
  reserveIdempotency a op kind k q n e d = Ok (o, d') →
  match o with
  | None => d_idempotency d !! record_key a op k = None ∧
      d_idempotency d' !! record_key a op k = Some {| id_request_digest := q; id_resource_type := kind;
        id_resource_id := None; id_response_status := None; id_completed_at := None |}
  | Some resource => d' = d ∧ records d a op k q kind resource n
  end.
Proof.
  unfold reserveIdempotency. intros Hrun. tx_inv.
  match goal with H : INSERT_or_nothing _ _ _ _ = _ |- _ => apply INSERT_or_nothing_ok in H as
    [(-> & -> & _)|(-> & Hnone & _ & ->)] end.
  - rewrite bool_decide_false in * by done. tx_inv.
    match goal with H : d_idempotency _ !! _ = Some ?r |- _ => rename r into row; rename H into Hrow end.
    destruct (id_resource_id row) as [res|] eqn:Hres; [|by tx_inv].
    destruct (id_response_status row) as [st|] eqn:Hst; guard_inv. split; [done|].
    exists row. split_and!; try done; try congruence. 
  - rewrite bool_decide_true in * by done. tx_inv. cbn. split; [done|]. by rewrite lookup_insert_eq.
Qed.

Lemma completeIdempotency_ok a op k resource status e d u d' row :
  d_idempotency d !! record_key a op k = Some row → id_resource_id row = None →
  completeIdempotency a op k resource status e d = Ok (u, d') →
  records d' a op k (id_request_digest row) (id_resource_type row) resource status.
Proof.
  intros Hrow Hnone Hrun. unfold completeIdempotency in Hrun. tx_inv.
  match goal with H : UPDATE _ _ _ _ _ = _ |- _ => apply UPDATE_ok in H as
    [(old & new & Hk & _ & -> & _ & _ & Ha)|(-> & _)] end; [|done].
  cbn in Ha. tx_inv. cbn in Hk. assert (old = row) as -> by (unfold record_key in Hrow; congruence).
  eexists. cbn. split; [apply lookup_insert_eq|]. by split_and!.
Qed.

Lemma insertWorkloadRevision_keeps a s : Keeps d_idempotency (insertWorkloadRevision a s).
Proof. keeps_tac. Qed.
Lemma insertJob_keeps a jid s p : Keeps d_idempotency (insertJob a jid s p).
Proof. keeps_tac. Qed.
Lemma insertAcceptanceEvidence_keeps a k o j : Keeps d_idempotency (insertAcceptanceEvidence a k o j).
Proof. keeps_tac. Qed.

(** ** [SubmitJob] *)

(** Jobs that count against the queue limit. *)
Definition queued (d : db) (ns : string) : Z :=
  count (λ j, eqs (j_namespace_id j) ns && negb (eqs (j_phase j) "terminal")) (d_jobs d).

Lemma enforceNamespaceQuota_ok ns n ci gn e d u d' :
  enforceNamespaceQuota ns n ci gn e d = Ok (u, d') →
  ∃ policy, d_policies d !! ns = Some policy ∧ 1 ≤ n ∧ queued d ns + n ≤ po_max_queued_jobs policy ∧
    ci ≤ po_max_collection_items policy ∧ gn ≤ po_max_graph_nodes policy.
Proof.
  unfold enforceNamespaceQuota. intros Hrun. tx_inv. eexists. split; [eassumption|].
  repeat match goal with H : bool_decide _ = false |- _ => apply bool_decide_eq_false in H
    | H : _ || _ = false |- _ => apply orb_false_iff in H as [? ?] end. unfold queued. lia.
Qed.

(** What a successful [SubmitJob] did. *)
Record submitted (p : Principal) (key : string) (s : JobSubmission) (e : env) (r : SubmitResult) (d d' : db)
    (a : namespaceAuthorization) : Prop := {
  sb_ids : request_ids d p (js_Namespace s) a;
  sb_identities : d_principals d' = d_principals d ∧ d_principal_aliases d' = d_principal_aliases d ∧
    d_namespaces d' = d_namespaces d;
  sb_submitter : CapabilityJobsSubmit ∈ na_capabilities a;
  sb_record : records d' a submitJobOperation key (js_RequestDigest s) "job" (job_ID (sr_Job r)) 201;
  sb_replay : sr_Replayed r = true →
    d_jobs d' = d_jobs d ∧ records d a submitJobOperation key (js_RequestDigest s) "job" (job_ID (sr_Job r)) 201;
  sb_fresh : sr_Replayed r = false → d_idempotency d !! record_key a submitJobOperation key = None ∧
    ∃ j policy, d_jobs d !! job_ID (sr_Job r) = None ∧ d_jobs d' = <[job_ID (sr_Job r) := j]> (d_jobs d) ∧
      j_phase j = "accepted" ∧ j_namespace_id j = na_namespaceID a ∧
      d_policies d !! na_namespaceID a = Some policy ∧
      queued d' (na_namespaceID a) ≤ po_max_queued_jobs policy }.

Lemma SubmitJob_keeps_identities p k s :
  Keeps (λ d, (d_principals d, d_principal_aliases d, d_namespaces d)) (SubmitJob p k s).
Proof. keeps_tac. Qed.

Lemma SubmitJob_ok p k s e d r d' :
  SubmitJob p k s e d = Ok (r, d') → ∃ a, submitted p k s e r d d' a.
Proof.
  intros Hrun. pose proof (keeps_after _ _ _ _ _ _ (SubmitJob_keeps_identities p k s) Hrun) as Hids.
  cbn in Hids. injection Hids as Hi1 Hi2 Hi3.
  unfold SubmitJob in Hrun. tx_inv.
  repeat match goal with H : newID _ _ = _ |- _ => apply newID_ok in H as (? & _ & ->) end.
  match goal with H : authorizeSubmission _ _ _ _ = Ok (?a, _) |- _ =>
    pose proof (authorizeSubmission_undelegated _ _ _ _ _ _ H) as Hdel; unfold authorizeSubmission in H;
    pose proof (authorizeNamespace_authorized _ _ _ _ _ _ _ H) as [-> Haz];
    apply (authorize_ids _ _ _ _ _ _ _ Hdel) in H as Hreq; clear H; exists a; rename a into az end.
  match goal with H : reserveIdempotency _ _ _ _ _ _ _ _ = Ok (?o, _) |- _ =>
    pose proof (reserveIdempotency_same _ _ _ _ _ _ _ _ _ _ H) as (Hjs & _);
    kept d_policies by (keeps_tac) on H as Hpol0;
    apply reserveIdempotency_cases in H; rename H into Hres; destruct o as [res|] end; tx_inv.
  - match goal with H : getJobByID _ _ _ _ = _ |- _ => pose proof (getJobByID_id _ _ _ _ _ _ H) as Hid; apply getJobByID_frame in H as -> end.
    destruct Hres as [-> Hrec]. subst. split; cbn in *; try done.
    apply (az_requested _ _ _ _ _ _ Haz). by left.
  - destruct Hres as [Hnone Hrow].
    match goal with H : enforceNamespaceQuota _ _ _ _ _ _ = _ |- _ =>
      pose proof (enforceNamespaceQuota_ok _ _ _ _ _ _ _ _ H) as (policy & Hpol & _ & Hq & _ & _);
      apply enforceNamespaceQuota_frame in H as -> end.
    match goal with H : resolveTarget _ _ _ _ = _ |- _ => apply resolveTarget_frame in H as -> end.
    match goal with H : insertWorkloadRevision _ _ _ _ = _ |- _ =>
      kept d_idempotency by (keeps_tac) on H as K1; apply insertWorkloadRevision_same in H as (Hjs1 & _) end.
    match goal with H : insertJob _ _ _ _ _ _ = _ |- _ =>
      kept d_idempotency by (keeps_tac) on H as K2;
      apply insertJob_ok in H as (Hid & Hjn & row & _ & Hph & Hns & _ & Hd2) end.
    match goal with H : completeIdempotency _ _ _ _ _ _ _ = _ |- _ =>
      pose proof (completeIdempotency_same _ _ _ _ _ _ _ _ _ H) as (Hjs3 & _);
      eapply completeIdempotency_ok in H as Hrec; [|rewrite K2, K1; exact Hrow|done] end.
    match goal with H : insertAcceptanceEvidence _ _ _ _ _ _ = _ |- _ =>
      kept d_idempotency by (keeps_tac) on H as K4; apply insertAcceptanceEvidence_same in H as (Hjs4 & _) end.
    cbn in *. split; cbn; try done.
    + apply (az_requested _ _ _ _ _ _ Haz). by left.
    + unfold records. by rewrite K4.
    + intros _. split; [done|]. subst. cbn in *.
      rewrite Hjs1, Hjs in Hjs3. rewrite Hjs3 in Hjs4.
      rewrite Hjs1, Hjs in Hjn. exists row, policy. rewrite Hpol0 in Hpol. split_and!; try done.
      unfold queued in *. rewrite Hjs in Hq. rewrite Hjs4, count_insert_fresh by done.
      rewrite Hns, Hph, eqs_refl. cbn. rewrite (proj2 (eqs_false _ _)) by done. cbn. lia.
Qed.

(** C31: a submission is accounted for.  A first successful [SubmitJob] comes from
    an undelegated principal that may submit in the namespace, adds exactly one
    job, waiting, under a new identifier, keeps the queued jobs of the namespace
    within the policy and completes the idempotency record; a replay adds nothing. *)
Theorem submit_job_sound p k s e d r d' :
  SubmitJob p k s e d = Ok (r, d') → ∃ a, submitted p k s e r d d' a.
Proof. apply SubmitJob_ok. Qed.

(** C32: submission is idempotent.  Once a key has been used successfully, every
    later success with the same key by the same principal in the same namespace,
    while the record is retained and identities are unchanged, carries the same
    request digest, is a replay, names the same job and adds no job. *)
Theorem submit_job_idempotent p k s1 e1 d0 r1 d1 s2 e2 d2 r2 d3 :
  SubmitJob p k s1 e1 d0 = Ok (r1, d1) →
  d_principals d2 = d_principals d1 → d_principal_aliases d2 = d_principal_aliases d1 →
  d_namespaces d2 = d_namespaces d1 → d_idempotency d1 ⊆ d_idempotency d2 →
  SubmitJob p k s2 e2 d2 = Ok (r2, d3) → js_Namespace s2 = js_Namespace s1 →
  js_RequestDigest s2 = js_RequestDigest s1 ∧ sr_Replayed r2 = true ∧
  job_ID (sr_Job r2) = job_ID (sr_Job r1) ∧ d_jobs d3 = d_jobs d2.
Proof.
  intros H1 Hp Hal Hns Hsub H2 Hn. apply SubmitJob_ok in H1 as [a1 B1]. apply SubmitJob_ok in H2 as [a2 B2].
  destruct (sb_identities _ _ _ _ _ _ _ _ B1) as (P1 & A1 & N1).
  pose proof (sb_ids _ _ _ _ _ _ _ _ B1) as I1. pose proof (sb_ids _ _ _ _ _ _ _ _ B2) as I2. rewrite Hn in I2.
  destruct (request_ids_unique d0 d2 _ _ _ _ ltac:(congruence) ltac:(congruence) ltac:(congruence) I1 I2) as [E1 E2].
  destruct (sb_record _ _ _ _ _ _ _ _ B1) as (row & Hrow & Hdig & _ & Hres & _).
  assert (d_idempotency d2 !! record_key a2 submitJobOperation k = Some row) as Hrow2.
  { unfold record_key in *. rewrite E1, E2. by eapply lookup_weaken. }
  destruct (sr_Replayed r2) eqn:Hrep.
  - destruct (sb_replay _ _ _ _ _ _ _ _ B2 Hrep) as [Hj (row' & Hrow' & Hdig' & _ & Hres' & _)].
    assert (row' = row) as -> by congruence. split_and!; congruence.
  - destruct (sb_fresh _ _ _ _ _ _ _ _ B2 Hrep) as [Hnone _]. congruence.
Qed.

(** ** Placement *)

Lemma resolveArtifactStores_ok configured requested l :
  resolveArtifactStores configured requested = Ok l →
  (as_Name <$> l) = requested ∧ (∀ store, store ∈ l → store ∈ configured).
Proof.
  unfold resolveArtifactStores. rewrite bind_unit_ok. intros [_ Hrun].
  assert (∀ acc, for_range (resolveArtifactStore configured) acc requested = Ok l →
    (∀ store, store ∈ acc → store ∈ configured) →
    (as_Name <$> l) = (as_Name <$> acc) ++ requested ∧ (∀ store, store ∈ l → store ∈ configured)) as Hgen.
  { clear Hrun. induction requested as [|name requested IH]; intros acc Hr Hacc; cbn in Hr.
    - injection Hr as <-. by rewrite app_nil_r.
    - apply bind_ok in Hr as (acc' & Ha & Hr). unfold resolveArtifactStore in Ha.
      destruct (List.find _ configured) as [store|] eqn:Hf; [|done]. simplify_eq.
      apply List.find_some in Hf as [Hin Heq%eqs_true]. apply list_elem_of_In in Hin.
      apply IH in Hr as [Hl Hsub].
      + split; [|done]. rewrite Hl, fmap_app, <-app_assoc. cbn. by rewrite Heq.
      + intros st [?|Hs%list_elem_of_singleton]%elem_of_app; [auto|by subst]. }
  apply (Hgen [] Hrun). intros st Hst. by apply not_elem_of_nil in Hst.
Qed.

Lemma containsAll_spec available required : containsAll available required = true ↔ ∀ x, x ∈ required → x ∈ available.
Proof.
  unfold containsAll. rewrite forallb_forall. setoid_rewrite slices_Contains_spec.
  by setoid_rewrite <-list_elem_of_In.
Qed.

Lemma resolvePartition_ok g requested e d part d' :
  resolvePartition g requested e d = Ok (part, d') → part ≠ "" →
  ∃ row, d_partitions d !! (g, part) = Some row ∧ part_state row = "active" ∧ (requested ≠ "" → part = requested).
Proof.
  unfold resolvePartition. intros Hrun Hne. tx_inv.
  destruct (eqs requested "") eqn:Hr; cbn in *; bool_step.
  - tx_inv. destruct (head _) as [[[g' name] row]|] eqn:Hh; cbn in *; [|done].
    apply head_Some_elem_of, elem_of_select in Hh as [Hk ?]. guard_inv. cbn in *. subst. exists row. by split_and!.
  - destruct (d_partitions _ !! _) as [row|] eqn:Hk; [|by tx_inv]. case_match; guard_inv; eauto.
Qed.

(** A job is placed only where it can run.  [resolveTarget] accepts a
    submission exactly onto a registered active target whose current generation
    offers the runtime, operating systems, architectures, capabilities and
    artifact stores asked for, with features its backend implements and an active
    partition, and it changes nothing. *)
Theorem resolveTarget_sound ns s e d pl d' :
  resolveTarget ns s e d = Ok (pl, d') →
  d' = d ∧ ∃ targetID t g, d_targets d !! targetID = Some t ∧ tg_namespace_id t = ns ∧ tg_name t = js_Target s ∧
    tg_state t = "active" ∧ tg_current_generation_id t = Some (rp_targetGenerationID pl) ∧
    rp_targetID pl = targetID ∧ d_generations d !! rp_targetGenerationID pl = Some g ∧
    rp_executionBackend pl = gen_execution_backend g ∧
    js_RuntimeKind s ∈ gen_runtimes g ∧
    (∀ c, c ∈ js_Capabilities s → c ∈ gen_capabilities g) ∧
    (∀ c, c ∈ js_OperatingSystems s → c ∈ gen_operating_systems g) ∧
    (∀ c, c ∈ js_Architectures s → c ∈ gen_architectures g) ∧
    (as_Name <$> rp_artifactStores pl) = js_ArtifactStores s ∧
    (∀ store, store ∈ rp_artifactStores pl → store ∈ gen_artifact_stores g) ∧
    validateExecutionFeatures (gen_execution_backend g) (js_ExecutionFeatures s) = Ok tt ∧
    (rp_partition pl ≠ "" → ∃ part, d_partitions d !! (rp_targetGenerationID pl, rp_partition pl) = Some part ∧
       part_state part = "active").
Proof.
  intros Hrun. pose proof (resolveTarget_frame _ _ _ _ _ _ Hrun) as ->. split; [done|].
  unfold resolveTarget in Hrun. tx_inv.
  match goal with H : (let '(_, _) := ?u in _) _ _ = _ |- _ => destruct u as [[[tid t] gid] g] end. tx_inv.
  match goal with H : current_target _ _ _ = _ |- _ => unfold current_target in H;
    apply bind_Some in H as ([tid' t'] & Hh & H); apply bind_Some in H as (gid' & Hcur & H);
    apply bind_Some in H as (g' & Hg & H); injection H as -> -> -> -> end.
  apply head_Some_elem_of, elem_of_select in Hh as [Ht ?].
  match goal with H : resolveArtifactStores _ _ = Ok _ |- _ => apply resolveArtifactStores_ok in H as [Hst Hsub] end.
  match goal with H : resolvePartition _ _ _ _ = Ok (?p, _) |- _ => pose proof (resolvePartition_ok _ _ _ _ _ _ H) as Hpart end.
  match goal with H : _ || _ = false |- _ => rewrite !orb_false_iff, !negb_false_iff, slices_Contains_spec, !containsAll_spec in H;
    destruct H as (((? & ?) & ?) & ?) end.
  guard_inv. exists tid, t, g. cbn. split_and!; try done.
  intros Hne. destruct (Hpart Hne) as (row & ? & ? & _). eauto.
Qed.
