(* ===== verification/TargetService.v ===== *)
(** * Targets and the rest of the service

    What the state of a target means for placement, dispatch, authentication and delivery, and that every
    other modelled call leaves targets alone. *)
From stdpp Require Import pretty.
From S2P Require Import Prelude Regex Names Domain TargetSpec Kahn Graph Contract Records Url Json Tokens Db Tx Constraints Auth Jobs HistoryImport Groups GraphStore Executions Coordinator Agents Targets Lifecycle Progress LifecycleOps LifecycleEvents LifecycleSubmit Frames Delivery AgentRuns TargetRuns TargetHistory Logs Submission Dispatch.

#[local] Opaque hashToken deriveToken.

(** ** Calls that leave targets alone *)

Lemma same_targets_step d d' : unique_namespaces d → same_targets d d' → target_step d d'.
Proof. intros Hu [Ht Hg Hp Hn]. apply tstep_elsewhere; try done; [by rewrite Hn|]. unfold unique_namespaces. by rewrite Hn. Qed.

Ltac elsewhere_tac := intros *; apply keeps_same_targets; credentials_tac.

(** The methods of the job lifecycle and of the agents. *)
Lemma lifecycle_calls_keep_targets `{Sealer} :
  (∀ p k s e d r d', SubmitJob p k s e d = Ok (r, d') → same_targets d d') ∧
  (∀ p k dry q e d r d', ImportCompletedHistory p k dry q e d = Ok (r, d') → same_targets d d') ∧
  (∀ p k s e d r d', SubmitCollection p k s e d = Ok (r, d') → same_targets d d') ∧
  (∀ p k s e d r d', SubmitGraph p k s e d = Ok (r, d') → same_targets d d') ∧
  (∀ p n j k q e d r d', CancelJob p n j k q e d = Ok (r, d') → same_targets d d') ∧
  (∀ p n g k q e d r d', CancelGraph p n g k q e d = Ok (r, d') → same_targets d d') ∧
  (∀ i a e d r d', AcceptAssignment i a e d = Ok (r, d') → same_targets d d') ∧
  (∀ i v e d r d', RecordExecutionEvent i v e d = Ok (r, d') → same_targets d d') ∧
  (∀ e d r d', reconcile_iteration e d = Ok (r, d') → same_targets d d') ∧
  (∀ t o e d r d', reconcileOneStale t o e d = Ok (r, d') → same_targets d d').
Proof. split_and!; elsewhere_tac. Qed.

Lemma agent_calls_keep_targets tokenKey :
  (∀ actor ns target key digest request e d r d', CreateEnrollmentToken tokenKey actor ns target key digest request e d = Ok (r, d') → same_targets d d') ∧
  (∀ token registration lifetime e d r d', EnrollAgent tokenKey token registration lifetime e d = Ok (r, d') → same_targets d d') ∧
  (∀ token lifetime e d r d', RenewAgentSession tokenKey token lifetime e d = Ok (r, d') → same_targets d d') ∧
  (∀ token e d i d', AuthenticateAgent token e d = Ok (i, d') → same_targets d d') ∧
  (∀ aid cert e d u d', RecordAgentCertificate aid cert e d = Ok (u, d') → same_targets d d') ∧
  (∀ i cert e d u d', RotateAgentCertificate i cert e d = Ok (u, d') → same_targets d d') ∧
  (∀ aid serial key e d i d', AuthenticateAgentCertificate aid serial key e d = Ok (i, d') → same_targets d d') ∧
  (∀ i c e d r d', RecordAgentCapabilities i c e d = Ok (r, d') → same_targets d d') ∧
  (∀ i limit e d l d', ListAssignments i limit e d = Ok (l, d') → same_targets d d') ∧
  (∀ i c e d r d', CommitLogChunk i c e d = Ok (r, d') → same_targets d d').
Proof. split_and!; elsewhere_tac. Qed.

(** ** Retirement *)

Lemma present_target d a : agent_present d a = true → ∃ t, d_targets d !! ag_target_id a = Some t ∧ tg_state t ∈ present_states.
Proof.
  unfold agent_present. intros [_ (t & Ht & Hs)%exists_row_true]%andb_true_iff. exists t. split; [done|]. by apply slices_Contains_spec.
Qed.

Lemma claimed_target e d c d' : claimAssignmentCandidate e d = Ok (Some c, d') →
  ∃ t, d_targets d !! ca_targetID c = Some t ∧ tg_state t = "active".
Proof.
  intros (-> & j & policy & _ & _ & Hc & _)%claimAssignmentCandidate_some. unfold candidate_of in Hc.
  apply bind_Some in Hc as (n & _ & Hc). apply bind_Some in Hc as (pol & _ & Hc). apply bind_Some in Hc as (id & _ & Hc).
  apply bind_Some in Hc as (t & Ht & Hc). case_match eqn:Hs; [done|]. apply negb_false_iff, eqs_true in Hs.
  repeat apply bind_Some in Hc as (? & _ & Hc). injection Hc as _ <-. by exists t.
Qed.

(** C21: retirement is final.  A target that was retired stays retired with the generation it had in every
    later state of a history; no new generation is installed, no submission is placed on it, no job of it
    is claimed for dispatch, none of its agents authenticates by token or by certificate, and none is
    handed an assignment. *)
Theorem retired_target_serves_nothing d d' id t : target_reachable d → d_targets d !! id = Some t → tg_state t = "retired" →
  rtc target_step d d' →
  (∃ t', d_targets d' !! id = Some t' ∧ tg_state t' = "retired" ∧ tg_current_generation_id t' = tg_current_generation_id t) ∧
  (∀ p n name k q c e r d2, CreateTargetGeneration p n name k q c e d' = Ok (r, d2) → cr_Replayed r = false → tgt_ID (cr_Value r) ≠ id) ∧
  (∀ ns s e pl d2, resolveTarget ns s e d' = Ok (pl, d2) → rp_targetID pl ≠ id) ∧
  (∀ e c d2, claimAssignmentCandidate e d' = Ok (Some c, d2) → ca_targetID c ≠ id) ∧
  (∀ token e i d2, AuthenticateAgent token e d' = Ok (i, d2) → ai_TargetID i ≠ id) ∧
  (∀ aid serial key e i d2, AuthenticateAgentCertificate aid serial key e d' = Ok (i, d2) → ai_TargetID i ≠ id) ∧
  (∀ i limit e l d2 a, ListAssignments i limit e d' = Ok (l, d2) → d_agents d' !! ai_AgentID i = Some a → ag_target_id a = id → l = []).
Proof.
  intros I%target_reachable_ok Ht Hretired Hsteps. destruct (target_steps_sound _ _ Hsteps I) as [I' [G _ _ _]].
  destruct (G _ _ Ht) as (t' & Ht' & [_ _ _ Hr]). destruct (Hr Hretired) as [Hr' Hcur]. clear Hr G.
  assert (∀ id' t2, d_targets d' !! id' = Some t2 → tg_state t2 ≠ "retired" → id' ≠ id) as Hother by (intros id' t2 H2 Hne ->; congruence).
  split_and!.
  - by exists t'.
  - intros * (_ & a & _ & _ & _ & [[? _]|[_ (t2 & gid0 & g0 & Hg)]])%CreateTargetGeneration_ok ?; [congruence|].
    eapply Hother; [apply Hg|apply Hg].
  - intros * (_ & id' & t2 & g & H2 & _ & _ & Hs & _ & -> & _)%resolveTarget_sound. eapply Hother; [done|]. by rewrite Hs.
  - intros * (t2 & H2 & Hs)%claimed_target. eapply Hother; [done|]. by rewrite Hs.
  - intros * (sid & s & a & n & Hn & _ & -> & _)%AuthenticateAgent_ok. cbn.
    destruct (present_target _ _ (ns_present _ _ _ _ _ _ Hn)) as (t2 & H2 & Hs). eapply Hother; [exact H2|].
    intros E. rewrite E in Hs. unfold present_states in Hs. set_solver.
  - intros * (a & c & n & _ & _ & _ & _ & _ & _ & _ & _ & Hp & -> & _)%AuthenticateAgentCertificate_ok. cbn.
    destruct (present_target _ _ Hp) as (t2 & H2 & Hs). eapply Hother; [exact H2|].
    intros E. rewrite E in Hs. unfold present_states in Hs. set_solver.
  - intros * Hl Ha E. apply ListAssignments_ok in Hl as (rows & [_ Hrows _ _ -> _ _] & _).
    destruct rows as [|[k x] rows]; [done|]. exfalso. destruct (Hrows k x) as (_ & Hd & _); [set_solver|].
    apply deliverable_ok in Hd as (_ & _ & _ & g & Hg & Hm). destruct (mr_target _ _ _ Hm) as (t2 & H2 & Hs).
    assert (g = a) as -> by congruence. eapply Hother; [exact H2|by rewrite Hs|done].
Qed.
