(* ===== verification/Snapshots.v ===== *)
(** * Snapshots of groups

    The counts, phase and outcome that [scanCollection] and [scanGraph] report are
    those of the member jobs. *)
From stdpp Require Import pretty.
From S2P Require Import Prelude Regex Names Domain TargetSpec Kahn Graph Contract Records Url Db Tx Constraints Auth Jobs Groups GraphStore Executions Coordinator Lifecycle Progress LifecycleOps LifecycleEvents LifecycleSubmit Frames EventLog System.

Lemma terminal_outcome d k j :
  lifecycle_inv d → d_jobs d !! k = Some j → j_phase j = "terminal" → is_Some (j_outcome j).
Proof.
  intros I Hj Ht. destruct (run_of_job_cases _ _ _ I Hj) as [[_ Hno]|(rid & r & eid & x & aid & a & _ & _ & _ & Hc)].
  - destruct (idle_phase _ _ _ I Hj Hno) as [(Hp & _)|[_ ?]]; [congruence|done].
  - by apply (cp_terminal _ _ _ _ Hc).
Qed.

(** ** Members *)

Lemma is_active_spec j : is_active j = negb (eqs (j_phase j) "accepted" || eqs (j_phase j) "terminal").
Proof.
  unfold is_active, slices_Contains, eqs. f_equal. rewrite <-bool_decide_or. apply bool_decide_ext.
  rewrite elem_of_cons, list_elem_of_singleton. done.
Qed.
Lemma outcome_one a o : slices_Contains [a] o = eqs o a.
Proof. unfold slices_Contains, eqs. apply bool_decide_ext. by rewrite list_elem_of_singleton. Qed.
Lemma outcome_pair a b o : slices_Contains [a; b] o = eqs o a || eqs o b.
Proof.
  unfold slices_Contains, eqs. rewrite <-bool_decide_or. apply bool_decide_ext.
  by rewrite elem_of_cons, list_elem_of_singleton.
Qed.

Section members.
Context (d : db) (member : job_row → bool) (I : lifecycle_inv d).

Definition members_count (p : job_row → bool) : Z := count (λ j, member j && p j) (d_jobs d).

Lemma members_split :
  members_count (λ _, true) =
    members_count (λ j, eqs (j_phase j) "accepted") + members_count is_active + members_count is_terminal.
Proof using Type.
  unfold members_count.
  rewrite (count_add _ (λ j, member j && eqs (j_phase j) "accepted") (λ j, member j && negb (eqs (j_phase j) "accepted"))).
  - rewrite (count_add (λ j, member j && negb (eqs (j_phase j) "accepted")) (λ j, member j && is_active j)
      (λ j, member j && is_terminal j)); [lia|].
    intros k j _. rewrite is_active_spec. unfold is_terminal.
    destruct (member j), (eqs (j_phase j) "accepted") eqn:Ha, (eqs (j_phase j) "terminal") eqn:Ht; try done.
    bool_step. bool_step. congruence.
  - intros k j _. by destruct (member j), (eqs (j_phase j) "accepted").
Qed.

(** Every terminal member has exactly one of the outcomes counted apart. *)
Lemma members_outcomes :
  members_count is_terminal =
    members_count (λ j, is_terminal j && has_outcome ["success"] j) +
    members_count (λ j, is_terminal j && has_outcome ["cancelled"] j) +
    members_count (λ j, is_terminal j && lacks_outcome ["success"; "cancelled"] j).
Proof using I.
  unfold members_count.
  rewrite (count_add (λ j, member j && is_terminal j) (λ j, member j && (is_terminal j && has_outcome ["success"] j))
    (λ j, member j && (is_terminal j && negb (has_outcome ["success"] j)))).
  - rewrite (count_add (λ j, member j && (is_terminal j && negb (has_outcome ["success"] j)))
      (λ j, member j && (is_terminal j && has_outcome ["cancelled"] j))
      (λ j, member j && (is_terminal j && lacks_outcome ["success"; "cancelled"] j))); [lia|].
    intros k j Hj. destruct (member j); [|done]. destruct (is_terminal j) eqn:Ht; [|done].
    unfold is_terminal in Ht. bool_step. destruct (terminal_outcome _ _ _ I Hj Ht) as [o Ho].
    unfold has_outcome, lacks_outcome. rewrite Ho. rewrite !outcome_pair, !outcome_one.
    destruct (eqs o "success") eqn:H1, (eqs o "cancelled") eqn:H2; try done. bool_step. bool_step. congruence.
  - intros k j _. by destruct (member j), (is_terminal j), (has_outcome ["success"] j).
Qed.

Lemma members_all p :
  members_count p = members_count (λ _, true) ↔
  ∀ k j, d_jobs d !! k = Some j → member j = true → p j = true.
Proof using Type.
  unfold members_count.
  rewrite (count_add (λ j, member j && true) (λ j, member j && p j) (λ j, member j && negb (p j))).
  - split.
    + intros Heq k j Hj Hm. assert (count (λ j, member j && negb (p j)) (d_jobs d) = 0) as Hz by lia.
      rewrite count_zero in Hz. specialize (Hz _ _ Hj). cbn in Hz. rewrite Hm in Hz. by destruct (p j).
    + intros Hall. assert (count (λ j, member j && negb (p j)) (d_jobs d) = 0) as Hz; [|lia].
      apply count_zero. intros k j Hj. destruct (member j) eqn:Hm; [|done]. cbn. by rewrite (Hall k j).
  - intros k j _. by destruct (member j), (p j).
Qed.

Lemma members_some p :
  0 < members_count p ↔ ∃ k j, d_jobs d !! k = Some j ∧ member j = true ∧ p j = true.
Proof using Type.
  unfold members_count. split.
  - intros Hpos. destruct (decide (Exists (λ kj, (member kj.2 && p kj.2) = true) (map_to_list (d_jobs d)))) as [Hex|Hno].
    + apply Exists_exists in Hex as ([k j] & Hin & Hb). apply elem_of_map_to_list in Hin. cbn in Hb.
      apply andb_true_iff in Hb. exists k, j. naive_solver.
    + exfalso. assert (count (λ j, member j && p j) (d_jobs d) = 0); [|lia]. apply count_zero. intros k j Hj.
      apply not_true_iff_false. intros Hb. apply Hno, Exists_exists. exists (k, j). by rewrite elem_of_map_to_list.
  - intros (k & j & Hj & Hm & Hp). apply (count_pos _ _ k j Hj). by rewrite Hm, Hp.
Qed.
End members.

(** ** Collections and graphs *)

Section claims.
Context `{Sealer}.

(** What a consistent group snapshot reports about its members. *)
Record snapshot_of (d : db) (member : job_row → bool) (phase outcome : string)
    (total waiting active terminal : Z) : Prop := {
  sn_partition : total = waiting + active + terminal ∧ 0 ≤ waiting ∧ 0 ≤ active ∧ 0 ≤ terminal;
  sn_total : total = count member (d_jobs d);
  sn_terminal : phase = "terminal" ↔
    (∃ k j, d_jobs d !! k = Some j ∧ member j = true) ∧
    ∀ k j, d_jobs d !! k = Some j → member j = true → j_phase j = "terminal";
  sn_success : phase = "terminal" → outcome = "success" ↔
    ∀ k j, d_jobs d !! k = Some j → member j = true → j_outcome j = Some "success";
  sn_open : phase ≠ "terminal" → outcome = "" ∧
    (phase = "running" ↔ ∃ k j, d_jobs d !! k = Some j ∧ member j = true ∧ is_active j = true) }.

Lemma count_true member (d : db) : count (λ j, member j && true) (d_jobs d) = count member (d_jobs d).
Proof.
  pose proof (count_add (λ j, member j && true) member (λ _, false) (d_jobs d)) as Ha.
  rewrite Ha; [|intros k j _; by destruct (member j)].
  assert (count (λ _ : job_row, false) (d_jobs d) = 0) as -> by (by apply count_zero). lia.
Qed.

Lemma snapshot_computed d member total active terminal succeeded canceled bad phase outcome :
  lifecycle_inv d →
  total = members_count d member (λ _, true) → active = members_count d member is_active →
  terminal = members_count d member is_terminal →
  succeeded = members_count d member (λ j, is_terminal j && has_outcome ["success"] j) →
  terminal = succeeded + canceled + bad → 0 ≤ canceled → 0 ≤ bad →
  (if bool_decide (0 < total) && bool_decide (terminal = total) then
     ("terminal", if bool_decide (0 < bad) then "failure" else if bool_decide (0 < canceled) then "cancelled" else "success")
   else if bool_decide (0 < active) then ("running", "") else ("accepted", "")) = (phase, outcome) →
  snapshot_of d member phase outcome total (total - active - terminal) active terminal.
Proof.
  intros I Ht Ha Hterm Hs Hsum Hc0 Hb0 Heq.
  pose proof (members_split d member) as Hsplit.
  pose proof (count_nonneg (λ j, member j && eqs (j_phase j) "accepted") (d_jobs d)) as Hw0.
  pose proof (count_nonneg (λ j, member j && is_active j) (d_jobs d)) as Ha0.
  pose proof (count_nonneg (λ j, member j && is_terminal j) (d_jobs d)) as Ht0.
  pose proof (members_all d member is_terminal) as Hall.
  pose proof (members_all d member (λ j, is_terminal j && has_outcome ["success"] j)) as Hsucc.
  pose proof (members_some d member (λ _, true)) as Hsome.
  pose proof (members_some d member is_active) as Hact.
  assert (0 < total ↔ ∃ k j, d_jobs d !! k = Some j ∧ member j = true) as Hex by (rewrite Ht, Hsome; naive_solver).
  assert (terminal = total ↔ ∀ k j, d_jobs d !! k = Some j → member j = true → j_phase j = "terminal") as Hover.
  { rewrite Hterm, Ht, Hall. unfold is_terminal. by setoid_rewrite eqs_true. }
  rewrite <-Ht, <-Hs in Hsucc. rewrite <-Ha in Hact. rewrite <-Ht, <-Ha, <-Hterm in Hsplit.
  unfold members_count in Ha, Hterm, Hsplit. rewrite <-Ha in Ha0. rewrite <-Hterm in Ht0.
  split.
  - lia.
  - rewrite Ht. unfold members_count. apply count_true.
  - rewrite <-Hex, <-Hover. clear Ht Ha Hterm Hs. revert Heq. case_bool_decide as H1; [case_bool_decide as H2|]; cbn.
    + intros Heq. simplify_eq. tauto.
    + case_bool_decide; intros Heq; simplify_eq; (split; [done|]); intros [? ?]; exfalso; lia.
    + case_bool_decide; intros Heq; simplify_eq; (split; [done|]); intros [? ?]; exfalso; lia.
  - clear Ht Ha Hterm Hs. intros Hp. destruct (bool_decide (0 < total) && bool_decide (terminal = total)) eqn:Hb; [|by case_bool_decide; simplify_eq].
    apply andb_true_iff in Hb as [_ Hb%bool_decide_eq_true]. pose proof (proj1 Hover Hb) as Hover'.
    trans (succeeded = total).
    + case_bool_decide; [|case_bool_decide]; simplify_eq; split; intros ?; try done; try lia; exfalso; lia.
    + rewrite Hsucc. unfold has_outcome. split; intros Hx k j Hj Hm; specialize (Hx k j Hj Hm).
      * apply andb_true_iff in Hx as [_ Hx]. destruct (j_outcome j) as [o|]; [|done]. rewrite outcome_one in Hx. by bool_step; subst.
      * unfold is_terminal. rewrite (Hover' k j Hj Hm), Hx, outcome_one. done.
  - clear Ht Ha Hterm Hs. intros Hp. destruct (bool_decide (0 < total) && bool_decide (terminal = total)); [by simplify_eq|].
    rewrite <-Hact. case_bool_decide; simplify_eq; (split; [done|]); split; intros ?; try done; exfalso; lia.
Qed.

(** A collection snapshot is the truth about its members.  The reported counts
    are those of the member jobs and add up; the phase is terminal exactly when
    there is a member and all are over; a terminal collection succeeds exactly
    when every member did; and an open one runs exactly when a member is active. *)
Theorem scanCollection_sound d id c col :
  reachable d → scanCollection d id c = Some col →
  snapshot_of d (in_collection id) (col_Phase col) (col_Outcome col) (col_Total col)
    (col_Total col - col_Active col - col_Terminal col) (col_Active col) (col_Terminal col) ∧
  col_Terminal col = col_Succeeded col + col_Canceled col + col_Failed col.
Proof.
  intros Hr Hs. pose proof (reachable_inv _ Hr) as I. unfold scanCollection in Hs.
  apply bind_Some in Hs as (n & _ & Hs).
  pose proof (members_outcomes d (in_collection id) I) as Hout.
  match type of Hs with (let '(_, _) := ?v in _) = _ => destruct v as [phase outcome] eqn:Hv end.
  injection Hs as <-. cbn. split; [|exact Hout].
  eapply snapshot_computed; [exact I|reflexivity..|exact Hout| | |exact Hv]; apply count_nonneg.
Qed.
End claims.
