(* ===== verification/Projection.v ===== *)
(** * Requests as the service sees them

    [internal/contracts/decoder.go]: a decoded, sealed request is projected to the facts that admission
    needs, and [internal/httpapi/api.go] ([domainSubmission], [submitCollection], [submitGraph]) hands
    the projection to the store as a submission. *)
From S2P Require Import Prelude Regex Names Domain TargetSpec Url Utf8 Number Kahn Graph Contract Json Sha256 Paths Duration Clone Validate Normalize Wire Documents Codec Sealing Records Db Tx Constraints Auth Jobs.

(** ** The projected types *)

(** A [json.RawMessage] that holds the canonical text of a sealed document: the text, with the document
    it is the text of. *)
Record message (A : Type) := { msg_Document : A; msg_Text : bytes }.
Arguments msg_Document {A} _.
Arguments msg_Text {A} _.

Record ExecutionFeatures := {
  xf_DirectCommand : bool; xf_Resources : bool; xf_TemporaryStorage : bool; xf_Artifacts : bool;
  xf_Extensions : bool; xf_EnvironmentProfile : bool; xf_Secrets : bool; xf_RetryMaxRuns : Z;
  xf_SchedulerEnvironmentOverride : bool }.

Record JobRequest := {
  pj_Namespace : string; pj_Name : string; pj_Labels : gmap string string; pj_Target : string;
  pj_Partition : string; pj_RuntimeKind : string; pj_OperatingSystems : list string;
  pj_Architectures : list string; pj_Capabilities : list string; pj_ArtifactStores : list string;
  pj_WorkloadDigest : string; pj_WorkloadDocument : message Workload;
  pj_RequestDigest : string; pj_RequestDocument : bytes; pj_ExecutionFeatures : ExecutionFeatures }.

Record CollectionRequest := {
  pc_Namespace : string; pc_Name : string; pc_Labels : gmap string string; pc_MaxActive : Z;
  pc_FailurePolicy : string; pc_ArrayPolicy : string; pc_RequestDigest : string;
  pc_RequestDocument : bytes; pc_Items : list JobRequest }.

Record GraphEdge := { pe_From : string; pe_To : string; pe_Predicate : string; pe_Outcomes : list string }.

Record GraphRequest := {
  pg_Namespace : string; pg_Name : string; pg_Labels : gmap string string; pg_MaxActive : Z;
  pg_UnsatisfiedPolicy : string; pg_RequestDigest : string; pg_RequestDocument : bytes;
  pg_Nodes : list JobRequest; pg_Edges : list GraphEdge }.

(** ** Facts about a workload *)

(** One iteration of the loops over inputs and outputs. *)
Definition add_artifact_host (context : string) (seen : gset string) (uri : string) : result (gset string) :=
  match url_Parse uri with
  | Some parsed => Ok ({[u_Host parsed]} ∪ seen)
  | None => Err (Wrapf context [] (Errorf "invalid URL" []))
  end.

Definition workloadArtifactStores (workload : Workload) : result (list string) :=
  match ws_Artifacts (w_Spec workload) with
  | None => Ok []
  | Some artifacts =>
      seen ← for_range (add_artifact_host "parse input artifact URI: %w") ∅ (ia_Source <$> art_Inputs artifacts);
      seen ← for_range (add_artifact_host "parse output artifact URI: %w") seen (oa_Destination <$> art_Outputs artifacts);
      Ok (sort_strings (elements seen))
  end.

Definition scheduler_override (name : string) : bool :=
  eqs name "CUDA_VISIBLE_DEVICES" || eqs name "ROCR_VISIBLE_DEVICES" || has_prefix (bytes_of "SLURM_") (bytes_of name).

Definition executionFeatures (workload : Workload) : ExecutionFeatures :=
  let spec := w_Spec workload in
  {| xf_DirectCommand := negb (eqs (c_Executable (ws_Command spec)) "") && is_nil (c_Shell (ws_Command spec));
     xf_Resources := negb (is_nil (ws_Resources spec));
     xf_TemporaryStorage := from_option (λ r, negb (eqs (res_TemporaryStorage r) "")) false (ws_Resources spec);
     xf_Artifacts := negb (is_nil (ws_Artifacts spec));
     xf_Extensions := negb (bool_decide (ws_Extensions spec = ∅));
     xf_EnvironmentProfile := from_option (λ env, negb (eqs (env_Profile env) "")) false (ws_Environment spec);
     xf_Secrets := from_option (λ env, negb (bool_decide (slice_len (env_Secrets env) = 0))) false (ws_Environment spec);
     xf_RetryMaxRuns := rp_MaxRuns (ep_Retry (ws_Policy spec));
     xf_SchedulerEnvironmentOverride :=
       from_option (λ env, existsb scheduler_override (map_to_list (env_Values env)).*1) false (ws_Environment spec) |}.

(** A copy of the labels; an empty map and no map are not distinguished. *)
Definition cloneLabels (labels : gmap string string) : gmap string string := labels.

(** ** Projection *)

Definition projectSealedJob (sealed : SealedJobRequest) : result JobRequest :=
  let document := sjr_Document sealed in
  let workload := wb_Document (jrs_Workload (jr_Spec document)) in
  let requirement (f : Requirements → list string) := from_option f [] (ws_Requirements (w_Spec workload)) in
  sealedWorkload ← wrap "seal canonical workload: %w" [] (SealWorkload workload);
  stores ← wrap "project workload artifact stores: %w" [] (workloadArtifactStores workload);
  Ok {| pj_Namespace := jrm_Namespace (jr_Metadata document); pj_Name := jrm_Name (jr_Metadata document);
        pj_Labels := cloneLabels (jrm_Labels (jr_Metadata document));
        pj_Target := pl_Target (jrs_Placement (jr_Spec document));
        pj_Partition := pl_Partition (jrs_Placement (jr_Spec document));
        pj_RuntimeKind := rt_Kind (ws_Runtime (w_Spec workload));
        pj_OperatingSystems := requirement req_OperatingSystems;
        pj_Architectures := requirement req_Architectures;
        pj_Capabilities := requirement req_Capabilities;
        pj_ArtifactStores := stores;
        pj_WorkloadDigest := sjr_WorkloadDigest sealed;
        pj_WorkloadDocument := {| msg_Document := sw_Document sealedWorkload; msg_Text := sw_CanonicalJSON sealedWorkload |};
        pj_RequestDigest := sjr_RequestDigest sealed; pj_RequestDocument := sjr_CanonicalJSON sealed;
        pj_ExecutionFeatures := executionFeatures workload |}.

(** The package decodes with the default limits. *)
Definition limits : DecodeLimits := {| MaxBytes := 0; MaxDepth := 0 |}.

Definition DecodeJobRequest (source : bytes) : result JobRequest :=
  sealed ← wrap "decode shared job request: %w" [] (Codec.DecodeJobRequest source limits);
  projectSealedJob sealed.

(** A child of a collection or graph is sealed as a job request of its own. *)
Definition project_child (seal project namespace name : string) (labels : gmap string string)
    (workload : WorkloadBinding) (placement : Placement) : result JobRequest :=
  child ← wrap seal [name] (SealJobRequest {|
    jr_APIVersion := V1Alpha1; jr_Kind := JobRequestKind;
    jr_Metadata := {| jrm_Namespace := namespace; jrm_Name := name; jrm_Labels := cloneLabels labels |};
    jr_Spec := {| jrs_Workload := workload; jrs_Placement := placement |} |});
  wrap project [name] (projectSealedJob child).

Definition DecodeCollectionRequest (source : bytes) : result CollectionRequest :=
  sealed ← wrap "decode shared collection request: %w" [] (Codec.DecodeCollectionRequest source limits);
  let document := scr_Document sealed in
  let meta := cq_Metadata document in
  items ← for_range (λ items item,
      projected ← project_child "seal collection child %q: %w" "project collection child %q: %w"
                    (crm_Namespace meta) (ci_Name item) (crm_Labels meta) (ci_Workload item) (ci_Placement item);
      Ok (items ++ [projected])) [] (crs_Items (cq_Spec document));
  Ok {| pc_Namespace := crm_Namespace meta; pc_Name := crm_Name meta; pc_Labels := cloneLabels (crm_Labels meta);
        pc_MaxActive := crs_MaxActive (cq_Spec document); pc_FailurePolicy := crs_FailurePolicy (cq_Spec document);
        pc_ArrayPolicy := crs_ArrayPolicy (cq_Spec document); pc_RequestDigest := scr_RequestDigest sealed;
        pc_RequestDocument := scr_CanonicalJSON sealed; pc_Items := items |}.

Definition DecodeGraphRequest (source : bytes) : result GraphRequest :=
  sealed ← wrap "decode shared graph request: %w" [] (Codec.DecodeGraphRequest source limits);
  let document := sgr_Document sealed in
  let meta := gr_Metadata document in
  nodes ← for_range (λ nodes node,
      projected ← project_child "seal graph node %q: %w" "project graph node %q: %w"
                    (grm_Namespace meta) (gn_Name node) (grm_Labels meta) (gn_Workload node) (gn_Placement node);
      Ok (nodes ++ [projected])) [] (grs_Nodes (gr_Spec document));
  Ok {| pg_Namespace := grm_Namespace meta; pg_Name := grm_Name meta; pg_Labels := cloneLabels (grm_Labels meta);
        pg_MaxActive := grs_MaxActive (gr_Spec document);
        pg_UnsatisfiedPolicy := grs_UnsatisfiedPolicy (gr_Spec document); pg_RequestDigest := sgr_RequestDigest sealed;
        pg_RequestDocument := sgr_CanonicalJSON sealed; pg_Nodes := nodes;
        pg_Edges := (λ edge, {| pe_From := ge_From edge; pe_To := ge_To edge; pe_Predicate := ge_Predicate edge;
                                pe_Outcomes := ge_Outcomes edge |}) <$> grs_Edges (gr_Spec document) |}.
