(* ===== verification/Admission.v ===== *)
(** * From the request to the store

    [internal/httpapi/api.go] hands the projection of a decoded request to the store.  What the decoder
    accepts, the validators of the store accept too, so a request is only ever refused for what it asks. *)
From S2P Require Import Prelude Regex Names Domain TargetSpec Url Utf8 Number Kahn Graph Contract Json Sha256 Paths Duration Clone Validate Normalize Wire Documents Codec Sealing Conformance Records Db Tx Constraints Auth Jobs Groups GraphStore Projection.

(** ** Submissions *)

Definition domainSubmission (decoded : JobRequest) : JobSubmission :=
  let features := pj_ExecutionFeatures decoded in
  {| js_Namespace := pj_Namespace decoded; js_Name := pj_Name decoded; js_Labels := pj_Labels decoded;
     js_Target := pj_Target decoded; js_Partition := pj_Partition decoded; js_RuntimeKind := pj_RuntimeKind decoded;
     js_OperatingSystems := pj_OperatingSystems decoded; js_Architectures := pj_Architectures decoded;
     js_Capabilities := pj_Capabilities decoded; js_ArtifactStores := pj_ArtifactStores decoded;
     js_WorkloadDigest := pj_WorkloadDigest decoded;
     js_WorkloadDocument := raw_json (msg_Document (pj_WorkloadDocument decoded));
     js_RequestDigest := pj_RequestDigest decoded; js_RequestDocument := raw_json (string_of (pj_RequestDocument decoded));
     js_ExecutionFeatures :=
       {| ef_DirectCommand := xf_DirectCommand features; ef_Resources := xf_Resources features;
          ef_TemporaryStorage := xf_TemporaryStorage features; ef_Artifacts := xf_Artifacts features;
          ef_Extensions := xf_Extensions features; ef_EnvironmentProfile := xf_EnvironmentProfile features;
          ef_Secrets := xf_Secrets features; ef_RetryMaxRuns := xf_RetryMaxRuns features;
          ef_SchedulerEnvironmentOverride := xf_SchedulerEnvironmentOverride features |} |}.

(** The submission [submitCollection] builds. *)
Definition collection_submission (decoded : CollectionRequest) : CollectionSubmission :=
  {| cs_Namespace := pc_Namespace decoded; cs_Name := pc_Name decoded; cs_Labels := pc_Labels decoded;
     cs_MaxActive := pc_MaxActive decoded; cs_FailurePolicy := pc_FailurePolicy decoded;
     cs_ArrayPolicy := pc_ArrayPolicy decoded; cs_RequestDigest := pc_RequestDigest decoded;
     cs_RequestDocument := raw_json (string_of (pc_RequestDocument decoded));
     cs_Items := domainSubmission <$> pc_Items decoded |}.

(** The submission [submitGraph] builds. *)
Definition graph_submission (decoded : GraphRequest) : GraphSubmission :=
  {| gs_Namespace := pg_Namespace decoded; gs_Name := pg_Name decoded; gs_Labels := pg_Labels decoded;
     gs_MaxActive := pg_MaxActive decoded; gs_UnsatisfiedPolicy := pg_UnsatisfiedPolicy decoded;
     gs_RequestDigest := pg_RequestDigest decoded;
     gs_RequestDocument := raw_json (string_of (pg_RequestDocument decoded));
     gs_Nodes := domainSubmission <$> pg_Nodes decoded;
     gs_Edges := (λ edge, {| ges_From := pe_From edge; ges_To := pe_To edge; ges_Predicate := pe_Predicate edge;
                             ges_Outcomes := pe_Outcomes edge |}) <$> pg_Edges decoded |}.

(** ** Artifact stores *)

Definition host_of (uri : string) : string := from_option u_Host "" (url_Parse uri).
Definition workload_uris (w : Workload) : list string :=
  from_option (λ a, (ia_Source <$> art_Inputs a) ++ (oa_Destination <$> art_Outputs a)) [] (ws_Artifacts (w_Spec w)).

Lemma validateName_ok field v : validateName field v = Ok tt ↔ ValidName v = true.
Proof.
  unfold validateName, ValidName. rewrite bind_unit_ok, !fail_if_ok, orb_false_iff, negb_false_iff. change namePattern with portableNamePattern.
  split; [naive_solver|]. intros Hv. pose proof (proj1 (ValidName_iff v) Hv) as (Hl & _). rewrite length_list_ascii in Hl.
  split_and!; [|apply bool_decide_eq_false; unfold maximumNameBytes, len; lia|done].
  case_bool_decide as He; [|done]. by rewrite He in Hv.
Qed.

Lemma validateLogicalURI_host v scheme : validateLogicalURI v scheme = Ok tt →
  ∃ u, url_Parse v = Some u ∧ ValidName (u_Host u) = true.
Proof.
  unfold validateLogicalURI. destruct (url_Parse v) as [u|]; [|done]. destruct (_ || _); [done|].
  intros [Hn _]%bind_unit_ok. exists u. by rewrite <-(validateName_ok (scheme +:+ " store")).
Qed.

Lemma validateArtifacts_uris a : validateArtifacts a = Ok tt →
  Forall (λ uri, validateLogicalURI uri "artifact" = Ok tt) ((ia_Source <$> art_Inputs a) ++ (oa_Destination <$> art_Outputs a)).
Proof.
  unfold validateArtifacts. intros [_ (seen & Hin & (seen' & Hout & _)%bind_ok)%bind_ok]%bind_unit_ok.
  rewrite Forall_app, !Forall_fmap. split.
  - apply (for_range_invariant _ (λ l _, Forall (λ i, validateLogicalURI (ia_Source i) "artifact" = Ok tt) l)) in Hin; [done|constructor|].
    intros l x rest t t' _ Hl (u & _ & [Hx _]%bind_unit_ok)%bind_ok. apply Forall_app. split; [done|]. constructor; [|constructor].
    unfold validateInputArtifact in Hx. by apply bind_unit_ok in Hx as [Hx%wrap_ok _].
  - apply (for_range_invariant _ (λ l _, Forall (λ o, validateLogicalURI (oa_Destination o) "artifact" = Ok tt) l)) in Hout; [done|constructor|].
    intros l x rest t t' _ Hl (u & _ & [Hx _]%bind_unit_ok)%bind_ok. apply Forall_app. split; [done|]. constructor; [|constructor].
    unfold validateOutputArtifact in Hx. by apply bind_unit_ok in Hx as [_ Hx%wrap_ok].
Qed.

Lemma workload_uris_valid w : ValidateWorkload w = Ok tt →
  Forall (λ uri, ∃ u, url_Parse uri = Some u ∧ ValidName (u_Host u) = true) (workload_uris w).
Proof.
  unfold ValidateWorkload, workload_uris. cbv zeta. chain_iff. intros (_ & _ & _ & _ & _ & _ & _ & _ & Ha & _).
  destruct (ws_Artifacts (w_Spec w)) as [a|]; [|constructor]. cbn in *.
  eapply Forall_impl; [by apply validateArtifacts_uris|]. intros uri. apply validateLogicalURI_host.
Qed.

Lemma add_artifact_hosts context seen uris :
  Forall (λ uri, ∃ u, url_Parse uri = Some u ∧ ValidName (u_Host u) = true) uris →
  for_range (add_artifact_host context) seen uris = Ok (list_to_set (host_of <$> uris) ∪ seen).
Proof.
  intros Huris. revert seen. induction Huris as [|uri uris (u & Hu & _) _ IH]; intros seen.
  - cbn. f_equal. set_solver.
  - assert (host_of uri = u_Host u) as Hh by (unfold host_of; by rewrite Hu). cbn [for_range].
    assert (add_artifact_host context seen uri = Ok ({[u_Host u]} ∪ seen)) as -> by (unfold add_artifact_host; by rewrite Hu).
    cbn [mbind result_bind]. rewrite IH, fmap_cons, Hh. cbn. f_equal. set_solver.
Qed.

(** The stores of a valid workload: the hosts of its artifact URIs, each once and in order. *)
Lemma workloadArtifactStores_ok w : ValidateWorkload w = Ok tt →
  ∃ stores, workloadArtifactStores w = Ok stores ∧ strictly_sorted stores ∧ Forall (λ s, ValidName s = true) stores ∧
    ∀ s, s ∈ stores ↔ ∃ uri, uri ∈ workload_uris w ∧ host_of uri = s.
Proof.
  intros Hw%workload_uris_valid. unfold workloadArtifactStores. revert Hw. unfold workload_uris.
  destruct (ws_Artifacts (w_Spec w)) as [a|]; cbn [from_option].
  2: { intros _. exists []. split_and!; [done|constructor|constructor|]. intros s. split; [by intros ?%elem_of_nil|].
       by intros (uri & ?%elem_of_nil & _). }
  intros Hall. pose proof Hall as [Hin Hout]%Forall_app. rewrite add_artifact_hosts by done. cbn.
  rewrite add_artifact_hosts by done. cbn. eexists. split; [done|].
  match goal with |- context [elements ?X] => set (seen := X) end.
  assert (∀ s, s ∈ sort_strings (elements seen) ↔ ∃ uri, uri ∈ (ia_Source <$> art_Inputs a) ++ (oa_Destination <$> art_Outputs a) ∧ host_of uri = s) as Hmem.
  { intros s. rewrite elem_of_sort_strings, elem_of_elements. unfold seen.
    rewrite !elem_of_union, !elem_of_list_to_set, !list_elem_of_fmap. setoid_rewrite elem_of_app. set_solver. }
  split_and!; [|apply Forall_forall; intros s|done].
  - apply strictly_sorted_alt. split; [apply sort_strings_sorted|]. rewrite sort_strings_perm. apply NoDup_elements.
  - intros (uri & Huri & <-)%Hmem. rewrite Forall_forall in Hall. destruct (Hall uri Huri) as (u & Hu & Hn).
    unfold host_of. by rewrite Hu.
Qed.

(** ** Jobs *)

Lemma SealJobRequest_ok v s : SealJobRequest v = Ok s →
  ValidateJobRequest (sjr_Document s) = Ok tt ∧ marshalCanonical (sjr_Document s) = Ok (sjr_CanonicalJSON s) ∧
  sjr_RequestDigest s = digest (sjr_CanonicalJSON s) ∧
  sjr_WorkloadDigest s = wb_Digest (jrs_Workload (jr_Spec (sjr_Document s))) ∧
  jr_Metadata (sjr_Document s) = clone (jr_Metadata v) ∧
  jrs_Placement (jr_Spec (sjr_Document s)) = clone (jrs_Placement (jr_Spec v)).
Proof.
  unfold SealJobRequest. intros (b & Hb & (Hv & (c & Hc%wrap_ok & [= <-])%bind_ok)%bind_unit_ok)%bind_ok. done.
Qed.

(** What validation says about a job request: valid names, and a workload that is sealed as it is. *)
Record valid_job (meta : JobRequestMetadata) (binding : WorkloadBinding) (placement : Placement) : Prop := {
  vj_namespace : ValidName (jrm_Namespace meta) = true;
  vj_name : ValidName (jrm_Name meta) = true;
  vj_labels : ∃ name, validateStringMap name (jrm_Labels meta) maximumNameBytes = Ok tt;
  vj_workload : ∃ c, SealWorkload (wb_Document binding) =
    Ok {| sw_Document := wb_Document binding; sw_CanonicalJSON := c; sw_Digest := wb_Digest binding |};
  vj_target : ValidName (pl_Target placement) = true;
  vj_partition : pl_Partition placement = "" ∨ ValidName (pl_Partition placement) = true }.

Lemma validate_nonempty_ok f v : validate_nonempty f v = Ok tt ↔ v = "" ∨ f v = Ok tt.
Proof. unfold validate_nonempty. case_bool_decide; naive_solver. Qed.

Lemma valid_job_intro v : ValidateJobRequest v = Ok tt →
  valid_job (jr_Metadata v) (jrs_Workload (jr_Spec v)) (jrs_Placement (jr_Spec v)).
Proof.
  unfold ValidateJobRequest, validatePlacement. cbv zeta. chain_iff. rewrite !validateName_ok.
  intros (_ & _ & Hns & Hn & Hl & _ & (s & Hs%wrap_ok & H)%bind_ok). revert H. chain_iff. rewrite validateName_ok, !negb_false_iff, !bool_decide_eq_true.
  intros (Hd & Hdoc & Ht & Hp). split; try done.
  - by eexists.
  - exists (sw_CanonicalJSON s). rewrite Hs. destruct s; cbn in *. by subst.
  - apply validate_nonempty_ok in Hp as [?|Hp%wrap_ok]; [by left|right]. by apply validateName_ok in Hp.
Qed.

(** What a projected request carries to the store. *)
Record projected (r : JobRequest) : Prop := {
  pr_namespace : ValidName (pj_Namespace r) = true;
  pr_name : ValidName (pj_Name r) = true;
  pr_target : ValidName (pj_Target r) = true;
  pr_partition : pj_Partition r = "" ∨ ValidName (pj_Partition r) = true;
  pr_workload : SealWorkload (msg_Document (pj_WorkloadDocument r)) = Ok {|
    sw_Document := msg_Document (pj_WorkloadDocument r); sw_CanonicalJSON := msg_Text (pj_WorkloadDocument r);
    sw_Digest := pj_WorkloadDigest r |};
  pr_request : pj_RequestDigest r = digest (pj_RequestDocument r) ∧
    canonicalJSON (pj_RequestDocument r) defaultMaximumJSONDepth = Ok (pj_RequestDocument r);
  pr_stores : strictly_sorted (pj_ArtifactStores r) ∧ Forall (λ s, ValidName s = true) (pj_ArtifactStores r) ∧
    ∀ s, s ∈ pj_ArtifactStores r ↔ ∃ uri, uri ∈ workload_uris (msg_Document (pj_WorkloadDocument r)) ∧ host_of uri = s;
  pr_features : pj_ExecutionFeatures r = executionFeatures (msg_Document (pj_WorkloadDocument r)) }.

(** A sealed request is always projected. *)
Lemma projectSealedJob_ok v s : SealJobRequest v = Ok s →
  ∃ r, projectSealedJob s = Ok r ∧ projected r ∧
    pj_Namespace r = jrm_Namespace (jr_Metadata (sjr_Document s)) ∧ pj_Name r = jrm_Name (jr_Metadata (sjr_Document s)) ∧
    pj_Labels r = jrm_Labels (jr_Metadata (sjr_Document s)) ∧ pj_WorkloadDigest r = sjr_WorkloadDigest s ∧
    pj_RequestDigest r = sjr_RequestDigest s.
Proof.
  intros (Hv%valid_job_intro & Hm & Hd & Hw & _)%SealJobRequest_ok. destruct Hv as [Hns Hn _ [c Hs] Ht Hp].
  pose proof Hs as (_ & Hvalid & _)%SealWorkload_ok. cbn in Hvalid.
  destruct (workloadArtifactStores_ok _ Hvalid) as (stores & Hstores & Hsorted & Hnames & Hmem).
  unfold projectSealedJob. rewrite Hs, Hstores. cbn [wrap mbind result_bind]. eexists. split; [done|]. cbn. split; [|done].
  split; cbn; try done; [by rewrite Hw|]. split; [done|]. apply wrap_ok in Hm. by eapply canonicalJSON_fixed.
Qed.

Lemma valid_name_nonempty v : ValidName v = true → eqs v "" = false.
Proof. intros Hv. apply eqs_false. intros ->. by vm_compute in Hv. Qed.

(** The store accepts a projected request. *)
Lemma projected_valid r : projected r → validateSubmission (domainSubmission r) = Ok tt.
Proof.
  intros [Hns Hn Ht _ Hw [Hd _] _ _]. unfold validateSubmission. cbn.
  rewrite (valid_name_nonempty _ Hns), (valid_name_nonempty _ Hn), (valid_name_nonempty _ Ht). apply SealWorkload_ok in Hw as (_ & _ & _ & Hdig). cbn in Hdig. by rewrite Hd, Hdig.
Qed.

(** What the decoder accepts, the store can judge.  Every job request that decodes is projected
    without a further error; the projection carries a sealed workload with its own text and digest, the
    canonical request with its digest, exactly the artifact stores its URIs name, each once and in order;
    and the submission built from it passes the validation of the store. *)
Theorem decoded_job_admitted source sealed :
  Codec.DecodeJobRequest source limits = Ok sealed →
  ∃ r, DecodeJobRequest source = Ok r ∧ projected r ∧ validateSubmission (domainSubmission r) = Ok tt ∧
    pj_WorkloadDigest r = sjr_WorkloadDigest sealed ∧ pj_RequestDigest r = sjr_RequestDigest sealed.
Proof.
  intros Hd. pose proof Hd as (v & _ & Hs)%bind_ok. destruct (projectSealedJob_ok v sealed Hs) as (r & Hr & Hp & _ & _ & _ & Hw & Hq).
  exists r. unfold DecodeJobRequest. rewrite Hd. split_and!; try done. by apply projected_valid.
Qed.
Lemma decoded_job_admitted_witness :
  ∃ sealed, Codec.DecodeJobRequest job_request_minimal limits = Ok sealed ∧
  ∃ r, DecodeJobRequest job_request_minimal = Ok r ∧ projected r ∧ validateSubmission (domainSubmission r) = Ok tt ∧
    pj_WorkloadDigest r = sjr_WorkloadDigest sealed ∧ pj_RequestDigest r = sjr_RequestDigest sealed.
Proof.
  destruct (Codec.DecodeJobRequest job_request_minimal limits) as [sealed|] eqn:Hs.
  2: { pose proof job_request_minimal_outcome as Ho. unfold job_request_outcome in Ho. change default_limits with limits in Ho.
       rewrite Hs in Ho. discriminate Ho. }
  exists sealed. split; [reflexivity|]. exact (decoded_job_admitted _ _ Hs).
Defined.

(** ** Collections and graphs *)

Lemma valid_name_clone (v : string) : ValidName v = true → clone v = v.
Proof.
  intros Hv. apply clone_string_id, utf8_ascii. eapply (pattern_ascii portableNamePattern); [|exact Hv]. vm_compute. reflexivity.
Qed.

(** A loop that appends one result per element maps its body over the list. *)
Lemma for_range_collect {A B} (f : A → result B) l acc r :
  for_range (λ acc x, y ← f x; Ok (acc ++ [y])) acc l = Ok r ↔ ∃ l', r = acc ++ l' ∧ Forall2 (λ x y, f x = Ok y) l l'.
Proof.
  revert acc. induction l as [|x l IH]; intros acc; cbn.
  - split; [intros [= ->]; exists []; by rewrite app_nil_r|]. intros (l' & -> & ->%Forall2_nil_inv_l). by rewrite app_nil_r.
  - rewrite bind_ok. setoid_rewrite bind_ok. setoid_rewrite IH. split.
    + intros (acc' & (y & Hy & [= <-]) & l' & -> & Hl). exists (y :: l'). rewrite <-app_assoc. split; [done|]. by constructor.
    + intros (l' & -> & (y & l'' & Hy & Hl & ->)%Forall2_cons_inv_l). exists (acc ++ [y]). split; [by exists y|].
      exists l''. by rewrite <-app_assoc.
Qed.

(** A projected child bears the names it was given. *)
Lemma project_child_ok seal project namespace name labels workload placement r :
  ValidName namespace = true → ValidName name = true →
  project_child seal project namespace name labels workload placement = Ok r →
  projected r ∧ pj_Namespace r = namespace ∧ pj_Name r = name.
Proof.
  intros Hns Hn. unfold project_child. intros (s & Hs%wrap_ok & Hp%wrap_ok)%bind_ok.
  destruct (projectSealedJob_ok _ _ Hs) as (r' & Hr' & Hpr & Hrn & Hrm & _). rewrite Hp in Hr'. injection Hr' as <-.
  apply SealJobRequest_ok in Hs as (_ & _ & _ & _ & Hmeta & _). rewrite Hmeta in Hrn, Hrm.
  split; [done|]. rewrite Hrn, Hrm. split; [by apply valid_name_clone|by apply valid_name_clone].
Qed.

(** What the children of a request carry: the names of the request, each child once. *)
Record children (namespace : string) (names : list string) (l : list JobRequest) : Prop := {
  ch_projected : Forall projected l;
  ch_namespace : Forall (λ r, pj_Namespace r = namespace) l;
  ch_names : pj_Name <$> l = names;
  ch_distinct : NoDup names }.

Lemma children_length namespace names l : children namespace names l → length l = length names.
Proof. intros [_ _ <- _]. by rewrite length_fmap. Qed.

Section children.
Context {A : Type} (name : A → string) (workload : A → WorkloadBinding) (placement : A → Placement).
Context (seal project namespace : string) (labels : gmap string string).

Lemma project_children l r :
  ValidName namespace = true → Forall (λ x, ValidName (name x) = true) l → NoDup (name <$> l) →
  for_range (λ acc x, y ← project_child seal project namespace (name x) labels (workload x) (placement x);
                      Ok (acc ++ [y])) [] l = Ok r →
  children namespace (name <$> l) r.
Proof.
  intros Hns Hnames Hdup (r' & -> & Hl)%for_range_collect. cbn.
  assert (Forall2 (λ x y, projected y ∧ pj_Namespace y = namespace ∧ pj_Name y = name x) l r') as Hall.
  { clear Hdup. induction Hl as [|x y l r' Hxy _ IH]; [constructor|]. inversion Hnames; subst.
    constructor; [by eapply project_child_ok|by apply IH]. }
  split; [| | |done].
  - eapply Forall2_Forall_r; [exact Hall|]. apply Forall_true. naive_solver.
  - eapply Forall2_Forall_r; [exact Hall|]. apply Forall_true. naive_solver.
  - clear -Hall. induction Hall as [|x y l r' (_ & _ & Hy) _ IH]; [done|]. by rewrite !fmap_cons, Hy, IH.
Qed.
End children.

Lemma is_ok_unit (r : result unit) : is_ok r = true ↔ r = Ok tt.
Proof. rewrite is_ok_spec. split; [by intros [[] ?]|by eexists]. Qed.

(** The loops over items and nodes accept lists of valid children with distinct names. *)
Lemma collection_items_ok namespace l :
  (∃ r, for_range (Codec.validateCollectionItem namespace) ∅ l = Ok r) →
  Forall (λ item, ValidName (ci_Name item) = true) l ∧ NoDup (ci_Name <$> l).
Proof.
  rewrite (for_range_seen ci_Name (λ item, ValidName (ci_Name item) = true ∧
    ValidateJobRequest (child_request namespace (ci_Name item) (ci_Workload item) (ci_Placement item)) = Ok tt)).
  - intros [Hall Hd]. split; [|done]. eapply Forall_impl; [exact Hall|]. naive_solver.
  - intros seen x r. unfold Codec.validateCollectionItem. chain_iff. rewrite validateName_ok, bool_decide_eq_false. naive_solver.
Qed.

Lemma domain_items_ok namespace names l : children namespace names l →
  ∃ r, for_range (validateCollectionItem namespace) ∅ (domainSubmission <$> l) = Ok r.
Proof.
  intros [Hp Hns Hnames Hd]. apply (for_range_seen js_Name (λ item, ValidName (js_Name item) = true ∧ js_Namespace item = namespace ∧
    validateSubmission item = Ok tt)).
  - intros seen x r. unfold validateCollectionItem. chain_iff. rewrite orb_false_iff, !negb_false_iff, bool_decide_eq_false.
    rewrite eqs_true, is_ok_unit. naive_solver.
  - split.
    + rewrite Forall_fmap. rewrite Forall_forall in Hp, Hns. apply Forall_forall. intros x Hx. cbn.
      split_and!; [by apply pr_name, Hp|by apply Hns|by apply projected_valid, Hp].
    + rewrite <-list_fmap_compose. by rewrite <-Hnames in Hd.
Qed.

Lemma SealCollectionRequest_ok v s : SealCollectionRequest v = Ok s →
  ValidateCollectionRequest (scr_Document s) = Ok tt ∧ marshalCanonical (scr_Document s) = Ok (scr_CanonicalJSON s) ∧
  scr_RequestDigest s = digest (scr_CanonicalJSON s).
Proof.
  unfold SealCollectionRequest. by intros (items & _ & (Hv & (c & Hc%wrap_ok & [= <-])%bind_ok)%bind_unit_ok)%bind_ok.
Qed.

(** What the store checks of a collection beyond its items. *)
Record valid_collection (v : Contract.CollectionRequest) : Prop := {
  vc_namespace : ValidName (crm_Namespace (cq_Metadata v)) = true;
  vc_name : ValidName (crm_Name (cq_Metadata v)) = true;
  vc_count : 1 ≤ slice_len (crs_Items (cq_Spec v)) ≤ 10000;
  vc_active : 1 ≤ crs_MaxActive (cq_Spec v) ≤ slice_len (crs_Items (cq_Spec v));
  vc_failure : crs_FailurePolicy (cq_Spec v) ∈ ["continue"; "fail-fast"];
  vc_array : crs_ArrayPolicy (cq_Spec v) ∈ ["never"; "prefer"; "require"];
  vc_items : Forall (λ item, ValidName (ci_Name item) = true) (crs_Items (cq_Spec v)) ∧
    NoDup (ci_Name <$> crs_Items (cq_Spec v)) }.

Lemma valid_collection_intro v : ValidateCollectionRequest v = Ok tt → valid_collection v.
Proof.
  unfold ValidateCollectionRequest, maximumCollectionItems. cbv zeta. chain_iff.
  rewrite !validateName_ok, !orb_false_iff, !negb_false_iff, !slices_Contains_spec, !bool_decide_eq_false.
  intros (_ & Hns & Hn & _ & Hc & Ha & Hf & Hp & Hr & _).
  assert (0 ≤ slice_len (crs_Items (cq_Spec v))) by (unfold slice_len; lia). split; try done; try lia.
  by apply (collection_items_ok (crm_Namespace (cq_Metadata v))).
Qed.

Lemma canonical_digest_nonempty c : eqs (digest c) "" = false.
Proof. done. Qed.

(** A decoded collection is one the store can judge.  Its items are projected requests with the
    names of the request, each once, in the namespace of the collection; and the submission built from it
    passes every check of [validateCollectionSubmission], so the store never refuses it as malformed. *)
Theorem decoded_collection_admitted source r :
  DecodeCollectionRequest source = Ok r →
  validateCollectionSubmission (collection_submission r) = Ok tt ∧
  (∃ names, children (pc_Namespace r) names (pc_Items r)) ∧
  pc_RequestDigest r = digest (pc_RequestDocument r) ∧
  canonicalJSON (pc_RequestDocument r) defaultMaximumJSONDepth = Ok (pc_RequestDocument r).
Proof.
  unfold DecodeCollectionRequest. intros (s & Hdec%wrap_ok & (items & Hitems & [= <-])%bind_ok)%bind_ok.
  apply bind_ok in Hdec as (v & _ & Hs). apply SealCollectionRequest_ok in Hs as (Hv%valid_collection_intro & Hm%wrap_ok & Hd).
  destruct Hv as [Hns Hn Hcount Hact Hf Ha [Hnames Hdup]].
  apply (project_children ci_Name ci_Workload ci_Placement) in Hitems as Hch; [|done..].
  pose proof (children_length _ _ _ Hch) as Hlen. rewrite length_fmap in Hlen.
  split_and!; [|by eexists|done|by eapply canonicalJSON_fixed].
  unfold validateCollectionSubmission, collection_submission.
  cbn [cs_Namespace cs_Name cs_MaxActive cs_FailurePolicy cs_ArrayPolicy cs_RequestDigest cs_RequestDocument cs_Items
    pc_Namespace pc_Name pc_MaxActive pc_FailurePolicy pc_ArrayPolicy pc_RequestDigest pc_RequestDocument pc_Items].
  rewrite Hns, Hn, Hd, canonical_digest_nonempty.
  assert (slice_len (domainSubmission <$> items) = slice_len (crs_Items (cq_Spec (scr_Document s)))) as Hl
    by (unfold slice_len; rewrite length_fmap; lia).
  rewrite Hl, !bool_decide_false by lia. rewrite !(proj2 (slices_Contains_spec _ _)) by done. cbn.
  destruct (domain_items_ok _ _ _ Hch) as [seen Hseen]. by rewrite Hseen.
Qed.

(** *** Graphs *)

Lemma SealGraphRequest_ok v s : SealGraphRequest v = Ok s →
  ValidateGraphRequest (sgr_Document s) = Ok tt ∧ marshalCanonical (sgr_Document s) = Ok (sgr_CanonicalJSON s) ∧
  sgr_RequestDigest s = digest (sgr_CanonicalJSON s).
Proof.
  unfold SealGraphRequest. by intros (nodes & _ & (Hv & (c & Hc%wrap_ok & [= <-])%bind_ok)%bind_unit_ok)%bind_ok.
Qed.

(** [validateGraphNodes] numbers the distinct valid names of the nodes in order. *)
Record numbered (names : list string) (nodes : gmap string nat) : Prop := {
  nb_valid : Forall (λ name, ValidName name = true) names;
  nb_distinct : NoDup names;
  nb_size : size nodes = length names;
  nb_index : ∀ name i, nodes !! name = Some i ↔ names !! i = Some name }.

Lemma validateGraphNodes_ok namespace l nodes :
  for_range (validateGraphNode namespace) ∅ l = Ok nodes → numbered (gn_Name <$> l) nodes.
Proof.
  intros Hrun. apply (for_range_invariant _ (λ seen nodes, numbered (gn_Name <$> seen) nodes)) in Hrun; [done| |].
  - split; [constructor|constructor|apply map_size_empty|]. intros name i. by rewrite lookup_empty.
  - intros seen x rest t t' _ [Hv Hd Hsz Hi] Hx. unfold validateGraphNode in Hx. revert Hx. chain_iff.
    rewrite validateName_ok, negb_false_iff. intros (Hn & Hnone & _ & [= <-]).
    assert (t !! gn_Name x = None) as Hnew by (by destruct (t !! gn_Name x)).
    assert (gn_Name x ∉ gn_Name <$> seen) as Hfresh.
    { intros [i Hl]%list_elem_of_lookup_1. apply Hi in Hl. congruence. }
    rewrite fmap_app. change (gn_Name <$> [x]) with [gn_Name x]. split.
    + apply Forall_app. by repeat constructor.
    + apply NoDup_app. split_and!; [done| |apply NoDup_singleton]. intros y Hy ->%list_elem_of_singleton. done.
    + rewrite map_size_insert_None by done. rewrite length_app, Hsz. cbn. lia.
    + intros name i. rewrite lookup_insert_Some, lookup_app_Some, Hi, Hsz, list_lookup_singleton_Some.
      split; [intros [[<- <-]|[? ?]]; [right; split; [done|split; [lia|done]]|by left]|].
      intros [Hl|(Hle & Hz & <-)]; [right; split; [|done]|left; split; [done|lia]].
      intros <-. apply Hfresh. by eapply list_elem_of_lookup_2.
Qed.

Record valid_graph (v : Contract.GraphRequest) : Prop := {
  vg_namespace : ValidName (grm_Namespace (gr_Metadata v)) = true;
  vg_name : ValidName (grm_Name (gr_Metadata v)) = true;
  vg_count : 1 ≤ slice_len (grs_Nodes (gr_Spec v)) ≤ 10000;
  vg_active : 1 ≤ grs_MaxActive (gr_Spec v) ≤ slice_len (grs_Nodes (gr_Spec v));
  vg_policy : grs_UnsatisfiedPolicy (gr_Spec v) ∈ ["skip"; "cancel"; "blocked"];
  vg_nodes : ∃ nodes, numbered (gn_Name <$> grs_Nodes (gr_Spec v)) nodes ∧
    Forall (edge_wf nodes) (grs_Edges (gr_Spec v));
  vg_edges : NoDup ((λ e, (ge_From e, ge_To e)) <$> grs_Edges (gr_Spec v));
  vg_acyclic : ∀ name, ¬ tc (depends (grs_Edges (gr_Spec v))) name name }.

Lemma valid_graph_intro v : ValidateGraphRequest v = Ok tt → valid_graph v.
Proof.
  unfold ValidateGraphRequest, validateGraphRequestHeader, validateGraphNodes, maximumGraphNodes. cbv zeta.
  intros [Hh (nodes & Hnodes%validateGraphNodes_ok & Hedges)%bind_ok]%bind_unit_ok. revert Hh. chain_iff.
  rewrite !validateName_ok, !orb_false_iff, !negb_false_iff, !slices_Contains_spec, !bool_decide_eq_false.
  intros (_ & Hns & Hn & _ & Hc & _ & Ha & Hp).
  assert (0 ≤ slice_len (grs_Nodes (gr_Spec v))) by (unfold slice_len; lia).
  pose proof Hnodes as [Hv Hd Hsz Hi].
  apply checkGraphEdges_iff in Hedges as (Hwf & Hdup & Hac).
  - split; try done; try lia. by exists nodes.
  - intros name i Hl%Hi. apply lookup_lt_Some in Hl. by rewrite length_fmap in Hl.
  - intros a b i Hx%Hi Hy%Hi. congruence.
  - intros name i Hl%Hi. rewrite Forall_forall in Hv. apply Hv. by eapply list_elem_of_lookup_2.
Qed.

Lemma domain_nodes_ok namespace names l : children namespace names l →
  for_range (validateGraphNodeSubmission namespace) ∅ (domainSubmission <$> l) = Ok (list_to_set names).
Proof.
  intros [Hp Hns Hnames Hd]. apply (for_range_seen_from js_Name (λ node, ValidName (js_Name node) = true ∧ js_Namespace node = namespace ∧
    validateSubmission node = Ok tt)).
  - intros seen x r. unfold validateGraphNodeSubmission. chain_iff. rewrite !orb_false_iff, !negb_false_iff, bool_decide_eq_false.
    rewrite eqs_true, is_ok_unit. naive_solver.
  - rewrite Forall_forall in Hp, Hns. assert (js_Name <$> (domainSubmission <$> l) = names) as ->
      by (rewrite <-list_fmap_compose; exact Hnames).
    split_and!; [|done|set_solver|set_solver]. rewrite Forall_fmap. apply Forall_forall. intros x Hx. cbn.
    split_and!; [by apply pr_name, Hp|by apply Hns|by apply projected_valid, Hp].
Qed.

(** The edge of a projected graph as the store sees it. *)
Definition edge_submission (edge : Graph.GraphEdge) : GraphEdgeSubmission :=
  {| ges_From := ge_From edge; ges_To := ge_To edge; ges_Predicate := ge_Predicate edge; ges_Outcomes := ge_Outcomes edge |}.

Lemma domain_edges_ok names nodes edges : numbered names nodes → Forall (edge_wf nodes) edges →
  NoDup ((λ e, (ge_From e, ge_To e)) <$> edges) →
  ∃ r, for_range (validateGraphEdgeSubmission (list_to_set names)) ∅ (edge_submission <$> edges) = Ok r.
Proof.
  intros [Hv _ _ Hi] Hwf Hdup. rewrite Forall_forall in Hv. rewrite Forall_forall in Hwf.
  assert (∀ name, is_Some (nodes !! name) → name ∈ names ∧ ValidName name = true) as Hname.
  { intros name [i Hl%Hi]. split; [by eapply list_elem_of_lookup_2|]. apply Hv. by eapply list_elem_of_lookup_2. }
  apply (for_range_seen submission_edge_key (λ edge, ges_From edge ∈ names ∧ ges_To edge ∈ names ∧ ges_From edge ≠ ges_To edge ∧
    ges_Predicate edge ∈ ["success"; "failure"; "any-terminal"; "outcomes"])).
  - intros seen x r. unfold validateGraphEdgeSubmission. chain_iff.
    rewrite !orb_false_iff, !negb_false_iff, slices_Contains_spec, eqs_false, !bool_decide_eq_true, bool_decide_eq_false, !elem_of_list_to_set.
    naive_solver.
  - split.
    + rewrite Forall_fmap. apply Forall_forall. intros e He. destruct (Hwf e He) as (Hf & Ht & Hne & Hp & _). cbn.
      split_and!; [by apply Hname|by apply Hname|done|]. by apply slices_Contains_spec in Hp.
    + rewrite <-list_fmap_compose. revert Hdup. apply NoDup_fmap_same_kernel. intros x y Hx Hy.
      destruct (Hwf x Hx) as (Hxs & _), (Hwf y Hy) as (Hys & _). apply Hname in Hxs as [_ Hxf]. apply Hname in Hys as [_ Hyf].
      apply ValidName_nul_free in Hxf, Hyf. cbn. unfold edge_submission, submission_edge_key. cbn.
      split; intros Hk; first [ by destruct (append_nul_inj _ _ _ _ Hxf Hyf Hk) as [-> ->]
                              | by injection Hk as -> -> ].
Qed.

(** C26: a decoded graph is one the store can judge, and it is acyclic.  The store itself does not look
    for cycles: that a stored graph can always be resolved rests on this.  The nodes are projected
    requests with distinct names, the edges join distinct nodes of the graph, none twice, no chain of
    edges returns to its start, and the submission passes every check of [validateGraphSubmission]. *)
Theorem decoded_graph_admitted source r :
  DecodeGraphRequest source = Ok r →
  validateGraphSubmission (graph_submission r) = Ok tt ∧
  (∃ names, children (pg_Namespace r) names (pg_Nodes r) ∧
     Forall (λ e, pe_From e ∈ names ∧ pe_To e ∈ names ∧ pe_From e ≠ pe_To e) (pg_Edges r)) ∧
  NoDup ((λ e, (pe_From e, pe_To e)) <$> pg_Edges r) ∧
  (∀ name, ¬ tc (λ a b, ∃ e, e ∈ pg_Edges r ∧ pe_From e = a ∧ pe_To e = b) name name) ∧
  pg_RequestDigest r = digest (pg_RequestDocument r) ∧
  canonicalJSON (pg_RequestDocument r) defaultMaximumJSONDepth = Ok (pg_RequestDocument r).
Proof.
  unfold DecodeGraphRequest. intros (s & Hdec%wrap_ok & (nodes & Hnodes & [= <-])%bind_ok)%bind_ok.
  apply bind_ok in Hdec as (v & _ & Hs). apply SealGraphRequest_ok in Hs as (Hv%valid_graph_intro & Hm%wrap_ok & Hd).
  destruct Hv as [Hns Hn Hcount Hact Hp (index & Hidx & Hwf) Hedges Hac].
  pose proof Hidx as [Hvalid Hdup _ Hi]. rewrite Forall_fmap in Hvalid.
  apply (project_children gn_Name gn_Workload gn_Placement) in Hnodes as Hch; [|done..].
  pose proof (children_length _ _ _ Hch) as Hlen. rewrite length_fmap in Hlen.
  split_and!.
  - unfold validateGraphSubmission, graph_submission.
    cbn [gs_Namespace gs_Name gs_MaxActive gs_UnsatisfiedPolicy gs_RequestDigest gs_RequestDocument gs_Nodes gs_Edges
      pg_Namespace pg_Name pg_MaxActive pg_UnsatisfiedPolicy pg_RequestDigest pg_RequestDocument pg_Nodes pg_Edges].
    rewrite Hns, Hn, Hd, canonical_digest_nonempty.
    assert (slice_len (domainSubmission <$> nodes) = slice_len (grs_Nodes (gr_Spec (sgr_Document s)))) as Hl
      by (unfold slice_len; rewrite length_fmap; lia).
    rewrite Hl, !bool_decide_false by lia. rewrite (proj2 (slices_Contains_spec _ _)) by done.
    rewrite (domain_nodes_ok _ _ _ Hch). rewrite <-list_fmap_compose.
    match goal with |- context [(?f ∘ ?g) <$> ?l] => change ((f ∘ g) <$> l) with (edge_submission <$> l) end.
    destruct (domain_edges_ok _ _ _ Hidx Hwf Hedges) as [seen Hseen]. cbn [negb orb fail_if mbind result_bind json_Valid].
    by rewrite Hseen.
  - eexists. split; [exact Hch|]. cbn. rewrite Forall_fmap. eapply Forall_impl; [exact Hwf|].
    intros e ([i Hf%Hi] & [j Ht%Hi] & Hne & _). cbn. split_and!; [by eapply list_elem_of_lookup_2..|done].
  - cbn. by rewrite <-list_fmap_compose.
  - intros name Hcyc. apply (Hac name). revert Hcyc. cbn. apply tc_congruence with (f := λ x, x).
    intros a b (e & (e' & -> & He)%list_elem_of_fmap & Ha & Hb). by exists e'.
  - done.
  - by eapply canonicalJSON_fixed.
Qed.

Definition two_steps_node (name : string) : string :=
  "{'name':'" +:+ name +:+ "','placement':{'target':'workstation-a'},'workload':{
    'digest':'sha256:eb0a1173adb99e86e4e10059248fd642f6b505702d43765cf7a904684aefde01',
    'document':{'apiVersion':'jobman/v1alpha1','kind':'Workload','metadata':{'name':'minimal'},
      'spec':{'command':{'executable':'true'},'workingDirectory':'workspace:/','runtime':{'kind':'native'},
        'policy':{'retry':{'maxRuns':1},'duplicateRisk':'reject'}}}}}".

(** A graph of two nodes, the second of which waits for the first to succeed. *)
Definition two_steps : bytes := fixture ("{'apiVersion':'jobman/v1alpha1','kind':'GraphRequest',
  'metadata':{'namespace':'research','name':'two-steps'},
  'spec':{'maxActive':1,'unsatisfiedPolicy':'cancel','nodes':[" +:+ two_steps_node "first" +:+ "," +:+ two_steps_node "second" +:+ "],
    'edges':[{'from':'first','to':'second','predicate':'success'}]}}").
Lemma decoded_graph_admitted_witness :
  ∃ r, DecodeGraphRequest two_steps = Ok r ∧ validateGraphSubmission (graph_submission r) = Ok tt ∧
    ∀ name, ¬ tc (λ a b, ∃ e, e ∈ pg_Edges r ∧ pe_From e = a ∧ pe_To e = b) name name.
Proof.
  assert (is_ok (DecodeGraphRequest two_steps) = true) as [r Hr]%is_ok_spec by (vm_compute; reflexivity).
  exists r. split; [exact Hr|]. destruct (decoded_graph_admitted _ _ Hr) as (Hv & _ & _ & Hac & _). exact (conj Hv Hac).
Defined.
