(* ===== verification/Scenario.v ===== *)
(** * A worked deployment

    One namespace, one submitter, one target with one agent, and the calls of
    [System.v] made on it: a job from submission to completion, a cancellation
    before launch, a fail-fast collection and a graph.  Every theorem with a
    hypothesis is applied here to a concrete history that satisfies it. *)
From stdpp Require Import pretty.
From S2P Require Import Prelude Regex Names Domain TargetSpec Kahn Graph Contract Url Utf8 Number Json Sha256 Paths Duration Clone Validate Normalize Wire Documents Codec Sealing Records Db Tx Constraints Auth Jobs Groups GraphStore Executions Coordinator Lifecycle Progress LifecycleOps LifecycleEvents LifecycleSubmit Frames EventLog System Events Cancellation Dispatch Submission Snapshots.

(** ** The deployment *)

(** The identifiers of the deployment. *)
Definition uuid (n : Z) : string :=
  String.append "00000000-0000-4000-8000-0000000000" (String.append (if n <? 10 then "0" else "") (pretty n)).
Definition agent_id : string := uuid 90.
Definition target_id : string := uuid 91.
Definition generation_id : string := uuid 92.
Definition some_digest : string := Sha256.digest [].

(** A codec that accepts every document as it is, under a fixed digest; the offer of a job under the
    codec of the contract is the last scenario. *)
#[local] Instance plain_sealer : Sealer := {|
  SealEffectiveExecution v := Ok {| see_Document := v; see_CanonicalJSON := []; see_Digest := some_digest |};
  SealAgentAssignment v :=
    Ok {| saa_Document := v; saa_CanonicalJSON := []; saa_EffectiveExecutionDigest := aas_EffectiveExecutionDigest (aa_Spec v) |} |}.

Definition team : string := "11111111-1111-4111-8111-111111111111".
Definition cluster_directory : string := "22222222-2222-4222-8222-222222222222".

Definition workload : Workload := {|
  w_APIVersion := V1Alpha1; w_Kind := WorkloadKind;
  w_Metadata := {| wm_Name := "train"; wm_Description := ""; wm_Labels := ∅; wm_Annotations := ∅ |};
  w_Spec := {|
    ws_Command := {| c_Executable := "/bin/true"; c_Args := []; c_Shell := None |};
    ws_WorkingDirectory := ""; ws_Environment := None; ws_Resources := None;
    ws_Runtime := {| rt_Kind := "native"; rt_Container := None |};
    ws_Artifacts := Some {| art_Inputs := [];
      art_Outputs := [{| oa_Name := "model"; oa_Source := "outputs:/model";
                         oa_Destination := "artifact://results/train/model"; oa_Required := true |}] |};
    ws_Policy := {| ep_RunTimeout := ""; ep_Retry := {| rp_MaxRuns := 1; rp_Backoff := "" |};
                    ep_DuplicateRisk := "" |};
    ws_Requirements := None; ws_Extensions := ∅ |} |}.

(** The digest under which the workload is accepted, and that of an execution. *)
Definition workload_digest : string :=
  Eval vm_compute in match SealWorkload workload with Ok s => sw_Digest s | Err _ => "" end.
Definition job_named (name : string) : JobSubmission := {|
  js_Namespace := "team"; js_Name := name; js_Labels := ∅; js_Target := "cpu"; js_Partition := "";
  js_RuntimeKind := "native"; js_OperatingSystems := []; js_Architectures := []; js_Capabilities := [];
  js_ArtifactStores := ["results"]; js_WorkloadDigest := workload_digest; js_WorkloadDocument := raw_json workload;
  js_RequestDigest := some_digest; js_RequestDocument := raw_json "{}";
  js_ExecutionFeatures := {| ef_DirectCommand := true; ef_Resources := false; ef_TemporaryStorage := false;
    ef_Artifacts := true; ef_Extensions := false; ef_EnvironmentProfile := false; ef_Secrets := false;
    ef_RetryMaxRuns := 1; ef_SchedulerEnvironmentOverride := false |} |}.

Definition now : timestamptz := 1000000000000.
Definition at_ (t : timestamptz) : env := {|
  transaction_timestamp := t; statement_timestamp := t; clock_timestamp := t; time_Now := UTC t; row_locked := λ _, false |}.

(** The identity, policy, target and agent tables of the deployment. *)
Definition d_start : db := {|
  d_principals := {["alice" := {| prn_issuer := "idp"; prn_subject := "alice"; prn_display_name := "Alice" |}]};
  d_namespaces := {[team := {| ns_name := "team" |}]};
  d_memberships := ∅;
  d_membership_grants := {["grant" := {| mgr_namespace_id := team; mgr_principal_id := "alice";
    mgr_role := RoleSubmitter; mgr_provenance := "manual"; mgr_source_key := "grant";
    mgr_created_at := 0; mgr_updated_at := 0; mgr_revoked_at := None |}]};
  d_authorization_versions := {[(team, "alice") := {| av_revision := 1; av_updated_at := 0 |}]};
  d_principal_aliases := ∅; d_directory_accounts := ∅; d_directory_state := ∅; d_role_bindings := ∅;
  d_directory_sources := ∅; d_directory_audit := ∅; d_directory_audit_next := 1;
  d_delegation_keys := {[("portal", "key-1") := {| dk_audience := "control"; dk_public_key := "0123456789abcdef0123456789abcdef";
    dk_certificate_thumbprints := ["thumb"]; dk_namespace_ids := [team];
    dk_operations := [CapabilityEventsRead]; dk_enabled := true; dk_updated_at := 0 |}]};
  d_assertions := ∅; d_workload_revisions := ∅;
  d_jobs := ∅; d_runs := ∅; d_executions := ∅; d_assignments := ∅; d_events := ∅; d_artifacts := ∅;
  d_actions := ∅; d_collections := ∅; d_collection_items := ∅; d_graphs := ∅; d_graph_nodes := ∅;
  d_graph_edges := ∅; d_idempotency := ∅; d_audit := []; d_outbox := ∅;
  d_monitoring_feed := ∅;
  d_monitoring_state := {| fs_head_position := 0; fs_retired_through := 0; fs_retention_seconds := 2592000;
    fs_last_published_at := 0 |};
  d_log_streams := ∅; d_log_chunks := ∅;
  d_policies := {[team := {| po_max_active_jobs := 2; po_max_queued_jobs := 10; po_max_collection_items := 10;
    po_max_graph_nodes := 10; po_idempotency_retention := 86400; po_published_outbox_retention := 86400;
    po_revision := 1; po_last_dispatched_at := None; po_created_at := 0; po_updated_at := 0 |}]};
  d_target_clocks := ∅;
  d_targets := {[target_id := {| tg_namespace_id := team; tg_name := "cpu"; tg_kind := "host"; tg_state := "active";
    tg_current_generation_id := Some generation_id; tg_revision := 1; tg_created_at := 0; tg_updated_at := 0 |}]};
  d_generations := {[generation_id := {| gen_namespace_id := team; gen_target_id := target_id; gen_generation := 1;
    gen_execution_backend := "subprocess"; gen_control_transport := "agent-api"; gen_runtimes := ["native"]; gen_operating_systems := ["linux"];
    gen_architectures := ["amd64"]; gen_capabilities := [];
    gen_artifact_stores := [{| as_Name := "results"; as_Version := 1 |}];
    gen_log_store_name := None; gen_log_store_version := None;
    gen_provider := {| tp_Kind := "on-prem"; tp_Region := ""; tp_ClusterName := "" |} |}]};
  d_partitions := ∅;
  d_agents := {[agent_id := {| ag_namespace_id := team; ag_target_id := target_id;
    ag_target_generation_id := generation_id; ag_principal_id := "alice"; ag_status := "active";
    ag_agent_version := "1.0.0"; ag_protocol_versions := ["jobman/v1alpha1"];
    ag_operating_system := "linux"; ag_architecture := "amd64"; ag_hostname := "node1"; ag_execution_user := "alice";
    ag_execution_backends := ["subprocess"]; ag_runtimes := ["native"]; ag_capabilities := [];
    ag_registration_digest := ""; ag_accepting_assignments := true; ag_capability_revision := 0;
    ag_last_capability_at := Some now; ag_last_seen_at := Some now; ag_created_at := 0; ag_updated_at := 0 |}]};
  d_sessions := {["session" := {| se_namespace_id := team; se_agent_id := agent_id; se_token_hash := [];
    se_expires_at := now + seconds 3600; se_last_seen_at := None; se_revoked_at := None;
    se_replaced_by_session_id := None; se_created_at := 0 |}]};
  d_enrollments := ∅; d_certificates := ∅; d_capability_snapshots := ∅;
  d_control_instance := cluster_directory; d_reconciliation_hold := false; d_restore_epoch := 1; d_delegation_issued_after := 0;
  d_ids := uuid <$> seqZ 1 60 |}.

Definition alice : Principal := {| p_Delegation := None; p_Issuer := "idp"; p_Subject := "alice" |}.
Definition agent : AgentIdentity := {|
  ai_AgentID := agent_id; ai_NamespaceID := team; ai_Namespace := "team"; ai_PrincipalID := "alice";
  ai_TargetID := target_id; ai_TargetGenerationID := generation_id; ai_CertificateSerial := "01" |}.

(** ** Running calls *)

(** The state a call leaves: rolled back when it fails. *)
Definition after {A} (m : tx A) (e : env) (d : db) : db :=
  match m e d with Ok (_, d') => d' | Err _ => d end.
Definition succeeds {A} (m : tx A) (e : env) (d : db) : bool := is_ok (m e d).
Definition answers {A} (p : A → bool) (m : tx A) (e : env) (d : db) : bool :=
  match m e d with Ok (a, _) => p a | Err _ => false end.

Lemma answered {A} (p : A → bool) (m : tx A) e d :
  answers p m e d = true → ∃ a, m e d = Ok (a, after m e d) ∧ p a = true.
Proof. unfold answers, after. destruct (m e d) as [[a d']|]; naive_solver. Qed.

Lemma succeeded {A} (m : tx A) e d : succeeds m e d = true → ∃ a, m e d = Ok (a, after m e d).
Proof. unfold succeeds, after. destruct (m e d) as [[a d']|]; [eauto|done]. Qed.

Lemma answered_true (m : tx bool) e d : answers id m e d = true → m e d = Ok (true, after m e d).
Proof. intros Ha. apply answered in Ha as ([|] & Hr & Hn); [exact Hr|done]. Qed.
Lemma fresh_event i v e d :
  answers negb (RecordExecutionEvent i v) e d = true →
  RecordExecutionEvent i v e d = Ok (false, after (RecordExecutionEvent i v) e d).
Proof. intros Ha. apply answered in Ha as ([|] & Hr & Hn); [done|exact Hr]. Qed.

Lemma equal_included {K V} `{Countable K} (m m' : gmap K V) : m' = m → m ⊆ m'.
Proof. by intros ->. Qed.

Lemma start_initial : initial d_start.
Proof. by split_and!. Qed.

Lemma start_reachable : reachable d_start.
Proof. exists d_start. by split; [apply start_initial|]. Qed.

(** ** One job from submission to completion *)

Definition submit : tx SubmitResult := SubmitJob alice "key-1" (job_named "train").
Definition d_submitted : db := after submit (at_ now) d_start.
Definition d_offered : db := after reconcile_iteration (at_ (now + 1)) d_submitted.

Definition acceptance : Acceptance := {|
  acc_DeliveryID := (uuid 5); acc_ExecutionID := (uuid 4); acc_AgentID := agent_id;
  acc_TargetGenerationID := generation_id; acc_EffectiveExecutionDigest := some_digest; acc_RequestDigest := some_digest;
  acc_RequestDocument := raw_json {|
    ac_APIVersion := V1Alpha1; ac_Kind := AgentAcceptanceKind;
    ac_Metadata := {| acm_DeliveryID := (uuid 5); acm_ExecutionID := (uuid 4); acm_AgentID := agent_id |};
    ac_Spec := {| acs_TargetGenerationID := generation_id; acs_EffectiveExecutionDigest := some_digest |} |} |}.
Definition accept : tx LaunchAuthorization := AcceptAssignment agent acceptance.
Definition d_accepted : db := after accept (at_ (now + 2)) d_offered.

Definition observe (execution eventID : string) (sequence : Z) (type native outcome : string)
    (artifacts : list PublishedArtifact) : ExecutionObservation := {|
  eo_EventID := eventID; eo_ExecutionID := execution; eo_AgentID := agent_id; eo_Sequence := sequence;
  eo_ObservedAt := UTC now; eo_Type := type; eo_NativeID := native; eo_Outcome := outcome;
  eo_SchedulerBackend := ""; eo_SchedulerState := ""; eo_SchedulerReason := ""; eo_SchedulerCluster := "";
  eo_DocumentDigest := some_digest;
  eo_Document := raw_json {|
    ev_APIVersion := V1Alpha1; ev_Kind := ExecutionEventKind;
    ev_Metadata := {| evm_EventID := eventID; evm_ExecutionID := execution; evm_AgentID := agent_id;
                      evm_Sequence := sequence; evm_ObservedAt := UTC now |};
    ev_Spec := {| evs_Type := type; evs_NativeID := native; evs_Scheduler := None;
      evs_Result := if eqs outcome "" then None
                    else Some {| pr_Outcome := outcome; pr_ExitCode := Some 0; pr_Signal := ""; pr_FailureCode := "" |};
      evs_Artifacts := artifacts |} |} |}.
Definition model : PublishedArtifact := {|
  pa_Name := "model"; pa_StoreName := "results"; pa_StoreVersion := 1; pa_ObjectKey := "train/model";
  pa_ByteLength := 10; pa_Checksum := some_digest |}.

Definition started : ExecutionObservation := observe (uuid 4) (uuid 81) 1 "process.started" "4242" "" [].
Definition completed : ExecutionObservation := observe (uuid 4) (uuid 82) 2 "process.completed" "" "success" [model].
Definition d_running : db := after (RecordExecutionEvent agent started) (at_ (now + 3)) d_accepted.
Definition d_done : db := after (RecordExecutionEvent agent completed) (at_ (now + 4)) d_running.

Lemma submitted_run : ∃ r, submit (at_ now) d_start = Ok (r, d_submitted).
Proof. unfold d_submitted. apply (succeeded submit). vm_compute. reflexivity. Qed.
Lemma offered_run : ∃ b, reconcile_iteration (at_ (now + 1)) d_submitted = Ok (b, d_offered).
Proof. unfold d_offered. apply (succeeded reconcile_iteration). vm_compute. reflexivity. Qed.
Lemma offered_steps : rtc step d_start d_offered.
Proof.
  destruct submitted_run as [r H1]. destruct offered_run as [b H2].
  eapply rtc_l; [eapply step_SubmitJob, H1|]. eapply rtc_once, step_reconcile_assignment, H2.
Qed.
Lemma offered_reachable : reachable d_offered.
Proof. eapply reachable_step; [apply start_reachable|apply offered_steps]. Qed.

Lemma accepted_run : ∃ l, accept (at_ (now + 2)) d_offered = Ok (l, d_accepted).
Proof. unfold d_accepted. apply (succeeded accept). vm_compute. reflexivity. Qed.
Lemma running_run : RecordExecutionEvent agent started (at_ (now + 3)) d_accepted = Ok (false, d_running).
Proof.
  apply fresh_event. vm_compute. reflexivity.
Qed.
Lemma done_run : RecordExecutionEvent agent completed (at_ (now + 4)) d_running = Ok (false, d_done).
Proof.
  apply fresh_event. vm_compute. reflexivity.
Qed.

Lemma done_steps : rtc step d_accepted d_done.
Proof.
  eapply rtc_l; [eapply step_RecordExecutionEvent, running_run|].
  eapply rtc_once, step_RecordExecutionEvent, done_run.
Qed.
Lemma accepted_reachable : reachable d_accepted.
Proof.
  destruct accepted_run as [l Hl]. eapply reachable_step; [apply offered_reachable|].
  eapply rtc_once, step_AcceptAssignment, Hl.
Qed.
Lemma running_reachable : reachable d_running.
Proof.
  eapply reachable_step; [apply accepted_reachable|]. eapply rtc_once, step_RecordExecutionEvent, running_run.
Qed.
Lemma done_reachable : reachable d_done.
Proof. eapply reachable_step; [apply accepted_reachable|apply done_steps]. Qed.

(** ** Witnesses of the history *)

Lemma lifecycle_invariant_witness : lifecycle_inv d_done.
Proof. apply lifecycle_invariant, done_reachable. Defined.

Lemma history_only_advances_witness : progress d_accepted d_done.
Proof. apply history_only_advances; [apply accepted_reachable|apply done_steps]. Defined.

Lemma event_log_complete_witness : event_log (sequences d_done) (d_events d_done).
Proof. apply event_log_complete, done_reachable. Defined.

Lemma accepted_again_run : ∃ l, accept (at_ (now + 9)) d_done = Ok (l, after accept (at_ (now + 9)) d_done).
Proof. apply (succeeded accept). vm_compute. reflexivity. Qed.

(** The acceptance is delivered again after the job has completed. *)
Lemma launch_authorized_once_witness :
  ∃ l1 l2 d, accept (at_ (now + 2)) d_offered = Ok (l1, d_accepted) ∧
    accept (at_ (now + 9)) d_done = Ok (l2, d) ∧ d = d_done ∧ lau_Replayed l2 = true ∧
    lau_AuthorizationID l2 = lau_AuthorizationID l1.
Proof.
  destruct accepted_run as [l1 H1].
  destruct accepted_again_run as [l2 H2].
  destruct (launch_authorized_once agent agent acceptance acceptance (at_ (now + 2)) (at_ (now + 9)) d_offered l1
    d_accepted d_done l2 _ offered_reachable eq_refl H1 done_steps H2) as (Hd & Hr & Ha & _).
  exists l1, l2, (after accept (at_ (now + 9)) d_done).
  exact (conj H1 (conj H2 (conj Hd (conj Hr Ha)))).
Defined.

Lemma event_recording_sound_witness : event_sound agent completed d_running d_done.
Proof. exact (event_recording_sound agent completed (at_ (now + 4)) d_running d_done running_reachable done_run). Defined.

(** The start event is delivered again after completion, and once more with
    another document. *)
Definition tampered : ExecutionObservation := {|
  eo_EventID := (uuid 81); eo_ExecutionID := (uuid 4); eo_AgentID := agent_id; eo_Sequence := 1;
  eo_ObservedAt := UTC now; eo_Type := "process.started"; eo_NativeID := "1"; eo_Outcome := "";
  eo_SchedulerBackend := ""; eo_SchedulerState := ""; eo_SchedulerReason := ""; eo_SchedulerCluster := "";
  eo_DocumentDigest := "sha256:0"; eo_Document := raw_invalid "" |}.
Lemma event_replay_idempotent_witness :
  RecordExecutionEvent agent started (at_ (now + 9)) d_done = Ok (true, d_done) ∧
  RecordExecutionEvent agent tampered (at_ (now + 9)) d_done =
    Err (Wrapf "record execution event" [] ErrIdempotencyConflict).
Proof.
  assert (∀ g, is_Some (d_generations d_accepted !! g) → is_Some (d_generations d_done !! g)) as Hg.
  { intros g. replace (d_generations d_done) with (d_generations d_accepted) by (vm_compute; reflexivity). done. }
  assert (rtc step d_running d_done) as Hs by (eapply rtc_once, step_RecordExecutionEvent, done_run).
  split.
  - exact (event_replay_idempotent agent started (at_ (now + 3)) d_accepted d_running started (at_ (now + 9)) d_done
      accepted_reachable running_run Hs Hg eq_refl eq_refl eq_refl).
  - exact (event_replay_idempotent agent started (at_ (now + 3)) d_accepted d_running tampered (at_ (now + 9)) d_done
      accepted_reachable running_run Hs Hg eq_refl eq_refl eq_refl).
Defined.

Lemma done_publication effective :
  e_effective_spec <$> d_executions d_done !! (uuid 4) = Some effective →
  validateArtifactPublication effective (eo_Document completed) = Ok tt.
Proof.
  intros He. assert ((λ v, is_ok (validateArtifactPublication v (eo_Document completed))) <$>
    (e_effective_spec <$> d_executions d_done !! (uuid 4)) = Some true) as Hv by (vm_compute; reflexivity).
  rewrite He in Hv. injection Hv as Hv. apply is_ok_spec in Hv as [[] Hv]. exact Hv.
Qed.
Lemma done_effective : is_Some (e_effective_spec <$> d_executions d_done !! (uuid 4)).
Proof.
  assert (bool_decide (is_Some (e_effective_spec <$> d_executions d_done !! (uuid 4))) = true) as Hb by (vm_compute; reflexivity).
  exact (proj1 (bool_decide_eq_true _) Hb).
Qed.
Lemma validateArtifactPublication_spec_witness :
  ∃ effective, e_effective_spec <$> d_executions d_done !! (uuid 4) = Some effective ∧ publishes effective model.
Proof.
  destruct done_effective as [effective He].
  exists effective. split; [exact He|].
  apply (proj1 (validateArtifactPublication_spec effective (eo_Document completed) _ eq_refl) (done_publication _ He)).
  by left.
Defined.

(** ** Submission and dispatch *)

Lemma submit_job_sound_witness :
  ∃ r a, submit (at_ now) d_start = Ok (r, d_submitted) ∧ submitted alice "key-1" (job_named "train") (at_ now) r d_start d_submitted a.
Proof.
  destruct submitted_run as [r Hr]. destruct (submit_job_sound alice "key-1" (job_named "train") (at_ now) d_start r d_submitted Hr) as [a Ha].
  exact (ex_intro _ r (ex_intro _ a (conj Hr Ha))).
Defined.

(** The same request again after the job was offered. *)
Definition d_resubmitted : db := after submit (at_ (now + 5)) d_offered.
Lemma resubmitted_run : ∃ r, submit (at_ (now + 5)) d_offered = Ok (r, d_resubmitted).
Proof. unfold d_resubmitted. apply (succeeded submit). vm_compute. reflexivity. Qed.
Lemma offer_keeps_requests e d b d' :
  reconcile_iteration e d = Ok (b, d') →
  d_principals d' = d_principals d ∧ d_principal_aliases d' = d_principal_aliases d ∧
  d_namespaces d' = d_namespaces d ∧ d_idempotency d ⊆ d_idempotency d'.
Proof.
  intros Hr. split_and!; [| | |apply equal_included];
    revert Hr; apply keeps_after; keeps_tac.
Qed.
Lemma submit_job_idempotent_witness :
  ∃ r1 r2, submit (at_ now) d_start = Ok (r1, d_submitted) ∧ submit (at_ (now + 5)) d_offered = Ok (r2, d_resubmitted) ∧
    sr_Replayed r2 = true ∧ job_ID (sr_Job r2) = job_ID (sr_Job r1) ∧ d_jobs d_resubmitted = d_jobs d_offered.
Proof.
  destruct submitted_run as [r1 H1]. destruct resubmitted_run as [r2 H2].
  destruct offered_run as [b Hb].
  destruct (offer_keeps_requests _ _ _ _ Hb) as (E1 & E2 & E3 & E4).
  destruct (submit_job_idempotent alice "key-1" (job_named "train") (at_ now) d_start r1 d_submitted (job_named "train")
    (at_ (now + 5)) d_offered r2 d_resubmitted H1 E1 E2 E3 E4 H2 eq_refl) as (_ & Hr & Hj & Hd).
  exact (ex_intro _ r1 (ex_intro _ r2 (conj H1 (conj H2 (conj Hr (conj Hj Hd)))))).
Defined.

Lemma placed_run : ∃ pl, resolveTarget team (job_named "train") (at_ now) d_start =
  Ok (pl, after (resolveTarget team (job_named "train")) (at_ now) d_start).
Proof. apply (succeeded (resolveTarget team (job_named "train"))). vm_compute. reflexivity. Qed.
Lemma resolveTarget_sound_witness :
  after (resolveTarget team (job_named "train")) (at_ now) d_start = d_start ∧
  ∃ t, d_targets d_start !! target_id = Some t ∧ tg_state t = "active".
Proof.
  destruct placed_run as [pl Hp].
  destruct (resolveTarget_sound team (job_named "train") (at_ now) d_start pl _ Hp) as [Hd _].
  split; [exact Hd|]. eexists. split; reflexivity.
Defined.

Definition portal_actor : DelegatedActor := {|
  da_ServiceOnly := true; da_Audience := "control"; da_ServiceID := "portal"; da_KeyID := "key-1";
  da_CertificateThumbprint := "thumb"; da_DirectoryID := ""; da_Operation := CapabilityEventsRead;
  da_NamespaceIDs := [team]; da_Mode := "worker"; da_AssertionID := "assertion-1"; da_AssertionDigest := some_digest;
  da_IssuedAt := UTC now; da_ExpiresAt := UTC (now + seconds 30) |}.
Definition portal : Principal := {| p_Delegation := Some portal_actor; p_Issuer := ""; p_Subject := "" |}.

Lemma delegated_never_mutates_witness :
  p_Delegation portal = Some portal_actor ∧
  ∀ r, SubmitJob portal "key-1" (job_named "train") (at_ now) d_start ≠ Ok (r, d_start).
Proof.
  split; [reflexivity|]. intros r. apply (delegated_never_mutates portal portal_actor (at_ now) d_start d_start eq_refl).
Defined.

Lemma authorized_run : ∃ a, authorizeNamespace alice "team" [CapabilityJobsSubmit] (at_ now) d_start =
  Ok (a, after (authorizeNamespace alice "team" [CapabilityJobsSubmit]) (at_ now) d_start).
Proof. apply (succeeded (authorizeNamespace alice "team" [CapabilityJobsSubmit])). vm_compute. reflexivity. Qed.
Lemma authorizeNamespace_sound_witness :
  ∃ a, authorized (at_ now) d_start alice "team" [CapabilityJobsSubmit] a.
Proof.
  destruct authorized_run as [a Ha].
  destruct (authorizeNamespace_sound alice "team" [CapabilityJobsSubmit] (at_ now) d_start a _ Ha) as [_ Hz].
  exact (ex_intro _ a Hz).
Defined.

Definition d_asserted : db := after (AcceptDelegationAssertion portal) (at_ now) d_start.
Lemma asserted_run : AcceptDelegationAssertion portal (at_ now) d_start = Ok (tt, d_asserted).
Proof.
  destruct (succeeded (AcceptDelegationAssertion portal) (at_ now) d_start) as [[] Hr]; [vm_compute; reflexivity|exact Hr].
Qed.
Lemma assertion_accepted_once_witness :
  AcceptDelegationAssertion portal (at_ (now + 1)) d_asserted ≠ Ok (tt, d_asserted).
Proof.
  apply (assertion_accepted_once portal d_start (at_ now) d_asserted now d_asserted (at_ (now + 1)) d_asserted asserted_run);
    [constructor|by vm_compute].
Defined.

Lemma claims p e d :
  answers (from_option p false) claimAssignmentCandidate e d = true →
  ∃ c, claimAssignmentCandidate e d = Ok (Some c, d) ∧ p c = true.
Proof.
  unfold answers, claimAssignmentCandidate. destruct (_ <$> head _) as [c|]; [|done]. cbn. eauto.
Qed.
Lemma claimed_run :
  ∃ c, claimAssignmentCandidate (at_ (now + 1)) d_submitted = Ok (Some c, d_submitted) ∧ eqs (ca_jobID c) (uuid 1) = true.
Proof. apply (claims (λ c, eqs (ca_jobID c) (uuid 1))). vm_compute. reflexivity. Qed.
Lemma claim_is_fair_witness :
  ∃ c j policy, claimAssignmentCandidate (at_ (now + 1)) d_submitted = Ok (Some c, d_submitted) ∧
    candidate_of (at_ (now + 1)) d_submitted (ca_jobID c) j = Some (policy, c).
Proof.
  destruct claimed_run as (c & Hr & _).
  destruct (claim_is_fair (at_ (now + 1)) d_submitted (Some c) d_submitted Hr) as (j & policy & _ & Hc & _).
  exact (ex_intro _ c (ex_intro _ j (ex_intro _ policy (conj Hr Hc)))).
Defined.

Definition offer : tx bool := reconcileOneAssignment (uuid 71) (uuid 72) (uuid 73) (uuid 74).
Definition d_claimed : db := after offer (at_ (now + 1)) d_submitted.
Lemma one_offer_run :
  reconcileOneAssignment (uuid 71) (uuid 72) (uuid 73) (uuid 74) (at_ (now + 1)) d_submitted = Ok (true, d_claimed).
Proof. apply (answered_true offer). vm_compute. reflexivity. Qed.
Lemma dispatch_within_limits_witness :
  ∃ jid j agentID, dispatch_sound (at_ (now + 1)) d_submitted d_claimed jid j agentID.
Proof.
  destruct (dispatch_within_limits (uuid 71) (uuid 72) (uuid 73) (uuid 74) (at_ (now + 1)) d_submitted d_claimed one_offer_run)
    as (jid & j & agentID & a & _ & Hs & _).
  exact (ex_intro _ jid (ex_intro _ j (ex_intro _ agentID Hs))).
Defined.

(** A pass over one waiting job with a limit of five offers one assignment. *)
Definition pass : Z * option error * db := ReconcileAssignments 5 (λ _, at_ (now + 1)) d_submitted.
Lemma pass_counts : pass.1.1 = 1.
Proof. vm_compute. reflexivity. Qed.
Lemma reconcile_pass_exact_witness :
  Z.of_nat (size (d_assignments pass.2)) = Z.of_nat (size (d_assignments d_submitted)) + 1.
Proof.
  destruct pass as [[k err] d'] eqn:Hp. pose proof pass_counts as Hk. rewrite Hp in Hk. cbn in Hk. subst k. cbn.
  unfold pass in Hp.
  exact (proj1 (proj2 (proj2 (reconcile_pass_exact 5 (λ _, at_ (now + 1)) d_submitted 1 err d' Hp)))).
Defined.

(** ** Cancellation before launch *)

Definition unused (operation key : string) (d : db) : bool :=
  forallb (λ kr : (string * string * string * string) * idempotency_row,
    negb (eqs kr.1.1.2 operation && eqs kr.1.2 key)) (map_to_list (d_idempotency d)).
Lemma unused_fresh operation key d : unused operation key d = true → fresh_key d operation key.
Proof.
  unfold unused, fresh_key. rewrite forallb_forall. intros Hall ns principal.
  destruct (d_idempotency d !! (ns, principal, operation, key)) as [row|] eqn:Hr; [|done].
  specialize (Hall ((ns, principal, operation, key), row)). rewrite <-list_elem_of_In, elem_of_map_to_list in Hall.
  specialize (Hall Hr). cbn in Hall. by rewrite !eqs_refl in Hall.
Qed.

Definition cancel : tx Job := CancelJob alice "team" (uuid 1) "key-2" some_digest.
Definition d_cancelled : db := after cancel (at_ (now + 2)) d_offered.
Lemma cancelled_run : ∃ j, cancel (at_ (now + 2)) d_offered = Ok (j, d_cancelled).
Proof. unfold d_cancelled. apply (succeeded cancel). vm_compute. reflexivity. Qed.
Lemma cancelled_reachable : reachable d_cancelled.
Proof.
  destruct cancelled_run as [j Hj]. eapply reachable_step; [apply offered_reachable|].
  eapply rtc_once, step_CancelJob, Hj.
Qed.

Lemma cancel_job_final_witness : stopped d_cancelled (uuid 1).
Proof.
  destruct cancelled_run as [j Hj].
  assert (fresh_key d_offered "jobs.cancel" "key-2") as Hf by (apply unused_fresh; vm_compute; reflexivity).
  exact (cancel_job_final alice "team" (uuid 1) "key-2" some_digest (at_ (now + 2)) d_offered j d_cancelled d_cancelled
    offered_reachable Hf Hj (rtc_refl _ _)).
Defined.

Lemma cancelled_stopped : stopped d_cancelled (uuid 1).
Proof.
  destruct (proj1 (exists_row_true (d_jobs d_cancelled) (uuid 1) is_terminal)) as (j & Hj & Ht);
    [vm_compute; reflexivity|]. exists j. split; [exact Hj|left]. apply eqs_true, Ht.
Qed.
Lemma cancelled_quad :
  ∃ j r x a, quad (d_jobs d_cancelled) (d_runs d_cancelled) (d_executions d_cancelled) (d_assignments d_cancelled)
    (uuid 1) (uuid 3) (uuid 4) (uuid 5) j r x a ∧ a_state a ≠ "accepted".
Proof.
  destruct (proj1 (exists_row_true (d_jobs d_cancelled) (uuid 1) (λ _, true))) as (j & Hj & _); [vm_compute; reflexivity|].
  destruct (proj1 (exists_row_true (d_runs d_cancelled) (uuid 3) (λ r, eqs (r_job_id r) (uuid 1)))) as (r & Hr & Hrj);
    [vm_compute; reflexivity|].
  destruct (proj1 (exists_row_true (d_executions d_cancelled) (uuid 4) (λ x, eqs (e_run_id x) (uuid 3)))) as (x & Hx & Hxr);
    [vm_compute; reflexivity|].
  destruct (proj1 (exists_row_true (d_assignments d_cancelled) (uuid 5)
    (λ a, eqs (a_execution_id a) (uuid 4) && negb (eqs (a_state a) "accepted")))) as (a & Ha & Hax); [vm_compute; reflexivity|].
  apply andb_true_iff in Hax as [Hax Has]. apply negb_true_iff, eqs_false in Has.
  apply eqs_true in Hrj, Hxr, Hax. exists j, r, x, a. split; [|exact Has]. constructor; assumption.
Qed.
Lemma stopped_before_launch_never_launches_witness :
  accept (at_ (now + 3)) d_cancelled ≠
    Ok (launchAuthorization (uuid 5) (uuid 4) agent_id generation_id some_digest 2 (now + 3) false, d_cancelled).
Proof.
  destruct cancelled_quad as (j & r & x & a & Hq & Hs).
  exact (stopped_before_launch_never_launches agent acceptance (at_ (now + 3)) d_cancelled (uuid 1) (uuid 3) (uuid 4) (uuid 5)
    j r x a d_cancelled _ d_cancelled cancelled_reachable Hq Hs cancelled_stopped (rtc_refl _ _) eq_refl).
Defined.

(** ** A fail-fast collection *)

Definition sweep : CollectionSubmission := {|
  cs_Namespace := "team"; cs_Name := "sweep"; cs_Labels := ∅; cs_MaxActive := 2; cs_FailurePolicy := "fail-fast";
  cs_ArrayPolicy := "never"; cs_RequestDigest := some_digest; cs_RequestDocument := raw_json "{}";
  cs_Items := [job_named "left"; job_named "right"] |}.
Definition submit_sweep : tx CollectionResult := SubmitCollection alice "key-3" sweep.
Definition d_sweep : db := after submit_sweep (at_ now) d_start.
Definition d_left_offered : db := after reconcile_iteration (at_ (now + 1)) d_sweep.
Definition accept_left : tx LaunchAuthorization := AcceptAssignment agent {|
  acc_DeliveryID := (uuid 9); acc_ExecutionID := (uuid 8); acc_AgentID := agent_id;
  acc_TargetGenerationID := generation_id; acc_EffectiveExecutionDigest := some_digest; acc_RequestDigest := some_digest;
  acc_RequestDocument := acc_RequestDocument acceptance |}.
Definition d_left_accepted : db := after accept_left (at_ (now + 2)) d_left_offered.
Definition left_failed : ExecutionObservation := observe (uuid 8) (uuid 83) 1 "process.completed" "" "failure" [].
Definition d_left_failed : db := after (RecordExecutionEvent agent left_failed) (at_ (now + 3)) d_left_accepted.

Lemma sweep_run : ∃ r, submit_sweep (at_ now) d_start = Ok (r, d_sweep).
Proof. unfold d_sweep. apply (succeeded submit_sweep). vm_compute. reflexivity. Qed.
Lemma left_offered_run : ∃ b, reconcile_iteration (at_ (now + 1)) d_sweep = Ok (b, d_left_offered).
Proof. unfold d_left_offered. apply (succeeded reconcile_iteration). vm_compute. reflexivity. Qed.
Lemma left_accepted_run : ∃ l, accept_left (at_ (now + 2)) d_left_offered = Ok (l, d_left_accepted).
Proof. unfold d_left_accepted. apply (succeeded accept_left). vm_compute. reflexivity. Qed.
Lemma left_failed_run :
  RecordExecutionEvent agent left_failed (at_ (now + 3)) d_left_accepted = Ok (false, d_left_failed).
Proof. apply fresh_event. vm_compute. reflexivity. Qed.

Lemma left_accepted_reachable : reachable d_left_accepted.
Proof.
  destruct sweep_run as [r Hr]. destruct left_offered_run as [b Hb]. destruct left_accepted_run as [l Hl].
  eapply reachable_step; [apply start_reachable|]. eapply rtc_l; [eapply step_SubmitCollection, Hr|].
  eapply rtc_l; [eapply step_reconcile_assignment, Hb|]. eapply rtc_once, step_AcceptAssignment, Hl.
Qed.
Lemma sweep_reachable : reachable d_sweep.
Proof.
  destruct sweep_run as [r Hr]. eapply reachable_step; [apply start_reachable|].
  eapply rtc_once, step_SubmitCollection, Hr.
Qed.

Lemma row_with {V} (m : gmap string V) k p : exists_row m k p = true → ∃ v, m !! k = Some v ∧ p v = true.
Proof. apply exists_row_true. Qed.

Lemma fail_fast_stops_siblings_witness : stopped d_left_failed (uuid 3).
Proof.
  destruct (row_with (d_executions d_left_accepted) (uuid 8) (λ x, eqs (e_run_id x) (uuid 7))) as (x & Hx & Hxr);
    [vm_compute; reflexivity|].
  destruct (row_with (d_runs d_left_accepted) (uuid 7) (λ r, eqs (r_job_id r) (uuid 2))) as (r & Hr & Hrj);
    [vm_compute; reflexivity|].
  destruct (row_with (d_jobs d_left_accepted) (uuid 2) (in_collection (uuid 1))) as (j & Hj & Hjc); [vm_compute; reflexivity|].
  destruct (row_with (d_jobs d_left_accepted) (uuid 3) (in_collection (uuid 1))) as (j' & Hj' & Hjc'); [vm_compute; reflexivity|].
  destruct (row_with (d_collections d_left_accepted) (uuid 1) (λ c, eqs (co_failure_policy c) "fail-fast")) as (c & Hc & Hcf);
    [vm_compute; reflexivity|].
  apply eqs_true in Hxr, Hrj, Hcf. apply bool_decide_eq_true in Hjc, Hjc'.
  eapply (fail_fast_stops_siblings agent left_failed (at_ (now + 3)) d_left_accepted d_left_failed x r j (uuid 1) c
    left_accepted_reachable left_failed_run);
    [reflexivity|discriminate|exact Hx|rewrite Hxr; exact Hr|rewrite Hrj; exact Hj|exact Hjc|exact Hc|exact Hcf|exact Hj'|exact Hjc'].
Defined.

Lemma sweep_snapshot_run :
  ∃ c col, d_collections d_sweep !! (uuid 1) = Some c ∧ scanCollection d_sweep (uuid 1) c = Some col ∧ col_Total col = 2.
Proof.
  destruct (row_with (d_collections d_sweep) (uuid 1)
    (λ c, from_option (λ col, bool_decide (col_Total col = 2)) false (scanCollection d_sweep (uuid 1) c))) as (c & Hc & Hs);
    [vm_compute; reflexivity|].
  destruct (scanCollection d_sweep (uuid 1) c) as [col|] eqn:E; [|discriminate Hs].
  exists c, col. split; [exact Hc|]. split; [exact E|]. apply bool_decide_eq_true in Hs. exact Hs.
Qed.
Lemma scanCollection_sound_witness :
  ∃ c col, scanCollection d_sweep (uuid 1) c = Some col ∧ col_Total col = 2 ∧
    snapshot_of d_sweep (in_collection (uuid 1)) (col_Phase col) (col_Outcome col) (col_Total col)
      (col_Total col - col_Active col - col_Terminal col) (col_Active col) (col_Terminal col).
Proof.
  destruct sweep_snapshot_run as (c & col & _ & Hs & Ht).
  destruct (scanCollection_sound d_sweep (uuid 1) c col sweep_reachable Hs) as [Hsnap _].
  exact (ex_intro _ c (ex_intro _ col (conj Hs (conj Ht Hsnap)))).
Defined.

(** ** A graph *)

Definition chain : GraphSubmission := {|
  gs_Namespace := "team"; gs_Name := "chain"; gs_Labels := ∅; gs_MaxActive := 1; gs_UnsatisfiedPolicy := "skip";
  gs_RequestDigest := some_digest; gs_RequestDocument := raw_json "{}";
  gs_Nodes := [job_named "first"; job_named "second"];
  gs_Edges := [{| ges_From := "first"; ges_To := "second"; ges_Predicate := "success"; ges_Outcomes := [] |}] |}.
Definition submit_chain : tx GraphResult := SubmitGraph alice "key-4" chain.
Definition cancel_chain : tx Records.Graph := CancelGraph alice "team" (uuid 1) "key-5" some_digest.
Definition d_chain : db := after submit_chain (at_ now) d_start.
Definition d_chain_cancelled : db := after cancel_chain (at_ (now + 1)) d_chain.
Lemma chain_run : ∃ r, submit_chain (at_ now) d_start = Ok (r, d_chain).
Proof. unfold d_chain. apply (succeeded submit_chain). vm_compute. reflexivity. Qed.
Lemma chain_cancelled_run : ∃ g, cancel_chain (at_ (now + 1)) d_chain = Ok (g, d_chain_cancelled).
Proof. unfold d_chain_cancelled. apply (succeeded cancel_chain). vm_compute. reflexivity. Qed.
Lemma chain_reachable : reachable d_chain.
Proof.
  destruct chain_run as [r Hr]. eapply reachable_step; [apply start_reachable|].
  eapply rtc_once, step_SubmitGraph, Hr.
Qed.

Lemma cancel_graph_final_witness : stopped d_chain_cancelled (uuid 2) ∧ stopped d_chain_cancelled (uuid 3).
Proof.
  destruct chain_cancelled_run as [g Hg].
  assert (fresh_key d_chain "graphs.cancel" "key-5") as Hf by (apply unused_fresh; vm_compute; reflexivity).
  destruct (row_with (d_jobs d_chain) (uuid 2) (in_graph (uuid 1))) as (j & Hj & Hjg); [vm_compute; reflexivity|].
  destruct (row_with (d_jobs d_chain) (uuid 3) (in_graph (uuid 1))) as (j' & Hj' & Hjg'); [vm_compute; reflexivity|].
  apply bool_decide_eq_true in Hjg, Hjg'. split.
  - exact (cancel_graph_final alice "team" (uuid 1) "key-5" some_digest (at_ (now + 1)) d_chain g d_chain_cancelled d_chain_cancelled
      chain_reachable Hf Hg (rtc_refl _ _) (uuid 2) j Hj Hjg).
  - exact (cancel_graph_final alice "team" (uuid 1) "key-5" some_digest (at_ (now + 1)) d_chain g d_chain_cancelled d_chain_cancelled
      chain_reachable Hf Hg (rtc_refl _ _) (uuid 3) j' Hj' Hjg').
Defined.

(** ** An offer sealed by the codec *)

Definition sealed_offer : tx bool :=
  reconcileOneAssignment (H := codec) (uuid 71) (uuid 72) (uuid 73) (uuid 74).
Definition d_sealed : db := after sealed_offer (at_ (now + 1)) d_submitted.
Lemma sealed_offer_run :
  reconcileOneAssignment (H := codec) (uuid 71) (uuid 72) (uuid 73) (uuid 74) (at_ (now + 1)) d_submitted = Ok (true, d_sealed).
Proof. unfold d_sealed. apply (answered_true sealed_offer). vm_compute. reflexivity. Qed.
Lemma offered_document_bound_witness :
  ∃ a x, d_assignments d_sealed !! (uuid 73) = Some a ∧ d_executions d_sealed !! (uuid 72) = Some x ∧
    aas_EffectiveExecutionDigest (aa_Spec (a_document a)) = e_effective_spec_digest x ∧
    eem_ExecutionID (ee_Metadata (e_effective_spec x)) = uuid 72.
Proof.
  destruct (offered_document_bound (H := codec) (uuid 71) (uuid 72) (uuid 73) (uuid 74) (at_ (now + 1)) d_submitted d_sealed
    sealed_offer_run) as (a & x & r & Ha & Hx & _ & _ & _ & _ & _ & Hd & He & _).
  exact (ex_intro _ a (ex_intro _ x (conj Ha (conj Hx (conj Hd He))))).
Defined.
