(* ===== verification/MonitoringScenario.v ===== *)
(** * A worked monitoring feed

    The job of [Scenario.v] runs to completion; its event is published, and the portal of the deployment reads
    it.  The theorems about the feed and about the delegation registry are applied to this history. *)
From S2P Require Import Prelude Regex Names Domain TargetSpec Kahn Graph Contract Url Utf8 Number Json Sha256 Tokens Records Cursors Db Tx Ordered Constraints Auth Delegation Monitoring MonitoringLog Jobs Groups GraphStore Executions Coordinator Lifecycle Progress Announce System MonitoringHistory MonitoringReader Scenario.

#[local] Existing Instance plain_sealer.

(** ** The history *)

Definition publish : tx Z := PublishMonitoringEvents 256.
Definition d_published : db := after publish (at_ (now + 5)) d_done.
Lemma published_run : ∃ n, publish (at_ (now + 5)) d_done = Ok (n, d_published).
Proof. unfold d_published. apply (succeeded publish). vm_compute. reflexivity. Qed.

(** The first calls find an empty log. *)
Lemma first_call d d' : feed_call d d' → feed_step ([], d) (appended [] d', d').
Proof. intros Hc. apply (feed_step_call [] d d' Hc). intros ?? _. apply not_elem_of_nil. Qed.
Lemma first_step d d' : appended [] d' = [] → lifecycle_call d d' → rtc feed_step ([], d) ([], d').
Proof. intros E Hc. apply rtc_once. pose proof (first_call d d' (feed_lifecycle d d' Hc)) as Hs. by rewrite E in Hs. Qed.

Lemma feed_start : feed_initial d_start.
Proof. by split_and!. Qed.

Lemma done_feed : feed_reachable [] d_done.
Proof.
  exists d_start. split; [apply feed_start|].
  destruct submitted_run as [r H1]. destruct offered_run as [b H2]. destruct accepted_run as [l H3].
  etrans; [apply (first_step _ d_submitted); [vm_compute; reflexivity|eapply call_SubmitJob, H1]|].
  etrans; [apply (first_step _ d_offered); [vm_compute; reflexivity|eapply call_reconcile_assignment, H2]|].
  etrans; [apply (first_step _ d_accepted); [vm_compute; reflexivity|eapply call_AcceptAssignment, H3]|].
  etrans; [apply (first_step _ d_running); [vm_compute; reflexivity|eapply call_RecordExecutionEvent, running_run]|].
  apply (first_step _ d_done); [vm_compute; reflexivity|eapply call_RecordExecutionEvent, done_run].
Qed.

Definition published_log : list monitoring_feed_row := appended [] d_published.
Lemma publish_step : feed_step ([], d_done) (published_log, d_published).
Proof.
  destruct published_run as [n Hn]. exact (first_call d_done d_published (feed_publish _ _ _ _ _ Hn)).
Qed.
Lemma published_feed : feed_reachable published_log d_published.
Proof. destruct done_feed as (d0 & Hi & Hs). exists d0. split; [done|]. etrans; [exact Hs|apply rtc_once, publish_step]. Qed.

(** ** Witnesses *)


Lemma job_done : job_terminal d_published (uuid 1).
Proof.
  assert (match d_jobs d_published !! uuid 1 with Some j => eqs (j_phase j) "terminal" | None => false end = true) as Hj
    by (vm_compute; reflexivity).
  unfold job_terminal. destruct (d_jobs d_published !! uuid 1) as [j|]; [|done]. exists j. split; [done|by apply eqs_true].
Qed.

Lemma done_referenced : outbox_referenced d_done.
Proof.
  assert (bool_decide (map_Forall (λ _ o, is_Some (d_namespaces d_done !! ob_namespace_id o)) (d_outbox d_done)) = true) as Hb
    by (vm_compute; reflexivity).
  intros id o Ho. exact (bool_decide_eq_true_1 _ Hb id o Ho).
Qed.
Lemma done_queue : length (pending_events d_done) = 1%nat.
Proof. vm_compute. reflexivity. Qed.

(** The portal follows the feed from its start: the event is published, and one page has it all. *)
Definition feed_key : bytes := bytes_of "the key of cursors and of session tokens".
Definition feed_start_cursor : monitoringCursor :=
  {| mcu_Instance := cluster_directory; mcu_Epoch := 1; mcu_Scope := monitoringScope portal_actor; mcu_Position := 0 |}.
Lemma start_issued : issued feed_start_cursor.
Proof. constructor; [vm_compute; reflexivity|split; vm_compute; discriminate|by exists portal_actor|split; vm_compute; discriminate]. Qed.

#[local] Abbreviation read_feed value := (ReadMonitoringEvents feed_key portal value 10).
Lemma read_run : ∃ page, read_feed (encodeMonitoringCursor feed_key feed_start_cursor) (at_ (now + 7)) d_published =
    Ok (page, after (read_feed (encodeMonitoringCursor feed_key feed_start_cursor)) (at_ (now + 7)) d_published) ∧
  (negb (mep_HasMore page) && bool_decide (me_JobID <$> mep_Items page = [uuid 1])) = true.
Proof. apply answered. vm_compute. reflexivity. Qed.

(** A read of the published log that has no more to give ends the consumer's course. *)
Lemma follow_published value e page d' :
  value = encodeMonitoringCursor feed_key feed_start_cursor →
  ReadMonitoringEvents feed_key portal value 10 e d_published = Ok (page, d') →
  mep_HasMore page = false →
  follow feed_key [team] ([], d_done) value (mep_Items page) (published_log, d_published) (mep_NextCursor page) true.
Proof.
  intros Hv Hr Hm. destruct (feed_reachable_inv _ _ published_feed) as [Hl _ [Hg _ _ _]]. apply Forall_app in Hg as [Hg _].
  pose proof Hr as Hd. rewrite Hv in Hd. apply (ReadMonitoringEvents_page feed_key published_log) in Hd as [-> _]; [|exact Hl|exact Hg|exact start_issued].
  eapply follow_call; [exact publish_step|].
  exact (follow_last feed_key [team] published_log d_published value portal portal_actor 10 e page Hr Hm eq_refl (λ n, iff_refl _)).
Qed.
Lemma followed : ∃ page, follow feed_key [team] ([], d_done) (encodeMonitoringCursor feed_key feed_start_cursor) (mep_Items page)
    (published_log, d_published) (mep_NextCursor page) true ∧ me_JobID <$> mep_Items page = [uuid 1].
Proof.
  destruct read_run as (page & Hr & [Hm%negb_true_iff Hj%bool_decide_eq_true]%andb_true_iff). exists page. split; [|exact Hj].
  exact (follow_published _ _ _ _ eq_refl Hr Hm).
Qed.

(** ** The registry *)

(** The operator replaces the key of the portal. *)
Definition new_key : DelegationKey := {|
  dky_ServiceID := "portal"; dky_KeyID := "key-2"; dky_Audience := "control"; dky_PublicKey := "fedcba9876543210fedcba9876543210";
  dky_CertificateThumbprints := ["47DEQpj8HBSa-_TImW-5JCeuQeRkm5NMpJWZG3hSuFU"]; dky_NamespaceIDs := [team];
  dky_Operations := [CapabilityEventsRead]; dky_Enabled := true |}.
Lemma start_registry : registry_rows d_start.
Proof.
  assert (bool_decide (map_Forall (λ _ row, len (dk_public_key row) = 32) (d_delegation_keys d_start)) = true) as Hb by (vm_compute; reflexivity).
  exact (bool_decide_eq_true_1 _ Hb).
Qed.
Lemma registry_run : succeeds (RegisterDelegationKeys [new_key]) (at_ (now + 1)) d_start = true.
Proof. vm_compute. reflexivity. Qed.
Lemma registry_replaced_witness :
  ∃ d', inTransaction (RegisterDelegationKeys [new_key]) (at_ (now + 1)) d_start = (Ok tt, d') ∧
    authorizeMonitoringService portal (at_ (now + 2)) d' = Err ErrForbidden ∧
    inTransaction (RegisterDelegationKeys [new_key; new_key]) (at_ (now + 1)) d_start =
      (Err (Errorf "duplicate delegation service key" []), d_start).
Proof.
  destruct (succeeded _ _ _ registry_run) as [[] Hr]. set (d' := after _ _ _) in Hr.
  assert (inTransaction (RegisterDelegationKeys [new_key]) (at_ (now + 1)) d_start = (Ok tt, d')) as Ht by (unfold inTransaction; by rewrite Hr).
  exists d'. split; [exact Ht|].
  pose proof (registry_replaced [new_key] (at_ (now + 1)) d_start start_registry) as H. rewrite Ht in H.
  destruct H as (_ & _ & _ & _ & _ & _ & _ & H). split.
  - apply (H portal portal_actor (at_ (now + 2)) eq_refl). intros key Hk%list_elem_of_singleton. subst key. discriminate.
  - vm_compute. reflexivity.
Defined.
