(* ===== verification/AgentScenario.v ===== *)
(** * An agent from enrollment to work

    The deployment of [Scenario.v] without its agent: a token is issued, an agent enrolls with it, reports
    what it can do, renews its session and rotates its certificate.  The theorems of [CredentialHistory.v]
    and [Delivery.v] are applied to these calls. *)
From stdpp Require Import pretty.
From S2P Require Import Prelude Regex Names Domain TargetSpec Kahn Graph Contract Records Url Json Tokens Db Tx Constraints Auth Jobs Groups GraphStore Executions Coordinator Lifecycle Progress LifecycleOps Frames Agents Delivery System Credentials AgentRuns CredentialHistory Scenario.

(** ** The calls *)

Definition token_key : bytes := bytes_of "a token key of the deployment".
Definition a_start : db := d_start <| d_agents := ∅; d_sessions := ∅ |>.

Definition enrollment_request : EnrollmentRequest := {|
  er_Principal := alice; er_ExpectedUser := "alice"; er_Lifetime := 10 * time_Minute |}.
Definition create : tx EnrollmentToken := CreateEnrollmentToken token_key alice "team" "cpu" "enroll-1" some_digest enrollment_request.
Definition enrollment_token : string := deriveToken token_key "jme" (uuid 1).

Definition registration : AgentRegistration := {|
  ar_TargetGenerationID := generation_id; ar_AgentVersion := "1.2.0"; ar_ProtocolVersions := ["jobman/v1alpha1"];
  ar_OperatingSystem := "linux"; ar_Architecture := "amd64"; ar_Hostname := "node-7"; ar_ExecutionUser := "alice";
  ar_ExecutionBackends := ["subprocess"]; ar_Runtimes := ["native"]; ar_Capabilities := []; ar_RequestDigest := some_digest |}.
Definition enroll : tx AgentSession := EnrollAgent token_key enrollment_token registration (60 * time_Minute).
Definition session_token : string := deriveToken token_key "jms" (uuid 3).
Definition renew : tx AgentSession := RenewAgentSession token_key session_token (60 * time_Minute).
Definition renewed_token : string := deriveToken token_key "jms" (uuid 4).

Definition a_identity : AgentIdentity := {|
  ai_AgentID := uuid 2; ai_NamespaceID := team; ai_Namespace := "team"; ai_PrincipalID := "alice";
  ai_TargetID := target_id; ai_TargetGenerationID := generation_id; ai_CertificateSerial := "01" |}.
Definition certificate (serial : string) : AgentCertificate := {|
  cert_Serial := serial; cert_PublicKeyDigest := some_digest; cert_ExpiresAt := UTC (now + seconds 86400) |}.
Definition observation : AgentCapabilities := {|
  ac_AgentID := uuid 2; ac_ObservedAt := UTC (now + 2); ac_AcceptingAssignments := true; ac_AgentVersion := "1.2.1";
  ac_OperatingSystem := "linux"; ac_Architecture := "amd64"; ac_Hostname := "node-7"; ac_ExecutionUser := "alice";
  ac_ExecutionBackends := ["subprocess"]; ac_Runtimes := ["native"]; ac_Capabilities := ["gpu"];
  ac_DocumentDigest := some_digest; ac_Document := raw_json "{}" |}.

Definition a_issued : db := after create (at_ now) a_start.
Definition a_enrolled : db := after enroll (at_ (now + 1)) a_issued.
Definition a_reported : db := after (RecordAgentCapabilities a_identity observation) (at_ (now + 2)) a_enrolled.
Definition a_certified : db := after (RecordAgentCertificate (uuid 2) (certificate "01")) (at_ (now + 3)) a_reported.
Definition a_renewed : db := after renew (at_ (now + 4)) a_certified.
Definition a_rotated : db := after (RotateAgentCertificate a_identity (certificate "02")) (at_ (now + 5)) a_renewed.
Definition a_again : db := after enroll (at_ (now + 6)) a_rotated.

Lemma issued_run : ∃ r, create (at_ now) a_start = Ok (r, a_issued).
Proof. unfold a_issued. apply (succeeded create). vm_compute. reflexivity. Qed.
Lemma enrolled_run : ∃ r, enroll (at_ (now + 1)) a_issued = Ok (r, a_enrolled).
Proof. unfold a_enrolled. apply (succeeded enroll). vm_compute. reflexivity. Qed.
Lemma reported_run : ∃ r, RecordAgentCapabilities a_identity observation (at_ (now + 2)) a_enrolled = Ok (r, a_reported).
Proof. unfold a_reported. apply (succeeded (RecordAgentCapabilities a_identity observation)). vm_compute. reflexivity. Qed.
Lemma certified_run : ∃ u, RecordAgentCertificate (uuid 2) (certificate "01") (at_ (now + 3)) a_reported = Ok (u, a_certified).
Proof. unfold a_certified. apply (succeeded (RecordAgentCertificate _ _)). vm_compute. reflexivity. Qed.
Lemma renewed_run : ∃ r, renew (at_ (now + 4)) a_certified = Ok (r, a_renewed).
Proof. unfold a_renewed. apply (succeeded renew). vm_compute. reflexivity. Qed.
Lemma rotated_run : RotateAgentCertificate a_identity (certificate "02") (at_ (now + 5)) a_renewed = Ok (tt, a_rotated).
Proof. unfold a_rotated. destruct (succeeded (RotateAgentCertificate a_identity (certificate "02")) (at_ (now + 5)) a_renewed) as [[] H]; [vm_compute; reflexivity|exact H]. Qed.
Lemma again_run : ∃ r, enroll (at_ (now + 6)) a_rotated = Ok (r, a_again).
Proof. unfold a_again. apply (succeeded enroll). vm_compute. reflexivity. Qed.

(** ** The histories *)

Lemma a_start_reachable : credential_reachable token_key a_start.
Proof. exists a_start. split_and!; try reflexivity. Qed.
Lemma a_issued_reachable : credential_reachable token_key a_issued.
Proof.
  destruct issued_run as [r Hr]. eapply credential_reachable_later; [exact a_start_reachable|].
  eapply rtc_once, cstep_create, Hr.
Qed.
Lemma a_certified_steps : rtc (credential_step token_key) a_enrolled a_certified.
Proof.
  destruct reported_run as [r2 H2], certified_run as [u3 H3].
  eapply rtc_l; [eapply cstep_report, H2|]. eapply rtc_once, cstep_record, H3.
Qed.
Lemma a_certified_reachable : credential_reachable token_key a_certified.
Proof.
  destruct enrolled_run as [r1 H1]. eapply credential_reachable_later; [exact a_issued_reachable|].
  eapply rtc_l; [eapply cstep_enroll, H1|exact a_certified_steps].
Qed.
Lemma a_rotated_steps : rtc (credential_step token_key) a_certified a_rotated.
Proof.
  destruct renewed_run as [r4 H4]. eapply rtc_l; [eapply cstep_renew, H4|]. eapply rtc_once, cstep_rotate, rotated_run.
Qed.
Lemma a_renewed_reachable : credential_reachable token_key a_renewed.
Proof.
  destruct renewed_run as [r4 H4]. eapply credential_reachable_later; [exact a_certified_reachable|]. eapply rtc_once, cstep_renew, H4.
Qed.
Lemma a_enrolled_reachable : credential_reachable token_key a_enrolled.
Proof.
  destruct enrolled_run as [r1 H1]. eapply credential_reachable_later; [exact a_issued_reachable|]. eapply rtc_once, cstep_enroll, H1.
Qed.

(** ** The theorems at work *)

Lemma enrollment_single_use_witness : ∃ r r', enroll (at_ (now + 1)) a_issued = Ok (r, a_enrolled) ∧
  enroll (at_ (now + 6)) a_rotated = Ok (r', a_again) ∧ ags_Replayed r' = true ∧ ags_AgentID r' = ags_AgentID r.
Proof.
  destruct enrolled_run as [r H]. destruct again_run as [r' H']. exists r, r'.
  assert (rtc (credential_step token_key) a_enrolled a_rotated) as Hs by (etrans; [exact a_certified_steps|exact a_rotated_steps]).
  destruct (enrollment_single_use token_key enrollment_token registration registration (60 * time_Minute) (60 * time_Minute)
    (at_ (now + 1)) (at_ (now + 6)) a_issued a_enrolled a_rotated a_again r r' a_issued_reachable H Hs H') as (Hrep & Hid & _).
  exact (conj H (conj H' (conj Hrep Hid))).
Defined.

Lemma rotated_credentials_refused_witness :
  AuthenticateAgent session_token (at_ (now + 7)) a_again = Err ErrUnauthenticated ∧
  AuthenticateAgentCertificate (uuid 2) "01" some_digest (at_ (now + 7)) a_again = Err ErrUnauthenticated.
Proof.
  destruct renewed_run as [r4 H4]. destruct again_run as [r6 H6].
  destruct (rotated_credentials_refused token_key a_certified a_certified_reachable) as [Hs _].
  destruct (rotated_credentials_refused token_key a_renewed a_renewed_reachable) as [_ Hc].
  split.
  - apply (Hs session_token (60 * time_Minute) (at_ (now + 4)) r4 a_renewed a_again H4).
    eapply rtc_l; [eapply cstep_rotate, rotated_run|]. eapply rtc_once, cstep_enroll, H6.
  - apply (Hc a_identity (certificate "02") (at_ (now + 5)) a_rotated a_again rotated_run).
    eapply rtc_once, cstep_enroll, H6.
Defined.

Lemma authenticated_run : ∃ i, AuthenticateAgent session_token (at_ (now + 7)) a_certified = Ok (i, after (AuthenticateAgent session_token) (at_ (now + 7)) a_certified).
Proof. apply (succeeded (AuthenticateAgent session_token)). vm_compute. reflexivity. Qed.

Lemma authentication_sound_witness : ∃ i id t, AuthenticateAgent session_token (at_ (now + 7)) a_certified =
    Ok (i, after (AuthenticateAgent session_token) (at_ (now + 7)) a_certified) ∧
  d_enrollments a_certified !! id = Some t ∧ en_used_by_agent_id t = Some (ai_AgentID i) ∧ ai_PrincipalID i = en_principal_id t.
Proof.
  destruct authenticated_run as [i H]. destruct (authentication_sound token_key a_certified a_certified_reachable) as [Hs _].
  destruct (Hs session_token (at_ (now + 7)) i (after (AuthenticateAgent session_token) (at_ (now + 7)) a_certified) H)
    as [(id & t & Ht & Hby & _ & _ & _ & Hp) _].
  exists i, id, t. exact (conj H (conj Ht (conj Hby Hp))).
Defined.

Lemma certified_agent : ∃ a, d_agents a_certified !! uuid 2 = Some a ∧ ag_capability_revision a = 1.
Proof.
  assert (ag_capability_revision <$> d_agents a_certified !! uuid 2 = Some 1) as H by (vm_compute; reflexivity).
  apply fmap_Some in H as (a & Ha & Hr). exists a. exact (conj Ha (eq_sym Hr)).
Qed.

Lemma capability_projection_witness : ∃ a c, d_agents a_certified !! uuid 2 = Some a ∧
  d_capability_snapshots a_certified !! (uuid 2, ag_capability_revision a) = Some c ∧ shows c a.
Proof.
  destruct certified_agent as (a & Ha & Hr).
  destruct (capability_projection token_key a_certified (uuid 2) a a_certified_reachable Ha) as (_ & _ & Hs).
  destruct Hs as (c & Hc & Hsh); [rewrite Hr; reflexivity|]. exists a, c. exact (conj Ha (conj Hc Hsh)).
Defined.

Lemma certified_session : ∃ s a n, d_sessions a_certified !! uuid 3 = Some s ∧ se_revoked_at s = None ∧
  transaction_timestamp (at_ (now + 7)) < se_expires_at s ∧ d_agents a_certified !! uuid 2 = Some a ∧
  agent_present a_certified a = true ∧ d_namespaces a_certified !! ag_namespace_id a = Some n.
Proof.
  assert ((s ← d_sessions a_certified !! uuid 3; a ← d_agents a_certified !! uuid 2; n ← d_namespaces a_certified !! ag_namespace_id a;
    Some (se_revoked_at s, bool_decide (transaction_timestamp (at_ (now + 7)) < se_expires_at s), agent_present a_certified a)) = Some (None, true, true))
    as H by (vm_compute; reflexivity).
  apply bind_Some in H as (s & Hs & H). apply bind_Some in H as (a & Ha & H). apply bind_Some in H as (n & Hn & H).
  injection H as Hr He Hp. apply bool_decide_eq_true in He. exists s, a, n. exact (conj Hs (conj Hr (conj He (conj Ha (conj Hp Hn))))).
Qed.

Lemma enrolled_identifiers : ∃ r, enroll (at_ (now + 1)) a_issued = Ok (r, a_enrolled) ∧ ags_AgentID r = uuid 2 ∧ ags_SessionID r = uuid 3.
Proof.
  assert (answers (λ r, bool_decide (ags_AgentID r = uuid 2 ∧ ags_SessionID r = uuid 3)) enroll (at_ (now + 1)) a_issued = true) as H by (vm_compute; reflexivity).
  apply answered in H as (r & Hr & Hid). apply bool_decide_eq_true in Hid as [H1 H2]. exists r. exact (conj Hr (conj H1 H2)).
Qed.

Lemma issued_session_authenticates_witness : ∃ r i d', enroll (at_ (now + 1)) a_issued = Ok (r, a_enrolled) ∧
  AuthenticateAgent (ags_Token r) (at_ (now + 7)) a_certified = Ok (i, d') ∧ ai_AgentID i = ags_AgentID r.
Proof.
  destruct enrolled_identifiers as (r & H & Hag & Hses). destruct certified_session as (s & a & n & Hs & Hr & He & Ha & Hp & Hn).
  assert (d_sessions a_certified !! ags_SessionID r = Some s) as Hs' by (rewrite Hses; exact Hs).
  assert (d_agents a_certified !! ags_AgentID r = Some a) as Ha' by (rewrite Hag; exact Ha).
  destruct (issued_session_authenticates token_key a_issued a_enrolled a_certified r (at_ (now + 7)) s a n a_issued_reachable
    (or_introl (ex_intro _ enrollment_token (ex_intro _ registration (ex_intro _ (60 * time_Minute) (ex_intro _ (at_ (now + 1)) H)))))
    a_certified_steps Hs' Hr He Ha' Hp Hn) as (_ & i & d' & Hi & Hid).
  exists r, i, d'. exact (conj H (conj Hi Hid)).
Defined.

(** The agent of the base deployment is handed its offer. *)
Lemma listed_run : ∃ l, ListAssignments agent 10 (at_ (now + 2)) d_offered = Ok (l, after (ListAssignments agent 10) (at_ (now + 2)) d_offered) ∧
  asg_DeliveryID <$> l = [uuid 5].
Proof.
  assert (answers (λ l, bool_decide (asg_DeliveryID <$> l = [uuid 5])) (ListAssignments agent 10) (at_ (now + 2)) d_offered = true) as H by (vm_compute; reflexivity).
  apply answered in H as (l & Hl & Hid). apply bool_decide_eq_true in Hid. exists l. exact (conj Hl Hid).
Qed.

Lemma delivery_sound_witness : ∃ l x a, ListAssignments agent 10 (at_ (now + 2)) d_offered =
    Ok (l, after (ListAssignments agent 10) (at_ (now + 2)) d_offered) ∧ x ∈ l ∧
  d_assignments d_offered !! asg_DeliveryID x = Some a ∧ a_state a = "offered".
Proof.
  destruct listed_run as (l & Hl & Hid).
  destruct (delivery_sound agent 10 (at_ (now + 2)) d_offered l (after (ListAssignments agent 10) (at_ (now + 2)) d_offered)
    (reachable_inv _ offered_reachable) Hl) as (_ & Hrows & _).
  destruct l as [|x l]; [discriminate Hid|]. destruct (Hrows x (list_elem_of_here x l)) as (a & _ & _ & Ha & Hst & _).
  exists (x :: l), x, a. exact (conj Hl (conj (list_elem_of_here x l) (conj Ha Hst))).
Defined.
