(* ===== verification/TargetScenario.v ===== *)
(** * The life of a target

    In the namespace of [Scenario.v] an administrator registers a target, installs a second generation,
    drains and retires it.  The theorems of [TargetHistory.v] and [TargetService.v] are applied to these
    calls. *)
From stdpp Require Import pretty.
From S2P Require Import Prelude Regex Names Domain TargetSpec Kahn Graph Contract Records Url Json Tokens Db Tx Constraints Auth Jobs Groups GraphStore Executions Coordinator Agents Targets TargetRuns TargetHistory TargetService Scenario.

(** ** The calls *)

Definition t_start : db := d_start <| d_targets := ∅; d_generations := ∅; d_agents := ∅; d_sessions := ∅;
  d_membership_grants := {["grant" := {| mgr_namespace_id := team; mgr_principal_id := "alice";
    mgr_role := RoleNamespaceAdmin; mgr_provenance := "manual"; mgr_source_key := "admin";
    mgr_created_at := 0; mgr_updated_at := 0; mgr_revoked_at := None |}]} |>.

Definition hpc (name : string) (runtimes : list string) : TargetSpec := {|
  ts_Name := name; ts_Kind := "slurm"; ts_ExecutionBackend := "slurm"; ts_Runtimes := runtimes;
  ts_OperatingSystems := ["linux"]; ts_Architectures := ["amd64"]; ts_Capabilities := ["gpu"];
  ts_Partitions := [{| ps_Name := "long"; ps_IsDefault := false |}; {| ps_Name := "debug"; ps_IsDefault := true |}];
  ts_LogStoreName := "logs"; ts_LogStoreVersion := 1; ts_ArtifactStores := [{| as_Name := "results"; as_Version := 1 |}];
  ts_Provider := {| tp_Kind := ""; tp_Region := ""; tp_ClusterName := "" |} |}.
Definition register (name key : string) : tx (CreateResult Target) := CreateTarget alice "team" key some_digest (hpc name ["native"]).
Definition containers : TargetGenerationChange := {| tgc_Spec := hpc "hpc" ["container"; "native"]; tgc_ExpectedRevision := 1 |}.
Definition upgrade : tx (CreateResult Target) := CreateTargetGeneration alice "team" "hpc" "upgrade-1" some_digest containers.
Definition move (key state : string) (revision : Z) : tx (CreateResult Target) :=
  UpdateTargetState alice "team" "hpc" key some_digest {| tsc_State := state; tsc_ExpectedRevision := revision |}.
Definition look : tx Target := GetTarget alice "team" "hpc".

Definition t_created : db := after (register "hpc" "create-1") (at_ now) t_start.
Definition t_other : db := after (register "spare" "create-2") (at_ (now + 1)) t_created.
Definition t_upgraded : db := after upgrade (at_ (now + 2)) t_created.
Definition t_draining : db := after (move "drain-1" "draining" 2) (at_ (now + 3)) t_upgraded.
Definition t_retired : db := after (move "retire-1" "retired" 3) (at_ (now + 4)) t_draining.
Definition t_after : db := after (register "spare" "create-2") (at_ (now + 5)) t_retired.

Definition first_time (r : CreateResult Target) : bool := negb (cr_Replayed r) && eqs (tgt_ID (cr_Value r)) (uuid 1).

Lemma created_run : ∃ r, register "hpc" "create-1" (at_ now) t_start = Ok (r, t_created) ∧ first_time r = true.
Proof. apply (answered first_time (register "hpc" "create-1")). vm_compute. reflexivity. Qed.
Lemma other_run : ∃ r, register "spare" "create-2" (at_ (now + 1)) t_created = Ok (r, t_other).
Proof. apply (succeeded (register "spare" "create-2")). vm_compute. reflexivity. Qed.
Lemma upgraded_run : ∃ r, upgrade (at_ (now + 2)) t_created = Ok (r, t_upgraded) ∧ first_time r = true.
Proof. apply (answered first_time upgrade). vm_compute. reflexivity. Qed.
Lemma draining_run : ∃ r, move "drain-1" "draining" 2 (at_ (now + 3)) t_upgraded = Ok (r, t_draining) ∧ first_time r = true.
Proof. apply (answered first_time (move "drain-1" "draining" 2)). vm_compute. reflexivity. Qed.
Lemma retired_run : ∃ r, move "retire-1" "retired" 3 (at_ (now + 4)) t_draining = Ok (r, t_retired) ∧ first_time r = true.
Proof. apply (answered first_time (move "retire-1" "retired" 3)). vm_compute. reflexivity. Qed.
Lemma after_run : ∃ r, register "spare" "create-2" (at_ (now + 5)) t_retired = Ok (r, t_after).
Proof. apply (succeeded (register "spare" "create-2")). vm_compute. reflexivity. Qed.

Lemma first_time_true r : first_time r = true → cr_Replayed r = false ∧ tgt_ID (cr_Value r) = uuid 1.
Proof. unfold first_time. intros [H ?%eqs_true]%andb_true_iff. by apply negb_true_iff in H. Qed.

(** ** The histories *)

Lemma t_start_reachable : target_reachable t_start.
Proof.
  exists t_start. split_and!; [reflexivity..| |reflexivity]. intros i j n m Hi Hj _. cbn in Hi, Hj.
  apply lookup_singleton_Some in Hi as [<- _], Hj as [<- _]. reflexivity.
Qed.
Lemma t_created_reachable : target_reachable t_created.
Proof. destruct created_run as (r & Hr & _). eapply target_reachable_steps; [exact t_start_reachable|]. eapply rtc_once, tstep_create, Hr. Qed.
Lemma t_upgraded_reachable : target_reachable t_upgraded.
Proof. destruct upgraded_run as (r & Hr & _). eapply target_reachable_steps; [exact t_created_reachable|]. eapply rtc_once, tstep_generation, Hr. Qed.
Lemma t_retired_reachable : target_reachable t_retired.
Proof.
  destruct draining_run as (r & Hr & _), retired_run as (r' & Hr' & _). eapply target_reachable_steps; [exact t_upgraded_reachable|].
  eapply rtc_l; [eapply tstep_state, Hr|]. eapply rtc_once, tstep_state, Hr'.
Qed.

(** ** The theorems at work *)

Lemma target_versions_witness : ∃ t gid g, d_targets t_upgraded !! uuid 1 = Some t ∧ tg_current_generation_id t = Some gid ∧
  d_generations t_upgraded !! gid = Some g ∧ gen_generation g ≤ tg_revision t.
Proof.
  destruct (d_targets t_upgraded !! uuid 1) as [t|] eqn:Ht; [|vm_compute in Ht; discriminate Ht].
  destruct (target_versions t_upgraded (uuid 1) t t_upgraded_reachable Ht) as (gid & g & Hc & Hg & _ & _ & Hb & _).
  exists t, gid, g. exact (conj eq_refl (conj Hc (conj Hg (proj1 Hb)))).
Defined.

Lemma no_lost_target_update_witness : target_changed (uuid 1) 1 t_created t_upgraded ∧ target_changed (uuid 1) 2 t_upgraded t_draining ∧ 1 < 2.
Proof.
  destruct upgraded_run as (r & Hr & [Hf Hid]%first_time_true), draining_run as (r' & Hr' & [Hf' Hid']%first_time_true).
  assert (target_changed (uuid 1) 1 t_created t_upgraded) as H1 by (eapply changed_generation; [exact Hr|exact Hf|exact Hid|reflexivity]).
  assert (target_changed (uuid 1) 2 t_upgraded t_draining) as H2 by (eapply changed_state; [exact Hr'|exact Hf'|exact Hid'|reflexivity]).
  destruct (no_lost_target_update t_created t_upgraded t_upgraded t_draining (uuid 1) 1 2 t_created_reachable H1 (rtc_refl _ _) H2) as [_ Hlt].
  exact (conj H1 (conj H2 Hlt)).
Defined.

Lemma target_state_change_witness : ∃ r, move "drain-1" "draining" 2 (at_ (now + 3)) t_upgraded = Ok (r, t_draining) ∧
  tgt_State (cr_Value r) = "draining".
Proof.
  destruct draining_run as (r & Hr & [Hf _]%first_time_true). exists r.
  destruct (target_state_change _ _ _ _ _ _ _ _ _ _ Hr Hf) as (a & t & _ & _ & _ & _ & _ & _ & _ & _ & _ & Hs & _).
  exact (conj Hr Hs).
Defined.

Lemma revision_determines_target_witness : ∃ v, look (at_ (now + 1)) t_created = Ok (v, t_created) ∧ look (at_ (now + 9)) t_other = Ok (v, t_other).
Proof.
  destruct other_run as [r Hr].
  destruct (answered (λ v, eqs (tgt_ID v) (uuid 1) && bool_decide (tgt_Revision v = 1)) look (at_ (now + 1)) t_created) as (v & Hv & [Ei Er]%andb_true_iff);
    [vm_compute; reflexivity|].
  destruct (answered (λ v, eqs (tgt_ID v) (uuid 1) && bool_decide (tgt_Revision v = 1)) look (at_ (now + 9)) t_other) as (v' & Hv' & [Ei' Er']%andb_true_iff);
    [vm_compute; reflexivity|].
  apply eqs_true in Ei, Ei'. apply bool_decide_eq_true in Er, Er'.
  pose proof (GetTarget_ok _ _ _ _ _ _ _ Hv) as [E1 _]. pose proof (GetTarget_ok _ _ _ _ _ _ _ Hv') as [E2 _]. rewrite E1 in Hv. rewrite E2 in Hv'.
  assert (v' = v) as ->.
  { apply (revision_determines_target t_created t_other alice "team" "hpc" (at_ (now + 1)) v t_created alice "team" "hpc" (at_ (now + 9)) v' t_other
      t_created_reachable Hv); [eapply rtc_once, tstep_create, Hr|exact Hv'|congruence|congruence]. }
  exists v. exact (conj Hv Hv').
Defined.

Lemma installed_target_read_witness : ∃ r, upgrade (at_ (now + 2)) t_created = Ok (r, t_upgraded) ∧
  describes (cr_Value r) "team" (hpc "hpc" ["container"; "native"]) ∧ look (at_ (now + 9)) t_upgraded = Ok (cr_Value r, t_upgraded).
Proof.
  destruct upgraded_run as (r & Hr & [Hf _]%first_time_true). exists r.
  destruct (installed_target_read alice "team" "hpc" "upgrade-1" some_digest (at_ (now + 2)) t_created r t_upgraded
    (hpc "hpc" ["container"; "native"]) t_created_reachable Hf (or_intror (ex_intro _ 1 Hr))) as (Hd & _ & Hread).
  destruct (succeeded (authorizeNamespace alice "team" [CapabilityTargetsRead]) (at_ (now + 9)) t_upgraded) as [a Ha]; [vm_compute; reflexivity|].
  pose proof (authorizeNamespace_authorized _ _ _ _ _ _ _ Ha) as [E _]. rewrite E in Ha.
  exact (conj Hr (conj Hd (Hread alice (at_ (now + 9)) a Ha))).
Defined.

Lemma retired_target_serves_nothing_witness :
  (∃ t, d_targets t_after !! uuid 1 = Some t ∧ tg_state t = "retired") ∧
  ∀ token e i d, AuthenticateAgent token e t_after = Ok (i, d) → ai_TargetID i ≠ uuid 1.
Proof.
  destruct after_run as [r Hr].
  destruct (answered (λ t, eqs (tg_state t) "retired") (row_or (d_targets t_retired !! uuid 1) ErrNoRows) (at_ now) t_retired)
    as (t & [Ht _]%row_or_ok & Hs%eqs_true); [vm_compute; reflexivity|].
  destruct (retired_target_serves_nothing t_retired t_after (uuid 1) t t_retired_reachable Ht Hs) as ((t' & Ht' & Hs' & _) & _ & _ & _ & Hauth & _);
    [eapply rtc_once, tstep_create, Hr|].
  exact (conj (ex_intro _ t' (conj Ht' Hs')) Hauth).
Defined.
