(* ===== verification/LogScenario.v ===== *)
(** * Logs of the worked deployment

    The job of [Scenario.v] on a target whose generation has a log store: its logs are delivered out of
    order, and it completes when both are complete. *)
From stdpp Require Import pretty.
From S2P Require Import Prelude Regex Names Domain TargetSpec Kahn Graph Contract Url Sha256 Records Db Tx Constraints Auth Jobs Groups GraphStore Executions Coordinator Lifecycle Progress LifecycleOps LifecycleEvents LifecycleSubmit Frames EventLog System Logs LogDelivery Scenario.

#[local] Existing Instance plain_sealer.

Definition l_start : db := d_start <| d_generations := {[generation_id := {| gen_namespace_id := team;
  gen_target_id := target_id; gen_generation := 1;
  gen_execution_backend := "subprocess"; gen_control_transport := "agent-api"; gen_runtimes := ["native"];
  gen_operating_systems := ["linux"]; gen_architectures := ["amd64"]; gen_capabilities := [];
  gen_artifact_stores := [{| as_Name := "results"; as_Version := 1 |}];
  gen_log_store_name := Some "logs"; gen_log_store_version := Some 1;
  gen_provider := {| tp_Kind := "on-prem"; tp_Region := ""; tp_ClusterName := "" |} |}]} |>.
Definition l_submitted : db := after submit (at_ now) l_start.
Definition l_offered : db := after reconcile_iteration (at_ (now + 1)) l_submitted.
Definition l_accepted : db := after accept (at_ (now + 2)) l_offered.

Definition train_job : string := uuid 1.
Definition chunk (stream : string) (sequence offset length : Z) (complete : bool) : LogChunk := {|
  lc_ExecutionID := uuid 4; lc_AgentID := agent_id; lc_Stream := stream; lc_Sequence := sequence; lc_StoreName := "logs";
  lc_StoreVersion := 1; lc_ObjectKey := expectedKey "team" train_job (uuid 4) stream sequence; lc_ByteOffset := offset;
  lc_ByteLength := length; lc_Checksum := some_digest; lc_CapturedAt := UTC now; lc_Complete := complete;
  lc_Truncated := false; lc_DocumentDigest := some_digest; lc_Document := raw_json "{}" |}.
Definition stdout_cut : list LogChunk := [chunk "stdout" 1 0 100 false; chunk "stdout" 2 100 20 false; chunk "stdout" 3 120 0 true].
Definition out_of_order : list (env * LogChunk) :=
  [(at_ (now + 3), chunk "stdout" 3 120 0 true); (at_ (now + 4), chunk "stdout" 1 0 100 false);
   (at_ (now + 5), chunk "stdout" 1 0 100 false); (at_ (now + 6), chunk "stdout" 2 100 20 false);
   (at_ (now + 7), chunk "stdout" 3 120 0 true)].

Lemma l_submitted_run : ∃ r, submit (at_ now) l_start = Ok (r, l_submitted).
Proof. unfold l_submitted. apply (succeeded submit). vm_compute. reflexivity. Qed.
Lemma l_offered_run : ∃ b, reconcile_iteration (at_ (now + 1)) l_submitted = Ok (b, l_offered).
Proof. unfold l_offered. apply (succeeded reconcile_iteration). vm_compute. reflexivity. Qed.
Lemma l_accepted_run : ∃ l, accept (at_ (now + 2)) l_offered = Ok (l, l_accepted).
Proof. unfold l_accepted. apply (succeeded accept). vm_compute. reflexivity. Qed.

(** A call that leaves the logs alone is a step. *)
Lemma log_step_call {A} (m : tx A) e d a d' : (m e d = Ok (a, d') → step d d') → Keeps d_log_streams m ∧ Keeps d_log_chunks m →
  m e d = Ok (a, d') → log_step d d'.
Proof. intros Hs [H1 H2] Hr. apply log_elsewhere; [by apply Hs|]. split; [by eapply H1|by eapply H2]. Qed.

Lemma l_accepted_steps : rtc log_step l_start l_accepted.
Proof.
  destruct l_submitted_run as [r H1], l_offered_run as [b H2], l_accepted_run as [l H3].
  destruct calls_keep_logs as (K1 & _ & _ & _ & _ & _ & K6 & _ & K8 & _).
  eapply rtc_l; [eapply (log_step_call _ _ _ _ _ (step_SubmitJob _ _ _ _ _ _ _) (K1 _ _ _) H1)|].
  eapply rtc_l; [eapply (log_step_call _ _ _ _ _ (step_reconcile_assignment _ _ _ _) K8 H2)|].
  eapply rtc_once, (log_step_call _ _ _ _ _ (step_AcceptAssignment _ _ _ _ _ _) (K6 _ _) H3).
Qed.

Lemma l_accepted_logs : d_log_streams l_accepted = ∅ ∧ d_log_chunks l_accepted = ∅.
Proof. split; vm_compute; reflexivity. Qed.

Lemma l_reachable d : rtc log_step l_accepted d → log_reachable d.
Proof.
  intros Hs. exists l_start. split_and!; [by split_and!|done|done|]. etrans; [apply l_accepted_steps|exact Hs].
Qed.

Lemma stdout_log_cut : log_cut agent (uuid 4, "stdout") "team" train_job "logs" 1 stdout_cut.
Proof.
  split; [|cbn; lia|cbn; unfold max_int64; lia|vm_compute; discriminate].
  intros i c Hc. destruct i as [|[|[|i]]]; [injection Hc as <-..|by destruct i].
  all: split; [vm_compute; reflexivity..|by split|split; vm_compute; split; congruence|vm_compute; reflexivity|vm_compute; reflexivity|
    by exists "{}"|vm_compute; reflexivity|vm_compute; reflexivity].
Qed.

Lemma l_accepted_context : log_context agent (uuid 4, "stdout") "team" train_job "logs" 1 l_accepted.
Proof.
  split; [| |vm_compute; reflexivity|by split].
  - assert ((λ t, bool_decide (t.1.1.1.1 = "team" ∧ t.1.1.2 = train_job ∧ t.1.2 = "logs" ∧ t.2 = 1 ∧
      e_agent_id t.1.1.1.2 = agent_id ∧ e_phase t.1.1.1.2 ≠ "planned")) <$> log_execution l_accepted (uuid 4) team = Some true) as Hx
      by (vm_compute; reflexivity).
    cbn [fst]. change (ai_NamespaceID agent) with team. destruct (log_execution l_accepted (uuid 4) team) as [[[[[n x] j] st] v]|]; [|discriminate Hx].
    cbn in Hx. injection Hx as Hx%bool_decide_eq_true. cbn in Hx. destruct Hx as (-> & -> & -> & -> & ? & ?). by exists x.
  - assert ((λ g, bool_decide (ag_namespace_id g = team)) <$> d_agents l_accepted !! agent_id = Some true) as Hg by (vm_compute; reflexivity).
    change (ai_AgentID agent) with agent_id. destruct (d_agents l_accepted !! agent_id) as [g|]; [|discriminate Hg].
    injection Hg as Hg%bool_decide_eq_true. by exists g.
Qed.

Lemma l_accepted_free : keys_free (uuid 4, "stdout") "team" train_job "logs" 1 l_accepted.
Proof. intros k' i c j _ Hc. unfold chunks_at in Hc. by rewrite (proj2 l_accepted_logs) in Hc. Qed.

Lemma out_of_order_pieces : Forall (λ ec, ec.2 ∈ stdout_cut) out_of_order.
Proof.
  unfold out_of_order. repeat constructor;
    first [by apply list_elem_of_lookup_2 with 0%nat|by apply list_elem_of_lookup_2 with 1%nat|by apply list_elem_of_lookup_2 with 2%nat].
Qed.

Lemma out_of_order_all c : c ∈ stdout_cut → c ∈ out_of_order.*2.
Proof.
  unfold stdout_cut. intros Hc. repeat (apply elem_of_cons in Hc as [->|Hc]); [..|by apply elem_of_nil in Hc].
  - by apply list_elem_of_lookup_2 with 1%nat.
  - by apply list_elem_of_lookup_2 with 3%nat.
  - by apply list_elem_of_lookup_2 with 0%nat.
Qed.

Lemma first_chunk : chunk "stdout" 1 0 100 false ∈ stdout_cut.
Proof. unfold stdout_cut. apply list_elem_of_here. Qed.

Lemma log_delivered_in_any_order_witness : ∃ d' s, deliver agent out_of_order l_accepted = Ok d' ∧
  d_log_streams d' !! (uuid 4, "stdout") = Some s ∧ ls_state s = "complete" ∧ ls_byte_length s = 120.
Proof.
  destruct (log_delivered_in_any_order agent (uuid 4, "stdout") "team" train_job "logs" 1 stdout_cut out_of_order l_accepted
    stdout_log_cut (log_inv_empty _ (proj1 l_accepted_logs) (proj2 l_accepted_logs)) l_accepted_context l_accepted_free
    ltac:(rewrite (proj1 l_accepted_logs); reflexivity) out_of_order_pieces) as (d' & Hd & _ & Hall).
  destruct (Hall out_of_order_all) as (s & z & Hs & _ & Hst & _ & Hlen & _).
  exists d', s. exact (conj Hd (conj Hs (conj Hst Hlen))).
Defined.

(** Every delivery is a step of the system. *)
Lemma deliver_steps i l d d' : deliver i l d = Ok d' → rtc log_step d d'.
Proof.
  revert d. induction l as [|[e c] l IH]; intros d; cbn; [by intros [= ->]|].
  intros ([b d1] & Hc & Hl)%bind_ok. eapply rtc_l; [by eapply log_commit|by apply IH].
Qed.

Lemma log_stream_invariant_witness : ∃ d' s l, log_reachable d' ∧ d_log_streams d' !! (uuid 4, "stdout") = Some s ∧
  exposes (chunks_at d' (uuid 4, "stdout")) s l.
Proof.
  destruct (deliver_ok agent (uuid 4, "stdout") "team" train_job "logs" 1 stdout_cut stdout_log_cut out_of_order ∅ l_accepted
    (delivered_none _ _ _ _ _ _ _ _ (log_inv_empty _ (proj1 l_accepted_logs) (proj2 l_accepted_logs)) l_accepted_context l_accepted_free
      ltac:(rewrite (proj1 l_accepted_logs); reflexivity)) out_of_order_pieces) as (S & d' & Hd & D & _ & Hall).
  destruct (delivered_stream _ _ _ _ _ _ _ _ _ D) as [HS|[s Hs]].
  { specialize (Hall 0%nat (chunk "stdout" 1 0 100 false) eq_refl). rewrite HS in Hall.
    assert (0%nat ∈ (∅ : gset nat)) as He by exact (Hall (out_of_order_all _ first_chunk)). exfalso. exact (not_elem_of_empty _ He). }
  pose proof (l_reachable d' (deliver_steps _ _ _ _ Hd)) as Hr.
  destruct (log_stream_invariant d' (uuid 4, "stdout") s Hr Hs) as [l Hl]. exists d', s, l. exact (conj Hr (conj Hs Hl)).
Defined.

(** The job runs, both logs turn out to be empty, and it completes. *)
Definition out_done : LogChunk := chunk "stdout" 1 0 0 true.
Definition err_done : LogChunk := chunk "stderr" 1 0 0 true.
Definition l_out : db := after (CommitLogChunk agent out_done) (at_ (now + 3)) l_accepted.
Definition l_err : db := after (CommitLogChunk agent err_done) (at_ (now + 3)) l_out.
Definition l_running : db := after (RecordExecutionEvent agent started) (at_ (now + 4)) l_err.
Definition l_done : db := after (RecordExecutionEvent agent completed) (at_ (now + 5)) l_running.

Lemma l_out_run : ∃ b, CommitLogChunk agent out_done (at_ (now + 3)) l_accepted = Ok (b, l_out).
Proof. unfold l_out. apply (succeeded (CommitLogChunk agent out_done)). vm_compute. reflexivity. Qed.
Lemma l_err_run : ∃ b, CommitLogChunk agent err_done (at_ (now + 3)) l_out = Ok (b, l_err).
Proof. unfold l_err. apply (succeeded (CommitLogChunk agent err_done)). vm_compute. reflexivity. Qed.
Lemma l_running_run : RecordExecutionEvent agent started (at_ (now + 4)) l_err = Ok (false, l_running).
Proof. unfold l_running. apply fresh_event. vm_compute. reflexivity. Qed.
Lemma l_done_run : RecordExecutionEvent agent completed (at_ (now + 5)) l_running = Ok (false, l_done).
Proof. unfold l_done. apply fresh_event. vm_compute. reflexivity. Qed.

Lemma l_running_reachable : log_reachable l_running.
Proof.
  apply l_reachable. destruct l_out_run as [b1 H1], l_err_run as [b2 H2].
  destruct calls_keep_logs as (_ & _ & _ & _ & _ & _ & _ & K7 & _).
  eapply rtc_l; [exact (log_commit _ _ _ _ _ _ H1)|]. eapply rtc_l; [exact (log_commit _ _ _ _ _ _ H2)|].
  eapply rtc_once, (log_step_call _ _ _ _ _ (step_RecordExecutionEvent _ _ _ _ _ _) (K7 _ _) l_running_run).
Qed.

Lemma l_running_execution : ∃ x tg, d_executions l_running !! uuid 4 = Some x ∧
  d_generations l_running !! e_target_generation_id x = Some tg ∧ is_Some (gen_log_store_name tg).
Proof.
  assert ((x ← d_executions l_running !! uuid 4; tg ← d_generations l_running !! e_target_generation_id x; gen_log_store_name tg) = Some "logs")
    as H by (vm_compute; reflexivity).
  apply bind_Some in H as (x & Hx & H). apply bind_Some in H as (tg & Htg & H). exists x, tg. exact (conj Hx (conj Htg (ex_intro _ _ H))).
Qed.

Lemma completion_has_full_logs_witness : RecordExecutionEvent agent completed (at_ (now + 5)) l_running = Ok (false, l_done) ∧
  ∃ s l, d_log_streams l_running !! (uuid 4, "stdout") = Some s ∧ exposes (chunks_at l_running (uuid 4, "stdout")) s l ∧
    from_option ch_complete false (last l) = true.
Proof.
  split; [exact l_done_run|]. destruct l_running_execution as (x & tg & Hx & Htg & Hs).
  exact (completion_has_full_logs agent completed (at_ (now + 5)) l_running l_done x tg l_running_reachable l_done_run
    ltac:(vm_compute; reflexivity) Hx Htg Hs "stdout" (or_introl eq_refl)).
Defined.
